(** * NativeScript CLI: incremental rebuild and live-sync engine

    A shallow embedding of the TypeScript sources

    - [lib/services/project-changes-info.ts]  ([ProjectChangesInfo], [Project],
      [Project.Source], [Project.Target], [utils.path.basedirs]),
    - [lib/build/project.ts]                   (the earlier copy of [Project]),
    - [lib/services/livesync/platform-livesync-service-base.ts]
      ([PlatformLiveSyncServiceBase], [IOSLiveSyncService]),

    together with the properties the specification states about them.

    Conventions.
    - JavaScript strings are [string]; a character is one code unit.
    - [IFuture] values are awaited where the source writes [.wait()]; a call
      whose future is dropped is started, and nothing of it has been
      carried out when the caller goes on.
    - A JavaScript object used as a dictionary is an insertion-ordered
      association list ([JsObj]); [Object.keys] and [for .. in] follow it.
    - The file system is a finite tree ([node]); paths are resolved from an
      absolute root. *)

From Stdlib Require Import ZArith Ascii String Bool Lia.
From stdpp Require Import base tactics option list sets strings sorting gmap.

Local Open Scope Z_scope.
Local Open Scope stdpp_scope.

(** ** JavaScript string primitives used by the sources *)

Module Js.

Definition slash : ascii := "/"%char.

(** [s.length] *)
Definition strlen (s : string) : nat := String.length s.

(** [_.startsWith(s, p)] *)
Definition startsWith (s p : string) : bool := String.prefix p s.

(** [s.substr(n)] *)
Definition substr (n : nat) (s : string) : string :=
  String.substring n (String.length s - n) s.

(** [s.slice(0, n)] *)
Definition slice0 (n : nat) (s : string) : string := String.substring 0 n s.

(** [_.endsWith(s, p)] *)
Definition endsWith (s p : string) : bool :=
  (String.length p <=? String.length s)%nat
  && String.eqb (substr (String.length s - String.length p) s) p.

(** [s.indexOf(p)], [None] standing for [-1] *)
Definition indexOf (s p : string) : option nat := String.index 0 p s.

(** [s.indexOf(p) >= 0] *)
Definition includes (s p : string) : bool :=
  match indexOf s p with Some _ => true | None => false end.

(** [s.replace(pat, rep)] with a string pattern: only the first occurrence
    of [pat] is replaced. *)
Definition replace (s pat rep : string) : string :=
  match indexOf s pat with
  | None => s
  | Some i => slice0 i s +:+ rep +:+ substr (i + String.length pat) s
  end.

(** [s.split(c)] for a one-character separator. *)
Fixpoint split (c : ascii) (s : string) : list string :=
  match s with
  | EmptyString => [EmptyString]
  | String a s' =>
      if Ascii.eqb a c then EmptyString :: split c s'
      else match split c s' with
           | [] => [String a EmptyString]
           | w :: ws => String a w :: ws
           end
  end.

Definition lower_char (a : ascii) : ascii :=
  let n := nat_of_ascii a in
  if (65 <=? n)%nat && (n <=? 90)%nat then ascii_of_nat (n + 32) else a.

(** [s.toLowerCase()], on the ASCII letters. *)
Fixpoint toLowerCase (s : string) : string :=
  match s with
  | EmptyString => EmptyString
  | String a s' => String (lower_char a) (toLowerCase s')
  end.

(** The order of the default [Array.prototype.sort]: strings compared
    code unit by code unit, a proper prefix first. *)
Definition le (a b : string) : Prop := String.leb a b = true.

#[global] Instance le_dec : RelDecision le.
Proof. intros a b. unfold le. apply _. Defined.

(** [xs.sort()] *)
Definition sort (xs : list string) : list string := merge_sort le xs.

(** [xs.join(sep)] *)
Definition joinWith (sep : string) (xs : list string) : string :=
  String.concat sep xs.

End Js.

(** ** Node's [path] module, POSIX flavour ([sep = "/"]) *)

Module Path.

Definition sep : string := "/".

(** [normalizeStringPosix]: drop empty and ["."] segments, let [".."] pop
    the last kept segment (or stay, above the root of a relative path). *)
Fixpoint normalizeSegments (allowAboveRoot : bool) (acc : list string)
    (segs : list string) : list string :=
  match segs with
  | [] => rev acc
  | s :: rest =>
      if String.eqb s "" || String.eqb s "." then
        normalizeSegments allowAboveRoot acc rest
      else if String.eqb s ".." then
        match acc with
        | top :: acc' =>
            if String.eqb top ".." then
              normalizeSegments allowAboveRoot (s :: acc) rest
            else normalizeSegments allowAboveRoot acc' rest
        | [] =>
            if allowAboveRoot then
              normalizeSegments allowAboveRoot (s :: acc) rest
            else normalizeSegments allowAboveRoot acc rest
        end
      else normalizeSegments allowAboveRoot (s :: acc) rest
  end.

Definition isAbsolute (p : string) : bool := Js.startsWith p "/".

(** [path.normalize] *)
Definition normalize (p : string) : string :=
  if String.eqb p "" then "."
  else
    let isAbs := isAbsolute p in
    let trailing := Js.endsWith p "/" in
    let body :=
      Js.joinWith "/" (normalizeSegments (negb isAbs) [] (Js.split Js.slash p)) in
    let body := if String.eqb body "" && negb isAbs then "." else body in
    let body := if negb (String.eqb body "") && trailing then body +:+ "/" else body in
    if isAbs then "/" +:+ body else body.

(** [path.join(a, b, ...)] *)
Definition joinl (parts : list string) : string :=
  let parts := filter (fun s => s ≠ "") parts in
  match parts with
  | [] => "."
  | _ => normalize (Js.joinWith "/" parts)
  end.

Definition join (a b : string) : string := joinl [a; b].
Definition join3 (a b c : string) : string := joinl [a; b; c].

Fixpoint has_nonslash (s : string) : bool :=
  match s with
  | EmptyString => false
  | String a s' => negb (Ascii.eqb a Js.slash) || has_nonslash s'
  end.

(** The index [end] computed by the backward scan of [path.dirname]: the
    last separator at an index [>= 1] that is followed by some character
    other than a separator. *)
Fixpoint dirname_end (i : nat) (s : string) : option nat :=
  match s with
  | EmptyString => None
  | String a s' =>
      match dirname_end (S i) s' with
      | Some e => Some e
      | None =>
          if Ascii.eqb a Js.slash && (1 <=? i)%nat && has_nonslash s'
          then Some i else None
      end
  end.

(** [path.dirname] *)
Definition dirname (p : string) : string :=
  if String.eqb p "" then "."
  else
    let hasRoot := isAbsolute p in
    match dirname_end 0 p with
    | None => if hasRoot then "/" else "."
    | Some e => if hasRoot && (e =? 1)%nat then "//" else Js.slice0 e p
    end.

(** [path.basename(p)]: the last non-empty segment. *)
Definition basename (p : string) : string :=
  default "" (last (filter (fun s => s ≠ "") (Js.split Js.slash p))).

Fixpoint last_dot (i : nat) (s : string) : option nat :=
  match s with
  | EmptyString => None
  | String a s' =>
      match last_dot (S i) s' with
      | Some j => Some j
      | None => if Ascii.eqb a "."%char then Some i else None
      end
  end.

(** [path.extname] *)
Definition extname (p : string) : string :=
  let b := basename p in
  match last_dot 0 b with
  | None => ""
  | Some O => ""
  | Some i => if String.eqb b ".." then "" else Js.substr i b
  end.

End Path.

(** ** Results of effectful code

    [Done a]: the call returned [a]; [Threw]: it raised an exception;
    [Fuel]: the recursion or loop did not finish within the given number of
    steps (a function that yields [Fuel] for every bound does not return). *)

Inductive result (A : Type) : Type :=
  | Done (a : A)
  | Threw
  | Fuel.
Arguments Done {A} a.
Arguments Threw {A}.
Arguments Fuel {A}.

#[global] Instance result_ret : MRet result := fun A a => Done a.
#[global] Instance result_bind : MBind result := fun A B f m =>
  match m with
  | Done a => f a
  | Threw => Threw
  | Fuel => Fuel
  end.

(** Did the call return a value? *)
Definition returned {A} (r : result A) : bool :=
  match r with Done _ => true | _ => false end.

Definition of_option {A} (o : option A) : result A :=
  match o with Some a => Done a | None => Threw end.

(** ** Data on disk *)

(** The [nativescript] block of a package manifest. *)
Record INativescript := mkNativescript {
  ns_id : option string;
  ns_platforms : option (list (string * string))
}.

(** [Project.Package.IJson]: the part of [package.json] the code reads.
    [dependencies] keeps the key order of the file. *)
Record IJson := mkJson {
  json_name : option string;
  json_version : option string;
  json_dependencies : list (string * string);
  json_nativescript : option INativescript
}.

(** [IPrepareInfo] *)
Record IPrepareInfo := mkPrepareInfo {
  time : string;
  bundle : bool;
  release : bool
}.

(** What a regular file holds, as far as the code parses it. *)
Inductive content :=
  | CManifest (j : IJson)
  | CPrepareInfo (p : IPrepareInfo)
  | CText (t : string).

(** [fs.Stats]: [st_mtime] is what [getFsStats] (stat) reports,
    [st_lmtime] what [getLsStats] (lstat) reports; milliseconds. *)
Record Stats := mkStats { st_mtime : Z; st_lmtime : Z }.

#[local] Unset Elimination Schemes.
Inductive node :=
  | NFile (st : Stats) (c : content)
  | NDir (st : Stats) (entries : list (string * node)).
#[local] Set Elimination Schemes.

(** Structural induction on the tree: the entries of a directory satisfy
    the property before the directory does. *)
Fixpoint node_ind (P : node → Prop)
    (Hfile : ∀ st c, P (NFile st c))
    (Hdir : ∀ st es, Forall (fun e => P e.2) es → P (NDir st es))
    (n : node) : P n :=
  match n with
  | NFile st c => Hfile st c
  | NDir st es =>
      Hdir st es
        ((fix go (es : list (string * node)) : Forall (fun e => P e.2) es :=
            match es with
            | [] => List.Forall_nil _
            | e :: es' => List.Forall_cons _ e es' (node_ind P Hfile Hdir e.2) (go es')
            end) es)
  end.

Definition node_stats (n : node) : Stats :=
  match n with NFile st _ => st | NDir st _ => st end.

Definition isDirectory (n : node) : bool :=
  match n with NDir _ _ => true | NFile _ _ => false end.

Definition isFile (n : node) : bool :=
  match n with NFile _ _ => true | NDir _ _ => false end.

(** [IFileSystem]: the tree under the absolute root, the working directory
    relative paths are resolved against, and the wall clock. *)
Record IFileSystem := mkFs {
  fs_root : node;
  fs_cwd : string;
  fs_now : Z
}.

Module Fs.

Fixpoint find_entry (name : string) (es : list (string * node)) : option node :=
  match es with
  | [] => None
  | (k, n) :: es' => if String.eqb k name then Some n else find_entry name es'
  end.

Fixpoint lookup (segs : list string) (n : node) : option node :=
  match segs with
  | [] => Some n
  | s :: rest =>
      match n with
      | NDir _ es =>
          match find_entry s es with
          | Some c => lookup rest c
          | None => None
          end
      | NFile _ _ => None
      end
  end.

(** [path.resolve]: the segments of the absolute form of [p]. *)
Definition resolve (fs : IFileSystem) (p : string) : list string :=
  if Path.isAbsolute p then
    Path.normalizeSegments false [] (Js.split Js.slash p)
  else
    Path.normalizeSegments false []
      (Js.split Js.slash (fs_cwd fs) ++ Js.split Js.slash p).

Definition stat (fs : IFileSystem) (p : string) : option node :=
  lookup (resolve fs p) (fs_root fs).

(** [fs.exists(p).wait()] *)
Definition exists_ (fs : IFileSystem) (p : string) : bool :=
  match stat fs p with Some _ => true | None => false end.

(** [fs.getFsStats(p).wait()]; raises when [p] is absent. *)
Definition getFsStats (fs : IFileSystem) (p : string) : result node :=
  of_option (stat fs p).

(** [fs.readDirectory(p).wait()]; raises unless [p] is a directory. *)
Definition readDirectory (fs : IFileSystem) (p : string) : result (list string) :=
  match stat fs p with
  | Some (NDir _ es) => Done (map fst es)
  | _ => Threw
  end.

(** [fs.readJson(p).wait()] and [JSON.parse(fs.readText(p).wait())];
    raises on an absent file and on text that is not JSON. *)
Definition readJson (fs : IFileSystem) (p : string) : result content :=
  match stat fs p with
  | Some (NFile _ (CText _)) => Threw
  | Some (NFile _ c) => Done c
  | _ => Threw
  end.

(** [path.relative(from, to)] on resolved paths. *)
Fixpoint strip_common (a b : list string) : list string * list string :=
  match a, b with
  | x :: a', y :: b' => if String.eqb x y then strip_common a' b' else (a, b)
  | _, _ => (a, b)
  end.

Definition relative (fs : IFileSystem) (from to : string) : string :=
  let '(up, down) := strip_common (resolve fs from) (resolve fs to) in
  Js.joinWith "/" (map (fun _ => "..") up ++ down).

(** Replace the entry [name], in place when it exists, else at the end. *)
Fixpoint set_entry (name : string) (n : node) (es : list (string * node))
    : list (string * node) :=
  match es with
  | [] => [(name, n)]
  | (k, c) :: es' =>
      if String.eqb k name then (k, n) :: es' else (k, c) :: set_entry name n es'
  end.

Fixpoint remove_entry (name : string) (es : list (string * node))
    : list (string * node) :=
  match es with
  | [] => []
  | (k, c) :: es' =>
      if String.eqb k name then remove_entry name es'
      else (k, c) :: remove_entry name es'
  end.

(** Change the entry at [segs]: [f] receives the current entry of the
    parent directory (if any) and answers with the new one ([None] removes
    it).  Raises when a directory on the way is absent or is a file. *)
Fixpoint modify (segs : list string) (f : option node → result (option node))
    (n : node) : result node :=
  match segs with
  | [] => Threw
  | s :: rest =>
      match n with
      | NFile _ _ => Threw
      | NDir st es =>
          match rest with
          | [] =>
              r ← f (find_entry s es);
              Done (NDir st
                      match r with
                      | Some c => set_entry s c es
                      | None => remove_entry s es
                      end)
          | _ :: _ =>
              match find_entry s es with
              | Some c => c' ← modify rest f c; Done (NDir st (set_entry s c' es))
              | None => Threw
              end
          end
      end
  end.

Definition modify_fs (fs : IFileSystem) (p : string)
    (f : option node → result (option node)) : result IFileSystem :=
  root ← modify (resolve fs p) f (fs_root fs);
  Done (mkFs root (fs_cwd fs) (fs_now fs)).

Definition fresh (fs : IFileSystem) : Stats := mkStats (fs_now fs) (fs_now fs).

(** [fs.writeFile(p, text).wait()] and [fs.writeJson(p, data).wait()]: the
    parent must be a directory and [p] must not be one. *)
Definition writeFile (fs : IFileSystem) (p : string) (c : content)
    : result IFileSystem :=
  modify_fs fs p (fun old =>
    match old with
    | Some (NDir _ _) => Threw
    | _ => Done (Some (NFile (fresh fs) c))
    end).

(** Modelled from the spec: the [FileStore] operations "create
    directory", "copy", "delete file" and "delete directory", whose
    implementation ([$fs]) is not part of the sources.  Following the
    apply order of section 4.3 (parents exist before children are
    created, directories are deleted after their contents), a directory
    is created inside an existing parent and deleted only when empty. *)

(** [fs.createDirectory(p).wait()]: nothing to do for a directory that
    exists; raises when [p] is a file or the parent is not a directory. *)
Definition createDirectory (fs : IFileSystem) (p : string)
    : result IFileSystem :=
  modify_fs fs p (fun old =>
    match old with
    | Some (NDir st es) => Done (Some (NDir st es))
    | Some (NFile _ _) => Threw
    | None => Done (Some (NDir (fresh fs) []))
    end).

(** [fs.copyFile(from, to).wait()]: [from] must be a regular file, the
    parent of [to] a directory and [to] not a directory; the copy is
    stamped with the current time. *)
Definition copyFile (fs : IFileSystem) (from to : string)
    : result IFileSystem :=
  match stat fs from with
  | Some (NFile _ c) =>
      modify_fs fs to (fun old =>
        match old with
        | Some (NDir _ _) => Threw
        | _ => Done (Some (NFile (fresh fs) c))
        end)
  | _ => Threw
  end.

(** What a call leaves behind when its future is dropped: the new state
    if the operation succeeded, the old one if it failed. *)
Definition unawaited (fs : IFileSystem) (r : result IFileSystem) : IFileSystem :=
  match r with Done fs' => fs' | _ => fs end.

(** [fs.deleteFile(p)]: removes a regular file. *)
Definition deleteFile (fs : IFileSystem) (p : string) : result IFileSystem :=
  modify_fs fs p (fun old =>
    match old with
    | Some (NFile _ _) => Done None
    | _ => Threw
    end).

(** [fs.deleteDirectory(p)]: removes an empty directory. *)
Definition deleteDirectory (fs : IFileSystem) (p : string)
    : result IFileSystem :=
  modify_fs fs p (fun old =>
    match old with
    | Some (NDir _ []) => Done None
    | _ => Threw
    end).

End Fs.

(** [json["nativescript"]] as a condition. *)
Definition has_nativescript (c : content) : bool :=
  match c with
  | CManifest j => match json_nativescript j with Some _ => true | None => false end
  | _ => false
  end.

(** ** [ProjectChangesInfo]: the static predicates *)

Module ChangeClassifier.

(** The [while (filePath !== "node_modules")] loop of
    [fileChangeRequiresBuild]; [Done false] is the fall-through to the
    final [return false]. *)
Fixpoint upwardWalk (fuel : nat) (file projectDir : string) (fs : IFileSystem)
    (filePath : string) : result bool :=
  if String.eqb filePath "node_modules" then Done false
  else
    match fuel with
    | O => Fuel
    | S fuel' =>
        let filePath := Path.dirname filePath in
        let fullFilePath :=
          Path.join projectDir (Path.join filePath "package.json") in
        if Fs.exists_ fs fullFilePath then
          json ← Fs.readJson fs fullFilePath;
          if has_nativescript json
             && Js.startsWith file (Path.join filePath "platforms")
          then Done true
          else upwardWalk fuel' file projectDir fs filePath
        else upwardWalk fuel' file projectDir fs filePath
    end.

(** [ProjectChangesInfo.fileChangeRequiresBuild(file, projectDir, fs)] *)
Definition fileChangeRequiresBuild (fuel : nat) (file projectDir : string)
    (fs : IFileSystem) : result bool :=
  if String.eqb (Path.basename file) "package.json" then Done true
  else if Js.startsWith file "node_modules" then
    if negb (Js.startsWith file (Path.join "node_modules" "tns-core-modules"))
    then upwardWalk fuel file projectDir fs file
    else Done false
  else Done false.

(** A path that starts with the characters [node_modules] without having
    [node_modules] as its first segment. *)
Definition stray_file : string := "node_modules_old/x.js".

End ChangeClassifier.

(** ** [ProjectChangesInfo]: the constructor *)

Record IOptions := mkOptions {
  opt_bundle : bool;
  opt_release : bool;
  opt_baseConfig : option string;
  opt_liveEdit : bool;
  opt_syncAllFiles : bool;
  opt_device : option string
}.

Record IPlatformData := mkPlatformData {
  projectRoot : string;
  normalizedPlatformName : string;
  configurationFileName : string;
  deviceBuildOutputPath : string;
  emulatorBuildOutputPath : string
}.

Record IProjectData := mkProjectData {
  projectDir : string;
  projectName : string;
  appDirectoryPath : string;
  appResourcesDirectoryPath : string
}.

(** [Mobile.IDevicePlatformsConstants] *)
Record IDevicePlatformsConstants := mkConstants {
  const_iOS : string;
  const_Android : string
}.

Module ProjectChangesInfo.

Definition prepareInfoFileName : string := ".nsprepareinfo".

(** The public fields of a [ProjectChangesInfo], and [newFiles]. *)
Record t := mk {
  appFilesChanged : bool;
  appResourcesChanged : bool;
  modulesChanged : bool;
  configChanged : bool;
  prepareInfo : IPrepareInfo;
  packageChanged : bool;
  nativeChanged : bool;
  newFiles : nat
}.

(** [get hasChanges()] *)
Definition hasChanges (this : t) : bool :=
  packageChanged this || appFilesChanged this || appResourcesChanged this
  || modulesChanged this || configChanged this.

(** [get changesRequireBuild()] *)
Definition changesRequireBuild (this : t) : bool :=
  packageChanged this || appResourcesChanged this || nativeChanged this.

(** [filesChanged(files, mtime)] *)
Fixpoint filesChanged (fs : IFileSystem) (files : list string) (mtime : Z)
    : bool :=
  match files with
  | [] => false
  | file :: rest =>
      match Fs.stat fs file with
      | Some fileStats =>
          if st_mtime (node_stats fileStats) >? mtime then true
          else filesChanged fs rest mtime
      | None => filesChanged fs rest mtime
      end
  end.

Section ContainsNewerFiles.

Variables (fs : IFileSystem) (projectDir : string).
Variables (skipDir : option string) (mtime : Z).
Variable processFunc : option (string → string → IFileSystem → result bool).

(** One pass of the [for (let file of files)] loop of
    [containsNewerFiles]; [recurse] is the recursive call on a
    sub-directory.  The entries of a directory are the nodes [getFsStats]
    and [getLsStats] report for the joined paths; the second component
    of the result is the value of [this.newFiles] afterwards. *)
Definition entriesLoop (recurse : node → string → nat → result (bool * nat))
    (dir : string) : list (string * node) → nat → result (bool * nat) :=
  fix loop (files : list (string * node)) (newFiles : nat) :=
    match files with
    | [] => Done (false, newFiles)
    | (file, fileNode) :: rest =>
        let filePath := Path.join dir file in
        if bool_decide (Some filePath = skipDir) then loop rest newFiles
        else
          let fileStats := node_stats fileNode in
          let changed :=
            (st_mtime fileStats >? mtime) || (st_lmtime fileStats >? mtime) in
          let descend (newFiles : nat) :=
            if isDirectory fileNode then
              '(found, newFiles) ← recurse fileNode filePath newFiles;
              if found : bool then Done (true, newFiles)
              else loop rest newFiles
            else loop rest newFiles in
          if changed then
            match processFunc with
            | Some process =>
                let newFiles := S newFiles in
                let filePathRelative := Fs.relative fs projectDir filePath in
                b ← process filePathRelative projectDir fs;
                if b : bool then Done (true, newFiles)
                else descend newFiles
            | None => Done (true, newFiles)
            end
          else descend newFiles
    end.

(** [containsNewerFiles(dir, skipDir, mtime, processFunc)], where [n] is
    the node found at [dir]. *)
Fixpoint containsNewerFiles (n : node) (dir : string) (newFiles : nat)
    {struct n} : result (bool * nat) :=
  match n with
  | NFile _ _ => Threw
  | NDir _ files => entriesLoop containsNewerFiles dir files newFiles
  end.

End ContainsNewerFiles.

(** [this.containsNewerFiles(dir, ...)] from the constructor:
    [readDirectory(dir)] raises when [dir] is not a directory. *)
Definition containsNewerFilesAt (fs : IFileSystem) (projectDir : string)
    (dir : string) (skipDir : option string) (mtime : Z)
    (processFunc : option (string → string → IFileSystem → result bool))
    (newFiles : nat) : result (bool * nat) :=
  match Fs.stat fs dir with
  | Some n => containsNewerFiles fs projectDir skipDir mtime processFunc n dir newFiles
  | None => Threw
  end.

(** What a call of [containsNewerFiles] that started with
    [newFiles = k0] leaves in the counter: it never decreases, and a
    positive answer obtained through [processFunc] has incremented it. *)
Definition counted
    (processFunc : option (string → string → IFileSystem → result bool))
    (k0 : nat) (r : result (bool * nat)) : Prop :=
  ∀ b k, r = Done (b, k) →
    (k0 ≤ k)%nat ∧ (b = true → is_Some processFunc → (k0 < k)%nat).

(** What [readJson(buildInfoFile)] yields as [this.prepareInfo]: for JSON
    that is not a prepare-info record the fields read as [undefined]. *)
Definition as_prepareInfo (c : content) : option IPrepareInfo :=
  match c with CPrepareInfo p => Some p | _ => None end.

(** [new ProjectChangesInfo(platform, force, skipModulesAndResources, ...)].
    Returns the object, the record handed to [writeJson] (if any) and the
    file system afterwards.  [dateString] renders [new Date().toString()];
    [fuel] bounds the loop of [fileChangeRequiresBuild]. *)
Definition create (dateString : Z → string) (fuel : nat)
    (platform : string) (force skipModulesAndResources : bool)
    (getPlatformData : string → IPlatformData)
    (projectData : IProjectData)
    (devicePlatformsConstants : IDevicePlatformsConstants)
    (options : IOptions) (fs : IFileSystem)
    : result (t * option IPrepareInfo * IFileSystem) :=
  let platformData := getPlatformData platform in
  let buildInfoFile := Path.join (projectRoot platformData) prepareInfoFileName in
  this ←
    (if force || negb (Fs.exists_ fs buildInfoFile) then
       Done (mk true true true true
                (mkPrepareInfo "" (opt_bundle options) (opt_release options))
                false false 0)
     else
       buildInfoStats ← Fs.getFsStats fs buildInfoFile;
       let outputProjectMtime := st_mtime (node_stats buildInfoStats) in
       stored ← Fs.readJson fs buildInfoFile;
       '(appFilesChanged, newFiles) ←
         containsNewerFilesAt fs (projectDir projectData)
           (appDirectoryPath projectData)
           (Some (appResourcesDirectoryPath projectData))
           outputProjectMtime None 0;
       '(packageChanged, appResourcesChanged, nativeChanged,
         modulesChanged, configChanged, newFiles) ←
         (if negb skipModulesAndResources then
            let packageChanged :=
              filesChanged fs [Path.join (projectDir projectData) "package.json"]
                outputProjectMtime in
            '(appResourcesChanged, newFiles) ←
              containsNewerFilesAt fs (projectDir projectData)
                (appResourcesDirectoryPath projectData) None
                outputProjectMtime None newFiles;
            '(nativeChanged, newFiles) ←
              containsNewerFilesAt fs (projectDir projectData)
                (Path.join (projectDir projectData) "node_modules")
                (Some (Path.join3 (projectDir projectData) "node_modules"
                         "tns-ios-inspector"))
                outputProjectMtime
                (Some (ChangeClassifier.fileChangeRequiresBuild fuel)) newFiles;
            let modulesChanged := bool_decide (0 < newFiles)%nat in
            let platformResourcesDir :=
              Path.join (appResourcesDirectoryPath projectData)
                (normalizedPlatformName platformData) in
            let configChanged :=
              if String.eqb platform
                   (Js.toLowerCase (const_iOS devicePlatformsConstants))
              then
                filesChanged fs
                  [ match opt_baseConfig options with
                    | Some baseConfig => baseConfig
                    | None => Path.join platformResourcesDir
                                (configurationFileName platformData)
                    end;
                    Path.join platformResourcesDir "LaunchScreen.storyboard";
                    Path.join platformResourcesDir "build.xcconfig" ]
                  outputProjectMtime
              else
                filesChanged fs
                  [ Path.join platformResourcesDir
                      (configurationFileName platformData);
                    Path.join platformResourcesDir "app.gradle" ]
                  outputProjectMtime in
            Done (packageChanged, appResourcesChanged, nativeChanged,
                  modulesChanged, configChanged, newFiles)
          else Done (false, false, false, false, false, newFiles)
          : result (bool * bool * bool * bool * bool * nat));
       let differs :=
         match as_prepareInfo stored with
         | Some p =>
             negb (Bool.eqb (opt_bundle options) (bundle p))
             || negb (Bool.eqb (opt_release options) (release p))
         | None => true
         end in
       let storedTime :=
         match as_prepareInfo stored with Some p => time p | None => "" end in
       let storedBundle :=
         match as_prepareInfo stored with Some p => bundle p | None => false end in
       let storedRelease :=
         match as_prepareInfo stored with Some p => release p | None => false end in
       let appFilesChanged := if differs then true else appFilesChanged in
       let appResourcesChanged := if differs then true else appResourcesChanged in
       let modulesChanged := if differs then true else modulesChanged in
       let configChanged := if differs then true else configChanged in
       let prepareInfo :=
         if differs then
           mkPrepareInfo storedTime (opt_bundle options) (opt_release options)
         else mkPrepareInfo storedTime storedBundle storedRelease in
       let modulesChanged := if packageChanged : bool then true else modulesChanged in
       let configChanged :=
         if modulesChanged || appResourcesChanged then true else configChanged in
       Done (mk appFilesChanged appResourcesChanged modulesChanged configChanged
                prepareInfo packageChanged nativeChanged newFiles));
  if hasChanges this then
    let prepareInfo :=
      mkPrepareInfo (dateString (fs_now fs)) (bundle (prepareInfo this))
        (release (prepareInfo this)) in
    let this :=
      mk (appFilesChanged this) (appResourcesChanged this) (modulesChanged this)
         (configChanged this) prepareInfo (packageChanged this)
         (nativeChanged this) (newFiles this) in
    fs' ← Fs.writeFile fs buildInfoFile (CPrepareInfo prepareInfo);
    Done (this, Some prepareInfo, fs')
  else Done (this, None, fs).

(** [ProjectChangesInfo.getLatestPrepareInfo(platformData, fs)];
    [Done None] is the [null] result. *)
Definition getLatestPrepareInfo (platformData : IPlatformData)
    (fs : IFileSystem) : result (option IPrepareInfo) :=
  let prepareInfoFile := Path.join (projectRoot platformData) prepareInfoFileName in
  if Fs.exists_ fs prepareInfoFile then
    c ← Fs.readJson fs prepareInfoFile;
    Done (as_prepareInfo c)
  else Done None.

End ProjectChangesInfo.

(** ** JavaScript objects used as dictionaries

    Keys are kept in insertion order, which is the order of [Object.keys]
    and [for .. in] for keys that are not array indices.  Only the keys
    an object has of its own are modelled: [k in o] is taken to be false
    for the names every object inherits ([constructor], [toString],
    ...). *)

Module JsObj.

Definition t (V : Type) : Type := list (string * V).

Definition empty {V} : t V := [].

(** [o[k]] *)
Fixpoint get {V} (k : string) (o : t V) : option V :=
  match o with
  | [] => None
  | (k', v) :: o' => if String.eqb k' k then Some v else get k o'
  end.

(** [k in o] *)
Definition has {V} (k : string) (o : t V) : bool :=
  match get k o with Some _ => true | None => false end.

(** [o[k] = v] *)
Fixpoint set {V} (k : string) (v : V) (o : t V) : t V :=
  match o with
  | [] => [(k, v)]
  | (k', v') :: o' =>
      if String.eqb k' k then (k', v) :: o' else (k', v') :: set k v o'
  end.

(** [delete o[k]] *)
Fixpoint delete {V} (k : string) (o : t V) : t V :=
  match o with
  | [] => []
  | (k', v') :: o' =>
      if String.eqb k' k then o' else (k', v') :: delete k o'
  end.

(** [Object.keys(o)] *)
Definition keys {V} (o : t V) : list string := map fst o.

End JsObj.

(** [xs.forEach(x => ...)] over an effectful body. *)
Fixpoint forEach {A S} (body : A → S → result S) (xs : list A) (s : S)
    : result S :=
  match xs with
  | [] => Done s
  | x :: xs' => s' ← body x s; forEach body xs' s'
  end.

(** ** [Project]: packages and files *)

Module PackageType.
(** [Project.Package.Type] *)
Inductive t := App | Package | Nested.
#[global] Instance eq_dec : EqDecision t.
Proof. solve_decision. Defined.
End PackageType.

Module Availability.
(** [Project.Package.Availability] *)
Inductive t := Available | NotInstalled | ShadowedByAncestor | ShadowedByDiverged.
#[global] Instance eq_dec : EqDecision t.
Proof. solve_decision. Defined.
End Availability.

Module IFile.
(** [Project.Source.IFile] *)
Record t := mk {
  path : string;
  absolutePath : string;
  name : string;
  extension : string;
  mtime : Z
}.
End IFile.

Module IPackage.
(** [Project.IPackage].  Packages are objects shared between the tree
    ([children]) and the flattened table ([dependencies]); they live in a
    heap and are referred to by their address.  [resolvedAt...] are
    dictionaries used as sets ([None] is [null]). *)
Record t := mk {
  type : PackageType.t;
  name : string;
  path : string;
  packageJson : option IJson;
  version : option string;
  requiredVersion : option string;
  resolvedAtParent : option (list string);
  resolvedAtGrandparent : option (list string);
  children : list nat;
  directories : list string;
  availability : Availability.t;
  scriptFiles : list IFile.t;
  nativeFiles : JsObj.t (list IFile.t)
}.

Definition with_availability (a : Availability.t) (p : t) : t :=
  mk (type p) (name p) (path p) (packageJson p) (version p)
     (requiredVersion p) (resolvedAtParent p) (resolvedAtGrandparent p)
     (children p) (directories p) a (scriptFiles p) (nativeFiles p).

Definition with_packageJson (j : IJson) (p : t) : t :=
  mk (type p) (name p) (path p) (Some j) (json_version j)
     (requiredVersion p) (resolvedAtParent p) (resolvedAtGrandparent p)
     (children p) (directories p) (availability p) (scriptFiles p)
     (nativeFiles p).

Definition with_name (n : string) (p : t) : t :=
  mk (type p) n (path p) (packageJson p) (version p)
     (requiredVersion p) (resolvedAtParent p) (resolvedAtGrandparent p)
     (children p) (directories p) (availability p) (scriptFiles p)
     (nativeFiles p).

Definition push_child (c : nat) (p : t) : t :=
  mk (type p) (name p) (path p) (packageJson p) (version p)
     (requiredVersion p) (resolvedAtParent p) (resolvedAtGrandparent p)
     (children p ++ [c]) (directories p) (availability p) (scriptFiles p)
     (nativeFiles p).

Definition push_directory (d : string) (p : t) : t :=
  mk (type p) (name p) (path p) (packageJson p) (version p)
     (requiredVersion p) (resolvedAtParent p) (resolvedAtGrandparent p)
     (children p) (directories p ++ [d]) (availability p) (scriptFiles p)
     (nativeFiles p).

Definition push_scriptFile (f : IFile.t) (p : t) : t :=
  mk (type p) (name p) (path p) (packageJson p) (version p)
     (requiredVersion p) (resolvedAtParent p) (resolvedAtGrandparent p)
     (children p) (directories p) (availability p) (scriptFiles p ++ [f])
     (nativeFiles p).

Definition with_nativeFiles (nf : JsObj.t (list IFile.t)) (p : t) : t :=
  mk (type p) (name p) (path p) (packageJson p) (version p)
     (requiredVersion p) (resolvedAtParent p) (resolvedAtGrandparent p)
     (children p) (directories p) (availability p) (scriptFiles p) nf.

(** [pack.nativeFiles[platform].push(f)]; raises when the list is absent. *)
Definition push_nativeFile (platform : string) (f : IFile.t) (p : t)
    : result t :=
  match JsObj.get platform (nativeFiles p) with
  | Some fs => Done (with_nativeFiles (JsObj.set platform (fs ++ [f]) (nativeFiles p)) p)
  | None => Threw
  end.
End IPackage.

(** What [JSON.parse] of a manifest gives: a JSON document of another
    shape has none of the fields. *)
Definition manifest_of (c : content) : IJson :=
  match c with
  | CManifest j => j
  | _ => mkJson None None [] None
  end.

(** A non-empty string is truthy. *)
Definition truthy_string (s : option string) : bool :=
  match s with Some s => negb (String.eqb s "") | None => false end.

Module Source.

(** [Project.Source]: [app] is the address of the root package, [heap]
    holds every package object created so far. *)
Record t := mk {
  app : nat;
  heap : list IPackage.t;
  dependencies : JsObj.t nat;
  platforms : list string
}.

Definition deref (this : t) (pack : nat) : result IPackage.t :=
  of_option (heap this !! pack).

(** In-place update of the object at address [pack]. *)
Definition update (pack : nat) (f : IPackage.t → IPackage.t) (this : t) : t :=
  mk (app this) (alter f pack (heap this)) (dependencies this) (platforms this).

Definition alloc (p : IPackage.t) (this : t) : nat * t :=
  (length (heap this),
   mk (app this) (heap this ++ [p]) (dependencies this) (platforms this)).

(** [this.dependencies[name] = pack] *)
Definition register (name : string) (pack : nat) (this : t) : t :=
  mk (app this) (heap this) (JsObj.set name pack (dependencies this))
     (platforms this).

(** [name in set], for a dictionary used as a set; [in] raises on [null]. *)
Definition in_set (name : string) (s : option (list string)) : result bool :=
  match s with
  | Some keys => Done (bool_decide (name ∈ keys))
  | None => Threw
  end.

Definition set_add (name : string) (keys : list string) : list string :=
  if bool_decide (name ∈ keys) then keys else keys ++ [name].

Section WithProject.

(** [semver.gt] of the [semver] package (raises on versions that do not
    parse), the project's path and the file system. *)
Variable semver_gt : option string → option string → result bool.
Variable projectPath : string.
Variable fs : IFileSystem.

(** The conflict resolution of [selectDependencyPackages] for a package
    [pack] that is not the application: lines
    [else if (pack.name in this.dependencies) ... else ...]. *)
Definition resolveName (pack : nat) (p : IPackage.t) (j : IJson) (this : t)
    : result t :=
  match JsObj.get (IPackage.name p) (dependencies this) with
  | Some other =>
      o ← deref this other;
      let packVersion := json_version j in
      otherJson ← of_option (IPackage.packageJson o);
      let otherVersion := json_version otherJson in
      gt ← semver_gt packVersion otherVersion;
      if gt : bool then
        let this := update pack (IPackage.with_availability Availability.Available) this in
        let this := update other (IPackage.with_availability Availability.ShadowedByDiverged) this in
        Done (register (IPackage.name p) pack this)
      else
        Done (update pack (IPackage.with_availability Availability.ShadowedByDiverged) this)
  | None =>
      let this := update pack (IPackage.with_availability Availability.Available) this in
      Done (register (IPackage.name p) pack this)
  end.

(** [selectDependencyPackages(pack)]; [fuel] bounds the depth of the
    recursion. *)
Fixpoint selectDependencyPackages (fuel : nat) (pack : nat) (this : t)
    : result t :=
  match fuel with
  | O => Fuel
  | S fuel =>
      p ← deref this pack;
      let packageJsonPath :=
        Path.join3 projectPath (IPackage.path p) "package.json" in
      if negb (Fs.exists_ fs packageJsonPath) then
        Done (update pack (IPackage.with_availability Availability.NotInstalled) this)
      else
        shadowed ← in_set (IPackage.name p) (IPackage.resolvedAtGrandparent p);
        if shadowed : bool then
          Done (update pack (IPackage.with_availability Availability.ShadowedByAncestor) this)
        else
          c ← Fs.readJson fs packageJsonPath;
          let j := manifest_of c in
          let this := update pack (IPackage.with_packageJson j) this in
          this ←
            (if decide (IPackage.type p = PackageType.App) then
               match json_nativescript j with
               | Some ns =>
                   if truthy_string (ns_id ns) then
                     Done (update pack (IPackage.with_name (default "" (ns_id ns))) this)
                   else Done this
               | None => Done this
               end
             else resolveName pack p j this);
          resolvedAtParent ← of_option (IPackage.resolvedAtParent p);
          let resolved :=
            foldl (fun acc dependency => set_add dependency acc)
              resolvedAtParent (map fst (json_dependencies j)) in
          forEach
            (fun '(dependency, requiredVersion) this =>
               let dependencyPath :=
                 Path.join3 (IPackage.path p) "node_modules" dependency in
               let child :=
                 IPackage.mk PackageType.Package dependency dependencyPath
                   None None (Some requiredVersion)
                   (Some resolved) (Some resolvedAtParent)
                   [] [] Availability.NotInstalled [] JsObj.empty in
               let '(childAddr, this) := alloc child this in
               let this := update pack (IPackage.push_child childAddr) this in
               selectDependencyPackages fuel childAddr this)
            (json_dependencies j) this
  end.

(** [JSON.parse(fs.readText(dir + "/package.json"))] for a directory
    node [n]; [None] when the directory has no such entry. *)
Definition nestedManifest (n : node) : option (result IJson) :=
  match n with
  | NDir _ es =>
      match Fs.find_entry "package.json" es with
      | Some (NFile _ (CText _)) => Some Threw
      | Some (NFile _ c) => Some (Done (manifest_of c))
      | Some (NDir _ _) => Some Threw
      | None => None
      end
  | NFile _ _ => None
  end.

(** The [forEach] of [listNestedPackageFiles(pack, dir, fileScope)] over
    the entries of [dir]; [recurse] is the call on a sub-directory, and
    [packPath], [modulePackageJson], [ignorePaths], [scopePathLength] are
    the values computed before the loop. *)
Definition nestedLoop
    (recurse : node → nat → string → nat → t → result t)
    (pack : nat) (dir : string) (fileScope : nat)
    (packPath modulePackageJson : string) (ignorePaths : list string)
    (scopePathLength : nat)
    : list (string * node) → t → result t :=
  fix loop (entries : list (string * node)) (this : t) :=
    match entries with
    | [] => Done this
    | (name, child) :: rest =>
        let path := dir +:+ Path.sep +:+ name in
        if bool_decide (path ∈ ignorePaths) then loop rest this
        else
          let absolutePath := Path.join projectPath path in
          if isDirectory child then
            let packageJsonPath := path +:+ Path.sep +:+ "package.json" in
            match
              (if negb (String.eqb modulePackageJson packageJsonPath)
               then nestedManifest child else None)
            with
            | Some parsed =>
                packageJson ← parsed;
                let nestedPackage :=
                  IPackage.mk PackageType.Nested
                    (Js.substr (String.length packPath
                                + String.length Path.sep) path)
                    path (Some packageJson) None None None None
                    [] [] Availability.Available [] JsObj.empty in
                let '(nested, this) := alloc nestedPackage this in
                let this := update pack (IPackage.push_child nested) this in
                let this :=
                  if JsObj.has (IPackage.name nestedPackage) (dependencies this)
                  then update pack
                         (IPackage.with_availability Availability.ShadowedByDiverged)
                         this
                  else register (IPackage.name nestedPackage) nested this in
                this ← recurse child pack path nested this;
                loop rest this
            | None =>
                let relativePath := Js.substr scopePathLength path in
                let this :=
                  update fileScope (IPackage.push_directory relativePath) this in
                this ← recurse child pack path fileScope this;
                loop rest this
            end
          else
            let file :=
              IFile.mk (Js.substr scopePathLength path) absolutePath name
                (Path.extname name) (st_mtime (node_stats child)) in
            loop rest (update fileScope (IPackage.push_scriptFile file) this)
    end.

(** [listNestedPackageFiles(pack, dir, fileScope)], where [n] is the
    node found at [join(project.path, dir)]. *)
Fixpoint listNestedPackageFiles (n : node) (pack : nat) (dir : string)
    (fileScope : nat) (this : t) {struct n} : result t :=
  p ← deref this pack;
  scope ← deref this fileScope;
  packJson ← of_option (IPackage.packageJson p);
  let modulePackageJson := IPackage.path p +:+ Path.sep +:+ "package.json" in
  let ignorePaths :=
    (IPackage.path p +:+ Path.sep +:+ "node_modules")
    :: match json_nativescript packJson with
       | Some _ => [IPackage.path p +:+ Path.sep +:+ "platforms"]
       | None => []
       end in
  let scopePathLength :=
    (String.length (IPackage.path scope) + String.length Path.sep)%nat in
  match n with
  | NFile _ _ => Threw
  | NDir _ entries =>
      nestedLoop listNestedPackageFiles pack dir fileScope
        (IPackage.path p) modulePackageJson ignorePaths scopePathLength
        entries this
  end.

(** [listDependencyScriptFiles(pack)]; [fuel] bounds the depth of the
    walk over [children]. *)
Fixpoint listDependencyScriptFiles (fuel : nat) (pack : nat) (this : t)
    : result t :=
  match fuel with
  | O => Fuel
  | S fuel =>
      p ← deref this pack;
      this ←
        (if bool_decide (IPackage.type p = PackageType.Package)
            && bool_decide (IPackage.availability p = Availability.Available)
         then
           n ← Fs.getFsStats fs (Path.join projectPath (IPackage.path p));
           listNestedPackageFiles n pack (IPackage.path p) pack this
         else Done this);
      p ← deref this pack;
      forEach (listDependencyScriptFiles fuel) (IPackage.children p) this
  end.

(** The [forEach] of [listNativePlatformFilesInPackage]. *)
Definition nativeLoop
    (recurse : node → nat → string → string → t → result t)
    (pack : nat) (platform dir : string)
    : list (string * node) → t → result t :=
  fix loop (entries : list (string * node)) (this : t) :=
    match entries with
    | [] => Done this
    | (name, child) :: rest =>
        p ← deref this pack;
        let absolutePath :=
          Path.joinl [projectPath; IPackage.path p; dir; name] in
        let path := dir +:+ Path.sep +:+ name in
        if isFile child then
          let file :=
            IFile.mk path absolutePath name (Path.extname name)
              (st_mtime (node_stats child)) in
          p' ← IPackage.push_nativeFile platform file p;
          loop rest (update pack (fun _ => p') this)
        else
          this ← recurse child pack platform path this;
          loop rest this
    end.

(** [listNativePlatformFilesInPackage(pack, platform, dir)], where [n]
    is the node of the directory read. *)
Fixpoint listNativePlatformFilesInPackage (n : node) (pack : nat)
    (platform dir : string) (this : t) {struct n} : result t :=
  match n with
  | NFile _ _ => Threw
  | NDir _ entries =>
      nativeLoop listNativePlatformFilesInPackage pack platform dir entries this
  end.

(** [listNativeFilesInPackage(pack)] *)
Definition listNativeFilesInPackage (pack : nat) (this : t) : result t :=
  p ← deref this pack;
  packJson ← of_option (IPackage.packageJson p);
  match json_nativescript packJson with
  | Some ns =>
      match ns_platforms ns with
      | Some platforms =>
          forEach
            (fun platform this =>
               p ← deref this pack;
               let platformDir :=
                 Path.joinl [projectPath; IPackage.path p; "platforms"; platform] in
               if Fs.exists_ fs platformDir then
                 let this :=
                   update pack
                     (fun p => IPackage.with_nativeFiles
                                 (JsObj.set platform [] (IPackage.nativeFiles p)) p)
                     this in
                 let dir := Path.join "platforms" platform in
                 n ← Fs.getFsStats fs
                       (projectPath +:+ Path.sep +:+ IPackage.path p
                        +:+ Path.sep +:+ dir);
                 listNativePlatformFilesInPackage n pack platform dir this
               else Done this)
            (map fst platforms) this
      | None => Done this
      end
  | None => Done this
  end.

(** [listDependencyNativeFiles()] *)
Definition listDependencyNativeFiles (this : t) : result t :=
  forEach
    (fun key this =>
       pack ← of_option (JsObj.get key (dependencies this));
       listNativeFilesInPackage pack this)
    (JsObj.keys (dependencies this)) this.

(** The [forEach] of the local function [listAppFiles(dir)]. *)
Definition appLoop (recurse : node → string → t → result t) (dir : string)
    : list (string * node) → t → result t :=
  fix loop (entries : list (string * node)) (this : t) :=
    match entries with
    | [] => Done this
    | (name, child) :: rest =>
        let path := dir +:+ Path.sep +:+ name in
        if bool_decide (path ∈ ["app" +:+ Path.sep +:+ "App_Resources"])
        then loop rest this
        else
          let dirPath := path +:+ Path.sep in
          let absolutePath := Path.join projectPath path in
          if isDirectory child then
            let this := update (app this) (IPackage.push_directory dirPath) this in
            this ← recurse child path this;
            loop rest this
          else
            let file :=
              IFile.mk path absolutePath name (Path.extname name)
                (st_mtime (node_stats child)) in
            loop rest (update (app this) (IPackage.push_scriptFile file) this)
    end.

Fixpoint listAppFiles (n : node) (dir : string) (this : t) {struct n}
    : result t :=
  match n with
  | NFile _ _ => Threw
  | NDir _ entries => appLoop listAppFiles dir entries this
  end.

(** [listAppScriptFiles()] *)
Definition listAppScriptFiles (this : t) : result t :=
  let appPath := "app" in
  match Fs.stat fs (Path.join projectPath appPath) with
  | Some n =>
      let this := update (app this) (IPackage.push_directory "app/") this in
      listAppFiles n appPath this
  | None => Done this
  end.

(** [listAppNativeFilesForPlatform(platform, dir)]: the directory is
    read at [dir] as given, the files are stat'ed below the project. *)
Definition listAppNativeFilesForPlatform (platform dir : string) (this : t)
    : result t :=
  names ← Fs.readDirectory fs dir;
  forEach
    (fun name this =>
       let path := dir +:+ Path.sep +:+ name in
       let absolutePath := projectPath +:+ Path.sep +:+ path in
       lstat ← Fs.getFsStats fs absolutePath;
       let file :=
         IFile.mk path absolutePath name (Path.extname name)
           (st_mtime (node_stats lstat)) in
       a ← deref this (app this);
       a' ← IPackage.push_nativeFile platform file a;
       Done (update (app this) (fun _ => a') this))
    names this.

(** [listAppNativeFiles()] *)
Definition listAppNativeFiles (this : t) : result t :=
  let appResources := Path.join "app" "App_Resources" in
  forEach
    (fun platform this =>
       let platformDir := Path.join appResources platform in
       let absolutePath := Path.join projectPath platformDir in
       if Fs.exists_ fs absolutePath then
         let this :=
           update (app this)
             (fun p => IPackage.with_nativeFiles
                         (JsObj.set platform [] (IPackage.nativeFiles p)) p)
             this in
         listAppNativeFilesForPlatform platform platformDir this
       else Done this)
    (platforms this) this.

(** The object [this.app] is initialised with. *)
Definition initialApp : IPackage.t :=
  IPackage.mk PackageType.App "." "." None None (Some "*")
    (Some []) (Some []) [] [] Availability.Available [] JsObj.empty.

(** [new Project.Source(project, platforms, $fs, $logger)] *)
Definition create (fuel : nat) (platforms : list string) : result t :=
  let this := mk 0 [initialApp] JsObj.empty platforms in
  this ← selectDependencyPackages fuel (app this) this;
  this ← listDependencyScriptFiles fuel (app this) this;
  this ← listDependencyNativeFiles this;
  this ← listAppScriptFiles this;
  listAppNativeFiles this.

End WithProject.

(** The packages of the tree, in the order they were created. *)
Definition packages (this : t) : list IPackage.t := heap this.

(** The package stored in the table under [name]. *)
Definition dependency (this : t) (name : string) : option IPackage.t :=
  match JsObj.get name (dependencies this) with
  | Some pack => heap this !! pack
  | None => None
  end.

End Source.

(** ** [Project.Target]: the delta planner *)

(** [utils.path.basedirs(dir)] *)
Definition basedirs (dir : string) : list string :=
  (foldl (fun '(path, result) f =>
            let path := path +:+ f +:+ Path.sep in (path, result ++ [path]))
         ("", []) (Js.split Js.slash dir)).2.

(** A JavaScript value that is a boolean or [undefined]: what
    [a && b.some(...)] gives for an array [a] that may be missing. *)
Inductive JsFlag :=
  | JsUndefined
  | JsBool (b : bool).

Coercion JsBool : bool >-> JsFlag.

(** Whether a value counts as true in a condition. *)
Definition truthy (v : JsFlag) : bool :=
  match v with
  | JsBool b => b
  | JsUndefined => false
  end.

(** [a || b] for a boolean [a]. *)
Definition js_or (a : bool) (b : JsFlag) : JsFlag :=
  if a then JsBool true else b.

(** [IProjectBuildResult]; [changedNativeProject] holds what [rebuild]
    stores in it, which may be [undefined]. *)
Record IProjectBuildResult := mkBuildResult {
  changedNativeProject : JsFlag;
  changedScripts : bool
}.

(** [Project.Target.IDelta]: four dictionaries keyed by path. *)
Record IDelta := mkDelta {
  copy : JsObj.t IFile.t;
  mkdir : JsObj.t bool;
  rmfile : JsObj.t bool;
  rmdir : JsObj.t bool
}.

(** [Project.Target.IOutPaths] *)
Record IOutPaths := mkOutPaths {
  out_app : string;
  out_modules : string;
  out_root : string
}.

(** The file-system calls [applyDelta] issues. *)
Inductive FsCall :=
  | CreateDirectory (dir : string)
  | CopyFile (from to : string)
  | DeleteFile (file : string)
  | DeleteDirectory (dir : string).

Module Target.

(** The constructor arguments of a [Target]. *)
Record t := mk {
  projectPath : string;
  platform : string;
  output : IOutPaths
}.

(** [new Project.Target.IOS(project, ...)] *)
Definition IOS (projectPath : string) : t :=
  mk projectPath "ios"
    (mkOutPaths
       (Path.joinl ["platforms"; "ios"; Path.basename projectPath; "app"])
       (Path.joinl ["platforms"; "ios"; Path.basename projectPath; "app"; "tns_modules"])
       (Path.join "platforms" "ios")).

(** [new Project.Target.Android(project, ...)] *)
Definition Android (projectPath : string) : t :=
  mk projectPath "android"
    (mkOutPaths
       (Path.joinl ["platforms"; "android"; "src"; "main"; "assets"; "app"])
       (Path.joinl ["platforms"; "android"; "src"; "main"; "assets"; "app"; "tns_modules"])
       (Path.join "platforms" "android")).

Definition set_mkdir (dir : string) (delta : IDelta) : IDelta :=
  mkDelta (copy delta) (JsObj.set dir true (mkdir delta)) (rmfile delta) (rmdir delta).

Definition delete_mkdir (dir : string) (delta : IDelta) : IDelta :=
  mkDelta (copy delta) (JsObj.delete dir (mkdir delta)) (rmfile delta) (rmdir delta).

Definition set_copy (to : string) (file : IFile.t) (delta : IDelta) : IDelta :=
  mkDelta (JsObj.set to file (copy delta)) (mkdir delta) (rmfile delta) (rmdir delta).

Definition delete_copy (to : string) (delta : IDelta) : IDelta :=
  mkDelta (JsObj.delete to (copy delta)) (mkdir delta) (rmfile delta) (rmdir delta).

Definition set_rmfile (file : string) (delta : IDelta) : IDelta :=
  mkDelta (copy delta) (mkdir delta) (JsObj.set file true (rmfile delta)) (rmdir delta).

Definition set_rmdir (dir : string) (delta : IDelta) : IDelta :=
  mkDelta (copy delta) (mkdir delta) (rmfile delta) (JsObj.set dir true (rmdir delta)).

(** The state of [rebuildDelta] while [diff] runs: the local variables
    [delta] and [diffed]. *)
Record DiffState := mkDiff { st_delta : IDelta; st_diffed : list string }.

Section WithTarget.

Variable this : t.
Variable source : Source.t.

Definition platformSuffix : string := "." +:+ platform this +:+ ".".

Definition platformSuffixFilter : list string :=
  map (fun p => "." +:+ p +:+ ".")
    (filter (fun p => p ≠ platform this) (Source.platforms source)).

(** [mkdirRecursive(baseDir)] *)
Definition mkdirRecursive (baseDir : string) (delta : IDelta) : IDelta :=
  foldl (fun delta dir => set_mkdir dir delta) delta (basedirs baseDir).

(** [mapPath(path)]; [None] is [null]. *)
Definition mapPath (path : string) : option string :=
  let appPrefixLength := String.length ("app" +:+ Path.sep) in
  let relativePath := Js.substr appPrefixLength path in
  if (0 <? String.length relativePath)%nat
  then Some (out_app (output this) +:+ Path.sep +:+ relativePath)
  else None.

(** A value used as a property key: [null] reads ["null"]. *)
Definition key_of (p : option string) : string := default "null" p.

(** Whether [copyAll] skips [file]: its name carries the suffix of
    another platform. *)
Definition otherPlatform (file : IFile.t) : bool :=
  existsb (fun f => Js.includes (IFile.name file) f) platformSuffixFilter.

(** The target path [copyAll] computes for [file] of [pack]. *)
Definition copyTarget (pack : IPackage.t) (file : IFile.t) : string :=
  out_modules (output this) +:+ Path.sep +:+ IPackage.name pack +:+ Path.sep
  +:+ Js.replace (IFile.path file) platformSuffix ".".

(** Where an entry [to -> f] of [delta.copy] comes from: a script of
    the application, or a script of a package of the table that
    [copyAll] did not skip. *)
Definition copy_origin (to : string) (f : IFile.t) : Prop :=
  (∃ app, Source.heap source !! Source.app source = Some app
          ∧ f ∈ IPackage.scriptFiles app
          ∧ to = key_of (mapPath (IFile.path f)))
  ∨ (∃ key addr pack,
       JsObj.get key (Source.dependencies source) = Some addr
       ∧ Source.heap source !! addr = Some pack
       ∧ f ∈ IPackage.scriptFiles pack
       ∧ otherPlatform f = false
       ∧ to = copyTarget pack f).

(** [copyAll(pack)] *)
Definition copyAll (pack : IPackage.t) (delta : IDelta) : IDelta :=
  foldl (fun delta file =>
           if otherPlatform file then delta
           else set_copy (copyTarget pack file) file delta)
        delta (IPackage.scriptFiles pack).

(** [mkdirAll(pack)] *)
Definition mkdirAll (pack : IPackage.t) (delta : IDelta) : IDelta :=
  if decide (IPackage.type pack = PackageType.App) then delta
  else
    let start := out_modules (output this) +:+ Path.sep in
    let '(_, delta) :=
      foldl (fun '(path, delta) dir =>
               let path := path +:+ dir +:+ Path.sep in
               (path, set_mkdir path delta))
            (start, delta) (Js.split Js.slash (IPackage.name pack)) in
    foldl (fun delta dir =>
             set_mkdir (out_modules (output this) +:+ Path.sep
                        +:+ IPackage.name pack +:+ Path.sep +:+ dir +:+ Path.sep)
                       delta)
          delta (IPackage.directories pack).

(** [buildDelta()] *)
Definition buildDelta : result IDelta :=
  let delta := mkDelta JsObj.empty JsObj.empty JsObj.empty JsObj.empty in
  let delta := mkdirRecursive (out_app (output this)) delta in
  let delta := mkdirRecursive (out_modules (output this)) delta in
  app ← Source.deref source (Source.app source);
  let delta :=
    foldl (fun delta file => set_mkdir file delta) delta
      (omap mapPath (IPackage.directories app)) in
  let delta :=
    foldl (fun delta file =>
             set_copy (key_of (mapPath (IFile.path file))) file delta)
          delta (IPackage.scriptFiles app) in
  forEach
    (fun key delta =>
       addr ← of_option (JsObj.get key (Source.dependencies source));
       pack ← Source.deref source addr;
       Done (mkdirAll pack (copyAll pack delta)))
    (JsObj.keys (Source.dependencies source)) delta.

Definition diffLoop (recurse : node → string → DiffState → DiffState)
    (dirPath : string) : list (string * node) → DiffState → DiffState :=
  fix loop (entries : list (string * node)) (st : DiffState) :=
    match entries with
    | [] => st
    | (f, child) :: rest => loop rest (recurse child (dirPath +:+ f) st)
    end.

(** The local function [diff(filePath)] of [rebuildDelta], where
    [targetStat] is the node found at [join(project.path, filePath)]. *)
Fixpoint diff (targetStat : node) (filePath : string) (st : DiffState)
    {struct targetStat} : DiffState :=
  if bool_decide (filePath ∈ st_diffed st) then st
  else
    let st := mkDiff (st_delta st) (st_diffed st ++ [filePath]) in
    let dirPath := filePath +:+ Path.sep in
    match targetStat with
    | NDir _ entries =>
        let st :=
          if JsObj.has dirPath (mkdir (st_delta st))
          then mkDiff (delete_mkdir dirPath (st_delta st)) (st_diffed st)
          else mkDiff (set_rmdir dirPath (st_delta st)) (st_diffed st) in
        diffLoop diff dirPath entries st
    | NFile targetStats _ =>
        match JsObj.get filePath (copy (st_delta st)) with
        | Some source =>
            let newer := st_mtime targetStats <? IFile.mtime source in
            if negb newer
            then mkDiff (delete_copy filePath (st_delta st)) (st_diffed st)
            else st
        | None => mkDiff (set_rmfile filePath (st_delta st)) (st_diffed st)
        end
    end.

(** [if (exists(join(project.path, p))) diff(p)] *)
Definition diffAt (fs : IFileSystem) (p : string) (st : DiffState) : DiffState :=
  match Fs.stat fs (Path.join (projectPath this) p) with
  | Some n => diff n p st
  | None => st
  end.

(** [basedirs(p).filter(dir => exists(dir) && dir in delta.mkdir)
     .forEach(dir => delete delta.mkdir[dir])] *)
Definition pruneBasedirs (fs : IFileSystem) (p : string) (st : DiffState)
    : DiffState :=
  let present :=
    filter (fun dir =>
              Fs.exists_ fs (Path.join (projectPath this) dir) = true
              ∧ JsObj.has dir (mkdir (st_delta st)) = true)
           (basedirs p) in
  foldl (fun st dir => mkDiff (delete_mkdir dir (st_delta st)) (st_diffed st))
        st present.

(** [rebuildDelta()] *)
Definition rebuildDelta (fs : IFileSystem) : result IDelta :=
  buildDelta ← buildDelta;
  let delta := mkDelta (copy buildDelta) (mkdir buildDelta) JsObj.empty JsObj.empty in
  let st := mkDiff delta [] in
  let st := diffAt fs (out_app (output this)) st in
  let st := pruneBasedirs fs (out_app (output this)) st in
  let st := diffAt fs (out_modules (output this)) st in
  let st := pruneBasedirs fs (out_modules (output this)) st in
  Done (st_delta st).

(** The calls [applyDelta(delta)] issues, in program order. *)
Definition applyCalls (delta : IDelta) : list FsCall :=
  let mkdir := Js.sort (JsObj.keys (mkdir delta)) in
  let copy := copy delta in
  let rmfile := JsObj.keys (rmfile delta) in
  let rmdir := rev (Js.sort (JsObj.keys (rmdir delta))) in
  map (fun dir => CreateDirectory (Path.join (projectPath this) dir)) mkdir
  ++ map (fun '(to, from) =>
            CopyFile (IFile.absolutePath from) (Path.join (projectPath this) to))
         copy
  ++ map (fun file => DeleteFile (Path.join (projectPath this) file)) rmfile
  ++ map (fun dir => DeleteDirectory (Path.join (projectPath this) dir)) rmdir.

(** The calls [applyDelta] waits for ([.wait()]): the directories
    created, then the files copied. *)
Definition awaitedCalls (delta : IDelta) : list FsCall :=
  map (fun dir => CreateDirectory (Path.join (projectPath this) dir))
      (Js.sort (JsObj.keys (mkdir delta)))
  ++ map (fun '(to, from) =>
            CopyFile (IFile.absolutePath from) (Path.join (projectPath this) to))
         (copy delta).

(** The deletions [applyDelta] starts, in the order it starts them:
    [deleteFile] and [deleteDirectory] return futures that the last two
    [forEach] drop. *)
Definition startedCalls (delta : IDelta) : list FsCall :=
  map (fun file => DeleteFile (Path.join (projectPath this) file))
      (JsObj.keys (rmfile delta))
  ++ map (fun dir => DeleteDirectory (Path.join (projectPath this) dir))
         (rev (Js.sort (JsObj.keys (rmdir delta)))).

(** What one call does to the file system when it is carried out.  The
    failure of [createDirectory] or [copyFile] is raised by [.wait()];
    the failure of a deletion is lost with its future. *)
Definition perform (call : FsCall) (fs : IFileSystem) : result IFileSystem :=
  match call with
  | CreateDirectory dir => Fs.createDirectory fs dir
  | CopyFile from to => Fs.copyFile fs from to
  | DeleteFile file => Done (Fs.unawaited fs (Fs.deleteFile fs file))
  | DeleteDirectory dir => Done (Fs.unawaited fs (Fs.deleteDirectory fs dir))
  end.

(** [applyDelta(delta)]: the value assigned to
    [projectBuildResult.changedScripts] and the file system when the call
    returns.  The directories are created and the files copied; the
    deletions of [startedCalls] have been started and none of them has
    been waited for: in the state returned none has been carried out
    yet. *)
Definition applyDelta (delta : IDelta) (fs : IFileSystem)
    : result (bool * IFileSystem) :=
  fs ← forEach perform (awaitedCalls delta) fs;
  Done ((0 <? length (JsObj.keys (copy delta)))%nat
        || (0 <? length (JsObj.keys (rmfile delta)))%nat, fs).

(** The file system once the deletions [order] have been carried out one
    after the other.  [applyDelta] waits for none of the deletions it
    starts, so the order in which they are carried out is any
    arrangement of [startedCalls]. *)
Definition carriedOut (order : list FsCall) (fs : IFileSystem) : IFileSystem :=
  foldl (fun fs call => Fs.unawaited fs (perform call fs)) fs order.

(** [hasNewerNativeFiles(pack)] of [rebuild]:
    [nativeFiles && nativeFiles.some(...)], which is [undefined] for a
    package without native files for the platform. *)
Definition hasNewerNativeFiles (outputProjectMtime : Z) (pack : IPackage.t)
    : JsFlag :=
  match JsObj.get (platform this) (IPackage.nativeFiles pack) with
  | Some nativeFiles =>
      JsBool (existsb (fun file => IFile.mtime file >? outputProjectMtime)
                nativeFiles)
  | None => JsUndefined
  end.

(** [rebuild()]: the final [projectBuildResult] of the target and the
    file system when the call returns.  The deletions [applyDelta]
    started are not waited for here either: the state returned is the
    one in which none of them has been carried out yet. *)
Definition rebuild (dateString : Z → string) (fs : IFileSystem)
    : result (IProjectBuildResult * IFileSystem) :=
  delta ← rebuildDelta fs;
  '(changedScripts, fs) ← applyDelta delta fs;
  let projectAbsolutePath :=
    Path.join3 (projectPath this) (out_root (output this)) "project" in
  hasNativeChanges ←
    (if Fs.exists_ fs projectAbsolutePath then
       st ← Fs.getFsStats fs projectAbsolutePath;
       let outputProjectMtime := st_mtime (node_stats st) in
       deps ← forEach
                (fun dep acc =>
                   addr ← of_option (JsObj.get dep (Source.dependencies source));
                   pack ← Source.deref source addr;
                   Done (acc ++ [pack]))
                (JsObj.keys (Source.dependencies source)) [];
       app ← Source.deref source (Source.app source);
       Done (js_or (false
                    || existsb (fun pack =>
                                  truthy (hasNewerNativeFiles outputProjectMtime pack))
                         deps)
                   (hasNewerNativeFiles outputProjectMtime app))
     else Done (JsBool true));
  fs ← Fs.writeFile fs projectAbsolutePath
         (CText ("Last build: " +:+ dateString (fs_now fs)));
  Done (mkBuildResult hasNativeChanges changedScripts, fs).

End WithTarget.

End Target.

(** ** [Project] *)

Module Project.

Section WithEnvironment.

Variable semver_gt : option string → option string → result bool.
Variable dateString : Z → string.

(** The two targets [rebuild] creates, each with its own
    [projectBuildResult], after the [switch (platform)] statement. *)
Definition rebuildTargets (fuel : nat) (path platform : string)
    (fs : IFileSystem)
    : result (IProjectBuildResult * IProjectBuildResult * IFileSystem) :=
  source ← Source.create semver_gt path fs fuel ["ios"; "android"];
  let ios := mkBuildResult false false in
  let android := mkBuildResult false false in
  if String.eqb platform "ios" then
    '(ios, fs) ← Target.rebuild (Target.IOS path) source dateString fs;
    Done (ios, android, fs)
  else if String.eqb platform "android" then
    '(android, fs) ← Target.rebuild (Target.Android path) source dateString fs;
    Done (ios, android, fs)
  else Done (ios, android, fs).

(** [Project.rebuild(platform)]: after the [switch], the result is
    overwritten with [platforms.ios.projectBuildResult]. *)
Definition rebuild (fuel : nat) (path platform : string) (fs : IFileSystem)
    : result (IProjectBuildResult * IFileSystem) :=
  '(ios, android, fs) ← rebuildTargets fuel path platform fs;
  let projectBuildResult :=
    if String.eqb platform "ios" then Some ios
    else if String.eqb platform "android" then Some android
    else None in
  let projectBuildResult := ios in
  Done (projectBuildResult, fs).

(** The [projectBuildResult] of the target the caller asked for. *)
Definition requestedResult (fuel : nat) (path platform : string)
    (fs : IFileSystem) : result (option IProjectBuildResult) :=
  '(ios, android, fs) ← rebuildTargets fuel path platform fs;
  Done (if String.eqb platform "ios" then Some ios
        else if String.eqb platform "android" then Some android
        else None).

End WithEnvironment.

End Project.

(** ** Statements of the specification, in its own words *)

Module SpecWords.

Fixpoint replaceAll_from (fuel : nat) (s pat rep : string) : string :=
  match fuel with
  | O => s
  | S fuel =>
      match Js.indexOf s pat with
      | None => s
      | Some i =>
          Js.slice0 i s +:+ rep
          +:+ replaceAll_from fuel (Js.substr (i + String.length pat) s) pat rep
      end
  end.

(** "every occurrence of [pat] is replaced by [rep]", left to right. *)
Definition replaceAll (s pat rep : string) : string :=
  replaceAll_from (String.length s) s pat rep.

(** "the target path is [output.modules/<pack.name>/<file.path>] with any
    occurrence of [.<currentPlatform>.] replaced by [.]" *)
Definition copyTarget (this : Target.t) (pack : IPackage.t) (file : IFile.t)
    : string :=
  out_modules (Target.output this) +:+ Path.sep +:+ IPackage.name pack
  +:+ Path.sep
  +:+ replaceAll (IFile.path file) ("." +:+ Target.platform this +:+ ".") ".".

(** "[availability = Available]" *)
Definition available (p : IPackage.t) : bool :=
  bool_decide (IPackage.availability p = Availability.Available).

(** The invariant of the package graph: "for every name in
    [dependencies], [dependencies[name].availability == Available]", and
    "no two packages in the tree with the same [name] both have
    [availability = Available]". *)
Definition invariant (source : Source.t) : bool :=
  forallb (fun '(_, addr) =>
             match Source.heap source !! addr with
             | Some p => available p
             | None => false
             end)
          (Source.dependencies source)
  && forallb (fun '(a, p) =>
                forallb (fun '(b, q) =>
                           (a =? b)%nat
                           || negb (String.eqb (IPackage.name p) (IPackage.name q))
                           || negb (available p && available q))
                        (imap pair (Source.heap source)))
             (imap pair (Source.heap source)).

End SpecWords.

(** [r] is [s] with the leftmost occurrence of [pat], if there is one,
    replaced by [rep]. *)
Definition first_replaced (s pat rep r : string) : Prop :=
  (r = s ∧ ∀ m, String.substring m (String.length pat) s ≠ pat)
  ∨ (∃ u v, s = u +:+ pat +:+ v ∧ r = u +:+ rep +:+ v
            ∧ ∀ m, (m < String.length u)%nat →
                   String.substring m (String.length pat) s ≠ pat).

(** [x] occurs before [y] in [l]. *)
Definition before {A} (x y : A) (l : list A) : Prop :=
  ∃ l1 l2 l3, l = l1 ++ x :: l2 ++ y :: l3.

(** ** Live sync *)

(** [Mobile.IDevice], as far as the services read it. *)
Record IDevice := mkDevice {
  dev_identifier : string;
  dev_platform : string;
  dev_isEmulator : bool
}.

(** [Mobile.IDeviceAppData] *)
Record IDeviceAppData := mkAppData {
  appIdentifier : string;
  app_device : IDevice;
  app_platform : string
}.

(** [Mobile.ILocalToDevicePathData] *)
Record ILocalToDevicePathData := mkPathData {
  getLocalPath : string;
  getDevicePath : string
}.

(** The messages of the Chrome DevTools protocol the iOS service writes to
    the debugger socket. *)
Inductive Message :=
  | DebuggerEnable (id : nat)
  | DebuggerSetScriptSource (scriptUrl scriptSource : string) (id : nat)
  | PageReload (ignoreCache : bool) (id : nat).

(** What the services do to the outside world, in the order they do it. *)
Inductive Event :=
  | EvPreparePlatform (platform : string)
  | EvBuildPlatform (platform : string) (buildForDevice : bool)
  | EvDeploy (device : string)
  | EvReinstallApplication (device packageFilePath : string)
  | EvTransferFiles (device : string) (isFullSync : bool)
  | EvRemoveFiles (device : string)
  | EvRefreshApplication (device : string) (forceExecuteFullSync : bool)
  | EvFinishLivesync (device : string)
  | EvAfterFileSyncAction (device : string)
  | EvPostAction (device : string)
  | EvSaveLivesyncInfo (livesyncInfoFile time : string)
  | EvRestartApplication (appIdentifier : string)
  | EvAttachRequest
  | EvSend (message : Message).

(** The services run in a world made of the file system, the log of
    events, the debugger socket of the iOS service ([true]: connected) and
    the counter [currentPageReloadId]. *)
Record World := mkWorld {
  w_fs : IFileSystem;
  w_trace : list Event;
  w_socket : bool;
  w_currentPageReloadId : nat
}.

(** A call returns the world it leaves behind together with its result. *)
Definition Sync (A : Type) : Type := World → World * result A.

Definition ret {A} (a : A) : Sync A := fun w => (w, Done a).

Definition bind {A B} (m : Sync A) (k : A → Sync B) : Sync B :=
  fun w =>
    match m w with
    | (w', Done a) => k a w'
    | (w', Threw) => (w', Threw)
    | (w', Fuel) => (w', Fuel)
    end.

Declare Scope sync_scope.
Delimit Scope sync_scope with sync.
Notation "x <- m ;; k" := (bind m (fun x => k))
  (at level 100, m at next level, right associativity) : sync_scope.
Notation "m ;; k" := (bind m (fun _ => k))
  (at level 100, right associativity) : sync_scope.

(** A pure computation that may raise. *)
Definition lift {A} (r : result A) : Sync A := fun w => (w, r).

Definition log (e : Event) : Sync unit :=
  fun w => (mkWorld (w_fs w) (w_trace w ++ [e]) (w_socket w)
              (w_currentPageReloadId w), Done tt).

Definition getFs : Sync IFileSystem := fun w => (w, Done (w_fs w)).

Definition setFs (fs : IFileSystem) : Sync unit :=
  fun w => (mkWorld fs (w_trace w) (w_socket w) (w_currentPageReloadId w), Done tt).

(** The collaborators that are not part of the sources.  [fails e] tells
    whether the external call logged as [e] raises. *)
Record Services := mkServices {
  fails : Event → bool;
  getPlatformData : string → IPlatformData;
  getLatestBuildTime : string → IPlatformData → bool → string;
  latestChangesRequireBuild : bool;
  latestPackageForEmulator : IPlatformData → string;
  latestPackageForDevice : IPlatformData → string;
  canExecuteFastSync : string → string → bool;
  mapFilePath : string → string → string;
  createLocalToDevicePaths :
    IDeviceAppData → string → option (list string) → list ILocalToDevicePathData;
  normalizePlatformName : string → string;
  iOSName : string
}.

(** An external call: it is logged, then returns or raises. *)
Definition external (svc : Services) (e : Event) : Sync unit :=
  fun w =>
    let w' := mkWorld (w_fs w) (w_trace w ++ [e]) (w_socket w)
                (w_currentPageReloadId w) in
    (w', if fails svc e then Threw else Done tt).

(** [ILiveSyncData] *)
Record ILiveSyncData := mkLiveSyncData {
  ls_platform : string;
  ls_appIdentifier : string;
  ls_projectFilesPath : string;
  ls_excludedProjectDirsAndFiles : list string
}.

Module PlatformLiveSyncServiceBase.

Definition livesyncInfoFileName : string := ".nslivesyncinfo".

Section WithServices.

Local Open Scope sync_scope.

Variable svc : Services.
Variable liveSyncData : ILiveSyncData.
Variable projectData : IProjectData.
Variable options : IOptions.
(** The bound given to the loop of [fileChangeRequiresBuild]. *)
Variable fuel : nat.

(** [getLivesyncInfoFilePath(device)] *)
Definition getLivesyncInfoFilePath (device : IDevice) : string :=
  let platform := dev_platform device in
  let platformData := getPlatformData svc platform in
  let livesyncInfoFilePath :=
    if String.eqb (Js.toLowerCase platform) (Js.toLowerCase (iOSName svc))
       && dev_isEmulator device
    then emulatorBuildOutputPath platformData
    else deviceBuildOutputPath platformData in
  Path.join livesyncInfoFilePath livesyncInfoFileName.

(** [prepareInfo.time] for the result of [getLatestPrepareInfo], which
    raises when there is no record. *)
Definition latestPrepareTime (platformData : IPlatformData) : Sync string :=
  fs <- getFs;;
  prepareInfo <- lift (ProjectChangesInfo.getLatestPrepareInfo platformData fs);;
  lift (of_option (time <$> prepareInfo)).

(** [saveLivesyncInfo(device, platformData)] *)
Definition saveLivesyncInfo (device : IDevice) (platformData : IPlatformData)
    : Sync unit :=
  time <- latestPrepareTime platformData;;
  let livesyncInfoFile := getLivesyncInfoFilePath device in
  fs <- getFs;;
  fs' <- lift (Fs.writeFile fs livesyncInfoFile (CText time));;
  setFs fs';;
  log (EvSaveLivesyncInfo livesyncInfoFile time).

(** [fs.readText(p).wait()] *)
Definition readText (p : string) : Sync string :=
  fs <- getFs;;
  lift match Fs.stat fs p with
       | Some (NFile _ (CText t)) => Done t
       | _ => Threw
       end.

(** [shouldBuildWhenLivesyncing(device, platformData)] *)
Definition shouldBuildWhenLivesyncing (device : IDevice)
    (platformData : IPlatformData) : Sync bool :=
  prepareTime <- latestPrepareTime platformData;;
  let buildTime :=
    getLatestBuildTime svc (Js.toLowerCase (normalizedPlatformName platformData))
      platformData (negb (dev_isEmulator device)) in
  if negb (String.eqb prepareTime buildTime) then
    let livesyncInfoFile := getLivesyncInfoFilePath device in
    fs <- getFs;;
    if Fs.exists_ fs livesyncInfoFile then
      livesyncTime <- readText livesyncInfoFile;;
      ret (negb (String.eqb prepareTime livesyncTime)
           && latestChangesRequireBuild svc)
    else ret (latestChangesRequireBuild svc)
  else ret false.

(** [deploy(device)] *)
Definition deploy (device : IDevice) : Sync unit :=
  let platformData := getPlatformData svc (dev_platform device) in
  build <- shouldBuildWhenLivesyncing device platformData;;
  (if build : bool then
     external svc (EvBuildPlatform (ls_platform liveSyncData)
                     (negb (dev_isEmulator device)))
   else ret tt);;
  external svc (EvDeploy (dev_identifier device));;
  let packageFilePath :=
    if dev_isEmulator device then latestPackageForEmulator svc platformData
    else latestPackageForDevice svc platformData in
  external svc (EvReinstallApplication (dev_identifier device) packageFilePath);;
  saveLivesyncInfo device platformData.

(** [changeRequiresDeploy(filesToSync)] *)
Fixpoint changeRequiresDeploy (filesToSync : list string) : Sync bool :=
  match filesToSync with
  | [] => ret false
  | file :: rest =>
      fs <- getFs;;
      b <- lift (ChangeClassifier.fileChangeRequiresBuild fuel file
                   (projectDir projectData) fs);;
      if b : bool then ret true else changeRequiresDeploy rest
  end.

(** [refreshApplication(deviceAppData, localToDevicePaths)] of the base
    class: the device-specific service is called with
    [forceExecuteFullSync = (localToDevicePaths === null)]. *)
Definition refreshApplication (deviceAppData : IDeviceAppData)
    (localToDevicePaths : option (list ILocalToDevicePathData)) : Sync unit :=
  external svc
    (EvRefreshApplication (dev_identifier (app_device deviceAppData))
       (bool_decide (localToDevicePaths = None))).

(** [finishLivesync(deviceAppData)] *)
Definition finishLivesync (deviceAppData : IDeviceAppData) : Sync unit :=
  log (EvFinishLivesync (dev_identifier (app_device deviceAppData))).

(** [transferFiles(deviceAppData, localToDevicePaths, projectFilesPath,
    isFullSync)] *)
Definition transferFiles (deviceAppData : IDeviceAppData) (isFullSync : bool)
    : Sync unit :=
  external svc (EvTransferFiles (dev_identifier (app_device deviceAppData)) isFullSync).

(** The action [getSyncAction(filesToSync, fileSyncAction,
    afterFileSyncAction)] returns, applied to [device]; the two callbacks
    are given by the events they log ([None]: no [afterFileSyncAction]). *)
Definition syncAction (filesToSync : list string) (fileSyncAction : Event)
    (afterFileSyncAction : option Event) (device : IDevice) : Sync unit :=
  let deviceAppData :=
    mkAppData (ls_appIdentifier liveSyncData) device
      (normalizePlatformName svc (ls_platform liveSyncData)) in
  requiresDeploy <- changeRequiresDeploy filesToSync;;
  if requiresDeploy : bool then
    deploy device;;
    refreshApplication deviceAppData None
  else
    let mappedFiles := map (fun file => mapFilePath svc file "ios") filesToSync in
    let localToDevicePaths :=
      createLocalToDevicePaths svc deviceAppData (ls_projectFilesPath liveSyncData)
        (Some mappedFiles) in
    external svc fileSyncAction;;
    (match afterFileSyncAction with
     | None => refreshApplication deviceAppData (Some localToDevicePaths)
     | Some _ => ret tt
     end);;
    finishLivesync deviceAppData;;
    (match afterFileSyncAction with
     | Some after => external svc after
     | None => ret tt
     end);;
    let platformData := getPlatformData svc (dev_platform device) in
    saveLivesyncInfo device platformData.

(** The per-flush action of [batchSync] for one device. *)
Definition batchSyncAction (filesToSync : list string)
    (afterFileSyncAction : bool) (device : IDevice) : Sync unit :=
  syncAction filesToSync (EvTransferFiles (dev_identifier device) false)
    (if afterFileSyncAction then Some (EvAfterFileSyncAction (dev_identifier device))
     else None)
    device.

(** The action of [fullSync(postAction)] for one device. *)
Definition fullSyncAction (postAction : bool) (device : IDevice) : Sync unit :=
  deploy device;;
  let deviceAppData :=
    mkAppData (ls_appIdentifier liveSyncData) device
      (normalizePlatformName svc (ls_platform liveSyncData)) in
  let localToDevicePaths :=
    createLocalToDevicePaths svc deviceAppData (ls_projectFilesPath liveSyncData)
      None in
  transferFiles deviceAppData true;;
  if postAction then
    finishLivesync deviceAppData;;
    external svc (EvPostAction (dev_identifier device))
  else
    refreshApplication deviceAppData (Some localToDevicePaths);;
    finishLivesync deviceAppData.

End WithServices.

End PlatformLiveSyncServiceBase.

Module IOSLiveSyncService.

Section WithDevice.

Local Open Scope sync_scope.

Variable svc : Services.
Variable options : IOptions.
Variable device : IDevice.

(** [++currentPageReloadId] *)
Definition nextId : Sync nat :=
  fun w =>
    let id := S (w_currentPageReloadId w) in
    (mkWorld (w_fs w) (w_trace w) (w_socket w) id, Done id).

Definition getSocket : Sync bool := fun w => (w, Done (w_socket w)).

Definition setSocket (s : bool) : Sync unit :=
  fun w => (mkWorld (w_fs w) (w_trace w) s (w_currentPageReloadId w), Done tt).

(** [destroySocket()] *)
Definition destroySocket : Sync unit := setSocket false.

(** [sendMessage(message)]: the frame is written to the socket; when there
    is no socket or the write fails, the error is caught and the socket is
    destroyed. *)
Definition sendMessage (message : Message) : Sync unit :=
  fun w =>
    if w_socket w && negb (fails svc (EvSend message)) then
      log (EvSend message) w
    else destroySocket w.

(** [setupSocketIfNeeded()]; [connect] tells whether the connection to port
    18181 comes up. *)
Definition setupSocketIfNeeded (connect : bool) : Sync bool :=
  socket <- getSocket;;
  if socket : bool then ret true
  else
    id <- nextId;;
    let enableDebuggerMessage := DebuggerEnable id in
    connected <-
      (external svc EvAttachRequest;;
       if dev_isEmulator device then ret connect else ret true);;
    if connected : bool then
      setSocket true;;
      sendMessage enableDebuggerMessage;;
      ret true
    else ret false.

(** [restartApplication(deviceAppData)] *)
Definition restartApplication (deviceAppData : IDeviceAppData) : Sync unit :=
  external svc (EvRestartApplication (appIdentifier deviceAppData)).

(** [reloadPage(deviceAppData, localToDevicePaths)] *)
Definition reloadPage (deviceAppData : IDeviceAppData)
    (localToDevicePaths : list ILocalToDevicePathData) : Sync unit :=
  if (0 <? length localToDevicePaths)%nat then
    id <- nextId;;
    sendMessage (PageReload false id)
  else ret tt.

(** [liveEdit(localToDevicePaths)] *)
Fixpoint liveEdit (localToDevicePaths : list ILocalToDevicePathData) : Sync unit :=
  match localToDevicePaths with
  | [] => ret tt
  | localToDevicePath :: rest =>
      content <- PlatformLiveSyncServiceBase.readText (getLocalPath localToDevicePath);;
      id <- nextId;;
      sendMessage (DebuggerSetScriptSource (getDevicePath localToDevicePath) content id);;
      liveEdit rest
  end.

(** The body of a future that is created and not waited for: what it
    raises is lost. *)
Definition detached (m : Sync unit) : Sync unit :=
  fun w => match m w with (w', _) => (w', Done tt) end.

Definition isScript (localToDevicePath : ILocalToDevicePathData) : bool :=
  Js.endsWith (getDevicePath localToDevicePath) ".js".

(** [refreshApplication(deviceAppData, localToDevicePaths,
    forceExecuteFullSync)].  The call [this.liveEdit(scriptFiles)] creates
    a future and drops it: its body has not run when [reloadPage] is
    called, nor when [refreshApplication] returns.  The world returned is
    the one at that moment, and the result is the body of the future left
    behind ([ret tt] on the paths that create none). *)
Definition refreshApplication (connect : bool) (deviceAppData : IDeviceAppData)
    (localToDevicePaths : list ILocalToDevicePathData)
    (forceExecuteFullSync : bool) : Sync (Sync unit) :=
  if forceExecuteFullSync then restartApplication deviceAppData;; ret (ret tt)
  else
    let scriptFiles := filter (fun p => isScript p = true) localToDevicePaths in
    let otherFiles := filter (fun p => isScript p ≠ true) localToDevicePaths in
    let shouldRestart :=
      existsb (fun p => negb (canExecuteFastSync svc (getLocalPath p)
                                (app_platform deviceAppData)))
        otherFiles in
    if shouldRestart then restartApplication deviceAppData;; ret (ret tt)
    else if negb (opt_liveEdit options) && (0 <? length scriptFiles)%nat then
      restartApplication deviceAppData;; ret (ret tt)
    else
      established <- setupSocketIfNeeded connect;;
      if established : bool then
        let started := detached (liveEdit scriptFiles) in
        reloadPage deviceAppData otherFiles;;
        ret started
      else ret (ret tt).

(** The world once the future a call has left behind has run to its
    end. *)
Definition afterwards (r : World * result (Sync unit)) : World :=
  match r with
  | (w, Done started) => (started w).1
  | (w, _) => w
  end.

(** The messages written to the socket, in order. *)
Definition sent (trace : list Event) : list Message :=
  omap (fun e => match e with EvSend m => Some m | _ => None end) trace.

Definition isPageReload (m : Message) : bool :=
  match m with PageReload _ _ => true | _ => false end.

(** [m] is the [Debugger.setScriptSource] message for [p], carrying the
    text of the local file. *)
Definition scriptSourceOf (fs : IFileSystem) (p : ILocalToDevicePathData)
    (m : Message) : Prop :=
  ∃ st content id,
    Fs.stat fs (getLocalPath p) = Some (NFile st (CText content))
    ∧ m = DebuggerSetScriptSource (getDevicePath p) content id.

(** Every file of the list can be read as text. *)
Definition readable (fs : IFileSystem) (paths : list ILocalToDevicePathData)
    : Prop :=
  Forall (fun p => ∃ st content,
            Fs.stat fs (getLocalPath p) = Some (NFile st (CText content)))
         paths.

End WithDevice.

End IOSLiveSyncService.

(** ** Paths and trees: the vocabulary of the idempotence theorem *)

(** A name without separator. *)
Fixpoint noslash (s : string) : bool :=
  match s with
  | EmptyString => true
  | String a s' => negb (Ascii.eqb a Js.slash) && noslash s'
  end.

(** A name a directory entry can bear: not empty, no separator, neither
    ["."] nor [".."]. *)
Definition proper (n : string) : bool :=
  noslash n && negb (String.eqb n "") && negb (String.eqb n ".")
  && negb (String.eqb n "..").

(** The path string [diff] builds for the entry reached from [p] through
    the names [ns]: [p/n1/n2/...]. *)
Definition pathOf (p : string) (ns : list string) : string :=
  foldl (fun acc n => (acc +:+ Path.sep) +:+ n) p ns.

(** What [isDirectory()], [isFile()] and [mtime] of a [Stats] tell. *)
Inductive kind :=
  | KDir
  | KFile (mtime : Z).

Definition kind_of (n : node) : kind :=
  match n with
  | NDir _ _ => KDir
  | NFile st _ => KFile (st_mtime st)
  end.

(** The kind of the entry at the segments [q], if there is one. *)
Definition kind_at (q : list string) (root : node) : option kind :=
  kind_of <$> Fs.lookup q root.

(** An entry without anything below it: absent, a file, an empty
    directory. *)
Definition leafy (o : option node) : Prop :=
  match o with
  | None => True
  | Some (NFile _ _) => True
  | Some (NDir _ es) => es = []
  end.

(** The kind of the entry the absolute segments [q] lead to. *)
Definition kindOn (fs : IFileSystem) (q : list string) : option kind :=
  kind_at q (fs_root fs).

Definition isKFile (k : option kind) : bool :=
  match k with Some (KFile _) => true | _ => false end.

(** The path a call acts on. *)
Definition target (fs : IFileSystem) (call : FsCall) : list string :=
  match call with
  | CreateDirectory p => Fs.resolve fs p
  | CopyFile _ to => Fs.resolve fs to
  | DeleteFile p => Fs.resolve fs p
  | DeleteDirectory p => Fs.resolve fs p
  end.

(** What one call of [applyDelta] changes: nothing but the entry at its
    target. *)
Definition call_effect (call : FsCall) (fs fs' : IFileSystem) : Prop :=
  fs_cwd fs' = fs_cwd fs ∧ fs_now fs' = fs_now fs
  ∧ (∀ q, q ≠ target fs call → kindOn fs' q = kindOn fs q)
  ∧ match call with
    | CreateDirectory _ =>
        kindOn fs' (target fs call) = Some KDir
        ∧ (kindOn fs (target fs call) = None
           ∨ kindOn fs (target fs call) = Some KDir)
    | CopyFile _ _ =>
        kindOn fs' (target fs call) = Some (KFile (fs_now fs))
        ∧ kindOn fs (target fs call) ≠ Some KDir
    | DeleteFile _ =>
        (target fs call ≠ [] →
         isKFile (kindOn fs' (target fs call)) = false)
        ∧ (kindOn fs' (target fs call) = kindOn fs (target fs call)
           ∨ (isKFile (kindOn fs (target fs call)) = true
              ∧ kindOn fs' (target fs call) = None))
    | DeleteDirectory _ =>
        kindOn fs' (target fs call) = kindOn fs (target fs call)
        ∨ (kindOn fs (target fs call) = Some KDir
           ∧ kindOn fs' (target fs call) = None)
    end.

(** A regular file not older than [b] sits at [q]. *)
Definition fresh_at (fs : IFileSystem) (q : list string) (b : Z) : Prop :=
  ∃ m, kindOn fs q = Some (KFile m) ∧ b ≤ m.

Definition isCreateDirectory (c : FsCall) : bool :=
  match c with CreateDirectory _ => true | _ => false end.

Definition isCopyFile (c : FsCall) : bool :=
  match c with CopyFile _ _ => true | _ => false end.

Definition isDeleteFile (c : FsCall) : bool :=
  match c with DeleteFile _ => true | _ => false end.

Definition isDeleteDirectory (c : FsCall) : bool :=
  match c with DeleteDirectory _ => true | _ => false end.

(** The tree is one a file system can hold: in every directory the names
    are proper and pairwise different. *)
Fixpoint wf_node (n : node) : bool :=
  match n with
  | NFile _ _ => true
  | NDir _ es =>
      forallb proper (map fst es)
      && bool_decide (NoDup (map fst es))
      && forallb (fun e => wf_node e.2) es
  end.

(** The entries below [n], each with the names leading to it, in the order
    [diff] visits them. *)
Fixpoint paths (n : node) : list (list string * kind) :=
  ([], kind_of n)
  :: match n with
     | NDir _ es =>
         flat_map (fun e => map (fun x => (e.1 :: x.1, x.2)) (paths e.2)) es
     | NFile _ _ => []
     end.

(** The same entries under the path strings [diff] gives them. *)
Definition listing (n : node) (p : string) : list (string * kind) :=
  map (fun x => (pathOf p x.1, x.2)) (paths n).

(** What [diff] does to [delta] for one visited entry. *)
Definition diffStep (delta : IDelta) (x : string * kind) : IDelta :=
  let filePath := x.1 in
  let dirPath := filePath +:+ Path.sep in
  match x.2 with
  | KDir =>
      if JsObj.has dirPath (mkdir delta) then Target.delete_mkdir dirPath delta
      else Target.set_rmdir dirPath delta
  | KFile mtime =>
      match JsObj.get filePath (copy delta) with
      | Some source =>
          if negb (mtime <? IFile.mtime source)
          then Target.delete_copy filePath delta
          else delta
      | None => Target.set_rmfile filePath delta
      end
  end.

(** The planned copies and directories are stored once per key. *)
Definition once (d : IDelta) : Prop :=
  NoDup (JsObj.keys (copy d)) ∧ NoDup (JsObj.keys (mkdir d)).

(** [k] names a file below [A]: [A/n1/.../nk] with proper names. *)
Definition file_key (A k : string) : bool :=
  let ns := Js.split Js.slash (Js.substr (String.length A + 1) k) in
  String.eqb k (pathOf A ns) && forallb proper ns.

(** [k] names a directory: [n1/.../nk/] with proper names. *)
Definition dir_key (k : string) : bool :=
  match rev (Js.split Js.slash k) with
  | last :: n :: ns => String.eqb last "" && forallb proper (n :: ns)
  | _ => false
  end.

(** The desired delta [bd] of the target only holds normalized paths: the
    output paths are made of proper names, [output.modules] lies below
    [output.app], every copy target is a file path below [output.app],
    every directory to create is a normalized directory path. *)
Definition plan_wf (this : Target.t) (bd : IDelta) : bool :=
  forallb proper (Js.split Js.slash (out_app (Target.output this)))
  && file_key (out_app (Target.output this)) (out_modules (Target.output this))
  && forallb (file_key (out_app (Target.output this))) (JsObj.keys (copy bd))
  && forallb dir_key (JsObj.keys (mkdir bd)).

(** The segments of the output directory [output.app] of the target. *)
Definition outputBase (this : Target.t) (fs : IFileSystem) : list string :=
  Fs.resolve fs (Target.projectPath this)
  ++ Js.split Js.slash (out_app (Target.output this)).

(** What [diff(output.app)] visits on the disk. *)
Definition scanned (this : Target.t) (fs : IFileSystem) : list (string * kind) :=
  match Fs.stat fs (Path.join (Target.projectPath this)
                      (out_app (Target.output this))) with
  | Some n => listing n (out_app (Target.output this))
  | None => []
  end.

(** No source file of the plan bears a time after the clock of [fs]. *)
Definition sources_not_after (fs : IFileSystem) (bd : IDelta) : bool :=
  forallb (fun kf : string * IFile.t => IFile.mtime kf.2 <=? fs_now fs) (copy bd).

(** No directory of the plan is a regular file on the disk. *)
Definition dirs_clear (this : Target.t) (fs : IFileSystem) (bd : IDelta) : bool :=
  forallb (fun k =>
             match Fs.stat fs (Path.join (Target.projectPath this) k) with
             | Some n => isDirectory n
             | None => true
             end)
          (JsObj.keys (mkdir bd)).

(** ** Vocabulary of the further properties *)

(** Nothing below [n] bears a time after [mtime], neither for [getFsStats]
    nor for [getLsStats]. *)
Fixpoint quiet (mtime : Z) (n : node) : bool :=
  match n with
  | NFile _ _ => true
  | NDir _ es =>
      forallb (fun e : string * node =>
                 negb (st_mtime (node_stats e.2) >? mtime)
                 && negb (st_lmtime (node_stats e.2) >? mtime)
                 && quiet mtime e.2)
              es
  end.

(** The computation came to an end: it returned or raised. *)
Definition terminated {A} (r : result A) : bool :=
  match r with Fuel => false | _ => true end.

(** The events the iOS service produces on its debugger socket: the attach
    request and the messages written. *)
Definition isSocketEvent (e : Event) : bool :=
  match e with
  | EvAttachRequest => true
  | EvSend _ => true
  | _ => false
  end.

(** The [id] a message carries. *)
Definition message_id (m : Message) : nat :=
  match m with
  | DebuggerEnable id => id
  | DebuggerSetScriptSource _ _ id => id
  | PageReload _ id => id
  end.

(** From [w] to [w'] only the debugger socket was used: the events
    appended are attach requests and messages, and the messages carry
    strictly increasing ids that lie above the counter of [w] and not
    above that of [w']. *)
Definition socket_run (w w' : World) : Prop :=
  ∃ new,
    w_trace w' = w_trace w ++ new
    ∧ Forall (fun e => isSocketEvent e = true) new
    ∧ (w_currentPageReloadId w ≤ w_currentPageReloadId w')%nat
    ∧ StronglySorted lt (map message_id (IOSLiveSyncService.sent new))
    ∧ Forall (fun m => (w_currentPageReloadId w < message_id m
                        ≤ w_currentPageReloadId w')%nat)
             (IOSLiveSyncService.sent new).

(** The [dependencies] table and the availabilities agree: every entry of
    the table is a dependency package that is [Available] and stored under
    its own name, and every [Available] dependency package is the entry of
    its name. *)
Definition selected (this : Source.t) : Prop :=
  (∀ name pack, JsObj.get name (Source.dependencies this) = Some pack →
     ∃ p, Source.heap this !! pack = Some p
          ∧ IPackage.type p = PackageType.Package
          ∧ IPackage.availability p = Availability.Available
          ∧ IPackage.name p = name)
  ∧ (∀ pack p, Source.heap this !! pack = Some p →
       IPackage.type p = PackageType.Package →
       IPackage.availability p = Availability.Available →
       JsObj.get (IPackage.name p) (Source.dependencies this) = Some pack).

(** [selectDependencyPackages] may be called on [pack]: it is the
    application, or a dependency package that has not been selected. *)
Definition unselected (this : Source.t) (pack : nat) : Prop :=
  ∀ p, Source.heap this !! pack = Some p →
    IPackage.type p = PackageType.App
    ∨ (IPackage.type p = PackageType.Package
       ∧ IPackage.availability p ≠ Availability.Available).

(** The file in which [rebuild()] of a target records the last build. *)
Definition marker (this : Target.t) : string :=
  Path.join3 (Target.projectPath this) (out_root (Target.output this)) "project".

(** No native file the source lists for the platform of the target is
    stamped after [time]. *)
Definition natives_not_after (this : Target.t) (source : Source.t) (time : Z)
    : bool :=
  forallb (fun pack => negb (truthy (Target.hasNewerNativeFiles this time pack)))
          (Source.heap source).

(** [path] lies below the directory [dir]. *)
Definition below (dir path : string) : Prop :=
  ∃ rest, path = dir +:+ "/" +:+ rest.

(** What [listAppScriptFiles] records for a script of the application: it
    lies below [app] and not below [app/App_Resources], and its absolute
    path is its path joined to the path of the project. *)
Definition app_script (projectPath : string) (f : IFile.t) : Prop :=
  below "app" (IFile.path f)
  ∧ ¬ below "app/App_Resources" (IFile.path f)
  ∧ IFile.absolutePath f = Path.join projectPath (IFile.path f).

(** The directories [listAppFiles] is called on. *)
Definition walked (dir : string) : Prop :=
  dir = "app"
  ∨ (below "app" dir ∧ ¬ below "app/App_Resources" dir
     ∧ dir ≠ "app/App_Resources").

(** The scripts of the application at address [app] are those of [a] and
    scripts found below [app], outside [app/App_Resources]. *)
Definition listed_from (projectPath : string) (a : IPackage.t) (app : nat)
    (this : Source.t) : Prop :=
  Source.app this = app
  ∧ ∀ a', Source.heap this !! app = Some a' →
      ∀ f, f ∈ IPackage.scriptFiles a' →
        f ∈ IPackage.scriptFiles a ∨ app_script projectPath f.

(** The number of places at which [pat] occurs in [s]. *)
Definition occurrences (s pat : string) : nat :=
  length (List.filter
            (fun m => String.eqb (String.substring m (String.length pat) s) pat)
            (seq 0 (S (String.length s)))).

(** Every entry of the [dependencies] table is stored under the name of
    its package, and every [Available] package other than the application
    has its name in the table, except for a package named [pending] that
    has been created and not been looked up in the table yet. *)
Definition tabled_but (pending : option string) (this : Source.t) : Prop :=
  (∀ key addr, JsObj.get key (Source.dependencies this) = Some addr →
     ∃ q, Source.heap this !! addr = Some q ∧ IPackage.name q = key)
  ∧ (∀ addr p, Source.heap this !! addr = Some p →
       IPackage.type p ≠ PackageType.App →
       IPackage.availability p = Availability.Available →
       JsObj.has (IPackage.name p) (Source.dependencies this) = true
       ∨ pending = Some (IPackage.name p)).

Definition tabled (this : Source.t) : Prop := tabled_but None this.

(** No package of the heap is a nested package. *)
Definition unnested (this : Source.t) : Prop :=
  ∀ addr p, Source.heap this !! addr = Some p →
    IPackage.type p ≠ PackageType.Nested.

(** ** [PlatformLiveSyncServiceBase.partialSync] *)

Module PartialSync.

(** The fields of the service [partialSync] works on: the dictionary
    [fileHashes], and the files it has handed to [batchSync] and to
    [syncRemovedFile], in the order of the calls. *)
Record t := mk {
  fileHashes : gmap string string;
  batched : list string;
  removed : list string
}.

Section WithServices.

(** [constants.APP_RESOURCES_FOLDER_NAME], the digest [$fs.getFileShasum]
    computes from the contents of a file, [minimatch(filePath, pattern,
    { nocase: true })], and whether [syncRemovedFile(filePath, ...).wait()]
    raises. *)
Variable APP_RESOURCES_FOLDER_NAME : string.
Variable shasum : content → string.
Variable minimatch : string → string → bool.
Variable removeFails : string → bool.
Variable liveSyncData : ILiveSyncData.

(** [isFileExcluded(filePath, excludedPatterns)] *)
Definition isFileExcluded (filePath : string) (excludedPatterns : list string)
    : bool :=
  existsb (fun pattern => minimatch filePath pattern) excludedPatterns.

(** [exists(filePath) && getFsStats(filePath).isFile()
     ? getFileShasum(filePath) : ""] *)
Definition fileHashOf (fs : IFileSystem) (filePath : string) : string :=
  match Fs.stat fs filePath with
  | Some (NFile _ c) => shasum c
  | _ => ""
  end.

(** [partialSync(event, filePath, dispatcher, afterFileSyncAction)] *)
Definition partialSync (fs : IFileSystem) (event filePath : string) (this : t)
    : t * result unit :=
  if Js.includes filePath APP_RESOURCES_FOLDER_NAME then (this, Done tt)
  else
    let fileHash := fileHashOf fs filePath in
    if bool_decide (fileHashes this !! filePath = Some fileHash)
    then (this, Done tt)
    else
      let this :=
        mk (<[filePath := fileHash]> (fileHashes this)) (batched this)
           (removed this) in
      if isFileExcluded filePath (ls_excludedProjectDirsAndFiles liveSyncData)
      then (this, Done tt)
      else if String.eqb event "add" || String.eqb event "change" then
        (mk (fileHashes this) (batched this ++ [filePath]) (removed this),
         Done tt)
      else if String.eqb event "unlink" then
        (mk (delete filePath (fileHashes this)) (batched this)
            (removed this ++ [filePath]),
         if removeFails filePath then Threw else Done tt)
      else (this, Done tt).

End WithServices.

End PartialSync.

(** ** Concrete projects used as examples *)

Module Semver.

Fixpoint digits (s : string) (acc : nat) : option nat :=
  match s with
  | EmptyString => Some acc
  | String a s' =>
      let n := nat_of_ascii a in
      if (48 <=? n)%nat && (n <=? 57)%nat
      then digits s' (10 * acc + (n - 48))%nat
      else None
  end.

Definition number (s : string) : option nat :=
  if String.eqb s "" then None else digits s 0%nat.

(** [MAJOR.MINOR.PATCH] with numeric fields. *)
Definition parse (v : option string) : option (nat * nat * nat) :=
  match v with
  | Some v =>
      match Js.split "."%char v with
      | [a; b; c] =>
          match number a, number b, number c with
          | Some a, Some b, Some c => Some (a, b, c)
          | _, _, _ => None
          end
      | _ => None
      end
  | None => None
  end.

(** [semver.gt(a, b)] on plain [MAJOR.MINOR.PATCH] versions; as the
    package does, it raises on a version that does not parse. *)
Definition gt (a b : option string) : result bool :=
  match parse a, parse b with
  | Some (a1, a2, a3), Some (b1, b2, b3) =>
      Done ((b1 <? a1)%nat
            || ((a1 =? b1)%nat
                && ((b2 <? a2)%nat || ((a2 =? b2)%nat && (b3 <? a3)%nat))))
  | _, _ => Threw
  end.

End Semver.

Module Examples.

Definition file (mtime : Z) : node := NFile (mkStats mtime mtime) (CText "").

Definition dir (mtime : Z) (es : list (string * node)) : node :=
  NDir (mkStats mtime mtime) es.

Definition manifest (mtime : Z) (version : string)
    (deps : list (string * string)) : node :=
  NFile (mkStats mtime mtime)
    (CManifest (mkJson None (Some version) deps None)).

Definition projectPath : string := "/proj".

Definition disk (now : Z) (project : list (string * node)) : IFileSystem :=
  mkFs (dir 0 [("proj", dir 0 project)]) "/proj" now.

(** An application that depends on [foo] and [lib]; [foo] ships a
    sub-directory [lib] that has a [package.json] of its own. *)
Definition nested_project : list (string * node) :=
  [ ("package.json", manifest 1 "1.0.0" [("foo", "*"); ("lib", "*")]);
    ("app", dir 1 [("main.js", file 1)]);
    ("node_modules", dir 1
       [ ("foo", dir 1
            [ ("package.json", manifest 1 "1.0.0" []);
              ("index.js", file 1);
              ("lib", dir 1
                 [ ("package.json", manifest 1 "0.0.1" []);
                   ("inner.js", file 1) ]) ]);
         ("lib", dir 1
            [ ("package.json", manifest 1 "2.0.0" []);
              ("index.js", file 1) ]) ]) ].

Definition nested_source : result Source.t :=
  Source.create Semver.gt projectPath (disk 10 nested_project) 10
    ["ios"; "android"].

Definition dateString (now : Z) : string := "now".

(** Scenario S1: [app/main.js] and one dependency [foo@1.0.0] with
    [foo/index.js]; the output directory [platforms] exists and is
    empty. *)
Definition s1_project : list (string * node) :=
  [ ("package.json", manifest 1 "1.0.0" [("foo", "*")]);
    ("app", dir 1 [("main.js", file 1)]);
    ("node_modules", dir 1
       [ ("foo", dir 1
            [ ("package.json", manifest 1 "1.0.0" []);
              ("index.js", file 1) ]) ]);
    ("platforms", dir 1 []) ].

Definition s1_disk : IFileSystem := disk 10 s1_project.

(** A heap in which [bar@1.1.0] (address 1) holds the table entry for
    [bar] and a second [bar] (address 2) has just been reached. *)
Definition bar (version : string) (a : Availability.t) : IPackage.t :=
  IPackage.mk PackageType.Package "bar" "node_modules/x/node_modules/bar"
    (Some (mkJson None (Some version) [] None)) (Some version) (Some "*")
    (Some []) (Some []) [] [] a [] JsObj.empty.

(** A package with a script whose path carries the iOS suffix twice. *)
Definition twice : IFile.t :=
  IFile.mk "a.ios.b.ios.js" "/proj/node_modules/foo/a.ios.b.ios.js"
    "a.ios.b.ios.js" ".js" 1.

(** A script whose path carries the iOS suffix once. *)
Definition once_ios : IFile.t :=
  IFile.mk "c.ios.js" "/proj/node_modules/foo/c.ios.js" "c.ios.js" ".js" 1.

(** An application whose dependency [foo] ships both scripts. *)
Definition suffix_project : list (string * node) :=
  [ ("package.json", manifest 1 "1.0.0" [("foo", "*")]);
    ("app", dir 1 [("main.js", file 1)]);
    ("node_modules", dir 1
       [ ("foo", dir 1
            [ ("package.json", manifest 1 "1.0.0" []);
              ("a.ios.b.ios.js", file 1);
              ("c.ios.js", file 1) ]) ]) ].

(** A delta that creates a directory and its child, and deletes a
    directory, its child and a file. *)
Definition sample_delta : IDelta :=
  mkDelta [("out/a/b/x.js", twice)]
    [("out/a/b/", true); ("out/a/", true)]
    [("out/old/f.js", true)]
    [("out/old/", true); ("out/old/sub/", true)].

(** A prepared Android project in which a native file of a plugin is newer
    than the prepare-info record and nothing else has changed. *)
Definition prepared_project : list (string * node) :=
  [ ("package.json", manifest 1 "1.0.0" [("nat", "*")]);
    ("app", dir 1 [("main.js", file 1); ("App_Resources", dir 1 [("Android", dir 1 [])])]);
    ("node_modules", dir 1
       [ ("nat", dir 1
            [ ("package.json",
               NFile (mkStats 1 1)
                 (CManifest (mkJson None (Some "1.0.0") []
                               (Some (mkNativescript None (Some [("android", "1.0.0")]))))));
              ("platforms", dir 1
                 [("android", dir 1 [("libfoo.so", file 9)])]) ]) ]);
    ("platforms", dir 1
       [("android", dir 1
           [(".nsprepareinfo",
             NFile (mkStats 5 5) (CPrepareInfo (mkPrepareInfo "then" false false)))])]) ].

Definition androidData : IPlatformData :=
  mkPlatformData "/proj/platforms/android" "Android" "AndroidManifest.xml"
    "/proj/platforms/android/build/outputs/apk"
    "/proj/platforms/android/build/outputs/apk".

Definition iosData : IPlatformData :=
  mkPlatformData "/proj/platforms/ios" "iOS" "Info.plist"
    "/proj/platforms/ios/build/device" "/proj/platforms/ios/build/emulator".

Definition getPlatformData (platform : string) : IPlatformData :=
  if String.eqb (Js.toLowerCase platform) "ios" then iosData else androidData.

Definition projectData : IProjectData :=
  mkProjectData "/proj" "proj" "/proj/app" "/proj/app/App_Resources".

Definition constants : IDevicePlatformsConstants := mkConstants "iOS" "Android".

Definition options : IOptions := mkOptions false false None true false None.

Definition prepared_changes
  : result (ProjectChangesInfo.t * option IPrepareInfo * IFileSystem) :=
  ProjectChangesInfo.create dateString 10 "android" false false getPlatformData
    projectData constants options (disk 10 prepared_project).

(** The prepared project with the build output directory of the device. *)
Definition livesync_project : list (string * node) :=
  [ ("package.json", manifest 1 "1.0.0" []);
    ("app", dir 1 [("page.js", NFile (mkStats 1 1) (CText "exports.x = 1;"))]);
    ("platforms", dir 1
       [("android", dir 1
           [(".nsprepareinfo",
             NFile (mkStats 5 5) (CPrepareInfo (mkPrepareInfo "then" false false)));
            ("build", dir 1 [("outputs", dir 1 [("apk", dir 1 [])])])])]) ].

(** Collaborators none of whose calls raises, or only the refresh. *)
Definition services (refreshFails : bool) : Services :=
  mkServices
    (fun e => match e with
              | EvRefreshApplication _ _ => refreshFails
              | _ => false
              end)
    getPlatformData
    (fun _ _ _ => "then") true
    (fun _ => "app-emulator.apk") (fun _ => "app-device.apk")
    (fun _ _ => true)
    (fun file _ => file)
    (fun _ _ files => map (fun f => mkPathData f f) (default [] files))
    (fun p => p) "iOS".

(** The same collaborators when the latest build is older than the
    prepare-info record ("then") and the latest changes require a
    build. *)
Definition services_built_earlier : Services :=
  mkServices
    (fun _ => false)
    getPlatformData
    (fun _ _ _ => "earlier") true
    (fun _ => "app-emulator.apk") (fun _ => "app-device.apk")
    (fun _ _ => true)
    (fun file _ => file)
    (fun _ _ files => map (fun f => mkPathData f f) (default [] files))
    (fun p => p) "iOS".

Definition liveSyncData : ILiveSyncData :=
  mkLiveSyncData "android" "org.example.app" "/proj/platforms/android/app" [].

Definition androidDevice : IDevice := mkDevice "dev1" "Android" false.

Definition iosDevice : IDevice := mkDevice "sim1" "iOS" true.

Definition world (project : list (string * node)) (socket : bool) : World :=
  mkWorld (disk 10 project) [] socket 0.

(** A batch whose only file is the project manifest: it requires a build,
    so the action is the deploy cycle. *)
Definition deploy_batch (refreshFails : bool) : World * result unit :=
  PlatformLiveSyncServiceBase.batchSyncAction (services refreshFails)
    liveSyncData projectData 10 ["package.json"] false androidDevice
    (world livesync_project false).

(** A partial sync of one script to an iOS simulator whose debugger socket
    is connected, with [liveEdit] on. *)
Definition page_refresh : World * result (Sync unit) :=
  IOSLiveSyncService.refreshApplication (services false) options iosDevice true
    (mkAppData "org.example.app" iosDevice "iOS")
    [mkPathData "/proj/app/page.js" "app/page.js"] false
    (world livesync_project true).

Definition diverged_state : Source.t :=
  Source.mk 0
    [ Source.initialApp;
      bar "1.1.0" Availability.Available;
      bar "1.2.0" Availability.NotInstalled ]
    [("bar", 1%nat)] ["ios"; "android"].

(** The value of a computation that returns, [d] otherwise. *)
Definition the {A} (d : A) (r : result A) : A :=
  match r with Done a => a | _ => d end.

Definition android : Target.t := Target.Android projectPath.

Definition source_of (project : list (string * node)) : Source.t :=
  the (Source.mk 0 [] [] [])
    (Source.create Semver.gt projectPath (disk 10 project) 10 ["ios"; "android"]).

Definition emptyDelta : IDelta :=
  mkDelta JsObj.empty JsObj.empty JsObj.empty JsObj.empty.

(** The first rebuild of the Android target: the delta and the disk it
    leaves. *)
Definition first_delta (project : list (string * node)) : IDelta :=
  the emptyDelta
    (Target.rebuildDelta android (source_of project) (disk 10 project)).

Definition after_first (project : list (string * node)) : IFileSystem :=
  (the (false, disk 10 project)
     (Target.applyDelta android (first_delta project) (disk 10 project))).2.

(** Scenario S1 with the dependency written [./foo] in the manifest of the
    application. *)
Definition dot_project : list (string * node) :=
  [ ("package.json", manifest 1 "1.0.0" [("./foo", "*")]);
    ("app", dir 1 [("main.js", file 1)]);
    ("node_modules", dir 1
       [ ("foo", dir 1
            [ ("package.json", manifest 1 "1.0.0" []);
              ("index.js", file 1) ]) ]);
    ("platforms", dir 1 []) ].

(** An application whose only script is stamped after the clock (10). *)
Definition future_project : list (string * node) :=
  [ ("package.json", manifest 1 "1.0.0" []);
    ("app", dir 1 [("main.js", file 100)]);
    ("platforms", dir 1 []) ].

(** Scenario S1 after an earlier build left a script and a directory in
    the output that the sources no longer have. *)
Definition stale_project : list (string * node) :=
  [ ("package.json", manifest 1 "1.0.0" [("foo", "*")]);
    ("app", dir 1 [("main.js", file 1)]);
    ("node_modules", dir 1
       [ ("foo", dir 1
            [ ("package.json", manifest 1 "1.0.0" []);
              ("index.js", file 1) ]) ]);
    ("platforms", dir 1
       [("android", dir 1
           [("src", dir 1
               [("main", dir 1
                   [("assets", dir 1
                       [("app", dir 1
                           [ ("old.js", file 1);
                             ("gone", dir 1 []) ])])])])])]) ].

(** Two dependencies that each bring their own copy of [bar], in
    different versions. *)
Definition diverged_project : list (string * node) :=
  [ ("package.json", manifest 1 "1.0.0" [("a", "*"); ("b", "*")]);
    ("app", dir 1 [("main.js", file 1)]);
    ("node_modules", dir 1
       [ ("a", dir 1
            [ ("package.json", manifest 1 "1.0.0" [("bar", "*")]);
              ("node_modules", dir 1
                 [("bar", dir 1 [("package.json", manifest 1 "1.1.0" [])])]) ]);
         ("b", dir 1
            [ ("package.json", manifest 1 "1.0.0" [("bar", "*")]);
              ("node_modules", dir 1
                 [("bar", dir 1 [("package.json", manifest 1 "1.2.0" [])])]) ]) ]) ].

(** The first phase of the constructor of [Project.Source]. *)
Definition selection (project : list (string * node)) : result Source.t :=
  Source.selectDependencyPackages Semver.gt projectPath (disk 10 project) 10 0
    (Source.mk 0 [Source.initialApp] JsObj.empty ["ios"; "android"]).

(** The package the selection leaves at [addr] for [diverged_project]. *)
Definition selected_package (addr : nat) : IPackage.t :=
  default Source.initialApp
    (Source.heap (the (Source.mk 0 [] [] []) (selection diverged_project))
       !! addr).

(** A watcher of the live-sync project that excludes [*.tmp] files given
    by name and whose digest of a text is the text. *)
Definition digest (c : content) : string :=
  match c with CText t => t | _ => "json" end.

Definition watch (fs : IFileSystem) (event filePath : string)
    (this : PartialSync.t) : PartialSync.t * result unit :=
  PartialSync.partialSync "App_Resources" digest String.eqb (fun _ => false)
    (mkLiveSyncData "android" "org.example.app" "/proj/platforms/android/app"
       ["/proj/app/page.tmp"])
    fs event filePath this.

Definition idle : PartialSync.t := PartialSync.mk ∅ [] [].

(** An application with resources for iOS, seen from the root directory
    instead of the directory of the project. *)
Definition resources_project : list (string * node) :=
  [ ("package.json", manifest 1 "1.0.0" []);
    ("app", dir 1
       [ ("main.js", file 1);
         ("App_Resources", dir 1 [("ios", dir 1 [("Info.plist", file 1)])]) ]) ].

Definition away_disk : IFileSystem :=
  mkFs (dir 0 [("proj", dir 0 resources_project)]) "/" 10.

(** Scenario S1 after an earlier build left the directory [old] with
    the script [f.js] in the output. *)
Definition leftover_project : list (string * node) :=
  [ ("package.json", manifest 1 "1.0.0" [("foo", "*")]);
    ("app", dir 1 [("main.js", file 1)]);
    ("node_modules", dir 1
       [ ("foo", dir 1
            [ ("package.json", manifest 1 "1.0.0" []);
              ("index.js", file 1) ]) ]);
    ("platforms", dir 1
       [("android", dir 1
           [("src", dir 1
               [("main", dir 1
                   [("assets", dir 1
                       [("app", dir 1
                           [("old", dir 1 [("f.js", file 1)])])])])])])]) ].

(** The deletions the first [applyDelta] of a project starts. *)
Definition first_started (project : list (string * node)) : list FsCall :=
  Target.startedCalls android (first_delta project).

(** A rebuild of the Android target of a project; the disk once the
    deletions it started have been carried out, in the order opposite to
    the one they were started in; and the rebuild that follows. *)
Definition rebuilt (project : list (string * node))
    : IProjectBuildResult * IFileSystem :=
  the (mkBuildResult false false, disk 10 project)
    (Target.rebuild android (source_of project) dateString (disk 10 project)).

Definition settled (project : list (string * node)) : IFileSystem :=
  Target.carriedOut (rev (first_started project)) (rebuilt project).2.

Definition rebuilt_again (project : list (string * node))
    : IProjectBuildResult * IFileSystem :=
  the (mkBuildResult false false, settled project)
    (Target.rebuild android (source_of project) dateString (settled project)).

End Examples.

(** * Properties *)

(** ** The change classifier *)

Section UpwardWalk.

Variables (projectDir : string) (fs : IFileSystem).

Lemma upwardWalk_unfold fuel file filePath :
  ChangeClassifier.upwardWalk (S fuel) file projectDir fs filePath =
  if String.eqb filePath "node_modules" then Done false
  else
    let filePath := Path.dirname filePath in
    let fullFilePath :=
      Path.join projectDir (Path.join filePath "package.json") in
    if Fs.exists_ fs fullFilePath then
      json ← Fs.readJson fs fullFilePath;
      if has_nativescript json
         && Js.startsWith file (Path.join filePath "platforms")
      then Done true
      else ChangeClassifier.upwardWalk fuel file projectDir fs filePath
    else ChangeClassifier.upwardWalk fuel file projectDir fs filePath.
Proof. reflexivity. Qed.

(** Once the walk has reached ["."] it stays there: [dirname "."] is
    ["."], which is not ["node_modules"], and [ChangeClassifier.stray_file] is not below
    ["platforms"]. *)
Lemma upwardWalk_stuck_at_dot fuel :
  returned (ChangeClassifier.upwardWalk fuel ChangeClassifier.stray_file projectDir fs ".")
  = false.
Proof.
  induction fuel as [|fuel IH]; [reflexivity|].
  rewrite upwardWalk_unfold.
  change (String.eqb "." "node_modules") with false.
  change (Path.dirname ".") with ".".
  cbv zeta.
  change (Js.startsWith ChangeClassifier.stray_file (Path.join "." "platforms")) with false.
  destruct (Fs.exists_ fs _); [|exact IH].
  destruct (Fs.readJson fs _) as [json| |]; cbn; try reflexivity.
  rewrite andb_false_r. exact IH.
Qed.

Lemma upwardWalk_stray_dir fuel :
  returned
    (ChangeClassifier.upwardWalk fuel ChangeClassifier.stray_file projectDir fs "node_modules_old")
  = false.
Proof.
  destruct fuel as [|fuel]; [reflexivity|].
  rewrite upwardWalk_unfold.
  change (String.eqb "node_modules_old" "node_modules") with false.
  change (Path.dirname "node_modules_old") with ".".
  cbv zeta.
  change (Js.startsWith ChangeClassifier.stray_file (Path.join "." "platforms")) with false.
  destruct (Fs.exists_ fs _); [|apply upwardWalk_stuck_at_dot].
  destruct (Fs.readJson fs _) as [json| |]; cbn; try reflexivity.
  rewrite andb_false_r. apply upwardWalk_stuck_at_dot.
Qed.

(** C10 (refuted on the code): [fileChangeRequiresBuild] does not return a
    Boolean for every path.  For the path ["node_modules_old/x.js"], which
    begins with the characters [node_modules] but whose first segment is
    another directory, no number of loop iterations makes the call return,
    whatever the project directory and the file system are: the upward
    [dirname] walk passes ["node_modules_old"], reaches ["."] and stays
    there, and the loop only stops at ["node_modules"]. *)
Theorem fileChangeRequiresBuild_stray_never_returns :
  ∀ fuel : nat,
    returned
      (ChangeClassifier.fileChangeRequiresBuild fuel ChangeClassifier.stray_file projectDir fs)
    = false.
Proof.
  intros fuel.
  unfold ChangeClassifier.fileChangeRequiresBuild.
  change (String.eqb (Path.basename ChangeClassifier.stray_file) "package.json") with false.
  change (Js.startsWith ChangeClassifier.stray_file "node_modules") with true.
  change (Js.startsWith ChangeClassifier.stray_file (Path.join "node_modules" "tns-core-modules"))
    with false.
  cbn [negb].
  destruct fuel as [|fuel]; [reflexivity|].
  rewrite upwardWalk_unfold.
  change (String.eqb ChangeClassifier.stray_file "node_modules") with false.
  change (Path.dirname ChangeClassifier.stray_file) with "node_modules_old".
  cbv zeta.
  change (Js.startsWith ChangeClassifier.stray_file (Path.join "node_modules_old" "platforms"))
    with false.
  destruct (Fs.exists_ fs _); [|apply upwardWalk_stray_dir].
  destruct (Fs.readJson fs _) as [json| |]; cbn; try reflexivity.
  rewrite andb_false_r. apply upwardWalk_stray_dir.
Qed.

End UpwardWalk.

(** ** [ProjectChangesInfo]: when the prepare-info record is rewritten *)

(** Case analysis on the first awaited call of a sequence. *)
Tactic Notation "bind_step" hyp(H) "as" simple_intropattern(a) ident(E) :=
  match type of H with
  | mbind _ ?m = _ =>
      destruct m as [a| |] eqn:E;
      [ cbn [mbind result_bind] in H | discriminate H | discriminate H ]
  | (match ?m with Done _ => _ | Threw => _ | Fuel => _ end) = _ =>
      destruct m as [a| |] eqn:E; [ | discriminate H | discriminate H ]
  end.

Section NewFilesCounter.

Variables (fs : IFileSystem) (projectDir : string).
Variables (skipDir : option string) (mtime : Z).
Variable processFunc : option (string → string → IFileSystem → result bool).

Abbreviation counted := (ProjectChangesInfo.counted processFunc).

Lemma counted_mono k0 k1 r : (k0 ≤ k1)%nat → counted k1 r → counted k0 r.
Proof.
  intros Hle Hr b k E. destruct (Hr b k E) as [H1 H2].
  split; [lia|]. intros Hb Hp. specialize (H2 Hb Hp). lia.
Qed.

Lemma entriesLoop_counted recurse dir files :
  Forall (fun e => ∀ d k0, counted k0 (recurse e.2 d k0)) files →
  ∀ k0, counted k0
    (ProjectChangesInfo.entriesLoop fs projectDir skipDir mtime processFunc
       recurse dir files k0).
Proof.
  induction 1 as [|[file fileNode] rest Hhd _ IH]; intros k0.
  - intros b k [= <- <-]. split; [lia|discriminate].
  - cbn [ProjectChangesInfo.entriesLoop]. cbn [snd] in Hhd.
    fold (ProjectChangesInfo.entriesLoop fs projectDir skipDir mtime
            processFunc recurse dir).
    case_bool_decide; [apply IH|].
    assert (Hdescend : ∀ k1, (k0 ≤ k1)%nat →
              counted k0
                (if isDirectory fileNode then
                   '(found, newFiles) ← recurse fileNode (Path.join dir file) k1;
                   if found : bool then Done (true, newFiles)
                   else ProjectChangesInfo.entriesLoop fs projectDir skipDir
                          mtime processFunc recurse dir rest newFiles
                 else ProjectChangesInfo.entriesLoop fs projectDir skipDir
                        mtime processFunc recurse dir rest k1)).
    { intros k1 Hk1. destruct (isDirectory fileNode).
      - intros b k E. bind_step E as [found k2] E0.
        destruct (Hhd _ _ _ _ E0) as [Hk2 Hk2'].
        destruct found.
        + injection E as <- <-. split; [lia|].
          intros _ Hp. specialize (Hk2' eq_refl Hp). lia.
        + eapply (counted_mono k0 k2); [lia|apply IH|exact E].
      - eapply counted_mono; [exact Hk1|apply IH]. }
    destruct (_ || _).
    + destruct processFunc as [process|] eqn:Hp.
      * intros b k E. bind_step E as b0 E0. destruct b0.
        -- injection E as <- <-. split; [lia|]. intros _ _. lia.
        -- exact (Hdescend (S k0) ltac:(lia) b k E).
      * intros b k [= <- <-]. split; [lia|]. intros _ [? [=]].
    + apply (Hdescend k0). lia.
Qed.

Lemma containsNewerFiles_counted n :
  ∀ dir k0, counted k0
    (ProjectChangesInfo.containsNewerFiles fs projectDir skipDir mtime
       processFunc n dir k0).
Proof.
  induction n as [st c|st es IH] using node_ind; intros dir k0.
  - intros b k [=].
  - cbn [ProjectChangesInfo.containsNewerFiles].
    apply entriesLoop_counted. exact IH.
Qed.

Lemma containsNewerFilesAt_counted dir k0 :
  counted k0
    (ProjectChangesInfo.containsNewerFilesAt fs projectDir dir skipDir mtime
       processFunc k0).
Proof.
  unfold ProjectChangesInfo.containsNewerFilesAt.
  destruct (Fs.stat fs dir); [apply containsNewerFiles_counted|].
  intros b k [=].
Qed.

End NewFilesCounter.

Section PrepareInfoStore.

Import ProjectChangesInfo.

Variables (dateString : Z → string) (fuel : nat).
Variables (platform : string) (force skipModulesAndResources : bool).
Variable getPlatformData : string → IPlatformData.
Variable projectData : IProjectData.
Variable devicePlatformsConstants : IDevicePlatformsConstants.
Variable options : IOptions.
Variable fs : IFileSystem.

(** [nativeChanged] is only ever set by the walk that also counts
    [newFiles], so it implies [modulesChanged]; and the rewrite happens
    exactly when [hasChanges] holds. *)
Lemma create_inv this written fs' :
  create dateString fuel platform force skipModulesAndResources
    getPlatformData projectData devicePlatformsConstants options fs
  = Done (this, written, fs') →
  (nativeChanged this = true → modulesChanged this = true)
  ∧ (is_Some written ↔ hasChanges this = true)
  ∧ (∀ p, written = Some p →
       time p = dateString (fs_now fs) ∧ prepareInfo this = p).
Proof.
  unfold create. intros H.
  bind_step H as this0 E.
  assert (Hnat : nativeChanged this0 = true → modulesChanged this0 = true).
  { clear H. destruct (force || _).
    - injection E as <-. reflexivity.
    - bind_step E as buildInfoStats E1. bind_step E as stored E2.
      bind_step E as [appFiles k1] E3.
      bind_step E as [[[[[pkg res] nat_] mods] cfg] k2] E4.
      injection E as <-. cbn [nativeChanged modulesChanged]. intros Hn.
      destruct skipModulesAndResources; cbn [negb] in E4.
      + injection E4 as <- <- <- <- <- <-. discriminate Hn.
      + bind_step E4 as [res' k3] E5.
        bind_step E4 as [nat' k4] E6.
        injection E4 as <- <- <- <- <- <-. subst nat'.
        destruct (containsNewerFilesAt_counted _ _ _ _ _ _ _ _ _ E6)
          as [_ Hk4].
        specialize (Hk4 eq_refl (ex_intro _ _ eq_refl)).
        rewrite (bool_decide_eq_true_2 (0 < k4)%nat) by lia.
        repeat match goal with
               | |- context [if ?b then _ else _] => destruct b
               end; reflexivity. }
  destruct (hasChanges this0) eqn:Hch.
  - bind_step H as fs1 E1. injection H as <- <- <-.
    cbn [nativeChanged modulesChanged prepareInfo time].
    split; [exact Hnat|]. split.
    + split; [intros _|intros _; eexists; reflexivity].
      revert Hch. unfold hasChanges. cbn. exact id.
    + intros p [= <-]. split; reflexivity.
  - injection H as <- <- <-.
    split; [exact Hnat|]. split.
    + rewrite Hch. split; [intros [? [=]]|discriminate].
    + intros p [=].
Qed.

End PrepareInfoStore.

(** ** The package graph *)

Section ConflictResolution.

Variable semver_gt : option string → option string → result bool.

Lemma heap_update_eq pack f this p :
  Source.heap this !! pack = Some p →
  Source.heap (Source.update pack f this) !! pack = Some (f p).
Proof.
  intros H. unfold Source.update. cbn [Source.heap].
  rewrite list_lookup_alter_eq, H. reflexivity.
Qed.

Lemma heap_update_ne pack f this q :
  pack ≠ q →
  Source.heap (Source.update pack f this) !! q = Source.heap this !! q.
Proof.
  intros H. unfold Source.update. cbn [Source.heap].
  apply list_lookup_alter_ne. exact H.
Qed.

Lemma get_set_eq {V} k (v : V) o : JsObj.get k (JsObj.set k v o) = Some v.
Proof.
  induction o as [|[k' v'] o IH]; cbn.
  - rewrite String.eqb_refl. reflexivity.
  - destruct (String.eqb k' k) eqn:E; cbn; rewrite E; [reflexivity|exact IH].
Qed.

Lemma get_set_ne {V} k k' (v : V) o :
  k ≠ k' → JsObj.get k' (JsObj.set k v o) = JsObj.get k' o.
Proof.
  intros Hne. induction o as [|[k0 v0] o IH]; cbn.
  - destruct (String.eqb_spec k k'); [contradiction|reflexivity].
  - destruct (String.eqb_spec k0 k) as [->|]; cbn.
    + destruct (String.eqb_spec k k'); [contradiction|reflexivity].
    + destruct (String.eqb_spec k0 k'); [reflexivity|exact IH].
Qed.

(** C2: the conflict resolution of [selectDependencyPackages].  When the
    package [p] at address [pack] is reached and its name already maps to
    the package [o] at address [other] in the [dependencies] table, then:
    if [semver.gt(version(p), version(o))] holds, [p] becomes [Available]
    and takes the table entry while [o] becomes [ShadowedByDiverged];
    otherwise (equal versions included) [p] becomes [ShadowedByDiverged],
    the table is unchanged and [o] keeps its entry and its availability. *)
Theorem resolveName_higher_version_wins
    (this : Source.t) (pack other : nat) (p p0 o : IPackage.t)
    (j oj : IJson) (gt : bool) :
  JsObj.get (IPackage.name p) (Source.dependencies this) = Some other →
  Source.heap this !! other = Some o →
  IPackage.packageJson o = Some oj →
  Source.heap this !! pack = Some p0 →
  other ≠ pack →
  semver_gt (json_version j) (json_version oj) = Done gt →
  ∃ this',
    Source.resolveName semver_gt pack p j this = Done this'
    ∧ if gt then
        (IPackage.availability <$> Source.heap this' !! pack)
          = Some Availability.Available
        ∧ JsObj.get (IPackage.name p) (Source.dependencies this') = Some pack
        ∧ (IPackage.availability <$> Source.heap this' !! other)
          = Some Availability.ShadowedByDiverged
      else
        (IPackage.availability <$> Source.heap this' !! pack)
          = Some Availability.ShadowedByDiverged
        ∧ Source.dependencies this' = Source.dependencies this
        ∧ JsObj.get (IPackage.name p) (Source.dependencies this') = Some other
        ∧ Source.heap this' !! other = Some o.
Proof.
  intros Hget Ho Hoj Hp Hne Hgt.
  unfold Source.resolveName. rewrite Hget.
  unfold Source.deref. rewrite Ho. cbn [of_option mbind result_bind].
  rewrite Hoj. cbn [of_option mbind result_bind].
  rewrite Hgt. cbn [mbind result_bind].
  destruct gt; eexists; (split; [reflexivity|]).
  - repeat split.
    + cbn [Source.register Source.heap].
      rewrite heap_update_ne by exact Hne.
      erewrite heap_update_eq by exact Hp. reflexivity.
    + cbn [Source.register Source.dependencies]. apply get_set_eq.
    + cbn [Source.register Source.heap].
      erewrite heap_update_eq; [reflexivity|].
      rewrite heap_update_ne by (intros ->; exact (Hne eq_refl)).
      exact Ho.
  - repeat split.
    + erewrite heap_update_eq by exact Hp. reflexivity.
    + exact Hget.
    + rewrite heap_update_ne by (intros ->; exact (Hne eq_refl)). exact Ho.
Qed.

End ConflictResolution.

(** The theorem applied to [bar@1.2.0] reaching the entry of [bar@1.1.0]. *)
Lemma resolveName_higher_version_wins_witness :
  ∃ this',
    Source.resolveName Semver.gt 2
      (Examples.bar "1.2.0" Availability.NotInstalled)
      (mkJson None (Some "1.2.0") [] None) Examples.diverged_state = Done this'
    ∧ (IPackage.availability <$> Source.heap this' !! 2%nat)
        = Some Availability.Available
    ∧ JsObj.get "bar" (Source.dependencies this') = Some 2%nat
    ∧ (IPackage.availability <$> Source.heap this' !! 1%nat)
        = Some Availability.ShadowedByDiverged.
Proof.
  exact (resolveName_higher_version_wins Semver.gt Examples.diverged_state
           2 1 (Examples.bar "1.2.0" Availability.NotInstalled)
           (Examples.bar "1.2.0" Availability.NotInstalled)
           (Examples.bar "1.1.0" Availability.Available)
           (mkJson None (Some "1.2.0") [] None)
           (mkJson None (Some "1.1.0") [] None) true
           eq_refl eq_refl eq_refl eq_refl ltac:(discriminate) eq_refl).
Defined.

(** C1 (refuted on the code): the graph built for [Examples.nested_project],
    where the dependency [foo] ships a sub-directory [lib] with its own
    [package.json] next to a dependency named [lib].  [listNestedPackageFiles]
    demotes [foo], which stays in the table, so the entry stored under
    ["foo"] is [ShadowedByDiverged]; and the nested package [lib] (address
    3) keeps the availability [Available] it was created with, like the
    dependency [lib] (address 2). *)
Theorem nested_collision_breaks_invariant :
  ∃ source,
    Examples.nested_source = Done source
    ∧ (IPackage.availability <$> Source.dependency source "foo")
        = Some Availability.ShadowedByDiverged
    ∧ (IPackage.name <$> Source.heap source !! 2%nat) = Some "lib"
    ∧ (IPackage.name <$> Source.heap source !! 3%nat) = Some "lib"
    ∧ (IPackage.availability <$> Source.heap source !! 2%nat)
        = Some Availability.Available
    ∧ (IPackage.availability <$> Source.heap source !! 3%nat)
        = Some Availability.Available.
Proof. eexists. split; [vm_compute; reflexivity|]. vm_compute. tauto. Qed.

(** ** [Project.rebuild] *)

(** C6 (refuted on the code): on the project of scenario S1, the rebuild
    of the Android target changes scripts and the native project, but
    [Project.rebuild("android")] returns the result of the iOS target,
    which was never rebuilt. *)
Theorem rebuild_android_returns_ios_result :
  (Project.rebuild Semver.gt Examples.dateString 10 Examples.projectPath
     "android" Examples.s1_disk ≫= fun r => Done r.1)
    = Done (mkBuildResult false false)
  ∧ Project.requestedResult Semver.gt Examples.dateString 10
      Examples.projectPath "android" Examples.s1_disk
    = Done (Some (mkBuildResult true true)).
Proof. split; vm_compute; reflexivity. Qed.

(** ** The desired delta *)

Section StringFacts.

Lemma append_cons a (u v : string) : String a u +:+ v = String a (u +:+ v).
Proof. reflexivity. Qed.

Lemma append_nil_l (v : string) : "" +:+ v = v.
Proof. reflexivity. Qed.

Lemma length_append (u v : string) :
  String.length (u +:+ v) = (String.length u + String.length v)%nat.
Proof.
  induction u as [|a u IH]; [reflexivity|].
  rewrite append_cons. cbn. congruence.
Qed.

Lemma append_assoc (u v w : string) : (u +:+ v) +:+ w = u +:+ v +:+ w.
Proof.
  induction u as [|a u IH]; [reflexivity|].
  rewrite !append_cons. congruence.
Qed.

Lemma append_nil_r (u : string) : u +:+ "" = u.
Proof.
  induction u as [|a u IH]; [reflexivity|].
  rewrite append_cons. congruence.
Qed.

Lemma substring_length_le (s : string) i n :
  (String.length (String.substring i n s) ≤ n)%nat.
Proof.
  revert i n. induction s as [|a s IH]; intros [|i] [|n]; cbn; try lia.
  - specialize (IH 0%nat n). lia.
  - apply (IH i 0%nat).
  - apply (IH i (S n)).
Qed.

(** A full-length substring at [i] splits the string in three. *)
Lemma substring_decompose (s : string) i n :
  String.length (String.substring i n s) = n →
  s = String.substring 0 i s +:+ String.substring i n s
      +:+ String.substring (i + n) (String.length s - (i + n)) s.
Proof.
  revert i n. induction s as [|a s IH]; intros i n H.
  - destruct i, n; cbn in *; try reflexivity; discriminate.
  - destruct i as [|i].
    + destruct n as [|n]; cbn [String.substring Nat.add].
      * rewrite !append_nil_l. cbn. f_equal. clear.
        induction s as [|b s IH]; cbn; [reflexivity|].
        f_equal. exact IH.
      * cbn in H. injection H as H. rewrite append_nil_l, append_cons.
        f_equal. specialize (IH 0%nat n H).
        assert (H0 : ∀ t, String.substring 0 0 t = "") by (intros [|]; reflexivity).
        rewrite H0, append_nil_l in IH. exact IH.
    + cbn [String.substring Nat.add String.length Nat.sub].
      rewrite append_cons. f_equal. apply IH. exact H.
Qed.

Lemma substring_prefix_length (s : string) i :
  (String.length (String.substring 0 i s) ≤ i)%nat.
Proof. apply substring_length_le. Qed.

(** [String.prototype.replace] with a string pattern replaces the
    leftmost occurrence only. *)
Lemma replace_first_occurrence (s pat rep : string) :
  pat ≠ "" → first_replaced s pat rep (Js.replace s pat rep).
Proof.
  intros Hpat. unfold Js.replace, Js.indexOf.
  destruct (String.index 0 pat s) as [i|] eqn:E.
  - right. exists (Js.slice0 i s), (Js.substr (i + String.length pat) s).
    pose proof (String.index_correct1 _ _ _ _ E) as Hat.
    split; [|split; [reflexivity|]].
    + unfold Js.slice0, Js.substr.
      pose proof (substring_decompose s i (String.length pat)) as Hd.
      rewrite Hat in Hd. exact (Hd eq_refl).
    + intros m Hm. apply (String.index_correct2 _ _ _ _ E); [lia|].
      pose proof (substring_prefix_length s i). unfold Js.slice0 in Hm. lia.
  - left. split; [reflexivity|].
    intros m. apply (String.index_correct3 0 m _ _ E Hpat). lia.
Qed.

End StringFacts.

Section JsObjFacts.

Context {V : Type}.

Lemma get_set_inv k k' (v v' : V) o :
  JsObj.get k' (JsObj.set k v o) = Some v' →
  (k' = k ∧ v' = v) ∨ JsObj.get k' o = Some v'.
Proof.
  destruct (decide (k = k')) as [->|Hne].
  - rewrite get_set_eq. intros [= <-]. left. split; reflexivity.
  - rewrite get_set_ne by exact Hne. right. assumption.
Qed.

Lemma has_set k k' (v : V) o :
  JsObj.has k' o = true → JsObj.has k' (JsObj.set k v o) = true.
Proof.
  unfold JsObj.has. destruct (decide (k = k')) as [->|Hne].
  - rewrite get_set_eq. reflexivity.
  - rewrite get_set_ne by exact Hne. exact id.
Qed.

Lemma has_set_eq k (v : V) o : JsObj.has k (JsObj.set k v o) = true.
Proof. unfold JsObj.has. rewrite get_set_eq. reflexivity. Qed.

Lemma get_Some_keys k (v : V) o : JsObj.get k o = Some v → k ∈ JsObj.keys o.
Proof.
  induction o as [|[k' v'] o IH]; cbn; [discriminate|].
  destruct (String.eqb_spec k' k) as [->|]; intros H.
  - apply list_elem_of_here.
  - apply list_elem_of_further, IH, H.
Qed.

End JsObjFacts.

Section ForEachFacts.

Context {A S : Type}.

(** An invariant of the state carries over a [forEach] whose body keeps
    it. *)
Lemma forEach_invariant (P : S → Prop) (body : A → S → result S) xs :
  (∀ x s s', x ∈ xs → P s → body x s = Done s' → P s') →
  ∀ s s', P s → forEach body xs s = Done s' → P s'.
Proof.
  induction xs as [|x xs IH]; intros Hbody s s' Hs H; cbn in H.
  - injection H as <-. exact Hs.
  - destruct (body x s) as [s1| |] eqn:E; cbn in H; try discriminate.
    eapply IH; [|eapply Hbody; [apply list_elem_of_here|exact Hs|exact E]|exact H].
    intros y t t' Hy. apply Hbody. apply list_elem_of_further, Hy.
Qed.

End ForEachFacts.

Section BuildDelta.

Variable this : Target.t.
Variable source : Source.t.

Abbreviation modules := (out_modules (Target.output this)).
Abbreviation suffix := ("." +:+ Target.platform this +:+ ".").

(** No platform other than the target's marks the name of [file]. *)
Lemma otherPlatform_false file :
  Target.otherPlatform this source file = false ↔
  ∀ other, other ∈ Source.platforms source → other ≠ Target.platform this →
           Js.includes (IFile.name file) ("." +:+ other +:+ ".") = false.
Proof.
  unfold Target.otherPlatform, Target.platformSuffixFilter.
  rewrite <- not_true_iff_false, existsb_exists. split.
  - intros H other Hin Hne. apply not_true_iff_false. intros Hinc. apply H.
    exists ("." +:+ other +:+ "."). split; [|exact Hinc].
    apply list_elem_of_In, list_elem_of_fmap. exists other. split; [reflexivity|].
    apply list_elem_of_filter. split; assumption.
  - intros H (f & Hf & Hinc).
    apply list_elem_of_In, list_elem_of_fmap in Hf as (other & -> & Hother).
    apply list_elem_of_filter in Hother as [Hne Hin].
    rewrite (H other Hin Hne) in Hinc. discriminate.
Qed.

Lemma copyAll_origin pack files : ∀ delta to f,
  JsObj.get to
    (copy (foldl (fun delta file =>
                    if Target.otherPlatform this source file then delta
                    else Target.set_copy (Target.copyTarget this pack file) file delta)
                 delta files)) = Some f →
  JsObj.get to (copy delta) = Some f
  ∨ (f ∈ files ∧ Target.otherPlatform this source f = false
     ∧ to = Target.copyTarget this pack f).
Proof.
  induction files as [|file files IH]; intros delta to f H; cbn in H.
  - left. exact H.
  - apply IH in H as [H|(Hin & Hother & Hto)].
    + destruct (Target.otherPlatform this source file) eqn:E; [left; exact H|].
      cbn [Target.set_copy copy] in H.
      apply get_set_inv in H as [[-> ->]|H]; [right|left; exact H].
      split; [apply list_elem_of_here|]. split; [exact E|reflexivity].
    + right. split; [apply list_elem_of_further, Hin|]. split; assumption.
Qed.

Lemma copyAll_keeps pack files : ∀ delta k,
  JsObj.has k (copy delta) = true →
  JsObj.has k
    (copy (foldl (fun delta file =>
                    if Target.otherPlatform this source file then delta
                    else Target.set_copy (Target.copyTarget this pack file) file delta)
                 delta files)) = true.
Proof.
  induction files as [|file files IH]; intros delta k H; cbn; [exact H|].
  apply IH. destruct (Target.otherPlatform this source file); [exact H|].
  cbn [Target.set_copy copy]. apply has_set, H.
Qed.

Lemma copyAll_adds pack files : ∀ delta f,
  f ∈ files → Target.otherPlatform this source f = false →
  JsObj.has (Target.copyTarget this pack f)
    (copy (foldl (fun delta file =>
                    if Target.otherPlatform this source file then delta
                    else Target.set_copy (Target.copyTarget this pack file) file delta)
                 delta files)) = true.
Proof.
  induction files as [|file files IH]; intros delta f Hin Hother.
  - apply elem_of_nil in Hin as [].
  - cbn. apply elem_of_cons in Hin as [->|Hin]; [|apply IH; assumption].
    rewrite Hother. apply copyAll_keeps.
    cbn [Target.set_copy copy]. apply has_set_eq.
Qed.

Lemma mkdirAll_copy pack delta :
  copy (Target.mkdirAll this pack delta) = copy delta.
Proof.
  unfold Target.mkdirAll. destruct (decide _); [reflexivity|].
  assert (Hsplit : ∀ segs start d,
            copy (foldl (fun '(path, delta) dir =>
                           let path := path +:+ dir +:+ Path.sep in
                           (path, Target.set_mkdir path delta))
                        (start, d) segs).2 = copy d).
  { induction segs as [|seg segs IH]; intros start d; cbn; [reflexivity|].
    rewrite IH. reflexivity. }
  destruct (foldl _ _ (Js.split _ _)) as [path d] eqn:E.
  assert (copy d = copy delta) as <-.
  { change d with (path, d).2. rewrite <- E. apply Hsplit. }
  generalize (IPackage.directories pack) d. clear.
  induction l as [|dir dirs IH]; intros d; cbn; [reflexivity|].
  rewrite IH. reflexivity.
Qed.

Abbreviation copy_origin := (Target.copy_origin this source).

Lemma app_copies_origin app files : ∀ delta to f,
  Source.heap source !! Source.app source = Some app →
  files ⊆ IPackage.scriptFiles app →
  JsObj.get to
    (copy (foldl (fun delta file =>
                    Target.set_copy
                      (Target.key_of (Target.mapPath this (IFile.path file)))
                      file delta) delta files)) = Some f →
  JsObj.get to (copy delta) = Some f ∨ copy_origin to f.
Proof.
  induction files as [|file files IH]; intros delta to f Happ Hsub H; cbn in H.
  - left. exact H.
  - apply IH in H as [H|H]; [|right; exact H|exact Happ|set_solver].
    cbn [Target.set_copy copy] in H.
    apply get_set_inv in H as [[-> ->]|H]; [right|left; exact H].
    left. exists app. split; [exact Happ|]. split; [set_solver|reflexivity].
Qed.

Lemma set_mkdirs_copy (dirs : list string) : ∀ delta,
  copy (foldl (fun delta dir => Target.set_mkdir dir delta) delta dirs)
  = copy delta.
Proof. induction dirs as [|d dirs IH]; intros delta; cbn; [|rewrite IH]; reflexivity. Qed.

Lemma buildDelta_copy_facts delta :
  Target.buildDelta this source = Done delta →
  (∀ to f, JsObj.get to (copy delta) = Some f → copy_origin to f)
  ∧ (∀ key addr pack f,
       JsObj.get key (Source.dependencies source) = Some addr →
       Source.heap source !! addr = Some pack →
       f ∈ IPackage.scriptFiles pack →
       Target.otherPlatform this source f = false →
       JsObj.has (Target.copyTarget this pack f) (copy delta) = true).
Proof.
  unfold Target.buildDelta. intros H.
  bind_step H as app Happ.
  unfold Source.deref in Happ.
  destruct (Source.heap source !! Source.app source) as [app'|] eqn:Ha;
    [injection Happ as ->|discriminate].
  match type of H with forEach ?b ?ks ?d0 = _ =>
    set (body := b) in *; set (delta0 := d0) in * end.
  assert (H0 : ∀ to f, JsObj.get to (copy delta0) = Some f → copy_origin to f).
  { intros to f Hget. subst delta0.
    apply (app_copies_origin app) in Hget as [Hget|Hget];
      [|exact Hget|exact Ha|set_solver].
    rewrite set_mkdirs_copy in Hget. unfold Target.mkdirRecursive in Hget.
    rewrite !set_mkdirs_copy in Hget. discriminate. }
  clearbody delta0. split.
  - revert H. generalize dependent delta0.
    intros delta0 H0 H.
    refine (forEach_invariant
              (fun d => ∀ to f, JsObj.get to (copy d) = Some f → copy_origin to f)
              body _ _ delta0 delta H0 H).
    intros key d d' Hkey Hd Hbody to f Hget. unfold body in Hbody.
    bind_step Hbody as addr Haddr. bind_step Hbody as pack Hpack.
    injection Hbody as <-. rewrite mkdirAll_copy in Hget.
    apply copyAll_origin in Hget as [Hget|(Hin & Hother & ->)];
      [apply Hd, Hget|].
    right. exists key, addr, pack.
    destruct (JsObj.get key _) as [a|] eqn:Eg; [|discriminate].
    injection Haddr as ->. unfold Source.deref in Hpack.
    destruct (Source.heap source !! addr) as [p|] eqn:Ep; [|discriminate].
    injection Hpack as ->. repeat split; assumption.
  - intros key addr pack f Hkey Hpack Hin Hother.
    apply get_Some_keys in Hkey as Hk.
    clear H0. revert delta0 H.
    induction (JsObj.keys (Source.dependencies source)) as [|k ks IH];
      intros delta0 H; [apply elem_of_nil in Hk as []|].
    cbn in H. bind_step H as d1 Hd1.
    apply elem_of_cons in Hk as [<-|Hk].
    + unfold body in Hd1. rewrite Hkey in Hd1.
      cbn [of_option mbind result_bind] in Hd1. unfold Source.deref in Hd1.
      rewrite Hpack in Hd1. cbn in Hd1. injection Hd1 as <-.
      refine (forEach_invariant
                (fun d => JsObj.has (Target.copyTarget this pack f) (copy d) = true)
                body _ _ _ delta _ H).
      * intros k d d' _ Hd Hb. unfold body in Hb.
        bind_step Hb as a1 Ha1. bind_step Hb as p1 Hp1. injection Hb as <-.
        rewrite mkdirAll_copy. apply copyAll_keeps, Hd.
      * rewrite mkdirAll_copy. apply copyAll_adds; assumption.
    + exact (IH Hk d1 H).
Qed.

End BuildDelta.

(** ** The order in which [applyDelta] works *)

Section SortOrder.

Lemma ascii_compare_refl a : Ascii.compare a a = Eq.
Proof. unfold Ascii.compare. apply N.compare_refl. Qed.

Lemma ascii_compare_lt_trans a b c :
  Ascii.compare a b = Lt → Ascii.compare b c = Lt → Ascii.compare a c = Lt.
Proof.
  unfold Ascii.compare. rewrite !N.compare_lt_iff. apply N.lt_trans.
Qed.

Lemma leb_cons a s b t :
  String.leb (String a s) (String b t) = true ↔
  Ascii.compare a b = Lt ∨ (a = b ∧ String.leb s t = true).
Proof.
  unfold String.leb. cbn [String.compare].
  destruct (Ascii.compare a b) eqn:E.
  - apply Ascii.compare_eq_iff in E as ->.
    split; [intros H; right; split; [reflexivity|exact H]|].
    intros [[=]|[_ H]]. exact H.
  - split; [left; reflexivity|reflexivity].
  - split; [discriminate|]. intros [[=]|[-> _]].
    rewrite ascii_compare_refl in E. discriminate.
Qed.

#[export] Instance le_trans : Transitive Js.le.
Proof.
  unfold Js.le. intros a. induction a as [|x a IH]; intros [|y b] [|z c];
    try reflexivity; try discriminate.
  rewrite !leb_cons. intros [Hxy|[-> Hab]] [Hyz|[-> Hbc]].
  - left. eapply ascii_compare_lt_trans; eassumption.
  - left. exact Hxy.
  - left. exact Hyz.
  - right. split; [reflexivity|]. eapply IH; eassumption.
Qed.

#[export] Instance le_total : Total Js.le.
Proof. intros a b. apply String.leb_total. Qed.

#[export] Instance le_antisym : AntiSymm (=) Js.le.
Proof. intros a b. apply String.leb_antisym. Qed.

(** A path sorts before every path it is a prefix of. *)
Lemma le_prefix (p r : string) : Js.le p (p +:+ r).
Proof.
  unfold Js.le. induction p as [|x p IH].
  - destruct r; reflexivity.
  - rewrite append_cons, leb_cons. right. split; [reflexivity|exact IH].
Qed.

Lemma append_neq (p r : string) : r ≠ "" → p +:+ r ≠ p.
Proof.
  intros Hr H. apply (f_equal String.length) in H.
  rewrite length_append in H. destruct r; [contradiction|cbn in H; lia].
Qed.

Lemma sort_sorted (l : list string) : StronglySorted Js.le (Js.sort l).
Proof. apply StronglySorted_merge_sort; apply _. Qed.

Lemma sort_perm (l : list string) : Js.sort l ≡ₚ l.
Proof. apply merge_sort_Permutation. Qed.

Lemma sort_elem_of (l : list string) x : x ∈ Js.sort l ↔ x ∈ l.
Proof. rewrite sort_perm. reflexivity. Qed.

End SortOrder.

Section Before.

Context {A B : Type}.

Lemma before_app_l (x y : A) l l' : before x y l → before x y (l ++ l').
Proof.
  intros (l1 & l2 & l3 & ->). exists l1, l2, (l3 ++ l').
  rewrite <- !app_assoc. cbn. rewrite <- app_assoc. reflexivity.
Qed.

Lemma before_app_r (x y : A) l l' : before x y l → before x y (l' ++ l).
Proof.
  intros (l1 & l2 & l3 & ->). exists (l' ++ l1), l2, l3.
  rewrite <- app_assoc. reflexivity.
Qed.

Lemma before_app (x y : A) l l' : x ∈ l → y ∈ l' → before x y (l ++ l').
Proof.
  intros (l1 & l2 & ->)%list_elem_of_split (l3 & l4 & ->)%list_elem_of_split.
  exists l1, (l2 ++ l3), l4. rewrite <- !app_assoc. reflexivity.
Qed.

Lemma before_map (f : A → B) x y l : before x y l → before (f x) (f y) (map f l).
Proof.
  intros (l1 & l2 & l3 & ->). exists (map f l1), (map f l2), (map f l3).
  rewrite map_app. cbn. rewrite map_app. reflexivity.
Qed.

Lemma elem_of_map (f : A → B) x l : x ∈ l → f x ∈ map f l.
Proof. rewrite !list_elem_of_In. apply in_map. Qed.

Lemma sorted_rev (R : relation A) l :
  StronglySorted R l → StronglySorted (flip R) (rev l).
Proof.
  induction 1 as [|x l Hl IH Hx]; cbn; [constructor|].
  apply StronglySorted_app_2; [|exact IH|repeat constructor].
  intros y z Hy Hz. apply list_elem_of_singleton in Hz as ->.
  rewrite Forall_forall in Hx. apply Hx.
  apply list_elem_of_In, in_rev, list_elem_of_In, Hy.
Qed.

Lemma before_rev (x y : A) l : before x y l → before y x (rev l).
Proof.
  intros (l1 & l2 & l3 & ->). exists (rev l3), (rev l2), (rev l1).
  rewrite rev_app_distr. cbn. rewrite rev_app_distr. cbn.
  rewrite <- !app_assoc. reflexivity.
Qed.

(** In a sorted list, the smaller of two distinct members comes first. *)
Lemma sorted_before (R : relation A) `{!AntiSymm (=) R} (x y : A) l :
  StronglySorted R l → x ∈ l → y ∈ l → x ≠ y → R x y → before x y l.
Proof.
  intros Hs Hx Hy Hne Hxy.
  apply list_elem_of_split in Hx as (l1 & l2 & ->).
  apply elem_of_app in Hy as [Hy|Hy].
  - exfalso. apply Hne. apply (anti_symm R); [exact Hxy|].
    eapply StronglySorted_app_1_elem_of; [exact Hs|exact Hy|].
    apply list_elem_of_here.
  - apply elem_of_cons in Hy as [<-|Hy]; [contradiction|].
    apply list_elem_of_split in Hy as (l3 & l4 & ->).
    exists l1, l3, l4. reflexivity.
Qed.

End Before.

(** The order in which the statements of [applyDelta] make their calls:
    [createDirectory] for the keys of [mkdir] in ascending lexicographic
    order, then [copyFile] for the entries of [copy], then [deleteFile]
    for the keys of [rmfile], then [deleteDirectory] for the keys of
    [rmdir] in descending lexicographic order.  In this list a directory
    comes before any directory below it when created, and after every
    file and after any directory below it when deleted. *)
Lemma applyCalls_order (this : Target.t) (delta : IDelta) :
  (∃ created deleted,
     Target.applyCalls this delta =
       map (fun dir => CreateDirectory (Path.join (Target.projectPath this) dir))
         created
       ++ map (fun '(to, from) =>
                 CopyFile (IFile.absolutePath from)
                   (Path.join (Target.projectPath this) to)) (copy delta)
       ++ map (fun file => DeleteFile (Path.join (Target.projectPath this) file))
            (JsObj.keys (rmfile delta))
       ++ map (fun dir => DeleteDirectory (Path.join (Target.projectPath this) dir))
            deleted
     ∧ created ≡ₚ JsObj.keys (mkdir delta)
     ∧ StronglySorted Js.le created
     ∧ deleted ≡ₚ JsObj.keys (rmdir delta)
     ∧ StronglySorted (flip Js.le) deleted)
  ∧ (∀ parent rest,
       parent ∈ JsObj.keys (mkdir delta) →
       parent +:+ rest ∈ JsObj.keys (mkdir delta) → rest ≠ "" →
       before (CreateDirectory (Path.join (Target.projectPath this) parent))
              (CreateDirectory (Path.join (Target.projectPath this) (parent +:+ rest)))
              (Target.applyCalls this delta))
  ∧ (∀ dir file,
       dir ∈ JsObj.keys (rmdir delta) → file ∈ JsObj.keys (rmfile delta) →
       before (DeleteFile (Path.join (Target.projectPath this) file))
              (DeleteDirectory (Path.join (Target.projectPath this) dir))
              (Target.applyCalls this delta))
  ∧ (∀ dir rest,
       dir ∈ JsObj.keys (rmdir delta) →
       dir +:+ rest ∈ JsObj.keys (rmdir delta) → rest ≠ "" →
       before (DeleteDirectory (Path.join (Target.projectPath this) (dir +:+ rest)))
              (DeleteDirectory (Path.join (Target.projectPath this) dir))
              (Target.applyCalls this delta)).
Proof.
  split; [|split; [|split]].
  - exists (Js.sort (JsObj.keys (mkdir delta))),
           (rev (Js.sort (JsObj.keys (rmdir delta)))).
    split; [reflexivity|]. split; [apply sort_perm|].
    split; [apply sort_sorted|]. split.
    + rewrite <- (sort_perm (JsObj.keys (rmdir delta))) at 2.
      symmetry. apply Permutation_rev.
    + apply sorted_rev, sort_sorted.
  - intros parent rest Hp Hc Hrest. unfold Target.applyCalls.
    apply before_app_l.
    apply (before_map (fun dir => CreateDirectory (Path.join (Target.projectPath this) dir))).
    apply (sorted_before Js.le); [apply sort_sorted| | | |apply le_prefix].
    + apply sort_elem_of, Hp.
    + apply sort_elem_of, Hc.
    + intros H. symmetry in H. exact (append_neq _ _ Hrest H).
  - intros dir file Hd Hf. unfold Target.applyCalls.
    apply before_app_r, before_app_r, before_app.
    + apply (elem_of_map (fun file => DeleteFile (Path.join (Target.projectPath this) file))), Hf.
    + apply (elem_of_map (fun dir => DeleteDirectory (Path.join (Target.projectPath this) dir))).
      apply list_elem_of_In, in_rev. rewrite rev_involutive.
      apply list_elem_of_In, sort_elem_of, Hd.
  - intros dir rest Hd Hc Hrest. unfold Target.applyCalls.
    apply before_app_r, before_app_r, before_app_r.
    apply (before_map (fun dir => DeleteDirectory (Path.join (Target.projectPath this) dir))).
    apply before_rev.
    apply (sorted_before Js.le); [apply sort_sorted| | | |apply le_prefix].
    + apply sort_elem_of, Hd.
    + apply sort_elem_of, Hc.
    + intros H. symmetry in H. exact (append_neq _ _ Hrest H).
Qed.

(** On [Examples.sample_delta]: [out/a/] comes before [out/a/b/], and
    [out/old/sub/] before [out/old/]. *)
Lemma applyCalls_order_sample :
  before (CreateDirectory "/proj/out/a/") (CreateDirectory "/proj/out/a/b/")
    (Target.applyCalls (Target.IOS Examples.projectPath) Examples.sample_delta)
  ∧ before (DeleteDirectory "/proj/out/old/sub/") (DeleteDirectory "/proj/out/old/")
      (Target.applyCalls (Target.IOS Examples.projectPath) Examples.sample_delta).
Proof.
  pose proof (applyCalls_order (Target.IOS Examples.projectPath)
                Examples.sample_delta) as (_ & Hmk & _ & Hrm).
  split.
  - apply (Hmk "out/a/" "b/"); [set_solver|set_solver|discriminate].
  - apply (Hrm "out/old/" "sub/"); [set_solver|set_solver|discriminate].
Qed.

(** C5 (refuted on the code): [applyDelta] does not execute the deletions
    of a delta in order; it starts them and returns.  On the Android
    target of the project with the leftover [old/f.js], the first delta
    deletes the file [old/f.js] and the directory [old/].  When
    [applyDelta] returns, the directories are created and the files
    copied, but [old/f.js] and [old] are on the disk as before: the two
    deletions have only been started, the file first.  Which of them is
    carried out first is not decided by [applyDelta]: with the file first
    the directory goes, with the directory first it stays. *)
Theorem applyDelta_returns_before_deletions :
  let fs := Examples.disk 10 Examples.leftover_project in
  let delta := Examples.first_delta Examples.leftover_project in
  let app := "/proj/platforms/android/src/main/assets/app" in
  JsObj.keys (rmfile delta) = ["platforms/android/src/main/assets/app/old/f.js"]
  ∧ JsObj.keys (rmdir delta) = ["platforms/android/src/main/assets/app/old/"]
  ∧ ∃ fs',
      Target.applyDelta Examples.android delta fs = Done (true, fs')
      ∧ Fs.stat fs (app +:+ "/tns_modules/foo") = None
      ∧ Fs.stat fs' (app +:+ "/tns_modules/foo/index.js")
        = Some (Examples.file 10)
      ∧ Fs.stat fs' (app +:+ "/old/f.js") = Some (Examples.file 1)
      ∧ Fs.stat fs' (app +:+ "/old")
        = Some (Examples.dir 1 [("f.js", Examples.file 1)])
      ∧ Target.startedCalls Examples.android delta
        = [DeleteFile (app +:+ "/old/f.js"); DeleteDirectory (app +:+ "/old/")]
      ∧ Fs.stat (Target.carriedOut
                   [DeleteFile (app +:+ "/old/f.js");
                    DeleteDirectory (app +:+ "/old/")] fs')
          (app +:+ "/old")
        = None
      ∧ Fs.stat (Target.carriedOut
                   [DeleteDirectory (app +:+ "/old/");
                    DeleteFile (app +:+ "/old/f.js")] fs')
          (app +:+ "/old")
        = Some (Examples.dir 1 []).
Proof.
  cbv zeta. split; [vm_compute; reflexivity|].
  split; [vm_compute; reflexivity|].
  exists (Examples.after_first Examples.leftover_project).
  repeat split; vm_compute; reflexivity.
Qed.

(** ** Live sync: the iOS refresh *)

Section IOSRefresh.

Import IOSLiveSyncService.

Variable svc : Services.
Variable options : IOptions.
Variable device : IDevice.

Hypothesis no_failure : ∀ e, fails svc e = false.

Lemma sent_app t1 t2 : sent (t1 ++ t2) = sent t1 ++ sent t2.
Proof. unfold sent. apply omap_app. Qed.

Lemma sent_send edits : sent (map EvSend edits) = edits.
Proof.
  unfold sent. induction edits as [|m edits IH]; [reflexivity|].
  cbn. f_equal. exact IH.
Qed.

(** With a connected socket, [liveEdit] writes one message per file and
    leaves the socket connected. *)
Lemma liveEdit_sends paths : ∀ w,
  w_socket w = true → readable (w_fs w) paths →
  ∃ w' edits,
    liveEdit svc paths w = (w', Done tt)
    ∧ w_socket w' = true ∧ w_fs w' = w_fs w
    ∧ w_trace w' = w_trace w ++ map EvSend edits
    ∧ Forall2 (scriptSourceOf (w_fs w)) paths edits.
Proof.
  induction paths as [|p paths IH]; intros w Hsock Hread.
  - exists w, []. split; [reflexivity|]. split; [exact Hsock|].
    split; [reflexivity|]. split; [cbn; rewrite app_nil_r; reflexivity|constructor].
  - apply Forall_cons in Hread as [(st & content & Hp) Hread].
    set (id := S (w_currentPageReloadId w)).
    set (m := DebuggerSetScriptSource (getDevicePath p) content id).
    set (w1 := mkWorld (w_fs w) (w_trace w ++ [EvSend m]) true id).
    destruct (IH w1 eq_refl Hread) as (w' & edits & Hrun & Hs & Hfs & Htr & Hall).
    exists w', (m :: edits).
    split; [|split; [exact Hs|split; [exact Hfs|split]]].
    + cbn [liveEdit]. unfold bind at 1.
      unfold PlatformLiveSyncServiceBase.readText, bind, getFs, lift.
      rewrite Hp. unfold nextId, sendMessage. cbn [w_socket w_fs w_trace w_currentPageReloadId].
      rewrite Hsock, no_failure. cbn [negb andb]. unfold log. exact Hrun.
    + rewrite Htr. cbn. rewrite <- app_assoc. reflexivity.
    + constructor; [|exact Hall]. exists st, content, id. split; [exact Hp|reflexivity].
Qed.

(** C8 (as amended): during an iOS partial-sync refresh with [liveEdit]
    enabled, [forceExecuteFullSync] false and every synced file a script
    (device path ending in [.js]), once the debugger socket is established
    and when no call fails and the scripts can be read, the service sends
    exactly one [Debugger.setScriptSource] message per file, in order, and
    no [Page.reload] message: [reloadPage] is given the files that are not
    scripts and sends nothing when there are none.  The
    [Debugger.setScriptSource] messages are written by the future
    [refreshApplication] creates and does not wait for: when it returns,
    nothing but the [Debugger.enable] message of a newly opened socket has
    been written, and the messages follow once that future runs. *)
Theorem refresh_scripts_only_sends_no_reload
    (connect : bool) (deviceAppData : IDeviceAppData)
    (localToDevicePaths : list ILocalToDevicePathData) (w : World) :
  opt_liveEdit options = true →
  Forall (fun p => isScript p = true) localToDevicePaths →
  readable (w_fs w) localToDevicePaths →
  (w_socket w = true ∨ dev_isEmulator device = false ∨ connect = true) →
  ∃ w' started setup edits,
    refreshApplication svc options device connect deviceAppData
      localToDevicePaths false w = (w', Done started)
    ∧ sent (w_trace w') = sent (w_trace w) ++ setup
    ∧ (setup = [] ∨ ∃ id, setup = [DebuggerEnable id])
    ∧ sent (w_trace (afterwards (w', Done started)))
      = sent (w_trace w) ++ setup ++ edits
    ∧ Forall2 (scriptSourceOf (w_fs w)) localToDevicePaths edits
    ∧ filter (fun m => isPageReload m = true) (setup ++ edits) = [].
Proof.
  intros Hlive Hscripts Hread Hsetup.
  unfold refreshApplication.
  assert (Hs : filter (fun p => isScript p = true) localToDevicePaths
               = localToDevicePaths).
  { clear -Hscripts. induction Hscripts as [|p l Hp _ IH]; [reflexivity|].
    rewrite filter_cons_True by exact Hp. rewrite IH. reflexivity. }
  assert (Ho : filter (fun p => isScript p ≠ true) localToDevicePaths = []).
  { clear -Hscripts. induction Hscripts as [|p l Hp _ IH]; [reflexivity|].
    rewrite filter_cons_False by (intros H; exact (H Hp)). exact IH. }
  rewrite Hs, Ho, Hlive. cbn [existsb negb andb].
  assert (Hnoreload : ∀ edits,
            Forall2 (scriptSourceOf (w_fs w)) localToDevicePaths edits →
            ∀ setup, (setup = [] ∨ ∃ id, setup = [DebuggerEnable id]) →
            filter (fun m => isPageReload m = true) (setup ++ edits) = []).
  { intros edits Hall setup Hset.
    assert (He : filter (fun m => isPageReload m = true) edits = []).
    { clear -Hall. induction Hall as [|p m ps ms (st & c & id & _ & ->) _ IH];
        [reflexivity|].
      rewrite filter_cons_False by discriminate. exact IH. }
    rewrite filter_app, He, app_nil_r.
    destruct Hset as [->|[id ->]]; [reflexivity|].
    rewrite filter_cons_False by discriminate. reflexivity. }
  destruct (w_socket w) eqn:Hsock.
  - (* the socket is already connected *)
    destruct (liveEdit_sends localToDevicePaths w Hsock Hread)
      as (w' & edits & Hrun & Hs' & Hfs & Htr & Hall).
    exists w, (detached (liveEdit svc localToDevicePaths)), [], edits.
    split; [|split; [|split; [left; reflexivity|split; [|split; [exact Hall|]]]]].
    + unfold bind at 1. unfold setupSocketIfNeeded, bind, getSocket, ret.
      rewrite Hsock. unfold reloadPage. reflexivity.
    + rewrite app_nil_r. reflexivity.
    + unfold afterwards, detached. rewrite Hrun. cbn [fst].
      rewrite Htr, sent_app, sent_send. reflexivity.
    + apply Hnoreload; [exact Hall|left; reflexivity].
  - (* the socket is opened first *)
    set (id := S (w_currentPageReloadId w)).
    set (w1 := mkWorld (w_fs w)
                 ((w_trace w ++ [EvAttachRequest]) ++ [EvSend (DebuggerEnable id)])
                 true id).
    destruct (liveEdit_sends localToDevicePaths w1 eq_refl Hread)
      as (w' & edits & Hrun & Hs' & Hfs & Htr & Hall).
    exists w1, (detached (liveEdit svc localToDevicePaths)),
           [DebuggerEnable id], edits.
    split; [|split; [|split; [right; exists id; reflexivity
                             |split; [|split; [exact Hall|]]]]].
    + unfold bind at 1. unfold setupSocketIfNeeded, bind, getSocket, ret, nextId,
        external, setSocket, sendMessage, log.
      rewrite Hsock. cbn [w_socket w_fs w_trace w_currentPageReloadId].
      rewrite !no_failure. cbn [negb andb].
      assert (Hc : (if dev_isEmulator device then connect else true) = true).
      { destruct Hsetup as [[=]|[->| ->]]; [reflexivity|].
        destruct (dev_isEmulator device); reflexivity. }
      destruct (dev_isEmulator device); cbn [w_socket w_fs w_trace w_currentPageReloadId];
        [rewrite Hc|]; cbn [negb andb w_socket w_fs w_trace w_currentPageReloadId];
        unfold reloadPage; cbn [length Nat.ltb Nat.leb]; reflexivity.
    + cbn [w1 w_trace]. rewrite !sent_app. rewrite <- !app_assoc. reflexivity.
    + unfold afterwards, detached. rewrite Hrun. cbn [fst].
      rewrite Htr, !sent_app, sent_send. cbn [w1 w_trace]. rewrite !sent_app.
      rewrite <- !app_assoc. reflexivity.
    + apply Hnoreload; [exact Hall|right; exists id; reflexivity].
Qed.

End IOSRefresh.

(** The theorem applied to [Examples.page_refresh]: one script, connected
    socket. *)
Lemma refresh_scripts_only_sends_no_reload_witness :
  ∃ w' started setup edits,
    Examples.page_refresh = (w', Done started)
    ∧ IOSLiveSyncService.sent (w_trace w') = [] ++ setup
    ∧ (setup = [] ∨ ∃ id, setup = [DebuggerEnable id])
    ∧ IOSLiveSyncService.sent
        (w_trace (IOSLiveSyncService.afterwards (w', Done started)))
      = [] ++ setup ++ edits
    ∧ Forall2 (IOSLiveSyncService.scriptSourceOf
                 (Examples.disk 10 Examples.livesync_project))
        [mkPathData "/proj/app/page.js" "app/page.js"] edits
    ∧ filter (fun m => IOSLiveSyncService.isPageReload m = true) (setup ++ edits)
      = [].
Proof.
  refine (refresh_scripts_only_sends_no_reload (Examples.services false)
            Examples.options Examples.iosDevice _ true
            (mkAppData "org.example.app" Examples.iosDevice "iOS")
            [mkPathData "/proj/app/page.js" "app/page.js"]
            (Examples.world Examples.livesync_project true)
            eq_refl _ _ (or_introl eq_refl)).
  - intros []; reflexivity.
  - repeat constructor.
  - repeat constructor. eexists _, _. vm_compute. reflexivity.
Defined.

(** C8 (as stated) fails: for the single script [app/page.js], with
    [liveEdit] on and the socket connected, the service has written
    nothing when it returns; the future it left behind then writes the
    [Debugger.setScriptSource] message alone.  No [Page.reload] follows. *)
Lemma refresh_one_script_sends_no_reload :
  (IOSLiveSyncService.sent (w_trace (Examples.page_refresh).1) = []
   ∧ returned (Examples.page_refresh).2 = true)
  ∧ IOSLiveSyncService.sent
      (w_trace (IOSLiveSyncService.afterwards Examples.page_refresh))
    = [DebuggerSetScriptSource "app/page.js" "exports.x = 1;" 1]
  ∧ length (filter (fun m => IOSLiveSyncService.isPageReload m = true)
              (IOSLiveSyncService.sent
                 (w_trace (IOSLiveSyncService.afterwards Examples.page_refresh))))
    ≠ 1%nat.
Proof.
  split; [split; vm_compute; reflexivity|].
  split; [vm_compute; reflexivity|vm_compute; discriminate].
Qed.

(** ** Live sync: when the stamp is written *)

(** C9 (refuted on the code): a batch that holds [package.json] requires a
    build, so the per-flush action runs [deploy(device)], which ends with
    [saveLivesyncInfo], and only then [refreshApplication]: the stamp is
    written before the refresh.  When the refresh then fails, the action
    raises and the stamp is on disk all the same. *)
Theorem deploy_cycle_stamps_before_refresh :
  (let '(w', r) := Examples.deploy_batch false in (r, w_trace w'))
  = (Done tt,
     [ EvDeploy "dev1";
       EvReinstallApplication "dev1" "app-device.apk";
       EvSaveLivesyncInfo
         "/proj/platforms/android/build/outputs/apk/.nslivesyncinfo" "then";
       EvRefreshApplication "dev1" true ])
  ∧ (let '(w', r) := Examples.deploy_batch true in
     (r, PlatformLiveSyncServiceBase.readText
           "/proj/platforms/android/build/outputs/apk/.nslivesyncinfo" w'))
    = (Threw, ((Examples.deploy_batch true).1, Done "then")).
Proof. split; vm_compute; reflexivity. Qed.

(** ** Path strings and their segments *)

Section SplitFacts.

Abbreviation split := (Js.split Js.slash).

Lemma split_nonempty s : split s ≠ [].
Proof.
  destruct s as [|a s]; cbn; [discriminate|].
  destruct (Ascii.eqb a Js.slash); [discriminate|].
  destruct (Js.split Js.slash s); discriminate.
Qed.

Lemma split_cons_slash s : split (String Js.slash s) = "" :: split s.
Proof. reflexivity. Qed.

Lemma split_cons_other a s w ws :
  Ascii.eqb a Js.slash = false → split s = w :: ws →
  split (String a s) = String a w :: ws.
Proof. intros Ha Hs. cbn. rewrite Ha, Hs. reflexivity. Qed.

(** Splitting distributes over a separator. *)
Lemma split_app s t : split (s +:+ "/" +:+ t) = split s ++ split t.
Proof.
  induction s as [|a s IH].
  - reflexivity.
  - rewrite append_cons. cbn [Js.split].
    destruct (Ascii.eqb a Js.slash) eqn:Ha.
    + rewrite IH. reflexivity.
    + rewrite IH. destruct (Js.split Js.slash s) as [|w ws] eqn:Hs.
      * exfalso. exact (split_nonempty s Hs).
      * reflexivity.
Qed.

Lemma split_noslash n : noslash n = true → split n = [n].
Proof.
  induction n as [|a n IH]; [reflexivity|]. cbn.
  intros [Ha Hn]%andb_prop. apply negb_true_iff in Ha.
  rewrite Ha, (IH Hn). reflexivity.
Qed.

Lemma split_all_noslash s : Forall (fun n => noslash n = true) (split s).
Proof.
  induction s as [|a s IH]; [repeat constructor|].
  cbn. destruct (Ascii.eqb a Js.slash) eqn:Ha.
  - constructor; [reflexivity|exact IH].
  - destruct (Js.split Js.slash s) as [|w ws]; [repeat constructor; cbn; rewrite Ha; reflexivity|].
    apply Forall_cons in IH as [Hw Hws].
    constructor; [cbn; rewrite Ha, Hw; reflexivity|exact Hws].
Qed.

(** Joining what was split gives the string back. *)
Lemma join_split s : Js.joinWith "/" (split s) = s.
Proof.
  unfold Js.joinWith. induction s as [|a s IH]; [reflexivity|].
  cbn [Js.split]. destruct (Ascii.eqb_spec a Js.slash) as [->|Ha].
  - pose proof (split_nonempty s) as Hne.
    destruct (Js.split Js.slash s) as [|w ws]; [contradiction|].
    cbn [String.concat] in *. rewrite IH. reflexivity.
  - destruct (Js.split Js.slash s) as [|w ws] eqn:Hs;
      [exfalso; exact (split_nonempty s Hs)|].
    destruct ws as [|w' ws].
    + cbn in *. rewrite IH. reflexivity.
    + cbn [String.concat] in *. rewrite append_cons, IH. reflexivity.
Qed.

Lemma proper_noslash n : proper n = true → noslash n = true.
Proof. unfold proper. rewrite !andb_true_iff. tauto. Qed.

Lemma Forall_proper_noslash ns :
  Forall (fun n => proper n = true) ns → Forall (fun n => noslash n = true) ns.
Proof. intros H. eapply Forall_impl; [exact H|exact proper_noslash]. Qed.

Lemma pathOf_snoc p ns n : pathOf p (ns ++ [n]) = (pathOf p ns +:+ "/") +:+ n.
Proof. unfold pathOf. rewrite foldl_app. reflexivity. Qed.

Lemma pathOf_cons p n ns : pathOf p (n :: ns) = pathOf ((p +:+ "/") +:+ n) ns.
Proof. reflexivity. Qed.

Lemma pathOf_app p ns ms : pathOf p (ns ++ ms) = pathOf (pathOf p ns) ms.
Proof. unfold pathOf. apply foldl_app. Qed.

(** The segments of [p/n1/.../nk]. *)
Lemma split_pathOf p ns :
  Forall (fun n => noslash n = true) ns → split (pathOf p ns) = split p ++ ns.
Proof.
  intros H. revert p. induction H as [|n ns Hn _ IH]; intros p.
  - cbn. rewrite app_nil_r. reflexivity.
  - rewrite pathOf_cons, IH, append_assoc, split_app, (split_noslash n Hn).
    rewrite <- app_assoc. reflexivity.
Qed.

Lemma pathOf_inj p ns ms :
  Forall (fun n => noslash n = true) ns → Forall (fun n => noslash n = true) ms →
  pathOf p ns = pathOf p ms → ns = ms.
Proof.
  intros Hn Hm H. apply (f_equal (Js.split Js.slash)) in H.
  rewrite !split_pathOf in H by assumption.
  exact (app_inv_head _ _ _ H).
Qed.

Lemma split_trailing s : split (s +:+ "/") = split s ++ [""].
Proof. exact (split_app s ""). Qed.

End SplitFacts.

Section Normalize.

Abbreviation split := (Js.split Js.slash).
Abbreviation norm := (Path.normalizeSegments false).

Lemma proper_inv n :
  proper n = true →
  noslash n = true ∧ String.eqb n "" = false ∧ String.eqb n "." = false
  ∧ String.eqb n ".." = false.
Proof.
  unfold proper. rewrite !andb_true_iff, !negb_true_iff. tauto.
Qed.

Lemma norm_step_proper b acc n rest :
  proper n = true →
  Path.normalizeSegments b acc (n :: rest)
  = Path.normalizeSegments b (n :: acc) rest.
Proof.
  intros (_ & H1 & H2 & H3)%proper_inv. cbn. rewrite H1, H2, H3. reflexivity.
Qed.

(** Proper names are kept as they are. *)
Lemma norm_proper b ks : ∀ acc,
  Forall (fun n => proper n = true) ks →
  Path.normalizeSegments b acc ks = rev acc ++ ks.
Proof.
  induction ks as [|k ks IH]; intros acc H.
  - cbn. rewrite app_nil_r. reflexivity.
  - apply Forall_cons in H as [Hk Hks].
    rewrite norm_step_proper by exact Hk. rewrite IH by exact Hks.
    cbn. rewrite <- app_assoc. reflexivity.
Qed.

Lemma norm_app_proper b xs ks : ∀ acc,
  Forall (fun n => proper n = true) ks →
  Path.normalizeSegments b acc (xs ++ ks)
  = Path.normalizeSegments b acc xs ++ ks.
Proof.
  induction xs as [|x xs IH]; intros acc H.
  - cbn [app Path.normalizeSegments]. apply norm_proper, H.
  - cbn [app Path.normalizeSegments].
    repeat match goal with
           | |- context [if ?c then _ else _] => destruct c
           | |- context [match ?a with [] => _ | _ :: _ => _ end] => destruct a
           end; apply IH, H.
Qed.

Lemma norm_trailing b xs : ∀ acc,
  Path.normalizeSegments b acc (xs ++ [""]) = Path.normalizeSegments b acc xs.
Proof.
  induction xs as [|x xs IH]; intros acc.
  - reflexivity.
  - cbn [app Path.normalizeSegments].
    repeat match goal with
           | |- context [if ?c then _ else _] => destruct c
           | |- context [match ?a with [] => _ | _ :: _ => _ end] => destruct a
           end; apply IH.
Qed.

(** What normalization keeps, out of separator-free segments, is proper. *)
Lemma norm_out_proper xs : ∀ acc,
  Forall (fun n => noslash n = true) xs →
  Forall (fun n => proper n = true) acc →
  Forall (fun n => proper n = true) (norm acc xs).
Proof.
  induction xs as [|x xs IH]; intros acc Hxs Hacc.
  - cbn. apply Forall_rev, Hacc.
  - apply Forall_cons in Hxs as [Hx Hxs]. cbn [Path.normalizeSegments].
    destruct (String.eqb x "" || String.eqb x ".") eqn:E1; [apply IH; assumption|].
    apply orb_false_iff in E1 as [E1 E2].
    destruct (String.eqb x "..") eqn:E3.
    + destruct acc as [|top acc]; [apply IH; assumption|].
      apply Forall_cons in Hacc as [Htop Hacc].
      destruct (proper_inv _ Htop) as (_ & _ & _ & ->). apply IH; assumption.
    + apply IH; [exact Hxs|]. constructor; [|exact Hacc].
      unfold proper. rewrite Hx, E1, E2, E3. reflexivity.
Qed.

Lemma split_join ns :
  Forall (fun n => noslash n = true) ns → ns ≠ [] →
  split (Js.joinWith "/" ns) = ns.
Proof.
  unfold Js.joinWith. induction 1 as [|n ns Hn Hns IH]; intros Hne; [contradiction|].
  destruct ns as [|m ns].
  - cbn. apply split_noslash, Hn.
  - change (String.concat "/" (n :: m :: ns))
      with (n +:+ "/" +:+ String.concat "/" (m :: ns)).
    rewrite split_app, (split_noslash n Hn), IH by discriminate.
    reflexivity.
Qed.

(** Resolving a normalized string gives its segments back. *)
Lemma norm_split_join X :
  Forall (fun n => proper n = true) X → norm [] (split (Js.joinWith "/" X)) = X.
Proof.
  intros HX. destruct X as [|x X]; [reflexivity|].
  rewrite split_join by (try discriminate; apply Forall_proper_noslash, HX).
  apply (norm_proper false (x :: X) []), HX.
Qed.

Lemma isAbsolute_inv P : Path.isAbsolute P = true → ∃ P', P = String Js.slash P'.
Proof.
  unfold Path.isAbsolute, Js.startsWith. intros H.
  apply String.prefix_correct in H. destruct P as [|a P]; [discriminate|].
  cbn in H. injection H as ->. exists P. reflexivity.
Qed.

Lemma isAbsolute_cons s : Path.isAbsolute (String Js.slash s) = true.
Proof.
  unfold Path.isAbsolute, Js.startsWith. apply String.prefix_correct.
  cbn. destruct s; reflexivity.
Qed.

(** [resolve(join(P, k))] for an absolute [P]: the normalized segments of
    [P] followed by those of [k]. *)
Lemma resolve_join fs P k :
  Path.isAbsolute P = true → k ≠ "" →
  Fs.resolve fs (Path.join P k) = norm [] (split P ++ split k).
Proof.
  intros HP Hk. destruct (isAbsolute_inv P HP) as [P' ->].
  unfold Path.join, Path.joinl.
  rewrite filter_cons_True by discriminate.
  rewrite filter_cons_True by exact Hk.
  rewrite filter_nil.
  change (Js.joinWith "/" [String Js.slash P'; k])
    with (String Js.slash (P' +:+ "/" +:+ k)).
  unfold Path.normalize.
  change (String.eqb (String Js.slash (P' +:+ "/" +:+ k)) "") with false.
  rewrite isAbsolute_cons. cbn [negb andb].
  rewrite andb_false_r.
  assert (Hs : split (String Js.slash (P' +:+ "/" +:+ k))
               = split (String Js.slash P') ++ split k).
  { rewrite <- split_app. reflexivity. }
  rewrite Hs.
  set (X := norm [] (split (String Js.slash P') ++ split k)).
  assert (HX : Forall (fun n => proper n = true) X).
  { apply norm_out_proper; [|constructor].
    apply Forall_app. split; apply split_all_noslash. }
  unfold Fs.resolve.
  destruct (negb (String.eqb (Js.joinWith "/" X) "") && Js.endsWith _ "/").
  - change ("/" +:+ Js.joinWith "/" X +:+ "/")
      with (String Js.slash (Js.joinWith "/" X +:+ "/")).
    rewrite isAbsolute_cons, split_cons_slash, split_trailing.
    change (norm [] ("" :: split (Js.joinWith "/" X) ++ [""]))
      with (norm [] (split (Js.joinWith "/" X) ++ [""])).
    rewrite norm_trailing. apply norm_split_join, HX.
  - change ("/" +:+ Js.joinWith "/" X) with (String Js.slash (Js.joinWith "/" X)).
    rewrite isAbsolute_cons, split_cons_slash.
    change (norm [] ("" :: split (Js.joinWith "/" X)))
      with (norm [] (split (Js.joinWith "/" X))).
    apply norm_split_join, HX.
Qed.

(** Normalizing a list of segments in two goes. *)
Lemma norm_decomp b l : ∀ acc rest,
  Path.normalizeSegments b acc (l ++ rest)
  = Path.normalizeSegments b (rev (Path.normalizeSegments b acc l)) rest.
Proof.
  induction l as [|x l IH]; intros acc rest.
  - cbn. rewrite rev_involutive. reflexivity.
  - cbn [app Path.normalizeSegments].
    repeat match goal with
           | |- context [if ?c then _ else _] => destruct c
           | |- context [match ?a with [] => _ | _ :: _ => _ end] => destruct a
           end; apply IH.
Qed.

Lemma norm_skip b l x rest acc :
  String.eqb x "" || String.eqb x "." = true →
  Path.normalizeSegments b acc (l ++ x :: rest)
  = Path.normalizeSegments b acc (l ++ rest).
Proof.
  intros Hx. rewrite !(norm_decomp b l). cbn [Path.normalizeSegments].
  rewrite Hx. reflexivity.
Qed.

Lemma norm_pop b l top rest acc :
  proper top = true →
  Path.normalizeSegments b acc (l ++ top :: ".." :: rest)
  = Path.normalizeSegments b acc (l ++ rest).
Proof.
  intros Ht. rewrite !(norm_decomp b l).
  rewrite norm_step_proper by exact Ht.
  destruct (proper_inv _ Ht) as (_ & _ & _ & H3).
  cbn [Path.normalizeSegments]. cbn [String.eqb Ascii.eqb Bool.eqb orb andb].
  rewrite H3. reflexivity.
Qed.

(** Normalizing a relative path first (where [".."] may stay in front)
    and resolving it afterwards is resolving it. *)
Lemma norm_relative_first Z : ∀ acc' St,
  Forall (fun n => noslash n = true) Z →
  Forall (fun n => n = ".." ∨ proper n = true) acc' →
  norm St (Path.normalizeSegments true acc' Z) = norm St (rev acc' ++ Z).
Proof.
  induction Z as [|x Z IH]; intros acc' St HZ Hacc.
  - cbn. rewrite app_nil_r. reflexivity.
  - apply Forall_cons in HZ as [Hx HZ]. cbn [Path.normalizeSegments].
    destruct (String.eqb x "" || String.eqb x ".") eqn:E1.
    { rewrite norm_skip by exact E1. apply IH; assumption. }
    apply orb_false_iff in E1 as [E1 E2].
    destruct (String.eqb_spec x "..") as [->|E3].
    + destruct acc' as [|top acc''].
      * cbn [negb]. rewrite IH; [reflexivity|exact HZ|].
        constructor; [left; reflexivity|constructor].
      * apply Forall_cons in Hacc as [Htop Hacc].
        destruct (String.eqb_spec top "..") as [->|Hne].
        -- rewrite IH; [|exact HZ|].
           ++ cbn [rev]. rewrite <- !app_assoc. reflexivity.
           ++ constructor; [left; reflexivity|].
              constructor; [left; reflexivity|exact Hacc].
        -- destruct Htop as [->|Htop]; [contradiction|].
           rewrite IH by assumption. cbn [rev]. rewrite <- app_assoc.
           cbn [app]. symmetry. apply norm_pop, Htop.
    + rewrite IH; [|exact HZ|].
      * cbn [rev]. rewrite <- app_assoc. reflexivity.
      * constructor; [|exact Hacc]. right. unfold proper.
        rewrite Hx, E1, E2. apply String.eqb_neq in E3. rewrite E3. reflexivity.
Qed.

(** What normalization of a relative path keeps is [".."] or proper. *)
Lemma norm_true_out Z : ∀ acc',
  Forall (fun n => noslash n = true) Z →
  Forall (fun n => n = ".." ∨ proper n = true) acc' →
  Forall (fun n => n = ".." ∨ proper n = true)
         (Path.normalizeSegments true acc' Z).
Proof.
  induction Z as [|x Z IH]; intros acc' HZ Hacc.
  - cbn. apply Forall_rev, Hacc.
  - apply Forall_cons in HZ as [Hx HZ]. cbn [Path.normalizeSegments].
    destruct (String.eqb x "" || String.eqb x ".") eqn:E1; [apply IH; assumption|].
    apply orb_false_iff in E1 as [E1 E2].
    destruct (String.eqb_spec x "..") as [->|E3].
    + destruct acc' as [|top acc''].
      * cbn [negb]. apply IH; [exact HZ|].
        constructor; [left; reflexivity|constructor].
      * apply Forall_cons in Hacc as [Htop Hacc].
        destruct (String.eqb top "..").
        -- apply IH; [exact HZ|]. constructor; [left; reflexivity|].
           constructor; assumption.
        -- apply IH; assumption.
    + apply IH; [exact HZ|]. constructor; [|exact Hacc]. right. unfold proper.
      rewrite Hx, E1, E2. apply String.eqb_neq in E3. rewrite E3. reflexivity.
Qed.

Lemma isAbsolute_split s w ws :
  split s = w :: ws → w ≠ "" → Path.isAbsolute s = false.
Proof.
  intros Hs Hw. destruct (Path.isAbsolute s) eqn:E; [|reflexivity].
  destruct (isAbsolute_inv s E) as [s' ->].
  rewrite split_cons_slash in Hs. injection Hs as <- _. contradiction.
Qed.

Lemma isAbsolute_append P t :
  P ≠ "" → Path.isAbsolute (P +:+ t) = Path.isAbsolute P.
Proof.
  intros HP. destruct P as [|a P]; [contradiction|].
  rewrite append_cons. unfold Path.isAbsolute, Js.startsWith.
  change (String.prefix "/" (String a ?s))
    with (if ascii_dec "/" a then String.prefix "" s else false).
  destruct (ascii_dec "/" a); [|reflexivity].
  destruct (P +:+ t); destruct P; reflexivity.
Qed.

(** [resolve(normalize(s))] for a relative [s] that ends in proper
    names. *)
Lemma resolve_normalize_relative fs s X ks tail :
  Path.isAbsolute s = false →
  split s = X ++ ks ++ tail →
  Forall (fun n => proper n = true) ks → ks ≠ [] →
  tail = [] ∨ tail = [""] →
  Fs.resolve fs (Path.normalize s)
  = norm [] (split (fs_cwd fs) ++ X) ++ ks.
Proof.
  intros Hrel Hs Hks Hne Htail.
  assert (HX : Forall (fun n => noslash n = true) X).
  { pose proof (split_all_noslash s) as H. rewrite Hs in H.
    apply Forall_app in H as [H _]. exact H. }
  assert (Htrail : ∀ b acc, Path.normalizeSegments b acc (X ++ ks ++ tail)
                            = Path.normalizeSegments b acc (X ++ ks)).
  { intros b acc. destruct Htail as [->| ->]; [rewrite app_nil_r; reflexivity|].
    rewrite !app_assoc. apply norm_trailing. }
  set (Y := Path.normalizeSegments true [] (split s)).
  assert (HY : Y = Path.normalizeSegments true [] X ++ ks).
  { unfold Y. rewrite Hs, Htrail. apply norm_app_proper, Hks. }
  assert (HYout : Forall (fun n => n = ".." ∨ proper n = true) Y).
  { apply norm_true_out; [apply split_all_noslash|constructor]. }
  assert (HYns : Forall (fun n => noslash n = true) Y).
  { eapply Forall_impl; [exact HYout|]. intros n [->|Hn]; [reflexivity|].
    apply proper_noslash, Hn. }
  assert (HYne : Y ≠ []).
  { rewrite HY. intros E. apply app_eq_nil in E as [_ E]. contradiction. }
  assert (Hhead : ∃ w ws, Y = w :: ws ∧ w ≠ "").
  { destruct Y as [|w ws]; [contradiction|]. exists w, ws. split; [reflexivity|].
    apply Forall_cons in HYout as [[->|Hw] _]; [discriminate|].
    intros ->. discriminate Hw. }
  assert (Hsplit : split (Js.joinWith "/" Y) = Y) by (apply split_join; assumption).
  assert (Hs_ne : s ≠ "").
  { intros ->. cbn in Hs. destruct X as [|x X].
    - destruct ks as [|n ks]; [contradiction|]. cbn in Hs.
      injection Hs as <- _. apply Forall_cons in Hks as [Hn _]. discriminate Hn.
    - injection Hs as _ Hs. symmetry in Hs. apply app_eq_nil in Hs as [_ Hs].
      apply app_eq_nil in Hs as [Hs _]. contradiction. }
  unfold Path.normalize. apply String.eqb_neq in Hs_ne. rewrite Hs_ne, Hrel.
  cbn [negb]. fold Y.
  assert (Hbody : String.eqb (Js.joinWith "/" Y) "" = false).
  { apply String.eqb_neq. intros E. rewrite E in Hsplit.
    destruct Hhead as (w & ws & HYw & Hw). rewrite HYw in Hsplit.
    injection Hsplit as <- _. contradiction. }
  rewrite Hbody. cbn [andb negb].
  assert (Hres : ∀ r, split r = Y ∨ split r = Y ++ [""] →
            Fs.resolve fs r = norm [] (split (fs_cwd fs) ++ X) ++ ks).
  { intros r Hr.
    assert (Hrabs : Path.isAbsolute r = false).
    { destruct Hhead as (w & ws & HYw & Hw).
      destruct Hr as [Hr|Hr]; rewrite HYw in Hr;
        exact (isAbsolute_split r w _ Hr Hw). }
    unfold Fs.resolve. rewrite Hrabs.
    assert (E : norm [] (split (fs_cwd fs) ++ split r)
                = norm [] (split (fs_cwd fs) ++ Y)).
    { destruct Hr as [-> | ->]; [reflexivity|].
      rewrite app_assoc. apply norm_trailing. }
    rewrite E, norm_decomp. unfold Y.
    rewrite norm_relative_first; [|apply split_all_noslash|constructor].
    cbn [rev app]. rewrite Hs, Htrail, <- norm_decomp, app_assoc.
    apply norm_app_proper, Hks. }
  destruct (Js.endsWith s "/"); rewrite ?Hbody; cbn [negb andb]; apply Hres.
  - right. rewrite split_trailing, Hsplit. reflexivity.
  - left. exact Hsplit.
Qed.

(** [resolve(join(P, k))] for a relative [P] and a path [k] of proper
    names, with or without a separator at its end. *)
Lemma resolve_join_relative fs P k ks tail :
  Path.isAbsolute P = false →
  Forall (fun n => proper n = true) ks → ks ≠ [] →
  split k = ks ++ tail → tail = [] ∨ tail = [""] →
  Fs.resolve fs (Path.join P k) = Fs.resolve fs P ++ ks.
Proof.
  intros HP Hks Hne Hk Htail.
  assert (Hk_ne : k ≠ "").
  { intros ->. cbn in Hk. destruct ks as [|n ks]; [contradiction|].
    injection Hk as <- _. apply Forall_cons in Hks as [Hn _]. discriminate Hn. }
  assert (Hk_rel : Path.isAbsolute k = false).
  { destruct ks as [|n ks]; [contradiction|].
    apply (isAbsolute_split k n (ks ++ tail) Hk).
    apply Forall_cons in Hks as [Hn _]. intros ->. discriminate Hn. }
  unfold Fs.resolve at 2. rewrite HP.
  unfold Path.join, Path.joinl.
  destruct (decide (P = "")) as [->|HPne].
  - rewrite filter_cons_False by (intros H; exact (H eq_refl)).
    rewrite filter_cons_True by exact Hk_ne. rewrite filter_nil.
    change (Js.joinWith "/" [k]) with k.
    rewrite (resolve_normalize_relative fs k [] ks tail Hk_rel Hk Hks Hne Htail).
    cbn [Js.split]. rewrite norm_trailing, app_nil_r. reflexivity.
  - rewrite filter_cons_True by exact HPne.
    rewrite filter_cons_True by exact Hk_ne. rewrite filter_nil.
    change (Js.joinWith "/" [P; k]) with (P +:+ "/" +:+ k).
    apply (resolve_normalize_relative fs (P +:+ "/" +:+ k) (split P) ks tail).
    + rewrite isAbsolute_append by exact HPne. exact HP.
    + rewrite split_app, Hk. reflexivity.
    + exact Hks.
    + exact Hne.
    + exact Htail.
Qed.

End Normalize.

Section ResolveNames.

Variable fs : IFileSystem.
Variable P : string.

Lemma resolve_absolute :
  Path.isAbsolute P = true →
  Fs.resolve fs P = Path.normalizeSegments false [] (Js.split Js.slash P).
Proof. intros P_absolute. unfold Fs.resolve. rewrite P_absolute. reflexivity. Qed.

Lemma split_proper_nonempty k ks :
  Forall (fun n => proper n = true) ks → ks ≠ [] →
  Js.split Js.slash k = ks ++ [""] ∨ Js.split Js.slash k = ks → k ≠ "".
Proof.
  intros Hks Hne Hk ->. cbn in Hk.
  destruct ks as [|x ks]; [contradiction|].
  apply Forall_cons in Hks as [Hx _].
  destruct Hk as [Hk|Hk].
  - destruct ks; discriminate.
  - injection Hk as <- _. discriminate.
Qed.

(** A relative path made of proper names resolves below the project,
    whether the path of the project is absolute or relative to the
    working directory. *)
Lemma resolve_join_names k ks :
  Forall (fun n => proper n = true) ks → ks ≠ [] →
  Js.split Js.slash k = ks →
  Fs.resolve fs (Path.join P k) = Fs.resolve fs P ++ ks.
Proof.
  intros Hks Hne Hk.
  destruct (Path.isAbsolute P) eqn:P_absolute.
  - rewrite resolve_join; [|exact P_absolute|].
    + rewrite Hk, (resolve_absolute P_absolute). apply norm_app_proper, Hks.
    + apply (split_proper_nonempty k ks Hks Hne). right. exact Hk.
  - apply (resolve_join_relative fs P k ks [] P_absolute Hks Hne);
      [rewrite app_nil_r; exact Hk|left; reflexivity].
Qed.

(** The same with a trailing separator. *)
Lemma resolve_join_names_dir k ks :
  Forall (fun n => proper n = true) ks → ks ≠ [] →
  Js.split Js.slash k = ks ++ [""] →
  Fs.resolve fs (Path.join P k) = Fs.resolve fs P ++ ks.
Proof.
  intros Hks Hne Hk.
  destruct (Path.isAbsolute P) eqn:P_absolute.
  - rewrite resolve_join; [|exact P_absolute|].
    + rewrite Hk, (resolve_absolute P_absolute), app_assoc, norm_trailing.
      apply norm_app_proper, Hks.
    + apply (split_proper_nonempty k ks Hks Hne). left. exact Hk.
  - apply (resolve_join_relative fs P k ks [""] P_absolute Hks Hne Hk).
    right. reflexivity.
Qed.

Lemma resolve_proper p : Forall (fun n => proper n = true) (Fs.resolve fs p).
Proof.
  unfold Fs.resolve. destruct (Path.isAbsolute p);
    (apply norm_out_proper; [|constructor]);
    rewrite ?Forall_app; repeat split; apply split_all_noslash.
Qed.

End ResolveNames.

(** ** Trees: what a change at one path does to the others *)

Section TreeFacts.

Lemma find_set_entry_eq s c es : Fs.find_entry s (Fs.set_entry s c es) = Some c.
Proof.
  induction es as [|[k n] es IH]; cbn.
  - rewrite String.eqb_refl. reflexivity.
  - destruct (String.eqb k s) eqn:E; cbn; rewrite E; [reflexivity|exact IH].
Qed.

Lemma find_set_entry_ne s x c es :
  s ≠ x → Fs.find_entry x (Fs.set_entry s c es) = Fs.find_entry x es.
Proof.
  intros Hne. induction es as [|[k n] es IH]; cbn.
  - destruct (String.eqb_spec s x); [contradiction|reflexivity].
  - destruct (String.eqb_spec k s) as [->|]; cbn.
    + destruct (String.eqb_spec s x); [contradiction|reflexivity].
    + destruct (String.eqb_spec k x); [reflexivity|exact IH].
Qed.

Lemma find_remove_entry_eq s es : Fs.find_entry s (Fs.remove_entry s es) = None.
Proof.
  induction es as [|[k n] es IH]; cbn; [reflexivity|].
  destruct (String.eqb k s) eqn:E; cbn; [exact IH|]. rewrite E. exact IH.
Qed.

Lemma find_remove_entry_ne s x es :
  s ≠ x → Fs.find_entry x (Fs.remove_entry s es) = Fs.find_entry x es.
Proof.
  intros Hne. induction es as [|[k n] es IH]; cbn; [reflexivity|].
  destruct (String.eqb_spec k s) as [->|]; cbn.
  - destruct (String.eqb_spec s x); [contradiction|exact IH].
  - destruct (String.eqb_spec k x); [reflexivity|exact IH].
Qed.

Lemma set_entry_same s c es :
  Fs.find_entry s es = Some c → Fs.set_entry s c es = es.
Proof.
  induction es as [|[k n] es IH]; cbn; [discriminate|].
  destruct (String.eqb k s) eqn:E.
  - intros [= ->]. reflexivity.
  - intros H. rewrite (IH H). reflexivity.
Qed.

Lemma leafy_lookup o x q :
  leafy o → (c ← o; Fs.lookup (x :: q) c) = None.
Proof.
  destruct o as [[st c|st es]|]; cbn; [reflexivity| |reflexivity].
  intros ->. reflexivity.
Qed.

Lemma lookup_cons s rest st es :
  Fs.lookup (s :: rest) (NDir st es)
  = (c ← Fs.find_entry s es; Fs.lookup rest c).
Proof. cbn. destruct (Fs.find_entry s es); reflexivity. Qed.

Lemma lookup_app q1 q2 n :
  Fs.lookup (q1 ++ q2) n = (c ← Fs.lookup q1 n; Fs.lookup q2 c).
Proof.
  revert n. induction q1 as [|s q1 IH]; intros n; [reflexivity|].
  destruct n as [st c|st es]; [reflexivity|].
  cbn [app]. rewrite !lookup_cons.
  destruct (Fs.find_entry s es) as [c|]; [apply IH|reflexivity].
Qed.

(** The entry at the changed path before and after. *)
Lemma modify_at segs f n n' :
  Fs.modify segs f n = Done n' →
  f (Fs.lookup segs n) = Done (Fs.lookup segs n').
Proof.
  revert n n'. induction segs as [|s rest IH]; intros n n' H; [discriminate|].
  destruct n as [st c|st es]; [discriminate|].
  cbn [Fs.modify] in H. destruct rest as [|s' rest].
  - destruct (f (Fs.find_entry s es)) as [new| |] eqn:Ef; cbn in H; try discriminate.
    injection H as <-. rewrite !lookup_cons.
    assert (Hold : (c ← Fs.find_entry s es; Fs.lookup [] c) = Fs.find_entry s es)
      by (destruct (Fs.find_entry s es); reflexivity).
    rewrite Hold, Ef. f_equal.
    destruct new as [c|].
    + rewrite find_set_entry_eq. reflexivity.
    + rewrite find_remove_entry_eq. reflexivity.
  - destruct (Fs.find_entry s es) as [c|] eqn:Ec; [|discriminate].
    destruct (Fs.modify (s' :: rest) f c) as [c'| |] eqn:Em; cbn in H;
      try discriminate.
    injection H as <-. rewrite !lookup_cons, Ec, find_set_entry_eq. cbn.
    apply IH, Em.
Qed.

(** A change that puts one leaf in the place of another, or leaves the
    entry as it is, does not touch any other path. *)
Lemma modify_other segs f n n' :
  Fs.modify segs f n = Done n' →
  (∀ old new, f old = Done new → (leafy old ∧ leafy new) ∨ new = old) →
  ∀ q, q ≠ segs → kind_at q n' = kind_at q n.
Proof.
  intros H Hf. revert n n' H.
  induction segs as [|s rest IH]; intros n n' H q Hq; [discriminate|].
  destruct n as [st c|st es]; [discriminate|].
  cbn [Fs.modify] in H. destruct rest as [|s' rest].
  - destruct (f (Fs.find_entry s es)) as [new| |] eqn:Ef; cbn in H; try discriminate.
    injection H as <-.
    destruct q as [|x q]; [reflexivity|].
    unfold kind_at. rewrite !lookup_cons.
    destruct (decide (s = x)) as [<-|Hne].
    + destruct q as [|y q]; [contradiction|].
      destruct (Hf _ _ Ef) as [[Hold Hnew]| ->].
      * rewrite (leafy_lookup (Fs.find_entry s es)) by exact Hold.
        destruct new as [c|].
        -- rewrite find_set_entry_eq. rewrite (leafy_lookup (Some c)) by exact Hnew.
           reflexivity.
        -- rewrite find_remove_entry_eq. reflexivity.
      * destruct (Fs.find_entry s es) as [c|] eqn:Ec.
        -- rewrite (set_entry_same _ _ _ Ec), Ec. reflexivity.
        -- rewrite find_remove_entry_eq. reflexivity.
    + destruct new as [c|].
      * rewrite find_set_entry_ne by exact Hne. reflexivity.
      * rewrite find_remove_entry_ne by exact Hne. reflexivity.
  - destruct (Fs.find_entry s es) as [c|] eqn:Ec; [|discriminate].
    destruct (Fs.modify (s' :: rest) f c) as [c'| |] eqn:Em; cbn in H;
      try discriminate.
    injection H as <-.
    destruct q as [|x q]; [reflexivity|].
    unfold kind_at. rewrite !lookup_cons.
    destruct (decide (s = x)) as [<-|Hne].
    + rewrite find_set_entry_eq, Ec. cbn.
      apply (IH c c' Em). intros ->. contradiction.
    + rewrite find_set_entry_ne by exact Hne. reflexivity.
Qed.

End TreeFacts.

Section CallEffects.

Lemma kind_at_lookup q n : kind_at q n = kind_of <$> Fs.lookup q n.
Proof. reflexivity. Qed.

(** A change whose function accepts the entry found goes through. *)
Lemma modify_defined segs f n c r :
  Fs.lookup segs n = Some c → segs ≠ [] → f (Some c) = Done r →
  ∃ n', Fs.modify segs f n = Done n'.
Proof.
  revert n. induction segs as [|s rest IH]; intros n Hl Hne Hf; [contradiction|].
  destruct n as [st c0|st es]; [discriminate|].
  rewrite lookup_cons in Hl. cbn [Fs.modify].
  destruct (Fs.find_entry s es) as [c1|] eqn:Ec; [|discriminate]. cbn in Hl.
  destruct rest as [|s' rest].
  - injection Hl as ->. rewrite Hf. eexists. reflexivity.
  - destruct (IH c1 Hl ltac:(discriminate) Hf) as [c' Hc']. rewrite Hc'.
    eexists. reflexivity.
Qed.

Lemma modify_fs_inv fs p f fs' :
  Fs.modify_fs fs p f = Done fs' →
  ∃ root, Fs.modify (Fs.resolve fs p) f (fs_root fs) = Done root
          ∧ fs' = mkFs root (fs_cwd fs) (fs_now fs).
Proof.
  unfold Fs.modify_fs. intros H.
  destruct (Fs.modify _ _ _) as [root| |]; try discriminate.
  injection H as <-. exists root. split; reflexivity.
Qed.

Lemma createDirectory_effect fs p fs' :
  Fs.createDirectory fs p = Done fs' → call_effect (CreateDirectory p) fs fs'.
Proof.
  intros H. apply modify_fs_inv in H as (root & Hm & ->).
  split; [reflexivity|]. split; [reflexivity|]. split.
  - intros q Hq. unfold kindOn. cbn [fs_root].
    apply (modify_other _ _ _ _ Hm); [|exact Hq].
    intros [[st c|st es]|] new; cbn; intros [=]; subst; auto.
    left. split; reflexivity.
  - apply modify_at in Hm. cbn [target]. unfold kindOn, kind_at. cbn [fs_root].
    destruct (Fs.lookup (Fs.resolve fs p) (fs_root fs)) as [[st c|st es]|];
      cbn in Hm; try discriminate; injection Hm as <-; cbn; auto.
Qed.

Lemma copyFile_effect fs from to fs' :
  Fs.copyFile fs from to = Done fs' → call_effect (CopyFile from to) fs fs'.
Proof.
  unfold Fs.copyFile. intros H.
  destruct (Fs.stat fs from) as [[st c|]|]; try discriminate.
  apply modify_fs_inv in H as (root & Hm & ->).
  split; [reflexivity|]. split; [reflexivity|]. split.
  - intros q Hq. unfold kindOn. cbn [fs_root].
    apply (modify_other _ _ _ _ Hm); [|exact Hq].
    intros [[st' c'|st' es]|] new; cbn; intros [=]; subst; left; split; exact I.
  - apply modify_at in Hm. cbn [target]. unfold kindOn, kind_at. cbn [fs_root].
    destruct (Fs.lookup (Fs.resolve fs to) (fs_root fs)) as [[st' c'|st' es]|];
      cbn in Hm; try discriminate; injection Hm as <-; cbn;
      (split; [reflexivity|discriminate]).
Qed.

Lemma deleteFile_effect fs p :
  call_effect (DeleteFile p) fs (Fs.unawaited fs (Fs.deleteFile fs p)).
Proof.
  destruct (Fs.deleteFile fs p) as [fs'| |] eqn:H; cbn [Fs.unawaited].
  - apply modify_fs_inv in H as (root & Hm & ->).
    split; [reflexivity|]. split; [reflexivity|]. split.
    + intros q Hq. unfold kindOn. cbn [fs_root].
      apply (modify_other _ _ _ _ Hm); [|exact Hq].
      intros [[st' c'|st' es]|] new; cbn; intros [=]; subst; left; split; exact I.
    + apply modify_at in Hm. cbn [target]. unfold kindOn, kind_at. cbn [fs_root].
      destruct (Fs.lookup (Fs.resolve fs p) (fs_root fs)) as [[st' c'|st' es]|];
        cbn in Hm; try discriminate; injection Hm as <-; cbn.
      split; [reflexivity|right; split; reflexivity].
  - split; [reflexivity|]. split; [reflexivity|]. split; [reflexivity|].
    split; [|left; reflexivity].
    cbn [target]. intros Hne. unfold kindOn, kind_at.
    destruct (Fs.lookup (Fs.resolve fs p) (fs_root fs)) as [[st c|st es]|] eqn:El;
      try reflexivity.
    exfalso. unfold Fs.deleteFile, Fs.modify_fs in H.
    destruct (modify_defined (Fs.resolve fs p)
                (fun old => match old with
                            | Some (NFile _ _) => Done None
                            | _ => Threw
                            end) (fs_root fs) _ None El) as [n' Hn'].
    + exact Hne.
    + reflexivity.
    + rewrite Hn' in H. discriminate.
  - exfalso. unfold Fs.deleteFile, Fs.modify_fs in H.
    destruct (Fs.modify _ _ _) eqn:Em; try discriminate.
    clear H. revert Em. generalize (fs_root fs).
    induction (Fs.resolve fs p) as [|s rest IH]; intros n Hm; [discriminate|].
    destruct n as [st c|st es]; [discriminate|]. cbn [Fs.modify] in Hm.
    destruct rest as [|s' rest].
    + destruct (Fs.find_entry s es) as [[? ?|? ?]|]; discriminate.
    + destruct (Fs.find_entry s es) as [c|]; [|discriminate].
      destruct (Fs.modify (s' :: rest) _ c) eqn:E; try discriminate.
      exact (IH c E).
Qed.

Lemma deleteDirectory_effect fs p :
  call_effect (DeleteDirectory p) fs (Fs.unawaited fs (Fs.deleteDirectory fs p)).
Proof.
  destruct (Fs.deleteDirectory fs p) as [fs'| |] eqn:H; cbn [Fs.unawaited].
  - apply modify_fs_inv in H as (root & Hm & ->).
    split; [reflexivity|]. split; [reflexivity|]. split.
    + intros q Hq. unfold kindOn. cbn [fs_root].
      apply (modify_other _ _ _ _ Hm); [|exact Hq].
      intros [[st' c'|st' [|e es]]|] new; cbn; intros [=]; subst; left;
        split; try exact I; reflexivity.
    + apply modify_at in Hm. cbn [target]. unfold kindOn, kind_at. cbn [fs_root].
      destruct (Fs.lookup (Fs.resolve fs p) (fs_root fs)) as [[st' c'|st' [|e es]]|];
        cbn in Hm; try discriminate; injection Hm as <-; cbn.
      right. split; reflexivity.
  - repeat split; left; reflexivity.
  - repeat split; left; reflexivity.
Qed.

(** Every call of [applyDelta] that returns has the effect of its kind. *)
Lemma issue_effect call fs fs' :
  Target.perform call fs = Done fs' → call_effect call fs fs'.
Proof.
  destruct call as [dir|from to|file|dir]; cbn [Target.perform].
  - apply createDirectory_effect.
  - apply copyFile_effect.
  - intros [= <-]. apply deleteFile_effect.
  - intros [= <-]. apply deleteDirectory_effect.
Qed.

Lemma call_effect_target call fs fs' :
  call_effect call fs fs' → ∀ c, target fs' c = target fs c.
Proof.
  intros (Hcwd & _) c. unfold target, Fs.resolve. rewrite Hcwd.
  destruct c; reflexivity.
Qed.

End CallEffects.

Section Stability.

Lemma forEach_app {A S} (body : A → S → result S) l1 l2 s s' :
  forEach body (l1 ++ l2) s = Done s' →
  ∃ s1, forEach body l1 s = Done s1 ∧ forEach body l2 s1 = Done s'.
Proof.
  revert s. induction l1 as [|x l1 IH]; intros s H; cbn in H.
  - exists s. split; [reflexivity|exact H].
  - cbn. destruct (body x s) as [s1| |]; cbn in *; try discriminate.
    apply IH, H.
Qed.

(** A run of calls leaves the working directory and the clock alone. *)
Lemma forEach_app_run {A S} (body : A → S → result S) l1 l2 s s1 :
  forEach body l1 s = Done s1 →
  forEach body (l1 ++ l2) s = forEach body l2 s1.
Proof.
  revert s. induction l1 as [|x l1 IH]; intros s H; cbn in H |- *.
  - injection H as <-. reflexivity.
  - destruct (body x s) as [s'| |]; cbn in H |- *; try discriminate.
    apply IH, H.
Qed.

Lemma run_frame cs : ∀ fs fs',
  forEach Target.perform cs fs = Done fs' →
  fs_cwd fs' = fs_cwd fs ∧ fs_now fs' = fs_now fs.
Proof.
  induction cs as [|c cs IH]; intros fs fs' H; cbn in H.
  - injection H as <-. split; reflexivity.
  - destruct (Target.perform c fs) as [fs1| |] eqn:E; cbn in H; try discriminate.
    apply issue_effect in E as (Hc & Hn & _).
    destruct (IH _ _ H) as [Hc' Hn']. split; congruence.
Qed.

Lemma target_cwd fs fs' c : fs_cwd fs' = fs_cwd fs → target fs' c = target fs c.
Proof. intros H. unfold target, Fs.resolve. rewrite H. reflexivity. Qed.

(** A property of the entry at [q] that no call outside [bad] destroys
    outlives a run in which no call of [bad] acts on [q]. *)
Lemma run_preserve (Inv : option kind → Prop) (bad : FsCall → bool)
    (q : list string) (now : Z) :
  (∀ c fs fs', call_effect c fs fs' → fs_now fs = now → bad c = false →
               target fs c = q → Inv (kindOn fs q) → Inv (kindOn fs' q)) →
  ∀ cs fs fs',
    forEach Target.perform cs fs = Done fs' → fs_now fs = now →
    Inv (kindOn fs q) →
    (∀ c, c ∈ cs → bad c = true → target fs c ≠ q) →
    Inv (kindOn fs' q).
Proof.
  intros Hstep. induction cs as [|c cs IH]; intros fs fs' H Hnow Hinv Hbad; cbn in H.
  - injection H as <-. exact Hinv.
  - destruct (Target.perform c fs) as [fs1| |] eqn:E; cbn in H; try discriminate.
    apply issue_effect in E. pose proof E as (Hc & Hn & Hoth & _).
    apply (IH _ _ H).
    + congruence.
    + destruct (decide (q = target fs c)) as [Hq|Hq].
      * destruct (bad c) eqn:Eb.
        -- exfalso. apply (Hbad c); [apply list_elem_of_here|exact Eb|].
           symmetry. exact Hq.
        -- apply (Hstep c fs fs1 E Hnow Eb); [symmetry; exact Hq|exact Hinv].
      * rewrite (Hoth q Hq). exact Hinv.
    + intros c' Hin Hb. rewrite (target_cwd fs fs1 c' Hc).
      apply Hbad; [apply list_elem_of_further, Hin|exact Hb].
Qed.

(** A directory stays unless a [deleteDirectory] is aimed at it. *)
Lemma run_keeps_dir q cs fs fs' :
  forEach Target.perform cs fs = Done fs' →
  kindOn fs q = Some KDir →
  (∀ c, c ∈ cs → isDeleteDirectory c = true → target fs c ≠ q) →
  kindOn fs' q = Some KDir.
Proof.
  intros H Hd Hbad.
  apply (run_preserve (fun k => k = Some KDir) isDeleteDirectory q (fs_now fs))
    with (cs := cs) (fs := fs); auto.
  intros c fa fb (_ & _ & _ & He) _ Hb <- Hk.
  destruct c as [p|from to|p|p]; try discriminate.
  - apply He.
  - destruct He as [_ He]. contradiction.
  - destruct He as [_ [He|[He _]]]; [congruence|].
    rewrite Hk in He. discriminate.
Qed.

(** A file not older than [b], a time not after the clock, stays so unless
    a [deleteFile] is aimed at it. *)
Lemma run_keeps_fresh q b cs fs fs' :
  forEach Target.perform cs fs = Done fs' →
  b ≤ fs_now fs →
  fresh_at fs q b →
  (∀ c, c ∈ cs → isDeleteFile c = true → target fs c ≠ q) →
  fresh_at fs' q b.
Proof.
  intros H Hb Hf Hbad.
  apply (run_preserve (fun k => ∃ m, k = Some (KFile m) ∧ b ≤ m)
           isDeleteFile q (fs_now fs)) with (cs := cs) (fs := fs); auto.
  intros c fa fb (_ & _ & _ & He) Hn Hbd <- (m & Hk & Hm).
  destruct c as [p|from to|p|p]; try discriminate.
  - destruct He as [_ [He|He]]; congruence.
  - destruct He as [He _]. exists (fs_now fa). split; [exact He|lia].
  - destruct He as [He|[He _]]; [|congruence].
    exists m. split; [congruence|exact Hm].
Qed.

(** What is not a file does not become one unless a [copyFile] is aimed
    at it. *)
Lemma run_keeps_nofile q cs fs fs' :
  forEach Target.perform cs fs = Done fs' →
  isKFile (kindOn fs q) = false →
  (∀ c, c ∈ cs → isCopyFile c = true → target fs c ≠ q) →
  isKFile (kindOn fs' q) = false.
Proof.
  intros H Hf Hbad.
  apply (run_preserve (fun k => isKFile k = false) isCopyFile q (fs_now fs))
    with (cs := cs) (fs := fs); auto.
  intros c fa fb (_ & _ & _ & He) _ Hb <- Hk.
  destruct c as [p|from to|p|p]; try discriminate.
  - destruct He as [-> _]. reflexivity.
  - destruct He as [_ [He|[_ He]]]; rewrite He; [exact Hk|reflexivity].
  - destruct He as [He|[_ He]]; rewrite He; [exact Hk|reflexivity].
Qed.

(** The calls of a run that returns, taken apart at one of them. *)
Lemma run_split c cs fs fs' :
  forEach Target.perform cs fs = Done fs' → c ∈ cs →
  ∃ l1 l2 fs1 fs2,
    cs = l1 ++ c :: l2
    ∧ forEach Target.perform l1 fs = Done fs1
    ∧ call_effect c fs1 fs2
    ∧ forEach Target.perform l2 fs2 = Done fs'
    ∧ fs_cwd fs1 = fs_cwd fs ∧ fs_now fs1 = fs_now fs
    ∧ fs_cwd fs2 = fs_cwd fs ∧ fs_now fs2 = fs_now fs.
Proof.
  intros H Hin. apply list_elem_of_split in Hin as (l1 & l2 & ->).
  apply forEach_app in H as (fs1 & H1 & H2). cbn in H2.
  destruct (Target.perform c fs1) as [fs2| |] eqn:E; cbn in H2; try discriminate.
  apply issue_effect in E. pose proof E as (Hc & Hn & _).
  destruct (run_frame _ _ _ H1) as [Hc1 Hn1].
  exists l1, l2, fs1, fs2.
  split; [reflexivity|]. split; [exact H1|]. split; [exact E|].
  split; [exact H2|]. repeat split; congruence.
Qed.

End Stability.

Section WellFormed.

Lemma wf_dir st es :
  wf_node (NDir st es) = true ↔
  Forall (fun e => proper e.1 = true ∧ wf_node e.2 = true) es
  ∧ NoDup (map fst es).
Proof.
  cbn [wf_node]. rewrite !andb_true_iff, bool_decide_eq_true.
  rewrite !forallb_forall, Forall_forall.
  split.
  - intros [[Hp Hn] Hw]. split; [|exact Hn].
    intros e He. split.
    + apply Hp, in_map, list_elem_of_In, He.
    + apply Hw, list_elem_of_In, He.
  - intros [H Hn]. split; [split; [|exact Hn]|].
    + intros x Hx. apply in_map_iff in Hx as (e & <- & He).
      apply H, list_elem_of_In, He.
    + intros e He. apply H, list_elem_of_In, He.
Qed.

Lemma find_entry_None s es : Fs.find_entry s es = None ↔ s ∉ map fst es.
Proof.
  induction es as [|[k c] es IH]; cbn.
  - split; [intros _; apply not_elem_of_nil|reflexivity].
  - rewrite not_elem_of_cons. destruct (String.eqb_spec k s) as [->|Hne].
    + split; [discriminate|intros [H _]; contradiction].
    + rewrite IH. split; [intros H; split; [congruence|exact H]|intros [_ H]; exact H].
Qed.

Lemma find_entry_elem s c es : Fs.find_entry s es = Some c → (s, c) ∈ es.
Proof.
  induction es as [|[k c'] es IH]; cbn; [discriminate|].
  destruct (String.eqb_spec k s) as [->|Hne].
  - intros [= ->]. apply list_elem_of_here.
  - intros H. apply list_elem_of_further, IH, H.
Qed.

Lemma elem_find_entry s c es :
  NoDup (map fst es) → (s, c) ∈ es → Fs.find_entry s es = Some c.
Proof.
  induction es as [|[k c'] es IH]; cbn; intros Hnd Hin.
  - apply elem_of_nil in Hin. contradiction.
  - apply NoDup_cons in Hnd as [Hk Hnd].
    apply elem_of_cons in Hin as [[= <- <-]|Hin].
    + rewrite String.eqb_refl. reflexivity.
    + destruct (String.eqb_spec k s) as [->|Hne]; [|apply IH; assumption].
      exfalso. apply Hk. apply (list_elem_of_fmap_2 fst) in Hin. exact Hin.
Qed.

Lemma set_entry_names s c es :
  map fst (Fs.set_entry s c es)
  = match Fs.find_entry s es with
    | Some _ => map fst es
    | None => map fst es ++ [s]
    end.
Proof.
  induction es as [|[k c'] es IH]; cbn; [reflexivity|].
  destruct (String.eqb_spec k s) as [->|Hne]; [reflexivity|].
  cbn. rewrite IH. destruct (Fs.find_entry s es); reflexivity.
Qed.

Lemma set_entry_elem s c es e :
  e ∈ Fs.set_entry s c es → e = (s, c) ∨ e ∈ es.
Proof.
  induction es as [|[k c'] es IH]; cbn.
  - intros H. apply list_elem_of_singleton in H. left. exact H.
  - destruct (String.eqb_spec k s) as [->|Hne]; intros H;
      apply elem_of_cons in H as [->|H].
    + left. reflexivity.
    + right. apply list_elem_of_further, H.
    + right. apply list_elem_of_here.
    + destruct (IH H) as [->|H']; [left; reflexivity|].
      right. apply list_elem_of_further, H'.
Qed.

Lemma remove_entry_elem s es e : e ∈ Fs.remove_entry s es → e ∈ es.
Proof.
  induction es as [|[k c'] es IH]; cbn; [exact id|].
  destruct (String.eqb k s); intros H.
  - apply list_elem_of_further, IH, H.
  - apply elem_of_cons in H as [->|H]; [apply list_elem_of_here|].
    apply list_elem_of_further, IH, H.
Qed.

Lemma remove_entry_NoDup s es :
  NoDup (map fst es) → NoDup (map fst (Fs.remove_entry s es)).
Proof.
  induction es as [|[k c'] es IH]; cbn; [exact id|].
  intros Hnd. apply NoDup_cons in Hnd as [Hk Hnd].
  destruct (String.eqb k s); [apply IH, Hnd|].
  cbn. apply NoDup_cons. split; [|apply IH, Hnd].
  intros Hin. apply Hk.
  apply list_elem_of_fmap in Hin as (e & -> & He).
  apply list_elem_of_fmap. exists e. split; [reflexivity|].
  exact (remove_entry_elem _ _ _ He).
Qed.

Lemma wf_set_entry st s c es :
  wf_node (NDir st es) = true → proper s = true → wf_node c = true →
  wf_node (NDir st (Fs.set_entry s c es)) = true.
Proof.
  rewrite !wf_dir. intros [Hall Hnd] Hs Hc. split.
  - apply Forall_forall. intros e He.
    destruct (set_entry_elem _ _ _ _ He) as [->|He'].
    + split; assumption.
    + exact (proj1 (Forall_forall _ _) Hall e He').
  - rewrite set_entry_names.
    destruct (Fs.find_entry s es) eqn:E; [exact Hnd|].
    apply NoDup_app. split; [exact Hnd|]. split; [|apply NoDup_singleton].
    intros x Hx Hx'. apply list_elem_of_singleton in Hx' as ->.
    apply find_entry_None in E. contradiction.
Qed.

Lemma wf_remove_entry st s es :
  wf_node (NDir st es) = true → wf_node (NDir st (Fs.remove_entry s es)) = true.
Proof.
  rewrite !wf_dir. intros [Hall Hnd]. split; [|apply remove_entry_NoDup, Hnd].
  apply Forall_forall. intros e He.
  exact (proj1 (Forall_forall _ _) Hall e (remove_entry_elem _ _ _ He)).
Qed.

Lemma wf_find_entry st s c es :
  wf_node (NDir st es) = true → Fs.find_entry s es = Some c →
  wf_node c = true ∧ proper s = true.
Proof.
  rewrite wf_dir. intros [Hall _] Hf. apply find_entry_elem in Hf.
  destruct (proj1 (Forall_forall _ _) Hall _ Hf) as [Hp Hw]. split; assumption.
Qed.

(** What is found in a well-formed tree is well-formed and reached through
    proper names. *)
Lemma wf_lookup q : ∀ n c,
  wf_node n = true → Fs.lookup q n = Some c →
  wf_node c = true ∧ Forall (fun x => proper x = true) q.
Proof.
  induction q as [|s q IH]; intros n c Hw Hl.
  - injection Hl as <-. split; [exact Hw|constructor].
  - destruct n as [st c0|st es]; [discriminate|]. rewrite lookup_cons in Hl.
    destruct (Fs.find_entry s es) as [c1|] eqn:E; [|discriminate]. cbn in Hl.
    destruct (wf_find_entry _ _ _ _ Hw E) as [Hw1 Hs].
    destruct (IH c1 c Hw1 Hl) as [Hc Hq]. split; [exact Hc|].
    constructor; assumption.
Qed.

(** A change keeps the tree well-formed when it names proper entries and
    puts well-formed nodes. *)
Lemma modify_wf segs f : ∀ n n',
  wf_node n = true → Forall (fun x => proper x = true) segs →
  (∀ old new, (∀ c, old = Some c → wf_node c = true) →
              f old = Done (Some new) → wf_node new = true) →
  Fs.modify segs f n = Done n' → wf_node n' = true.
Proof.
  induction segs as [|s rest IH]; intros n n' Hw Hp Hf Hm; [discriminate|].
  destruct n as [st c0|st es]; [discriminate|]. cbn [Fs.modify] in Hm.
  apply Forall_cons in Hp as [Hs Hrest].
  destruct rest as [|s' rest].
  - destruct (f (Fs.find_entry s es)) as [r| |] eqn:E; cbn in Hm; try discriminate.
    injection Hm as <-. destruct r as [c|].
    + apply wf_set_entry; [exact Hw|exact Hs|].
      apply (Hf (Fs.find_entry s es) c); [|exact E].
      intros c1 H1. exact (proj1 (wf_find_entry _ _ _ _ Hw H1)).
    + apply wf_remove_entry, Hw.
  - destruct (Fs.find_entry s es) as [c|] eqn:E; [|discriminate].
    destruct (Fs.modify (s' :: rest) f c) as [c'| |] eqn:E'; cbn in Hm;
      try discriminate.
    injection Hm as <-.
    apply wf_set_entry; [exact Hw|exact Hs|].
    apply (IH c c'); [exact (proj1 (wf_find_entry _ _ _ _ Hw E))|exact Hrest|exact Hf|exact E'].
Qed.

(** Every call of [applyDelta] keeps the tree well-formed. *)
Lemma issue_wf call fs fs' :
  Target.perform call fs = Done fs' →
  wf_node (fs_root fs) = true → wf_node (fs_root fs') = true.
Proof.
  assert (Hgen : ∀ p f r,
    Fs.modify_fs fs p f = r →
    (∀ old new, (∀ c, old = Some c → wf_node c = true) →
                f old = Done (Some new) → wf_node new = true) →
    wf_node (fs_root fs) = true →
    wf_node (fs_root (Fs.unawaited fs r)) = true).
  { intros p f r Hr Hf Hw. destruct r as [fs1| |]; cbn [Fs.unawaited]; try exact Hw.
    apply modify_fs_inv in Hr as (root & Hm & ->). cbn [fs_root].
    apply (modify_wf _ _ _ _ Hw (resolve_proper fs p) Hf Hm). }
  destruct call as [p|from to|p|p]; cbn [Target.perform]; intros H Hw.
  - apply (Hgen p _ _ H) in Hw; [exact Hw|].
    intros [[st c|st es]|] new Hold; intros [= <-]; [|reflexivity].
    apply Hold. reflexivity.
  - unfold Fs.copyFile in H.
    destruct (Fs.stat fs from) as [[st c|]|]; try discriminate.
    apply (Hgen to _ _ H) in Hw; [exact Hw|].
    intros [[st' c'|st' es]|] new Hold; intros [= <-]; reflexivity.
  - injection H as <-. apply (Hgen p _ _ eq_refl); [|exact Hw].
    intros [[st' c'|st' es]|] new Hold; intros [=].
  - injection H as <-. apply (Hgen p _ _ eq_refl); [|exact Hw].
    intros [[st' c'|st' [|e es]]|] new Hold; intros [=].
Qed.

Lemma run_wf cs : ∀ fs fs',
  forEach Target.perform cs fs = Done fs' →
  wf_node (fs_root fs) = true → wf_node (fs_root fs') = true.
Proof.
  induction cs as [|c cs IH]; intros fs fs' H Hw; cbn in H.
  - injection H as <-. exact Hw.
  - destruct (Target.perform c fs) as [fs1| |] eqn:E; cbn in H; try discriminate.
    apply (IH _ _ H), (issue_wf _ _ _ E), Hw.
Qed.

End WellFormed.

(** ** What [rebuildDelta] computes from the disk *)

Section ObjFacts.

Context {V : Type}.
Implicit Types (o : JsObj.t V) (k : string).

Lemma has_keys k o : JsObj.has k o = true ↔ k ∈ JsObj.keys o.
Proof.
  unfold JsObj.has, JsObj.keys.
  induction o as [|[k' v'] o IH]; cbn.
  - split; [discriminate|]. intros H. apply elem_of_nil in H. contradiction.
  - rewrite elem_of_cons. destruct (String.eqb_spec k' k) as [->|Hne].
    + split; [left; reflexivity|reflexivity].
    + rewrite IH. split; [right; assumption|]. intros [->|H]; [contradiction|exact H].
Qed.

Lemma has_get k o : JsObj.has k o = true ↔ ∃ v, JsObj.get k o = Some v.
Proof.
  unfold JsObj.has. destruct (JsObj.get k o) as [v|].
  - split; [exists v; reflexivity|reflexivity].
  - split; [discriminate|intros [v [=]]].
Qed.

Lemma has_false_get k o : JsObj.has k o = false ↔ JsObj.get k o = None.
Proof.
  unfold JsObj.has. destruct (JsObj.get k o); split; congruence.
Qed.

Lemma elem_keys k (v : V) o : (k, v) ∈ o → k ∈ JsObj.keys o.
Proof. intros H. apply (list_elem_of_fmap_2 fst) in H. exact H. Qed.

Lemma get_delete_ne k k' o :
  k ≠ k' → JsObj.get k' (JsObj.delete k o) = JsObj.get k' o.
Proof.
  intros Hne. induction o as [|[k0 v0] o IH]; cbn; [reflexivity|].
  destruct (String.eqb_spec k0 k) as [->|H0]; cbn.
  - destruct (String.eqb_spec k k'); [contradiction|reflexivity].
  - rewrite IH. reflexivity.
Qed.

Lemma keys_delete k k' o : k' ∈ JsObj.keys (JsObj.delete k o) → k' ∈ JsObj.keys o.
Proof.
  unfold JsObj.keys. induction o as [|[k0 v0] o IH]; cbn; [exact id|].
  destruct (String.eqb k0 k); cbn; rewrite !elem_of_cons; intros H.
  - right. exact H.
  - destruct H as [->|H]; [left; reflexivity|right; apply IH, H].
Qed.

Lemma NoDup_delete k o :
  NoDup (JsObj.keys o) → NoDup (JsObj.keys (JsObj.delete k o)).
Proof.
  induction o as [|[k0 v0] o IH]; cbn; [exact id|].
  intros H. apply NoDup_cons in H as [Hk H].
  destruct (String.eqb k0 k); [exact H|].
  cbn. apply NoDup_cons. split; [|apply IH, H].
  intros Hin. apply Hk. exact (keys_delete _ _ _ Hin).
Qed.

Lemma get_delete_eq k o :
  NoDup (JsObj.keys o) → JsObj.get k (JsObj.delete k o) = None.
Proof.
  induction o as [|[k0 v0] o IH]; cbn; [reflexivity|].
  intros H. apply NoDup_cons in H as [Hk H].
  destruct (String.eqb_spec k0 k) as [->|H0]; cbn.
  - apply has_false_get. destruct (JsObj.has k o) eqn:E; [|reflexivity].
    apply has_keys in E. contradiction.
  - destruct (String.eqb_spec k0 k); [contradiction|]. apply IH, H.
Qed.

Lemma keys_set k k' (v : V) o :
  k' ∈ JsObj.keys (JsObj.set k v o) ↔ k' = k ∨ k' ∈ JsObj.keys o.
Proof.
  rewrite <- !has_keys. unfold JsObj.has.
  destruct (decide (k = k')) as [->|Hne].
  - rewrite get_set_eq. split; [left; reflexivity|reflexivity].
  - rewrite get_set_ne by exact Hne.
    split; [right; assumption|]. intros [->|H]; [contradiction|exact H].
Qed.

Lemma NoDup_set k (v : V) o :
  NoDup (JsObj.keys o) → NoDup (JsObj.keys (JsObj.set k v o)).
Proof.
  induction o as [|[k0 v0] o IH]; cbn.
  - intros _. apply NoDup_singleton.
  - intros H. apply NoDup_cons in H as [Hk H].
    destruct (String.eqb_spec k0 k) as [->|H0]; cbn; apply NoDup_cons.
    + split; assumption.
    + split; [|apply IH, H]. intros Hin.
      apply keys_set in Hin as [->|Hin]; contradiction.
Qed.

Lemma has_delete k k' o :
  JsObj.has k' (JsObj.delete k o) = true → JsObj.has k' o = true.
Proof. rewrite !has_keys. apply keys_delete. Qed.

End ObjFacts.

Lemma append_slash_inj p q : p +:+ "/" = q +:+ "/" → p = q.
Proof.
  revert q. induction p as [|a p IH]; intros [|b q] H.
  - reflexivity.
  - rewrite append_nil_l, append_cons in H. injection H as <- H.
    destruct q; discriminate.
  - rewrite append_nil_l, append_cons in H. injection H as -> H.
    destruct p; discriminate.
  - rewrite !append_cons in H. injection H as -> H. f_equal. apply IH, H.
Qed.

Lemma classic_dir (x : string * kind) (k : string) :
  (∃ p, x = (p, KDir) ∧ k = p +:+ "/") ∨ ¬ (∃ p, x = (p, KDir) ∧ k = p +:+ "/").
Proof.
  destruct x as [p [|m]].
  - destruct (decide (k = p +:+ "/")) as [->|Hne].
    + left. exists p. split; reflexivity.
    + right. intros (p' & [= <-] & ->). contradiction.
  - right. intros (p' & [=] & _).
Qed.

Section DiffFold.

Implicit Types (d : IDelta) (x : string * kind) (L : list (string * kind)).

Lemma diffStep_once d x : once d → once (diffStep d x).
Proof.
  intros [Hc Hm]. destruct x as [p [|m]]; unfold diffStep; cbn [fst snd].
  - destruct (JsObj.has (p +:+ Path.sep) (mkdir d)); split; cbn; try assumption.
    apply NoDup_delete, Hm.
  - destruct (JsObj.get p (copy d)) as [src|]; [|split; assumption].
    destruct (negb _); split; cbn; try assumption. apply NoDup_delete, Hc.
Qed.

Lemma diffStep_copy_other d x k :
  k ≠ x.1 → JsObj.get k (copy (diffStep d x)) = JsObj.get k (copy d).
Proof.
  intros Hne. destruct x as [p [|m]]; unfold diffStep; cbn [fst snd] in *.
  - destruct (JsObj.has (p +:+ Path.sep) (mkdir d)); reflexivity.
  - destruct (JsObj.get p (copy d)) as [src|]; [|reflexivity].
    destruct (negb _); [|reflexivity]. cbn. apply get_delete_ne. congruence.
Qed.

Lemma diffStep_copy_at d p kd f :
  once d → JsObj.get p (copy (diffStep d (p, kd))) = Some f →
  JsObj.get p (copy d) = Some f ∧ ∀ m, kd = KFile m → m < IFile.mtime f.
Proof.
  intros [Hc _]. destruct kd as [|m]; unfold diffStep; cbn [fst snd].
  - destruct (JsObj.has (p +:+ Path.sep) (mkdir d)); cbn; intros H; (split; [exact H|discriminate]).
  - destruct (JsObj.get p (copy d)) as [src|] eqn:E.
    + destruct (Z.ltb_spec m (IFile.mtime src)) as [Hlt|Hge]; cbn [negb].
      * rewrite E. intros [= <-]. split; [reflexivity|]. intros ? [= <-]. exact Hlt.
      * cbn. rewrite get_delete_eq by exact Hc. discriminate.
    + cbn. rewrite E. discriminate.
Qed.

Lemma diffStep_copy_keep d x f k :
  JsObj.get k (copy d) = Some f →
  JsObj.get k (copy (diffStep d x)) = Some f
  ∨ ∃ m, x = (k, KFile m) ∧ IFile.mtime f ≤ m.
Proof.
  intros H. destruct (decide (k = x.1)) as [->|Hne].
  - destruct x as [p [|m]]; unfold diffStep; cbn [fst snd] in *.
    + left. destruct (JsObj.has (p +:+ Path.sep) (mkdir d)); exact H.
    + rewrite H. destruct (Z.ltb_spec m (IFile.mtime f)) as [Hlt|Hge]; cbn [negb].
      * left. exact H.
      * right. exists m. split; [reflexivity|exact Hge].
  - left. rewrite diffStep_copy_other by exact Hne. exact H.
Qed.

Lemma diffStep_rmfile d x k :
  JsObj.has k (rmfile (diffStep d x)) = true →
  JsObj.has k (rmfile d) = true
  ∨ ∃ m, x = (k, KFile m) ∧ JsObj.get k (copy d) = None.
Proof.
  destruct x as [p [|m]]; unfold diffStep; cbn [fst snd].
  - destruct (JsObj.has (p +:+ Path.sep) (mkdir d)); cbn; auto.
  - destruct (JsObj.get p (copy d)) as [src|] eqn:E.
    + destruct (negb _); cbn; auto.
    + cbn. rewrite !has_keys, keys_set. intros [->|H]; [|left; exact H].
      right. exists m. split; [reflexivity|exact E].
Qed.

Lemma diffStep_rmfile_mono d x k :
  JsObj.has k (rmfile d) = true → JsObj.has k (rmfile (diffStep d x)) = true.
Proof.
  destruct x as [p [|m]]; unfold diffStep; cbn [fst snd].
  - destruct (JsObj.has (p +:+ Path.sep) (mkdir d)); cbn; auto.
  - destruct (JsObj.get p (copy d)) as [src|] eqn:E.
    + destruct (negb _); cbn; auto.
    + cbn. apply has_set.
Qed.

Lemma diffStep_rmfile_add d k m :
  JsObj.get k (copy d) = None →
  JsObj.has k (rmfile (diffStep d (k, KFile m))) = true.
Proof.
  intros E. unfold diffStep; cbn [fst snd]. rewrite E. cbn. apply has_set_eq.
Qed.

Lemma diffStep_rmdir d x k :
  JsObj.has k (rmdir (diffStep d x)) = true →
  JsObj.has k (rmdir d) = true
  ∨ ∃ p, x = (p, KDir) ∧ k = p +:+ "/" ∧ JsObj.has k (mkdir d) = false.
Proof.
  destruct x as [p [|m]]; unfold diffStep; cbn [fst snd].
  - destruct (JsObj.has (p +:+ Path.sep) (mkdir d)) eqn:E; cbn; auto.
    rewrite !has_keys, keys_set. intros [->|H]; [|left; exact H].
    right. exists p. split; [reflexivity|]. split; [reflexivity|exact E].
  - destruct (JsObj.get p (copy d)) as [src|] eqn:E.
    + destruct (negb _); cbn; auto.
    + cbn. auto.
Qed.

Lemma diffStep_mkdir_sub d x k :
  JsObj.has k (mkdir (diffStep d x)) = true → JsObj.has k (mkdir d) = true.
Proof.
  destruct x as [p [|m]]; unfold diffStep; cbn [fst snd].
  - destruct (JsObj.has (p +:+ Path.sep) (mkdir d)) eqn:E; cbn; auto.
    apply has_delete.
  - destruct (JsObj.get p (copy d)) as [src|] eqn:E.
    + destruct (negb _); cbn; auto.
    + cbn. auto.
Qed.

Lemma diffStep_mkdir_other d x k :
  (∀ p, x = (p, KDir) → k ≠ p +:+ "/") →
  JsObj.has k (mkdir (diffStep d x)) = JsObj.has k (mkdir d).
Proof.
  intros Hne. destruct x as [p [|m]]; unfold diffStep; cbn [fst snd].
  - destruct (JsObj.has (p +:+ Path.sep) (mkdir d)) eqn:E; cbn; auto.
    unfold JsObj.has. rewrite get_delete_ne; [reflexivity|].
    intros Heq. apply (Hne p eq_refl). symmetry. exact Heq.
  - destruct (JsObj.get p (copy d)) as [src|] eqn:E.
    + destruct (negb _); cbn; auto.
    + cbn. auto.
Qed.

Lemma fold_once L : ∀ d, once d → once (foldl diffStep d L).
Proof.
  induction L as [|x L IH]; intros d H; [exact H|]. apply IH, diffStep_once, H.
Qed.

Lemma fold_copy_sub L : ∀ d k f,
  once d → JsObj.get k (copy (foldl diffStep d L)) = Some f →
  JsObj.get k (copy d) = Some f ∧ ∀ m, (k, KFile m) ∈ L → m < IFile.mtime f.
Proof.
  induction L as [|x L IH]; intros d k f Ho H; cbn in H.
  - split; [exact H|]. intros m Hm. apply elem_of_nil in Hm. contradiction.
  - destruct (IH _ _ _ (diffStep_once d x Ho) H) as [H1 H2].
    destruct (decide (k = x.1)) as [->|Hne].
    + destruct x as [p kd]. cbn [fst] in *.
      destruct (diffStep_copy_at _ _ _ _ Ho H1) as [H3 H4].
      split; [exact H3|]. intros m Hm.
      apply elem_of_cons in Hm as [[= <-]|Hm]; [apply H4; reflexivity|apply H2, Hm].
    + rewrite diffStep_copy_other in H1 by exact Hne.
      split; [exact H1|]. intros m Hm.
      apply elem_of_cons in Hm as [<-|Hm]; [contradiction Hne; reflexivity|apply H2, Hm].
Qed.

Lemma fold_copy_keep L : ∀ d k f,
  JsObj.get k (copy d) = Some f →
  JsObj.get k (copy (foldl diffStep d L)) = Some f
  ∨ ∃ m, (k, KFile m) ∈ L ∧ IFile.mtime f ≤ m.
Proof.
  induction L as [|x L IH]; intros d k f H; cbn; [left; exact H|].
  destruct (diffStep_copy_keep d x f k H) as [H1|(m & -> & Hm)].
  - destruct (IH _ _ _ H1) as [H2|(m & Hin & Hm)]; [left; exact H2|].
    right. exists m. split; [apply list_elem_of_further, Hin|exact Hm].
  - right. exists m. split; [apply list_elem_of_here|exact Hm].
Qed.

Lemma fold_copy_other L : ∀ d k,
  k ∉ map fst L → JsObj.get k (copy (foldl diffStep d L)) = JsObj.get k (copy d).
Proof.
  induction L as [|x L IH]; intros d k Hk; cbn; [reflexivity|].
  cbn in Hk. apply not_elem_of_cons in Hk as [Hx Hk].
  rewrite IH by exact Hk. apply diffStep_copy_other, Hx.
Qed.

Lemma fold_rmfile_mono L : ∀ d k,
  JsObj.has k (rmfile d) = true → JsObj.has k (rmfile (foldl diffStep d L)) = true.
Proof.
  induction L as [|x L IH]; intros d k H; cbn; [exact H|].
  apply IH, diffStep_rmfile_mono, H.
Qed.

Lemma fold_rmfile_sub L : ∀ d k,
  NoDup (map fst L) →
  JsObj.has k (rmfile (foldl diffStep d L)) = true →
  JsObj.has k (rmfile d) = true
  ∨ ∃ m, (k, KFile m) ∈ L ∧ JsObj.get k (copy d) = None.
Proof.
  induction L as [|x L IH]; intros d k Hnd H; cbn in H; [left; exact H|].
  cbn in Hnd. apply NoDup_cons in Hnd as [Hx Hnd].
  destruct (IH _ _ Hnd H) as [H1|(m & Hin & Hg)].
  - destruct (diffStep_rmfile _ _ _ H1) as [H2|(m & -> & Hg)]; [left; exact H2|].
    right. exists m. split; [apply list_elem_of_here|exact Hg].
  - right. exists m. split; [apply list_elem_of_further, Hin|].
    rewrite diffStep_copy_other in Hg; [exact Hg|].
    intros ->. apply Hx. apply (list_elem_of_fmap_2 fst) in Hin. exact Hin.
Qed.

Lemma fold_rmfile_add L : ∀ d k m,
  NoDup (map fst L) → (k, KFile m) ∈ L → JsObj.get k (copy d) = None →
  JsObj.has k (rmfile (foldl diffStep d L)) = true.
Proof.
  induction L as [|x L IH]; intros d k m Hnd Hin Hg; cbn.
  - apply elem_of_nil in Hin. contradiction.
  - cbn in Hnd. apply NoDup_cons in Hnd as [Hx Hnd].
    apply elem_of_cons in Hin as [<-|Hin].
    + apply fold_rmfile_mono, diffStep_rmfile_add, Hg.
    + apply (IH _ _ m Hnd Hin). rewrite diffStep_copy_other; [exact Hg|].
      intros ->. apply Hx. apply (list_elem_of_fmap_2 fst) in Hin. exact Hin.
Qed.

Lemma fold_rmdir_sub L : ∀ d k,
  NoDup (map fst L) →
  JsObj.has k (rmdir (foldl diffStep d L)) = true →
  JsObj.has k (rmdir d) = true
  ∨ ∃ p, k = p +:+ "/" ∧ (p, KDir) ∈ L ∧ JsObj.has k (mkdir d) = false.
Proof.
  induction L as [|x L IH]; intros d k Hnd H; cbn in H; [left; exact H|].
  cbn in Hnd. apply NoDup_cons in Hnd as [Hx Hnd].
  destruct (IH _ _ Hnd H) as [H1|(p & -> & Hin & Hg)].
  - destruct (diffStep_rmdir _ _ _ H1) as [H2|(p & -> & -> & Hg)]; [left; exact H2|].
    right. exists p. split; [reflexivity|]. split; [apply list_elem_of_here|exact Hg].
  - right. exists p. split; [reflexivity|]. split; [apply list_elem_of_further, Hin|].
    rewrite diffStep_mkdir_other in Hg; [exact Hg|].
    intros p' -> Heq. apply append_slash_inj in Heq as <-.
    apply Hx. apply (list_elem_of_fmap_2 fst) in Hin. exact Hin.
Qed.

Lemma fold_mkdir_sub L : ∀ d k,
  JsObj.has k (mkdir (foldl diffStep d L)) = true → JsObj.has k (mkdir d) = true.
Proof.
  induction L as [|x L IH]; intros d k H; cbn in H; [exact H|].
  apply (diffStep_mkdir_sub d x), IH, H.
Qed.

Lemma fold_mkdir_keep L : ∀ d k,
  JsObj.has k (mkdir d) = true →
  JsObj.has k (mkdir (foldl diffStep d L)) = true
  ∨ ∃ p, k = p +:+ "/" ∧ (p, KDir) ∈ L.
Proof.
  induction L as [|x L IH]; intros d k H; cbn; [left; exact H|].
  destruct (classic_dir x k) as [(p & -> & ->)|Hne].
  - right. exists p. split; [reflexivity|apply list_elem_of_here].
  - rewrite <- (diffStep_mkdir_other d x k) in H.
    + destruct (IH _ _ H) as [H1|(p & -> & Hin)]; [left; exact H1|].
      right. exists p. split; [reflexivity|apply list_elem_of_further, Hin].
    + intros p -> ->. apply Hne. exists p. split; reflexivity.
Qed.

End DiffFold.

Section Paths.

Let below (e : string * node) : list (list string * kind) :=
  map (fun x => (e.1 :: x.1, x.2)) (paths e.2).

Lemma paths_dir st es :
  paths (NDir st es) = ([], KDir) :: flat_map below es.
Proof. reflexivity. Qed.

Lemma elem_below_all ns kd es :
  (ns, kd) ∈ flat_map below es ↔
  ∃ e ns', e ∈ es ∧ ns = e.1 :: ns' ∧ (ns', kd) ∈ paths e.2.
Proof.
  rewrite list_elem_of_In, in_flat_map. split.
  - intros (e & He & Hin). unfold below in Hin.
    apply in_map_iff in Hin as ([ns' kd'] & [= <- <-] & Hin).
    exists e, ns'. rewrite !list_elem_of_In. auto.
  - intros (e & ns' & He & -> & Hin). exists e. split; [apply list_elem_of_In, He|].
    unfold below. apply in_map_iff. exists (ns', kd).
    split; [reflexivity|apply list_elem_of_In, Hin].
Qed.

(** Every listed entry is on the disk, under proper names. *)
Lemma paths_kind n : ∀ ns kd,
  wf_node n = true → (ns, kd) ∈ paths n →
  kind_at ns n = Some kd ∧ Forall (fun x => proper x = true) ns.
Proof.
  induction n as [st c|st es IH] using node_ind; intros ns kd Hw Hin.
  - cbn in Hin. apply list_elem_of_singleton in Hin as [= -> ->].
    split; [reflexivity|constructor].
  - rewrite paths_dir in Hin. apply elem_of_cons in Hin as [[= -> ->]|Hin].
    { split; [reflexivity|constructor]. }
    apply elem_below_all in Hin as ([s c] & ns' & He & -> & Hin). cbn [fst snd] in *.
    pose proof Hw as Hw'. apply wf_dir in Hw' as [Hall Hnd].
    destruct (proj1 (Forall_forall _ _) Hall _ He) as [Hs Hc]. cbn [fst snd] in *.
    pose proof (proj1 (List.Forall_forall _ _) IH (s, c)
                  (proj1 (list_elem_of_In _ _) He)) as IHc. cbn [snd] in IHc.
    destruct (IHc _ _ Hc Hin) as [Hk Hp].
    split; [|constructor; assumption].
    unfold kind_at. rewrite lookup_cons, (elem_find_entry _ _ _ Hnd He). exact Hk.
Qed.

(** Every entry on the disk is listed. *)
Lemma kind_paths ns : ∀ n kd, kind_at ns n = Some kd → (ns, kd) ∈ paths n.
Proof.
  induction ns as [|s ns IH]; intros n kd H.
  - unfold kind_at in H. cbn in H. injection H as <-.
    destruct n; apply list_elem_of_here.
  - destruct n as [st c|st es]; [discriminate|].
    unfold kind_at in H. rewrite lookup_cons in H.
    destruct (Fs.find_entry s es) as [c|] eqn:E; [|discriminate]. cbn in H.
    rewrite paths_dir. apply list_elem_of_further, elem_below_all.
    exists (s, c), ns. split; [apply find_entry_elem, E|].
    split; [reflexivity|]. apply IH, H.
Qed.

Lemma paths_NoDup n : wf_node n = true → NoDup (map fst (paths n)).
Proof.
  induction n as [st c|st es IH] using node_ind; intros Hw.
  - cbn. apply NoDup_singleton.
  - rewrite paths_dir. cbn [map fst]. apply NoDup_cons. split.
    { intros Hin. apply list_elem_of_fmap in Hin as ([ns kd] & Heq & Hin).
      apply elem_below_all in Hin as (e & ns' & _ & -> & _). discriminate. }
    apply wf_dir in Hw as [Hall Hnd].
    induction es as [|[s c] es IHes]; [apply NoDup_nil_2|].
    cbn [flat_map]. rewrite map_app. inversion IH as [|? ? IHc IHrest]; subst.
    apply Forall_cons in Hall as [[_ Hc] Hall]. cbn [fst snd] in *.
    apply NoDup_cons in Hnd as [Hs Hnd].
    apply NoDup_app. split; [|split].
    + unfold below. cbn [fst snd]. rewrite map_map. cbn [fst].
      rewrite <- (map_map fst (cons s)).
      apply (NoDup_fmap_2 (cons s)), IHc, Hc.
    + intros ns H1 H2.
      apply list_elem_of_fmap in H1 as ([ns1 kd1] & -> & H1).
      apply list_elem_of_fmap in H2 as ([ns2 kd2] & Heq & H2). cbn [fst] in Heq. subst ns2.
      unfold below in H1. apply list_elem_of_fmap in H1 as ([ns1' kd1'] & [= -> ->] & _).
      apply elem_below_all in H2 as (e & ns' & He & [= Heq _] & _).
      apply Hs. rewrite Heq. apply (list_elem_of_fmap_2 fst) in He. exact He.
    + apply IHes; assumption.
Qed.

Lemma below_names s es e ns :
  e ∈ es → ns ∈ map fst (paths e.2) → e.1 :: ns ∈ map fst (paths (NDir s es)).
Proof.
  intros He Hns. rewrite paths_dir. cbn [map fst]. apply list_elem_of_further.
  apply list_elem_of_fmap in Hns as ([ns' kd] & -> & Hns).
  apply list_elem_of_fmap. exists (e.1 :: ns', kd). split; [reflexivity|].
  apply elem_below_all. exists e, ns'. auto.
Qed.

Lemma listing_names n p :
  map fst (listing n p) = map (pathOf p) (map fst (paths n)).
Proof. unfold listing. rewrite !map_map. reflexivity. Qed.

Lemma paths_noslash n ns :
  wf_node n = true → ns ∈ map fst (paths n) →
  Forall (fun x => noslash x = true) ns.
Proof.
  intros Hw Hin. apply list_elem_of_fmap in Hin as ([ns' kd] & -> & Hin).
  apply Forall_proper_noslash. exact (proj2 (paths_kind _ _ _ Hw Hin)).
Qed.

Lemma listing_NoDup n p : wf_node n = true → NoDup (map fst (listing n p)).
Proof.
  intros Hw. rewrite listing_names.
  apply (NoDup_fmap_2_strong (pathOf p)); [|apply paths_NoDup, Hw].
  intros x y Hx Hy Heq.
  apply (pathOf_inj p); [apply (paths_noslash n)..|]; assumption.
Qed.

End Paths.

Section DiffIsFold.

Lemma diff_visited n p st :
  p ∈ Target.st_diffed st → Target.diff n p st = st.
Proof.
  intros H. destruct n; cbn [Target.diff];
    rewrite bool_decide_eq_true_2 by exact H; reflexivity.
Qed.

Lemma diff_file s c p st :
  p ∉ Target.st_diffed st →
  Target.diff (NFile s c) p st
  = Target.mkDiff (diffStep (Target.st_delta st) (p, KFile (st_mtime s))) (Target.st_diffed st ++ [p]).
Proof.
  intros H. cbn [Target.diff]. rewrite bool_decide_eq_false_2 by exact H.
  unfold diffStep. cbn [fst snd Target.st_delta Target.st_diffed].
  destruct (JsObj.get p (copy (Target.st_delta st))) as [src|]; [|reflexivity].
  destruct (negb _); [reflexivity|]. destruct st; reflexivity.
Qed.

Lemma diff_dir s es p st :
  p ∉ Target.st_diffed st →
  Target.diff (NDir s es) p st
  = Target.diffLoop Target.diff (p +:+ Path.sep) es
      (Target.mkDiff (diffStep (Target.st_delta st) (p, KDir)) (Target.st_diffed st ++ [p])).
Proof.
  intros H. cbn [Target.diff]. rewrite bool_decide_eq_false_2 by exact H.
  unfold diffStep. cbn [fst snd Target.st_delta Target.st_diffed].
  destruct (JsObj.has (p +:+ Path.sep) (mkdir (Target.st_delta st))); reflexivity.
Qed.

Lemma listing_below p s c :
  map (fun x => (pathOf p x.1, x.2)) (map (fun x => (s :: x.1, x.2)) (paths c))
  = listing c ((p +:+ Path.sep) +:+ s).
Proof.
  unfold listing. rewrite map_map. apply map_ext. intros [ns kd]. reflexivity.
Qed.

Lemma diffLoop_fold p es :
  Forall (fun e : string * node => ∀ p st,
            wf_node e.2 = true →
            (∀ ns, ns ∈ map fst (paths e.2) → pathOf p ns ∉ Target.st_diffed st) →
            Target.diff e.2 p st
            = Target.mkDiff (foldl diffStep (Target.st_delta st) (listing e.2 p))
                (Target.st_diffed st ++ map fst (listing e.2 p))) es →
  Forall (fun e => proper e.1 = true ∧ wf_node e.2 = true) es →
  NoDup (map fst es) →
  ∀ d seen,
    (∀ e ns, e ∈ es → ns ∈ map fst (paths e.2) → pathOf p (e.1 :: ns) ∉ seen) →
    Target.diffLoop Target.diff (p +:+ Path.sep) es (Target.mkDiff d seen)
    = Target.mkDiff
        (foldl diffStep d
           (map (fun x => (pathOf p x.1, x.2))
              (flat_map (fun e => map (fun x => (e.1 :: x.1, x.2)) (paths e.2)) es)))
        (seen ++ map fst
           (map (fun x => (pathOf p x.1, x.2))
              (flat_map (fun e => map (fun x => (e.1 :: x.1, x.2)) (paths e.2)) es))).
Proof.
  induction es as [|[f c] es IHes]; intros IH Hall Hnd d seen Hfresh.
  - cbn. rewrite app_nil_r. reflexivity.
  - inversion IH as [|? ? IHc IHrest]; subst. cbn [snd] in IHc.
    apply Forall_cons in Hall as [[Hf Hc] Hall]. cbn [fst snd] in *.
    apply NoDup_cons in Hnd as [Hfn Hnd].
    change (Target.diffLoop Target.diff (p +:+ Path.sep) ((f, c) :: es) (Target.mkDiff d seen))
      with (Target.diffLoop Target.diff (p +:+ Path.sep) es
              (Target.diff c ((p +:+ Path.sep) +:+ f) (Target.mkDiff d seen))).
    rewrite IHc; [|exact Hc|].
    2:{ intros ns Hns. cbn [Target.st_diffed]. rewrite <- pathOf_cons.
        apply (Hfresh (f, c) ns); [apply list_elem_of_here|exact Hns]. }
    cbn [Target.st_delta Target.st_diffed].
    rewrite (IHes IHrest Hall Hnd).
    2:{ intros e ns He Hns Hin. apply elem_of_app in Hin as [Hin|Hin].
        - revert Hin. apply (Hfresh e ns); [apply list_elem_of_further, He|exact Hns].
        - rewrite listing_names in Hin.
          apply list_elem_of_fmap in Hin as (ns' & Heq & Hns').
          rewrite <- pathOf_cons in Heq.
          apply pathOf_inj in Heq.
          + injection Heq as Heq _. apply Hfn. rewrite <- Heq.
            apply (list_elem_of_fmap_2 fst) in He. exact He.
          + constructor.
            * apply proper_noslash.
              exact (proj1 (proj1 (Forall_forall _ _) Hall e He)).
            * apply (paths_noslash e.2); [|exact Hns].
              exact (proj2 (proj1 (Forall_forall _ _) Hall e He)).
          + constructor; [apply proper_noslash, Hf|].
            apply (paths_noslash c); assumption. }
    cbn [flat_map fst snd]. rewrite !map_app, foldl_app, listing_below.
    rewrite <- !app_assoc. reflexivity.
Qed.

(** On a well-formed tree whose paths have not been visited, [diff] is the
    fold of [diffStep] over the listing. *)
Lemma diff_fold n : ∀ p st,
  wf_node n = true →
  (∀ ns, ns ∈ map fst (paths n) → pathOf p ns ∉ Target.st_diffed st) →
  Target.diff n p st
  = Target.mkDiff (foldl diffStep (Target.st_delta st) (listing n p))
           (Target.st_diffed st ++ map fst (listing n p)).
Proof.
  induction n as [s c|s es IH] using node_ind; intros p st Hw Hfresh.
  - rewrite diff_file; [reflexivity|].
    apply (Hfresh []). cbn. apply list_elem_of_here.
  - rewrite diff_dir by (apply (Hfresh []); cbn; apply list_elem_of_here).
    pose proof Hw as Hw'. apply wf_dir in Hw' as [Hall Hnd].
    rewrite (diffLoop_fold p es IH Hall Hnd).
    + unfold listing. rewrite paths_dir. cbn [map foldl fst snd pathOf].
      rewrite <- app_assoc. reflexivity.
    + intros e ns He Hns Hin. apply elem_of_app in Hin as [Hin|Hin].
      * revert Hin. apply Hfresh. apply below_names; assumption.
      * apply list_elem_of_singleton in Hin.
        assert (Hno : Forall (fun x => noslash x = true) (e.1 :: ns)).
        { apply (paths_noslash (NDir s es) _ Hw). apply below_names; assumption. }
        apply (pathOf_inj p (e.1 :: ns) []) in Hin;
          [discriminate|exact Hno|constructor].
Qed.

End DiffIsFold.

Section Prune.

Lemma prune_fold ds : ∀ st,
  let st' := foldl (fun st dir =>
                      Target.mkDiff (Target.delete_mkdir dir (Target.st_delta st))
                        (Target.st_diffed st)) st ds in
  copy (Target.st_delta st') = copy (Target.st_delta st)
  ∧ rmfile (Target.st_delta st') = rmfile (Target.st_delta st)
  ∧ rmdir (Target.st_delta st') = rmdir (Target.st_delta st)
  ∧ Target.st_diffed st' = Target.st_diffed st
  ∧ (∀ k, JsObj.has k (mkdir (Target.st_delta st')) = true →
          JsObj.has k (mkdir (Target.st_delta st)) = true)
  ∧ (∀ k, JsObj.has k (mkdir (Target.st_delta st)) = true →
          JsObj.has k (mkdir (Target.st_delta st')) = true ∨ k ∈ ds).
Proof.
  induction ds as [|x ds IH]; intros st; cbn.
  - repeat split; auto.
  - destruct (IH (Target.mkDiff (Target.delete_mkdir x (Target.st_delta st))
                    (Target.st_diffed st))) as (Hc & Hf & Hd & Hs & Hsub & Hkeep).
    cbn in *. repeat split; try assumption.
    + intros k Hk. apply (has_delete x), Hsub, Hk.
    + intros k Hk. destruct (decide (k = x)) as [->|Hne].
      * right. apply list_elem_of_here.
      * destruct (Hkeep k) as [H|H].
        -- unfold JsObj.has. rewrite get_delete_ne by congruence. exact Hk.
        -- left. exact H.
        -- right. apply list_elem_of_further, H.
Qed.

(** [pruneBasedirs] only forgets directories that exist. *)
Lemma pruneBasedirs_spec this fs p st :
  let st' := Target.pruneBasedirs this fs p st in
  copy (Target.st_delta st') = copy (Target.st_delta st)
  ∧ rmfile (Target.st_delta st') = rmfile (Target.st_delta st)
  ∧ rmdir (Target.st_delta st') = rmdir (Target.st_delta st)
  ∧ Target.st_diffed st' = Target.st_diffed st
  ∧ (∀ k, JsObj.has k (mkdir (Target.st_delta st')) = true →
          JsObj.has k (mkdir (Target.st_delta st)) = true)
  ∧ (∀ k, JsObj.has k (mkdir (Target.st_delta st)) = true →
          JsObj.has k (mkdir (Target.st_delta st')) = true
          ∨ Fs.exists_ fs (Path.join (Target.projectPath this) k) = true).
Proof.
  unfold Target.pruneBasedirs.
  match goal with |- context [foldl _ st ?ds] =>
    destruct (prune_fold ds st) as (Hc & Hf & Hd & Hs & Hsub & Hkeep) end.
  cbn zeta. repeat split; try assumption.
  intros k Hk. destruct (Hkeep k Hk) as [H|H]; [left; exact H|].
  right. apply list_elem_of_filter in H as [[H _] _]. exact H.
Qed.

End Prune.

(** ** The delta of [rebuildDelta] against the disk *)

Section Plan.

Variable this : Target.t.
Variable bd : IDelta.

Hypothesis Hplan : plan_wf this bd = true.

#[local] Abbreviation P := (Target.projectPath this).
#[local] Abbreviation A := (out_app (Target.output this)).
#[local] Abbreviation M := (out_modules (Target.output this)).

Lemma plan_app : Forall (fun n => proper n = true) (Js.split Js.slash A).
Proof.
  unfold plan_wf in Hplan. rewrite !andb_true_iff in Hplan.
  destruct Hplan as [[[H _] _] _]. apply Forall_forall. intros x Hx.
  exact (proj1 (forallb_forall _ _) H x (proj1 (list_elem_of_In _ _) Hx)).
Qed.

Lemma plan_modules : file_key A M = true.
Proof.
  unfold plan_wf in Hplan. rewrite !andb_true_iff in Hplan.
  destruct Hplan as [[[_ H] _] _]. exact H.
Qed.

Lemma plan_copy k : k ∈ JsObj.keys (copy bd) → file_key A k = true.
Proof.
  unfold plan_wf in Hplan. rewrite !andb_true_iff in Hplan.
  destruct Hplan as [[_ H] _]. intros Hk.
  exact (proj1 (forallb_forall _ _) H k (proj1 (list_elem_of_In _ _) Hk)).
Qed.

Lemma plan_mkdir k : k ∈ JsObj.keys (mkdir bd) → dir_key k = true.
Proof.
  unfold plan_wf in Hplan. rewrite !andb_true_iff in Hplan.
  destruct Hplan as [_ H]. intros Hk.
  exact (proj1 (forallb_forall _ _) H k (proj1 (list_elem_of_In _ _) Hk)).
Qed.

Lemma forallb_proper ns :
  forallb proper ns = true → Forall (fun n => proper n = true) ns.
Proof.
  intros H. apply Forall_forall. intros x Hx.
  exact (proj1 (forallb_forall _ _) H x (proj1 (list_elem_of_In _ _) Hx)).
Qed.

(** A listed entry [A/n1/.../nk] lies at these segments. *)
Lemma resolve_listed fs ns :
  Forall (fun n => proper n = true) ns →
  Fs.resolve fs (Path.join P (pathOf A ns)) = outputBase this fs ++ ns.
Proof.
  intros Hns. unfold outputBase. rewrite <- app_assoc.
  apply (resolve_join_names fs P).
  - apply Forall_app. split; [exact plan_app|exact Hns].
  - intros E. apply app_eq_nil in E as [E _]. exact (split_nonempty _ E).
  - apply split_pathOf, Forall_proper_noslash, Hns.
Qed.

Lemma resolve_app fs : Fs.resolve fs (Path.join P A) = outputBase this fs.
Proof.
  rewrite <- (app_nil_r (outputBase this fs)). apply (resolve_listed fs []).
  constructor.
Qed.

Lemma file_key_inv k :
  file_key A k = true →
  ∃ ns, k = pathOf A ns ∧ Forall (fun n => proper n = true) ns ∧ ns ≠ [].
Proof.
  unfold file_key. rewrite andb_true_iff. intros [Hk Hns].
  apply String.eqb_eq in Hk. eexists. split; [exact Hk|].
  split; [apply forallb_proper, Hns|apply split_nonempty].
Qed.

(** The same with a separator at the end. *)
Lemma resolve_listed_dir fs ns :
  Forall (fun n => proper n = true) ns →
  Fs.resolve fs (Path.join P (pathOf A ns +:+ "/")) = outputBase this fs ++ ns.
Proof.
  intros Hns. unfold outputBase. rewrite <- app_assoc.
  apply (resolve_join_names_dir fs P).
  - apply Forall_app. split; [exact plan_app|exact Hns].
  - intros E. apply app_eq_nil in E as [E _]. exact (split_nonempty _ E).
  - rewrite split_trailing, split_pathOf; [reflexivity|].
    apply Forall_proper_noslash, Hns.
Qed.

Lemma dir_key_inv fs k :
  dir_key k = true →
  ∃ ns, Forall (fun n => proper n = true) ns ∧ ns ≠ []
        ∧ Js.split Js.slash k = ns ++ [""]
        ∧ Fs.resolve fs (Path.join P k) = Fs.resolve fs P ++ ns.
Proof.
  unfold dir_key. destruct (rev (Js.split Js.slash k)) as [|last [|n ns]] eqn:E;
    try discriminate.
  rewrite andb_true_iff. intros [Hl Hns]. apply String.eqb_eq in Hl as ->.
  apply forallb_proper in Hns.
  assert (Hk : Js.split Js.slash k = rev (n :: ns) ++ [""]).
  { rewrite <- (rev_involutive (Js.split Js.slash k)), E. reflexivity. }
  assert (Hp : Forall (fun n => proper n = true) (rev (n :: ns))).
  { apply Forall_forall. intros x Hx.
    apply list_elem_of_In, in_rev, list_elem_of_In in Hx.
    exact (proj1 (Forall_forall _ _) Hns x Hx). }
  assert (Hne : rev (n :: ns) ≠ []).
  { cbn. intros H. apply app_eq_nil in H as [_ H]. discriminate. }
  exists (rev (n :: ns)). split; [exact Hp|]. split; [exact Hne|].
  split; [exact Hk|].
  apply (resolve_join_names_dir fs P); assumption.
Qed.

(** Two paths with the same segments are the same string. *)
Lemma split_inj s t : Js.split Js.slash s = Js.split Js.slash t → s = t.
Proof.
  intros H. rewrite <- (join_split s), <- (join_split t), H. reflexivity.
Qed.

End Plan.

Section Scan.

Variable this : Target.t.
Variable source : Source.t.
Variable bd : IDelta.
Variable fs : IFileSystem.

Hypothesis Hplan : plan_wf this bd = true.
Hypothesis Honce : once bd.
Hypothesis Hwf : wf_node (fs_root fs) = true.
Hypothesis Hbd : Target.buildDelta this source = Done bd.

#[local] Abbreviation P := (Target.projectPath this).
#[local] Abbreviation A := (out_app (Target.output this)).
#[local] Abbreviation M := (out_modules (Target.output this)).

Lemma scanned_NoDup : NoDup (map fst (scanned this fs)).
Proof.
  unfold scanned. destruct (Fs.stat fs (Path.join P A)) as [n|] eqn:E.
  - apply listing_NoDup. exact (proj1 (wf_lookup _ _ _ Hwf E)).
  - apply NoDup_nil_2.
Qed.

Lemma scanned_inv k kd :
  (k, kd) ∈ scanned this fs →
  ∃ ns, k = pathOf A ns ∧ Forall (fun n => proper n = true) ns
        ∧ kindOn fs (outputBase this fs ++ ns) = Some kd.
Proof.
  unfold scanned. destruct (Fs.stat fs (Path.join P A)) as [n|] eqn:E.
  - intros Hin. unfold listing in Hin.
    apply list_elem_of_fmap in Hin as ([ns kd'] & [= -> ->] & Hin).
    cbn [fst snd]. exists ns. split; [reflexivity|].
    destruct (paths_kind n ns kd' (proj1 (wf_lookup _ _ _ Hwf E)) Hin) as [Hk Hp].
    split; [exact Hp|].
    unfold kindOn, kind_at. rewrite lookup_app.
    unfold Fs.stat in E. rewrite (resolve_app this bd Hplan) in E.
    rewrite E. exact Hk.
  - intros Hin. apply elem_of_nil in Hin. contradiction.
Qed.

Lemma scanned_elem ns kd :
  kindOn fs (outputBase this fs ++ ns) = Some kd →
  (pathOf A ns, kd) ∈ scanned this fs.
Proof.
  unfold kindOn, kind_at. rewrite lookup_app. unfold scanned, Fs.stat.
  rewrite (resolve_app this bd Hplan).
  destruct (Fs.lookup (outputBase this fs) (fs_root fs)) as [n|]; [|discriminate].
  cbn. intros H. unfold listing.
  apply list_elem_of_fmap. exists (ns, kd). split; [reflexivity|].
  apply kind_paths. exact H.
Qed.

(** [rebuildDelta] is the fold of [diffStep] over what is found below
    [output.app], followed by the pruning of existing directories. *)
Lemma rebuildDelta_inv d :
  Target.rebuildDelta this source fs = Done d →
  let d' := foldl diffStep
              (mkDelta (copy bd) (mkdir bd) JsObj.empty JsObj.empty)
              (scanned this fs) in
  copy d = copy d' ∧ rmfile d = rmfile d' ∧ rmdir d = rmdir d'
  ∧ (∀ k, JsObj.has k (mkdir d) = true → JsObj.has k (mkdir d') = true)
  ∧ (∀ k, JsObj.has k (mkdir d') = true →
          JsObj.has k (mkdir d) = true ∨ Fs.exists_ fs (Path.join P k) = true).
Proof.
  unfold Target.rebuildDelta. rewrite Hbd. cbn [mbind result_bind].
  set (d0 := mkDelta (copy bd) (mkdir bd) JsObj.empty JsObj.empty).
  assert (H1 : Target.diffAt this fs A (Target.mkDiff d0 [])
               = Target.mkDiff (foldl diffStep d0 (scanned this fs))
                   (map fst (scanned this fs))).
  { unfold Target.diffAt, scanned.
    destruct (Fs.stat fs (Path.join P A)) as [n|] eqn:E; [|reflexivity].
    rewrite diff_fold; [reflexivity|exact (proj1 (wf_lookup _ _ _ Hwf E))|].
    intros ns _ Hin. apply elem_of_nil in Hin. contradiction. }
  rewrite H1. clear H1.
  set (st1 := Target.mkDiff (foldl diffStep d0 (scanned this fs)) _).
  destruct (pruneBasedirs_spec this fs A st1) as (Hc2 & Hf2 & Hd2 & Hs2 & Hsub2 & Hkeep2).
  set (st2 := Target.pruneBasedirs this fs A st1) in *.
  assert (H3 : Target.diffAt this fs M st2 = st2).
  { unfold Target.diffAt.
    destruct (Fs.stat fs (Path.join P M)) as [n|] eqn:E; [|reflexivity].
    apply diff_visited. rewrite Hs2. unfold st1. cbn [Target.st_diffed].
    destruct (file_key_inv this M (plan_modules this bd Hplan)) as (ms & HM & Hms & _).
    unfold Fs.stat in E. rewrite HM, (resolve_listed this bd Hplan fs ms Hms) in E.
    assert (Hk : kindOn fs (outputBase this fs ++ ms) = Some (kind_of n)).
    { unfold kindOn, kind_at. rewrite E. reflexivity. }
    apply scanned_elem in Hk. rewrite HM.
    apply (list_elem_of_fmap_2 fst) in Hk. exact Hk. }
  rewrite H3. clear H3.
  destruct (pruneBasedirs_spec this fs M st2) as (Hc4 & Hf4 & Hd4 & Hs4 & Hsub4 & Hkeep4).
  intros [= <-]. cbn zeta in *.
  split; [rewrite Hc4, Hc2; reflexivity|].
  split; [rewrite Hf4, Hf2; reflexivity|].
  split; [rewrite Hd4, Hd2; reflexivity|].
  split.
  - intros k Hk. apply Hsub2, Hsub4, Hk.
  - intros k Hk. destruct (Hkeep2 k Hk) as [H|H]; [|right; exact H].
    apply Hkeep4, H.
Qed.

Variable d : IDelta.
Hypothesis Hd : Target.rebuildDelta this source fs = Done d.

Lemma once_start :
  once (mkDelta (copy bd) (mkdir bd) JsObj.empty JsObj.empty).
Proof. exact Honce. Qed.

(** A copy stays planned only for a target that is not a file at least as
    new as its source. *)
Lemma rebuild_copy_sub k :
  k ∈ JsObj.keys (copy d) →
  ∃ f, JsObj.get k (copy bd) = Some f
       ∧ ∀ m, kindOn fs (Fs.resolve fs (Path.join P k)) = Some (KFile m) →
              m < IFile.mtime f.
Proof.
  destruct (rebuildDelta_inv d Hd) as (Hc & _). cbn zeta in Hc.
  intros Hk. apply has_keys, has_get in Hk as [f Hf]. rewrite Hc in Hf.
  apply fold_copy_sub in Hf as [Hf Hm]; [|exact once_start].
  cbn [copy] in Hf. exists f. split; [exact Hf|]. intros m Hkind.
  apply Hm.
  destruct (file_key_inv this k (plan_copy this bd Hplan k (get_Some_keys _ _ _ Hf)))
    as (ns & -> & Hns & _).
  rewrite (resolve_listed this bd Hplan fs ns Hns) in Hkind.
  apply scanned_elem, Hkind.
Qed.

(** A planned copy is dropped only for a target that is a file at least
    as new as its source. *)
Lemma rebuild_copy_keep k f :
  JsObj.get k (copy bd) = Some f →
  k ∈ JsObj.keys (copy d)
  ∨ fresh_at fs (Fs.resolve fs (Path.join P k)) (IFile.mtime f).
Proof.
  destruct (rebuildDelta_inv d Hd) as (Hc & _). cbn zeta in Hc.
  intros Hf.
  destruct (fold_copy_keep (scanned this fs)
              (mkDelta (copy bd) (mkdir bd) JsObj.empty JsObj.empty) k f Hf)
    as [H|(m & Hin & Hm)].
  - left. rewrite <- Hc in H. exact (get_Some_keys _ _ _ H).
  - right. apply scanned_inv in Hin as (ns & -> & Hns & Hk).
    rewrite (resolve_listed this bd Hplan fs ns Hns).
    exists m. split; assumption.
Qed.

(** Only files found below [output.app] that no copy is planned for are
    deleted. *)
Lemma rebuild_rmfile_sub k :
  k ∈ JsObj.keys (rmfile d) →
  JsObj.get k (copy bd) = None
  ∧ ∃ ns, k = pathOf A ns ∧ Forall (fun n => proper n = true) ns
          ∧ isKFile (kindOn fs (outputBase this fs ++ ns)) = true.
Proof.
  destruct (rebuildDelta_inv d Hd) as (_ & Hf & _). cbn zeta in Hf.
  intros Hk. apply has_keys in Hk. rewrite Hf in Hk.
  apply fold_rmfile_sub in Hk as [Hk|(m & Hin & Hg)]; [discriminate| |exact scanned_NoDup].
  split; [exact Hg|].
  apply scanned_inv in Hin as (ns & -> & Hns & Hk). exists ns.
  rewrite Hk. auto.
Qed.

(** Every such file is. *)
Lemma rebuild_rmfile_add ns :
  isKFile (kindOn fs (outputBase this fs ++ ns)) = true →
  JsObj.get (pathOf A ns) (copy bd) = None →
  pathOf A ns ∈ JsObj.keys (rmfile d).
Proof.
  destruct (rebuildDelta_inv d Hd) as (_ & Hf & _). cbn zeta in Hf.
  intros Hk Hg. apply has_keys. rewrite Hf.
  destruct (kindOn fs (outputBase this fs ++ ns)) as [[|m]|] eqn:E; try discriminate.
  apply (fold_rmfile_add _ _ _ m scanned_NoDup); [|exact Hg].
  apply scanned_elem, E.
Qed.

(** Only directories below [output.app] that the plan does not mention are
    deleted. *)
Lemma rebuild_rmdir_sub k :
  k ∈ JsObj.keys (rmdir d) →
  JsObj.has k (mkdir bd) = false
  ∧ ∃ ns, k = pathOf A ns +:+ "/" ∧ Forall (fun n => proper n = true) ns.
Proof.
  destruct (rebuildDelta_inv d Hd) as (_ & _ & Hr & _). cbn zeta in Hr.
  intros Hk. apply has_keys in Hk. rewrite Hr in Hk.
  apply fold_rmdir_sub in Hk as [Hk|(p & -> & Hin & Hg)];
    [discriminate| |exact scanned_NoDup].
  split; [exact Hg|].
  apply scanned_inv in Hin as (ns & -> & Hns & _). exists ns. auto.
Qed.

Lemma rebuild_mkdir_sub k :
  k ∈ JsObj.keys (mkdir d) → k ∈ JsObj.keys (mkdir bd).
Proof.
  destruct (rebuildDelta_inv d Hd) as (_ & _ & _ & Hsub & _).
  intros Hk. apply has_keys in Hk. apply Hsub, fold_mkdir_sub in Hk.
  apply has_keys. exact Hk.
Qed.

(** A planned directory is dropped only when it exists. *)
Lemma rebuild_mkdir_keep k :
  k ∈ JsObj.keys (mkdir bd) →
  k ∈ JsObj.keys (mkdir d) ∨ Fs.exists_ fs (Path.join P k) = true.
Proof.
  destruct (rebuildDelta_inv d Hd) as (_ & _ & _ & _ & Hkeep). cbn zeta in Hkeep.
  intros Hk. apply has_keys in Hk.
  destruct (fold_mkdir_keep (scanned this fs)
              (mkDelta (copy bd) (mkdir bd) JsObj.empty JsObj.empty) k Hk)
    as [H|(p & -> & Hin)].
  - destruct (Hkeep k H) as [H'|H']; [left; apply has_keys, H'|right; exact H'].
  - right. apply scanned_inv in Hin as (ns & -> & Hns & Hkind).
    unfold Fs.exists_, Fs.stat.
    rewrite (resolve_listed_dir this bd Hplan fs ns Hns).
    unfold kindOn, kind_at in Hkind.
    destruct (Fs.lookup (outputBase this fs ++ ns) (fs_root fs)); [reflexivity|discriminate].
Qed.

End Scan.

Section PlanOnce.

Variable this : Target.t.
Variable source : Source.t.

Lemma foldl_invariant {X Y} (I : Y → Prop) (f : Y → X → Y) l :
  (∀ y x, I y → I (f y x)) → ∀ y, I y → I (foldl f y l).
Proof.
  intros Hf. induction l as [|x l IH]; intros y Hy; [exact Hy|].
  apply IH, Hf, Hy.
Qed.

Lemma once_set_mkdir k d : once d → once (Target.set_mkdir k d).
Proof. intros [Hc Hm]. split; [exact Hc|]. cbn. apply NoDup_set, Hm. Qed.

Lemma once_set_copy k f d : once d → once (Target.set_copy k f d).
Proof. intros [Hc Hm]. split; [|exact Hm]. cbn. apply NoDup_set, Hc. Qed.

Lemma once_mkdirRecursive p d : once d → once (Target.mkdirRecursive p d).
Proof.
  unfold Target.mkdirRecursive. apply foldl_invariant.
  intros y x. apply once_set_mkdir.
Qed.

Lemma once_copyAll pack d : once d → once (Target.copyAll this source pack d).
Proof.
  unfold Target.copyAll. apply foldl_invariant. intros y x Hy.
  destruct (Target.otherPlatform this source x); [exact Hy|].
  apply once_set_copy, Hy.
Qed.

Lemma once_mkdirAll pack d : once d → once (Target.mkdirAll this pack d).
Proof.
  unfold Target.mkdirAll. intros Hd.
  destruct (decide (IPackage.type pack = PackageType.App)); [exact Hd|].
  match goal with |- context [foldl ?f (?s, d) ?l] =>
    assert (H : once (foldl f (s, d) l).2) end.
  { apply (foldl_invariant (fun y => once y.2)); [|exact Hd].
    intros [path y] x Hy. cbn. apply once_set_mkdir, Hy. }
  match goal with |- context [foldl ?f (?s, d) ?l] =>
    destruct (foldl f (s, d) l) as [path d'] end.
  cbn in H. revert H. apply foldl_invariant.
  intros y x. apply once_set_mkdir.
Qed.

(** [buildDelta] stores every key once. *)
Lemma buildDelta_once bd : Target.buildDelta this source = Done bd → once bd.
Proof.
  unfold Target.buildDelta.
  destruct (Source.deref source (Source.app source)) as [app| |]; cbn; try discriminate.
  apply forEach_invariant.
  - intros key d d' _ Hd H.
    destruct (of_option _) as [addr| |]; cbn in H; try discriminate.
    destruct (Source.deref source addr) as [pack| |]; cbn in H; try discriminate.
    injection H as <-. apply once_mkdirAll, once_copyAll, Hd.
  - apply foldl_invariant; [intros y x; apply once_set_copy|].
    apply foldl_invariant; [intros y x; apply once_set_mkdir|].
    apply once_mkdirRecursive, once_mkdirRecursive.
    split; apply NoDup_nil_2.
Qed.

End PlanOnce.

(** ** Rebuilding twice *)

Section Calls.

Variable this : Target.t.
Variable d : IDelta.

(** The calls of [applyDelta] by the dictionary they come from. *)
Lemma applyCalls_inv c :
  c ∈ Target.applyCalls this d →
  match c with
  | CreateDirectory p =>
      ∃ k, k ∈ JsObj.keys (mkdir d) ∧ p = Path.join (Target.projectPath this) k
  | CopyFile _ to =>
      ∃ k, k ∈ JsObj.keys (copy d) ∧ to = Path.join (Target.projectPath this) k
  | DeleteFile p =>
      ∃ k, k ∈ JsObj.keys (rmfile d) ∧ p = Path.join (Target.projectPath this) k
  | DeleteDirectory p =>
      ∃ k, k ∈ JsObj.keys (rmdir d) ∧ p = Path.join (Target.projectPath this) k
  end.
Proof.
  unfold Target.applyCalls. rewrite !elem_of_app.
  intros [H|[H|[H|H]]]; apply list_elem_of_fmap in H as (x & -> & Hx).
  - exists x. split; [apply sort_elem_of, Hx|reflexivity].
  - destruct x as [to from]. exists to. split; [|reflexivity].
    exact (elem_keys _ _ _ Hx).
  - exists x. split; [exact Hx|reflexivity].
  - exists x. split; [|reflexivity].
    apply list_elem_of_In, in_rev, list_elem_of_In in Hx.
    apply sort_elem_of, Hx.
Qed.

Lemma applyCalls_mkdir k :
  k ∈ JsObj.keys (mkdir d) →
  CreateDirectory (Path.join (Target.projectPath this) k) ∈ Target.applyCalls this d.
Proof.
  intros Hk. unfold Target.applyCalls. apply elem_of_app. left.
  apply list_elem_of_fmap. exists k. split; [reflexivity|apply sort_elem_of, Hk].
Qed.

Lemma applyCalls_copy k :
  k ∈ JsObj.keys (copy d) →
  ∃ from, CopyFile from (Path.join (Target.projectPath this) k)
          ∈ Target.applyCalls this d.
Proof.
  intros Hk. apply list_elem_of_fmap in Hk as ([to f] & -> & Hin).
  exists (IFile.absolutePath f). unfold Target.applyCalls.
  apply elem_of_app. right. apply elem_of_app. left.
  apply list_elem_of_fmap. exists (to, f). split; [reflexivity|exact Hin].
Qed.

Lemma applyCalls_rmfile k :
  k ∈ JsObj.keys (rmfile d) →
  DeleteFile (Path.join (Target.projectPath this) k) ∈ Target.applyCalls this d.
Proof.
  intros Hk. unfold Target.applyCalls.
  apply elem_of_app. right. apply elem_of_app. right. apply elem_of_app. left.
  apply list_elem_of_fmap. exists k. split; [reflexivity|exact Hk].
Qed.

Lemma applyCalls_split :
  Target.applyCalls this d = Target.awaitedCalls this d ++ Target.startedCalls this d.
Proof.
  unfold Target.applyCalls, Target.awaitedCalls, Target.startedCalls.
  rewrite <- app_assoc. reflexivity.
Qed.

Lemma awaitedCalls_mkdir k :
  k ∈ JsObj.keys (mkdir d) →
  CreateDirectory (Path.join (Target.projectPath this) k)
    ∈ Target.awaitedCalls this d.
Proof.
  intros Hk. unfold Target.awaitedCalls. apply elem_of_app. left.
  apply list_elem_of_fmap. exists k. split; [reflexivity|apply sort_elem_of, Hk].
Qed.

Lemma awaitedCalls_copy k :
  k ∈ JsObj.keys (copy d) →
  ∃ from, CopyFile from (Path.join (Target.projectPath this) k)
          ∈ Target.awaitedCalls this d.
Proof.
  intros Hk. apply list_elem_of_fmap in Hk as ([to f] & -> & Hin).
  exists (IFile.absolutePath f). unfold Target.awaitedCalls.
  apply elem_of_app. right.
  apply list_elem_of_fmap. exists (to, f). split; [reflexivity|exact Hin].
Qed.

Lemma startedCalls_rmfile k :
  k ∈ JsObj.keys (rmfile d) →
  DeleteFile (Path.join (Target.projectPath this) k)
    ∈ Target.startedCalls this d.
Proof.
  intros Hk. unfold Target.startedCalls. apply elem_of_app. left.
  apply list_elem_of_fmap. exists k. split; [reflexivity|exact Hk].
Qed.

(** The deletions never raise: carried out one after the other they
    give [carriedOut]. *)
Lemma carriedOut_run order : ∀ fs,
  Forall (fun c => isDeleteFile c || isDeleteDirectory c = true) order →
  forEach Target.perform order fs = Done (Target.carriedOut order fs).
Proof.
  induction order as [|c order IH]; intros fs H; [reflexivity|].
  apply Forall_cons in H as [Hc H].
  cbn [forEach Target.carriedOut foldl].
  destruct c as [p|from to|p|p]; try discriminate Hc;
    cbn [Target.perform mbind result_bind Fs.unawaited]; apply IH, H.
Qed.

Lemma startedCalls_deletions :
  Forall (fun c => isDeleteFile c || isDeleteDirectory c = true)
         (Target.startedCalls this d).
Proof.
  unfold Target.startedCalls. apply Forall_app. split;
    apply Forall_forall; intros c Hc;
    apply list_elem_of_fmap in Hc as (x & -> & _); reflexivity.
Qed.

Lemma started_deletion (order : list FsCall) c :
  (∀ c, c ∈ order → c ∈ Target.startedCalls this d) →
  c ∈ order → isDeleteFile c || isDeleteDirectory c = true.
Proof.
  intros Hsub Hc.
  exact (proj1 (Forall_forall _ _) startedCalls_deletions c (Hsub c Hc)).
Qed.

Lemma started_run (order : list FsCall) fs :
  (∀ c, c ∈ order → c ∈ Target.startedCalls this d) →
  forEach Target.perform order fs = Done (Target.carriedOut order fs).
Proof.
  intros Hsub. apply carriedOut_run, Forall_forall. intros c Hc.
  exact (started_deletion order c Hsub Hc).
Qed.

End Calls.

Section Twice.

Variable this : Target.t.
Variable source : Source.t.
Variable bd d1 d2 : IDelta.
Variable fs0 fs1 : IFileSystem.

Hypothesis Hplan : plan_wf this bd = true.
Hypothesis Honce : once bd.
Hypothesis Hwf : wf_node (fs_root fs0) = true.
Hypothesis Hbd : Target.buildDelta this source = Done bd.
Hypothesis Hmtime : ∀ k f, JsObj.get k (copy bd) = Some f → IFile.mtime f ≤ fs_now fs0.
Hypothesis Hdirs : ∀ k n,
  k ∈ JsObj.keys (mkdir bd) →
  Fs.stat fs0 (Path.join (Target.projectPath this) k) = Some n →
  isDirectory n = true.
Hypothesis Hd1 : Target.rebuildDelta this source fs0 = Done d1.

(** The calls carried out between [fs0] and [fs1]: calls of
    [applyDelta(d1)], in any order; they include the calls it waits for
    and, where [Hstarted] is used, the deletions it starts. *)
Variable calls : list FsCall.
Hypothesis Hsub : ∀ c, c ∈ calls → c ∈ Target.applyCalls this d1.
Hypothesis Hawaited : ∀ c, c ∈ Target.awaitedCalls this d1 → c ∈ calls.
Hypothesis Hstarted : ∀ c, c ∈ Target.startedCalls this d1 → c ∈ calls.
Hypothesis Hrun : forEach Target.perform calls fs0 = Done fs1.
Hypothesis Hd2 : Target.rebuildDelta this source fs1 = Done d2.

#[local] Abbreviation P := (Target.projectPath this).
#[local] Abbreviation A := (out_app (Target.output this)).

Lemma resolve_fs1 p : Fs.resolve fs1 p = Fs.resolve fs0 p.
Proof.
  unfold Fs.resolve. rewrite (proj1 (run_frame _ _ _ Hrun)). reflexivity.
Qed.

Lemma outputBase_fs1 : outputBase this fs1 = outputBase this fs0.
Proof. unfold outputBase. rewrite resolve_fs1. reflexivity. Qed.

Lemma wf_fs1 : wf_node (fs_root fs1) = true.
Proof. exact (run_wf _ _ _ Hrun Hwf). Qed.

Lemma copy_key_resolve k :
  k ∈ JsObj.keys (copy bd) →
  ∃ ns, k = pathOf A ns ∧ Forall (fun n => proper n = true) ns
        ∧ Fs.resolve fs0 (Path.join P k) = outputBase this fs0 ++ ns.
Proof.
  intros Hk.
  destruct (file_key_inv this k (plan_copy this bd Hplan k Hk)) as (ns & -> & Hns & _).
  exists ns. split; [reflexivity|]. split; [exact Hns|].
  apply (resolve_listed this bd Hplan fs0 ns Hns).
Qed.

Lemma deleteFile_misses c k :
  c ∈ calls → isDeleteFile c = true → k ∈ JsObj.keys (copy bd) →
  target fs0 c ≠ Fs.resolve fs0 (Path.join P k).
Proof.
  intros Hc Hdel Hk. destruct c as [p|from to|p|p]; try discriminate.
  apply Hsub, applyCalls_inv in Hc as (k' & Hk' & ->). cbn [target].
  destruct (rebuild_rmfile_sub this source bd fs0 Hplan Hwf Hbd d1 Hd1 k' Hk')
    as (Hg & ns' & -> & Hns' & _).
  destruct (copy_key_resolve k Hk) as (ns & -> & Hns & ->).
  rewrite (resolve_listed this bd Hplan fs0 ns' Hns').
  intros Heq. apply app_inv_head in Heq as ->.
  apply has_keys in Hk. apply has_false_get in Hg. congruence.
Qed.

Lemma copyFile_misses c ns :
  c ∈ calls → isCopyFile c = true → pathOf A ns ∉ JsObj.keys (copy bd) →
  target fs0 c ≠ outputBase this fs0 ++ ns.
Proof.
  intros Hc Hcp Hk. destruct c as [p|from to|p|p]; try discriminate.
  apply Hsub, applyCalls_inv in Hc as (k' & Hk' & ->). cbn [target].
  destruct (rebuild_copy_sub this source bd fs0 Hplan Honce Hwf Hbd d1 Hd1 k' Hk')
    as (f & Hf & _).
  apply get_Some_keys in Hf.
  destruct (copy_key_resolve k' Hf) as (ns' & -> & Hns' & ->).
  intros Heq. apply app_inv_head in Heq as ->. contradiction.
Qed.

Lemma deleteDirectory_misses c k :
  c ∈ calls → isDeleteDirectory c = true → k ∈ JsObj.keys (mkdir bd) →
  target fs0 c ≠ Fs.resolve fs0 (Path.join P k).
Proof.
  intros Hc Hdel Hk. destruct c as [p|from to|p|p]; try discriminate.
  apply Hsub, applyCalls_inv in Hc as (k' & Hk' & ->). cbn [target].
  destruct (rebuild_rmdir_sub this source bd fs0 Hplan Hwf Hbd d1 Hd1 k' Hk')
    as (Hh & ns' & -> & Hns').
  rewrite (resolve_listed_dir this bd Hplan fs0 ns' Hns').
  destruct (dir_key_inv this fs0 k (plan_mkdir this bd Hplan k Hk))
    as (ks & Hks & _ & Hsplit & ->).
  unfold outputBase. rewrite <- app_assoc. intros Heq.
  apply app_inv_head in Heq.
  apply has_keys in Hk.
  assert (Hkk : pathOf A ns' +:+ "/" = k).
  { apply split_inj. rewrite Hsplit, <- Heq, split_trailing, split_pathOf;
      [reflexivity|apply Forall_proper_noslash, Hns']. }
  congruence.
Qed.

(** After the first rebuild every planned copy is in place and at least
    as new as its source. *)
Lemma copies_in_place k f :
  JsObj.get k (copy bd) = Some f →
  fresh_at fs1 (Fs.resolve fs0 (Path.join P k)) (IFile.mtime f).
Proof.
  intros Hf. pose proof (get_Some_keys _ _ _ Hf) as Hk.
  pose proof (Hmtime k f Hf) as Hm.
  destruct (rebuild_copy_keep this source bd fs0 Hplan Hwf Hbd d1 Hd1 k f Hf)
    as [Hin|Hfresh].
  - destruct (awaitedCalls_copy this d1 k Hin) as (from & Hc%Hawaited).
    destruct (run_split _ _ _ _ Hrun Hc)
      as (l1 & l2 & fa & fb & Hcs & _ & He & H2 & Hca & Hna & Hcb & Hnb).
    apply (run_keeps_fresh _ _ l2 fb fs1 H2); [lia| |].
    + destruct He as (_ & _ & _ & He & _). cbn [target] in He.
      unfold Fs.resolve in He |- *. rewrite Hca in He.
      exists (fs_now fa). split; [exact He|lia].
    + intros c Hcin Hdel. rewrite (target_cwd fs0 fb c Hcb).
      apply deleteFile_misses; [|exact Hdel|exact Hk].
      rewrite Hcs. apply elem_of_app. right. apply list_elem_of_further, Hcin.
  - apply (run_keeps_fresh _ _ calls fs0 fs1 Hrun Hm Hfresh).
    intros c Hcin Hdel. apply deleteFile_misses; assumption.
Qed.

Lemma outputBase_nonempty fs ns : outputBase this fs ++ ns ≠ [].
Proof.
  unfold outputBase. intros H. apply app_eq_nil in H as [H _].
  apply app_eq_nil in H as [_ H]. exact (split_nonempty _ H).
Qed.

(** After the first rebuild every file below [output.app] is a planned
    copy. *)
Lemma files_are_copies ns :
  isKFile (kindOn fs1 (outputBase this fs0 ++ ns)) = true →
  pathOf A ns ∈ JsObj.keys (copy bd).
Proof.
  intros Hfile.
  destruct (decide (pathOf A ns ∈ JsObj.keys (copy bd))) as [Hin|Hnot]; [exact Hin|].
  exfalso.
  assert (Hmiss : ∀ c, c ∈ calls → isCopyFile c = true →
            target fs0 c ≠ outputBase this fs0 ++ ns).
  { intros c Hc Hcp. apply copyFile_misses; assumption. }
  assert (Hgone : isKFile (kindOn fs1 (outputBase this fs0 ++ ns)) = false);
    [|congruence].
  destruct (isKFile (kindOn fs0 (outputBase this fs0 ++ ns))) eqn:E0.
  - assert (Hns : Forall (fun n => proper n = true) ns).
    { unfold kindOn, kind_at in E0.
      destruct (Fs.lookup (outputBase this fs0 ++ ns) (fs_root fs0)) as [c|] eqn:El;
        [|discriminate].
      apply (wf_lookup _ _ _ Hwf) in El as [_ Hall].
      apply Forall_app in Hall as [_ Hall]. exact Hall. }
    assert (Hg : JsObj.get (pathOf A ns) (copy bd) = None).
    { apply has_false_get. destruct (JsObj.has _ _) eqn:Eh; [|reflexivity].
      apply has_keys in Eh. contradiction. }
    pose proof (rebuild_rmfile_add this source bd fs0 Hplan Hwf Hbd d1 Hd1 ns E0 Hg)
      as Hrm.
    apply (startedCalls_rmfile this), Hstarted in Hrm.
    destruct (run_split _ _ _ _ Hrun Hrm)
      as (l1 & l2 & fa & fb & Hcs & _ & He & H2 & Hca & Hna & Hcb & Hnb).
    apply (run_keeps_nofile _ l2 fb fs1 H2).
    + destruct He as (_ & _ & _ & He & _). cbn [target] in He.
      unfold Fs.resolve in He. rewrite Hca in He.
      change (if Path.isAbsolute ?p then _ else _) with (Fs.resolve fs0 p) in He.
      rewrite (resolve_listed this bd Hplan fs0 ns Hns) in He.
      apply He, outputBase_nonempty.
    + intros c Hcin Hcp. rewrite (target_cwd fs0 fb c Hcb). apply Hmiss; [|exact Hcp].
      rewrite Hcs. apply elem_of_app. right. apply list_elem_of_further, Hcin.
  - apply (run_keeps_nofile _ calls fs0 fs1 Hrun E0 Hmiss).
Qed.

(** After the first rebuild every planned directory exists. *)
Lemma directories_in_place k :
  k ∈ JsObj.keys (mkdir bd) →
  kindOn fs1 (Fs.resolve fs0 (Path.join P k)) = Some KDir.
Proof.
  intros Hk.
  destruct (rebuild_mkdir_keep this source bd fs0 Hplan Hwf Hbd d1 Hd1 k Hk)
    as [Hin|Hex].
  - pose proof (Hawaited _ (awaitedCalls_mkdir this d1 k Hin)) as Hc.
    destruct (run_split _ _ _ _ Hrun Hc)
      as (l1 & l2 & fa & fb & Hcs & _ & He & H2 & Hca & Hna & Hcb & Hnb).
    apply (run_keeps_dir _ l2 fb fs1 H2).
    + destruct He as (_ & _ & _ & He & _). cbn [target] in He.
      unfold Fs.resolve in He |- *. rewrite Hca in He. exact He.
    + intros c Hcin Hdel. rewrite (target_cwd fs0 fb c Hcb).
      apply deleteDirectory_misses; [|exact Hdel|exact Hk].
      rewrite Hcs. apply elem_of_app. right. apply list_elem_of_further, Hcin.
  - apply (run_keeps_dir _ calls fs0 fs1 Hrun).
    + unfold Fs.exists_ in Hex.
      destruct (Fs.stat fs0 (Path.join P k)) as [n|] eqn:E; [|discriminate].
      pose proof (Hdirs k n Hk E) as Hdir. unfold Fs.stat in E.
      unfold kindOn, kind_at. rewrite E. destruct n; [discriminate|reflexivity].
    + intros c Hcin Hdel. apply deleteDirectory_misses; assumption.
Qed.

Lemma second_copy_empty : copy d2 = [].
Proof.
  destruct (copy d2) as [|[k f] rest] eqn:E; [reflexivity|]. exfalso.
  assert (Hk : k ∈ JsObj.keys (copy d2)).
  { rewrite E. apply list_elem_of_here. }
  destruct (rebuild_copy_sub this source bd fs1 Hplan Honce wf_fs1 Hbd d2 Hd2 k Hk)
    as (f' & Hf' & Hlt).
  destruct (copies_in_place k f' Hf') as (m & Hm & Hle).
  rewrite resolve_fs1 in Hlt. specialize (Hlt m Hm). lia.
Qed.

Lemma second_rmfile_empty : rmfile d2 = [].
Proof.
  destruct (rmfile d2) as [|[k b] rest] eqn:E; [reflexivity|]. exfalso.
  assert (Hk : k ∈ JsObj.keys (rmfile d2)).
  { rewrite E. apply list_elem_of_here. }
  destruct (rebuild_rmfile_sub this source bd fs1 Hplan wf_fs1 Hbd d2 Hd2 k Hk)
    as (Hg & ns & -> & Hns & Hfile).
  rewrite outputBase_fs1 in Hfile.
  apply files_are_copies, has_keys in Hfile.
  apply has_false_get in Hg. congruence.
Qed.

Lemma second_mkdir_present k :
  k ∈ JsObj.keys (mkdir d2) →
  ∃ st es, Fs.stat fs1 (Path.join P k) = Some (NDir st es).
Proof.
  intros Hk.
  apply (rebuild_mkdir_sub this source bd fs1 Hplan wf_fs1 Hbd d2 Hd2) in Hk.
  apply directories_in_place in Hk.
  unfold Fs.stat. rewrite resolve_fs1. unfold kindOn, kind_at in Hk.
  destruct (Fs.lookup _ (fs_root fs1)) as [[st c|st es]|]; try discriminate.
  exists st, es. reflexivity.
Qed.

End Twice.

Section Progress.

Variable this : Target.t.
Variable d : IDelta.
Variable fs fs' : IFileSystem.
Variable changed : bool.

Hypothesis Happ : Target.applyDelta this d fs = Done (changed, fs').

(** When [applyDelta] returns, the calls it waits for have been carried
    out. *)
Lemma applyDelta_awaited :
  forEach Target.perform (Target.awaitedCalls this d) fs = Done fs'.
Proof.
  unfold Target.applyDelta in Happ.
  destruct (forEach Target.perform (Target.awaitedCalls this d) fs) as [fs1| |];
    cbn in Happ; try discriminate.
  injection Happ as _ <-. reflexivity.
Qed.

Lemma awaited_applyCalls c :
  c ∈ Target.awaitedCalls this d → c ∈ Target.applyCalls this d.
Proof. rewrite applyCalls_split, elem_of_app. auto. Qed.

(** Afterwards, some of the deletions it started are carried out, in
    some order. *)
Lemma applyDelta_progress order :
  (∀ c, c ∈ order → c ∈ Target.startedCalls this d) →
  forEach Target.perform (Target.awaitedCalls this d ++ order) fs
  = Done (Target.carriedOut order fs')
  ∧ (∀ c, c ∈ Target.awaitedCalls this d ++ order →
          c ∈ Target.applyCalls this d).
Proof.
  intros Hsub. split.
  - rewrite (forEach_app_run _ _ _ _ _ applyDelta_awaited).
    apply carriedOut_run. apply Forall_forall. intros c Hc.
    exact (proj1 (Forall_forall _ _) (startedCalls_deletions this d) c
             (Hsub c Hc)).
  - intros c. rewrite applyCalls_split, !elem_of_app.
    intros [Hc|Hc]; [left; exact Hc|right; apply Hsub, Hc].
Qed.

End Progress.

(** ** Idempotence of the rebuild *)

Lemma get_elem {V} k (v : V) o : JsObj.get k o = Some v → (k, v) ∈ o.
Proof.
  induction o as [|[k' v'] o IH]; cbn; [discriminate|].
  destruct (String.eqb_spec k' k) as [->|Hne].
  - intros [= ->]. apply list_elem_of_here.
  - intros H. apply list_elem_of_further, IH, H.
Qed.

Lemma sources_not_after_get fs bd k f :
  sources_not_after fs bd = true →
  JsObj.get k (copy bd) = Some f → IFile.mtime f ≤ fs_now fs.
Proof.
  unfold sources_not_after. rewrite forallb_forall. intros H Hg.
  apply get_elem, list_elem_of_In, H in Hg. cbn in Hg. lia.
Qed.

Lemma dirs_clear_stat this fs bd k n :
  dirs_clear this fs bd = true →
  k ∈ JsObj.keys (mkdir bd) →
  Fs.stat fs (Path.join (Target.projectPath this) k) = Some n →
  isDirectory n = true.
Proof.
  unfold dirs_clear. rewrite forallb_forall. intros H Hk Hs.
  apply list_elem_of_In, H in Hk. rewrite Hs in Hk. exact Hk.
Qed.

(** C4 (amended): for a target whose plan [buildDelta()] is normalized
    ([plan_wf]: [output.app] is made of proper names, [output.modules] lies
    below it, every copy key is a normalized file path below [output.app],
    every mkdir key a normalized directory path), on a well-formed disk on
    which no planned directory is a regular file and whose clock is not
    before the mtime of any planned source file: when
    [applyDelta(rebuildDelta())] has returned and the deletions it started
    without waiting for them have been carried out, in whatever order,
    [rebuildDelta()] run again against the same source returns a delta
    whose [copy] and [rmfile] are empty and whose every remaining [mkdir]
    entry is a directory on the disk. *)
Theorem rebuild_twice_settles this source bd fs0 d1 changed fs1 order :
  Target.buildDelta this source = Done bd →
  plan_wf this bd = true →
  wf_node (fs_root fs0) = true →
  sources_not_after fs0 bd = true →
  dirs_clear this fs0 bd = true →
  Target.rebuildDelta this source fs0 = Done d1 →
  Target.applyDelta this d1 fs0 = Done (changed, fs1) →
  order ≡ₚ Target.startedCalls this d1 →
  ∃ d2,
    Target.rebuildDelta this source (Target.carriedOut order fs1) = Done d2
    ∧ copy d2 = []
    ∧ rmfile d2 = []
    ∧ ∀ dir, dir ∈ JsObj.keys (mkdir d2) →
        ∃ st es,
          Fs.stat (Target.carriedOut order fs1)
            (Path.join (Target.projectPath this) dir)
          = Some (NDir st es).
Proof.
  intros Hbd Hplan Hwf Hsrc Hclear Hd1 Happ Hperm.
  destruct (applyDelta_progress this d1 fs0 fs1 changed Happ order)
    as [Hrun Hsub].
  { intros c Hc. rewrite <- Hperm. exact Hc. }
  set (fs2 := Target.carriedOut order fs1) in *.
  set (calls := Target.awaitedCalls this d1 ++ order) in *.
  assert (Hawaited : ∀ c, c ∈ Target.awaitedCalls this d1 → c ∈ calls).
  { intros c Hc. apply elem_of_app. left. exact Hc. }
  assert (Hstarted : ∀ c, c ∈ Target.startedCalls this d1 → c ∈ calls).
  { intros c Hc. apply elem_of_app. right. rewrite Hperm. exact Hc. }
  destruct (Target.rebuildDelta this source fs2) as [d2| |] eqn:Hd2.
  2,3: unfold Target.rebuildDelta in Hd2; rewrite Hbd in Hd2; discriminate.
  pose proof (buildDelta_once this source bd Hbd) as Honce.
  exists d2. split; [reflexivity|]. split; [|split].
  - apply (second_copy_empty this source bd d1 d2 fs0 fs2 Hplan Honce Hwf Hbd
             (fun k f => sources_not_after_get fs0 bd k f Hsrc) Hd1
             calls Hsub Hawaited Hrun Hd2).
  - apply (second_rmfile_empty this source bd d1 d2 fs0 fs2 Hplan Honce Hwf Hbd
             Hd1 calls Hsub Hstarted Hrun Hd2).
  - apply (second_mkdir_present this source bd d1 d2 fs0 fs2 Hplan Hwf Hbd
             (fun k n => dirs_clear_stat this fs0 bd k n Hclear) Hd1
             calls Hsub Hawaited Hrun Hd2).
Qed.

(** The theorem applied to the Android target of scenario S1 with a
    leftover directory [old] that holds [f.js], the deletions being
    carried out in the order opposite to the one they were started in:
    the directory first, which fails, then the file. *)
Lemma rebuild_twice_settles_witness :
  ∃ d2,
    Target.rebuildDelta Examples.android
      (Examples.source_of Examples.leftover_project)
      (Target.carriedOut (rev (Examples.first_started Examples.leftover_project))
         (Examples.after_first Examples.leftover_project)) = Done d2
    ∧ copy d2 = []
    ∧ rmfile d2 = []
    ∧ ∀ dir, dir ∈ JsObj.keys (mkdir d2) →
        ∃ st es,
          Fs.stat
            (Target.carriedOut
               (rev (Examples.first_started Examples.leftover_project))
               (Examples.after_first Examples.leftover_project))
            (Path.join (Target.projectPath Examples.android) dir)
          = Some (NDir st es).
Proof.
  apply (rebuild_twice_settles Examples.android
           (Examples.source_of Examples.leftover_project)
           (Examples.the Examples.emptyDelta
              (Target.buildDelta Examples.android
                 (Examples.source_of Examples.leftover_project)))
           (Examples.disk 10 Examples.leftover_project)
           (Examples.first_delta Examples.leftover_project)
           true
           (Examples.after_first Examples.leftover_project)
           (rev (Examples.first_started Examples.leftover_project)));
    try (vm_compute; reflexivity).
  symmetry. apply Permutation_rev.
Defined.

(** C4 (as stated) fails, twice over.  With the dependency written
    [./foo], the first rebuild copies the scripts of [foo] to
    [tns_modules/foo/]; the second [rebuildDelta()] finds them there under
    paths that are not keys of [copy], so it plans to delete them and to
    copy them again, even once the deletions have been carried out.  And
    when [applyDelta] returns, the deletions it started have not been
    waited for: on the project with the leftover [old/f.js], a
    [rebuildDelta()] run on the state [applyDelta] returned still finds
    the file and plans its deletion again. *)
Lemma rebuild_twice_dot_dependency :
  (Source.create Semver.gt Examples.projectPath
     (Examples.disk 10 Examples.dot_project) 10 ["ios"; "android"]
   ≫= fun source =>
   Target.rebuildDelta Examples.android source
     (Examples.disk 10 Examples.dot_project)
   ≫= fun d1 =>
   Target.applyDelta Examples.android d1 (Examples.disk 10 Examples.dot_project)
   ≫= fun '(_, fs1) =>
   Target.rebuildDelta Examples.android source
     (Target.carriedOut (Target.startedCalls Examples.android d1) fs1)
   ≫= fun d2 => Done (JsObj.keys (copy d2), JsObj.keys (rmfile d2)))
  = Done
      ([ "platforms/android/src/main/assets/app/tns_modules/./foo/package.json";
         "platforms/android/src/main/assets/app/tns_modules/./foo/index.js" ],
       [ "platforms/android/src/main/assets/app/tns_modules/foo/package.json";
         "platforms/android/src/main/assets/app/tns_modules/foo/index.js" ])
  ∧ (Source.create Semver.gt Examples.projectPath
       (Examples.disk 10 Examples.leftover_project) 10 ["ios"; "android"]
     ≫= fun source =>
     Target.rebuildDelta Examples.android source
       (Examples.disk 10 Examples.leftover_project)
     ≫= fun d1 =>
     Target.applyDelta Examples.android d1
       (Examples.disk 10 Examples.leftover_project)
     ≫= fun '(_, fs1) =>
     Target.rebuildDelta Examples.android source fs1
     ≫= fun d2 => Done (JsObj.keys (rmfile d2)))
    = Done ["platforms/android/src/main/assets/app/old/f.js"].
Proof. split; vm_compute; reflexivity. Qed.

(** The other conditions of the amended claim are not idle: the plan of
    the [./foo] project is not normalized; and a script stamped after the
    clock is copied by every rebuild, since its copy is always older than
    it. *)
Lemma rebuild_twice_conditions :
  (Target.buildDelta Examples.android (Examples.source_of Examples.dot_project)
   ≫= fun bd => Done (plan_wf Examples.android bd)) = Done false
  ∧ (Target.buildDelta Examples.android
       (Examples.source_of Examples.future_project)
     ≫= fun bd =>
     Done (sources_not_after (Examples.disk 10 Examples.future_project) bd))
    = Done false
  ∧ (Source.create Semver.gt Examples.projectPath
       (Examples.disk 10 Examples.future_project) 10 ["ios"; "android"]
     ≫= fun source =>
     Target.rebuildDelta Examples.android source
       (Examples.disk 10 Examples.future_project)
     ≫= fun d1 =>
     Target.applyDelta Examples.android d1
       (Examples.disk 10 Examples.future_project)
     ≫= fun '(_, fs1) =>
     Target.rebuildDelta Examples.android source
       (Target.carriedOut (Target.startedCalls Examples.android d1) fs1)
     ≫= fun d2 => Done (JsObj.keys (copy d2)))
    = Done ["platforms/android/src/main/assets/app/main.js"].
Proof. repeat split; vm_compute; reflexivity. Qed.

(** ** What a rebuild leaves in the output directory *)

Section AfterRebuild.

Variable this : Target.t.
Variable source : Source.t.
Variable bd d1 : IDelta.
Variable fs0 fs1 : IFileSystem.
Variable changed : bool.

Hypothesis Hbd : Target.buildDelta this source = Done bd.
Hypothesis Hplan : plan_wf this bd = true.
Hypothesis Hwf : wf_node (fs_root fs0) = true.
Hypothesis Hd1 : Target.rebuildDelta this source fs0 = Done d1.
Hypothesis Happ : Target.applyDelta this d1 fs0 = Done (changed, fs1).

Lemma applyDelta_resolve p : Fs.resolve fs1 p = Fs.resolve fs0 p.
Proof.
  unfold Fs.resolve.
  rewrite (proj1 (run_frame _ _ _ (applyDelta_awaited _ _ _ _ _ Happ))).
  reflexivity.
Qed.

Lemma stat_kind fs p k :
  kindOn fs (Fs.resolve fs p) = Some k →
  ∃ n, Fs.stat fs p = Some n ∧ kind_of n = k.
Proof.
  unfold kindOn, kind_at, Fs.stat.
  destruct (Fs.lookup _ _) as [n|]; [|discriminate].
  intros [= <-]. exists n. split; reflexivity.
Qed.

End AfterRebuild.

(** X8: Completeness of a rebuild: when [applyDelta(rebuildDelta())] completes
    for a normalized plan on a well-formed disk whose clock is not before
    the mtime of any planned source, every target of the plan
    [buildDelta().copy] is a regular file at least as new as its source,
    whether it was copied now or found up to date. *)
Theorem rebuild_places_every_copy this source bd fs0 d1 changed fs1 k f :
  Target.buildDelta this source = Done bd →
  plan_wf this bd = true →
  wf_node (fs_root fs0) = true →
  sources_not_after fs0 bd = true →
  Target.rebuildDelta this source fs0 = Done d1 →
  Target.applyDelta this d1 fs0 = Done (changed, fs1) →
  JsObj.get k (copy bd) = Some f →
  ∃ st c,
    Fs.stat fs1 (Path.join (Target.projectPath this) k) = Some (NFile st c)
    ∧ IFile.mtime f ≤ st_mtime st.
Proof.
  intros Hbd Hplan Hwf Hsrc Hd1 Happ Hk.
  pose proof (applyDelta_awaited this d1 fs0 fs1 changed Happ) as Hrun.
  destruct (copies_in_place this source bd d1 fs0 fs1 Hplan Hwf Hbd
              (fun k f => sources_not_after_get fs0 bd k f Hsrc) Hd1
              (Target.awaitedCalls this d1) (awaited_applyCalls this d1)
              (fun c Hc => Hc) Hrun k f Hk)
    as (m & Hm & Hle).
  rewrite <- (applyDelta_resolve this d1 fs0 fs1 changed Happ) in Hm.
  apply stat_kind in Hm as (n & Hn & Hkind).
  destruct n as [st c|st es]; [|discriminate].
  injection Hkind as <-. exists st, c. split; assumption.
Qed.

(** The theorem applied to the script [foo/index.js] of scenario S1. *)
Lemma rebuild_places_every_copy_witness :
  ∃ st c,
    Fs.stat (Examples.after_first Examples.s1_project)
      (Path.join (Target.projectPath Examples.android)
         "platforms/android/src/main/assets/app/tns_modules/foo/index.js")
    = Some (NFile st c)
    ∧ 1 ≤ st_mtime st.
Proof.
  refine (rebuild_places_every_copy Examples.android
            (Examples.source_of Examples.s1_project)
            (Examples.the Examples.emptyDelta
               (Target.buildDelta Examples.android
                  (Examples.source_of Examples.s1_project)))
            Examples.s1_disk
            (Examples.first_delta Examples.s1_project)
            true
            (Examples.after_first Examples.s1_project)
            "platforms/android/src/main/assets/app/tns_modules/foo/index.js"
            (IFile.mk "index.js" "/proj/node_modules/foo/index.js" "index.js"
               ".js" 1)
            _ _ _ _ _ _ _);
    vm_compute; reflexivity.
Defined.

(** X9: Exactness of a rebuild: when [applyDelta(rebuildDelta())] has
    returned and the deletions it started without waiting for them have
    been carried out, in whatever order, every regular file left below
    [output.app] is a target of the plan [buildDelta().copy]; the files
    that were there without being planned are gone. *)
Theorem rebuild_leaves_only_copies this source bd fs0 d1 changed fs1 order
    ns st c :
  Target.buildDelta this source = Done bd →
  plan_wf this bd = true →
  wf_node (fs_root fs0) = true →
  Target.rebuildDelta this source fs0 = Done d1 →
  Target.applyDelta this d1 fs0 = Done (changed, fs1) →
  order ≡ₚ Target.startedCalls this d1 →
  Forall (fun n => proper n = true) ns →
  Fs.stat (Target.carriedOut order fs1)
    (Path.join (Target.projectPath this)
       (pathOf (out_app (Target.output this)) ns))
  = Some (NFile st c) →
  pathOf (out_app (Target.output this)) ns ∈ JsObj.keys (copy bd).
Proof.
  intros Hbd Hplan Hwf Hd1 Happ Hperm Hns Hstat.
  destruct (applyDelta_progress this d1 fs0 fs1 changed Happ order)
    as [Hrun Hsub].
  { intros x Hx. rewrite <- Hperm. exact Hx. }
  apply (files_are_copies this source bd d1 fs0 (Target.carriedOut order fs1)
           Hplan (buildDelta_once this source bd Hbd) Hwf Hbd Hd1
           (Target.awaitedCalls this d1 ++ order) Hsub).
  - intros x Hx. apply elem_of_app. right. rewrite Hperm. exact Hx.
  - exact Hrun.
  - unfold Fs.stat in Hstat.
    replace (Fs.resolve (Target.carriedOut order fs1))
      with (Fs.resolve fs0) in Hstat.
    2:{ unfold Fs.resolve. rewrite (proj1 (run_frame _ _ _ Hrun)). reflexivity. }
    rewrite (resolve_listed this bd Hplan fs0 ns Hns) in Hstat.
    unfold kindOn, kind_at. rewrite Hstat. reflexivity.
Qed.

(** The theorem applied to the project with the leftover [old/f.js],
    once the deletions have been carried out in the order opposite to the
    one they were started in: [app/main.js] is found in the output, and it
    is planned. *)
Lemma rebuild_leaves_only_copies_witness :
  pathOf (out_app (Target.output Examples.android)) ["main.js"]
  ∈ JsObj.keys
      (copy (Examples.the Examples.emptyDelta
               (Target.buildDelta Examples.android
                  (Examples.source_of Examples.leftover_project)))).
Proof.
  refine (rebuild_leaves_only_copies Examples.android
            (Examples.source_of Examples.leftover_project)
            (Examples.the Examples.emptyDelta
               (Target.buildDelta Examples.android
                  (Examples.source_of Examples.leftover_project)))
            (Examples.disk 10 Examples.leftover_project)
            (Examples.first_delta Examples.leftover_project)
            true
            (Examples.after_first Examples.leftover_project)
            (rev (Examples.first_started Examples.leftover_project))
            ["main.js"] (mkStats 10 10) (CText "")
            _ _ _ _ _ _ _ _);
    try (vm_compute; reflexivity).
  - symmetry. apply Permutation_rev.
  - repeat constructor.
Defined.

(** X10: When [applyDelta(rebuildDelta())] completes and no planned directory
    was a regular file beforehand, every directory of the plan
    [buildDelta().mkdir] exists. *)
Theorem rebuild_creates_every_directory this source bd fs0 d1 changed fs1 k :
  Target.buildDelta this source = Done bd →
  plan_wf this bd = true →
  wf_node (fs_root fs0) = true →
  dirs_clear this fs0 bd = true →
  Target.rebuildDelta this source fs0 = Done d1 →
  Target.applyDelta this d1 fs0 = Done (changed, fs1) →
  k ∈ JsObj.keys (mkdir bd) →
  ∃ st es,
    Fs.stat fs1 (Path.join (Target.projectPath this) k) = Some (NDir st es).
Proof.
  intros Hbd Hplan Hwf Hclear Hd1 Happ Hk.
  pose proof (applyDelta_awaited this d1 fs0 fs1 changed Happ) as Hrun.
  pose proof (directories_in_place this source bd d1 fs0 fs1 Hplan Hwf Hbd
                (fun k n => dirs_clear_stat this fs0 bd k n Hclear) Hd1
                (Target.awaitedCalls this d1) (awaited_applyCalls this d1)
                (fun c Hc => Hc) Hrun k Hk)
    as Hdir.
  rewrite <- (applyDelta_resolve this d1 fs0 fs1 changed Happ) in Hdir.
  apply stat_kind in Hdir as (n & Hn & Hkind).
  destruct n as [st c|st es]; [discriminate|].
  exists st, es. exact Hn.
Qed.

(** The theorem applied to the directory of [foo] in scenario S1. *)
Lemma rebuild_creates_every_directory_witness :
  ∃ st es,
    Fs.stat (Examples.after_first Examples.s1_project)
      (Path.join (Target.projectPath Examples.android)
         "platforms/android/src/main/assets/app/tns_modules/foo/")
    = Some (NDir st es).
Proof.
  refine (rebuild_creates_every_directory Examples.android
            (Examples.source_of Examples.s1_project)
            (Examples.the Examples.emptyDelta
               (Target.buildDelta Examples.android
                  (Examples.source_of Examples.s1_project)))
            Examples.s1_disk
            (Examples.first_delta Examples.s1_project)
            true
            (Examples.after_first Examples.s1_project)
            "platforms/android/src/main/assets/app/tns_modules/foo/"
            _ _ _ _ _ _ _);
    try (vm_compute; reflexivity).
  vm_compute. repeat constructor.
Defined.

(** ** What [rebuildDelta] plans, read off the disk *)

Section RmdirFold.

Implicit Types (d : IDelta) (x : string * kind) (L : list (string * kind)).

Lemma diffStep_rmdir_mono d x k :
  JsObj.has k (rmdir d) = true → JsObj.has k (rmdir (diffStep d x)) = true.
Proof.
  destruct x as [p [|m]]; unfold diffStep; cbn [fst snd].
  - destruct (JsObj.has (p +:+ Path.sep) (mkdir d)); cbn; auto. apply has_set.
  - destruct (JsObj.get p (copy d)) as [src|]; [|cbn; auto].
    destruct (negb _); cbn; auto.
Qed.

Lemma diffStep_rmdir_add d p :
  JsObj.has (p +:+ "/") (mkdir d) = false →
  JsObj.has (p +:+ "/") (rmdir (diffStep d (p, KDir))) = true.
Proof.
  intros E. unfold diffStep; cbn [fst snd].
  change Path.sep with "/". rewrite E. cbn. apply has_set_eq.
Qed.

Lemma fold_rmdir_mono L : ∀ d k,
  JsObj.has k (rmdir d) = true → JsObj.has k (rmdir (foldl diffStep d L)) = true.
Proof.
  induction L as [|x L IH]; intros d k H; cbn; [exact H|].
  apply IH, diffStep_rmdir_mono, H.
Qed.

Lemma fold_rmdir_add L : ∀ d p,
  NoDup (map fst L) → (p, KDir) ∈ L →
  JsObj.has (p +:+ "/") (mkdir d) = false →
  JsObj.has (p +:+ "/") (rmdir (foldl diffStep d L)) = true.
Proof.
  induction L as [|x L IH]; intros d p Hnd Hin Hg; cbn.
  - apply elem_of_nil in Hin. contradiction.
  - cbn in Hnd. apply NoDup_cons in Hnd as [Hx Hnd].
    apply elem_of_cons in Hin as [<-|Hin].
    + apply fold_rmdir_mono, diffStep_rmdir_add, Hg.
    + apply (IH _ _ Hnd Hin). rewrite diffStep_mkdir_other; [exact Hg|].
      intros p' -> Heq. apply append_slash_inj in Heq as <-.
      apply Hx. apply (list_elem_of_fmap_2 fst) in Hin. exact Hin.
Qed.

End RmdirFold.

Section DeltaSpec.

Variable this : Target.t.
Variable source : Source.t.
Variable bd d : IDelta.
Variable fs : IFileSystem.

Hypothesis Hbd : Target.buildDelta this source = Done bd.
Hypothesis Hplan : plan_wf this bd = true.
Hypothesis Hwf : wf_node (fs_root fs) = true.
Hypothesis Hd : Target.rebuildDelta this source fs = Done d.

Lemma listed_stat ns kd :
  Forall (fun n => proper n = true) ns →
  kindOn fs (outputBase this fs ++ ns) = Some kd ↔
  ∃ n, Fs.stat fs (Path.join (Target.projectPath this)
                     (pathOf (out_app (Target.output this)) ns)) = Some n
       ∧ kind_of n = kd.
Proof.
  intros Hns. unfold Fs.stat, kindOn, kind_at.
  rewrite (resolve_listed this bd Hplan fs ns Hns).
  destruct (Fs.lookup _ _) as [n|]; cbn.
  - split; [intros [= <-]; exists n; auto|intros (n' & [= <-] & <-); reflexivity].
  - split; [discriminate|intros (n' & [=] & _)].
Qed.

Lemma delta_rmdir_add ns :
  kindOn fs (outputBase this fs ++ ns) = Some KDir →
  JsObj.has (pathOf (out_app (Target.output this)) ns +:+ "/") (mkdir bd) = false →
  pathOf (out_app (Target.output this)) ns +:+ "/" ∈ JsObj.keys (rmdir d).
Proof.
  destruct (rebuildDelta_inv this source bd fs Hplan Hwf Hbd d Hd)
    as (_ & _ & Hr & _). cbn zeta in Hr.
  intros Hk Hg. apply has_keys. rewrite Hr.
  apply fold_rmdir_add.
  - apply (scanned_NoDup this fs Hwf).
  - apply (scanned_elem this bd fs Hplan), Hk.
  - exact Hg.
Qed.

End DeltaSpec.

(** X4: [rebuildDelta()] keeps a planned copy exactly when its target is not
    already a regular file at least as new as the source (an mtime equal
    to the source's counts as up to date); it adds no copy of its own. *)
Theorem rebuildDelta_copy_iff this source bd fs d k f :
  Target.buildDelta this source = Done bd →
  plan_wf this bd = true →
  wf_node (fs_root fs) = true →
  Target.rebuildDelta this source fs = Done d →
  JsObj.get k (copy d) = Some f ↔
  JsObj.get k (copy bd) = Some f
  ∧ ¬ ∃ st c,
        Fs.stat fs (Path.join (Target.projectPath this) k) = Some (NFile st c)
        ∧ IFile.mtime f ≤ st_mtime st.
Proof.
  intros Hbd Hplan Hwf Hd.
  destruct (rebuildDelta_inv this source bd fs Hplan Hwf Hbd d Hd)
    as (Hc & _). cbn zeta in Hc. rewrite Hc.
  assert (Hkey : ∀ f, JsObj.get k (copy bd) = Some f →
            ∃ ns, k = pathOf (out_app (Target.output this)) ns
                  ∧ Forall (fun n => proper n = true) ns).
  { intros f' Hf'.
    destruct (file_key_inv this k (plan_copy this bd Hplan k (get_Some_keys _ _ _ Hf')))
      as (ns & -> & Hns & _). exists ns. auto. }
  split.
  - intros Hf.
    apply fold_copy_sub in Hf as [Hf Hm]; [|exact (buildDelta_once this source bd Hbd)].
    cbn [copy] in Hf. split; [exact Hf|].
    intros (st & c & Hstat & Hle).
    destruct (Hkey f Hf) as (ns & -> & Hns).
    assert (Hin : (pathOf (out_app (Target.output this)) ns, KFile (st_mtime st))
                  ∈ scanned this fs).
    { apply (scanned_elem this bd fs Hplan).
      apply (listed_stat this bd fs Hplan ns _ Hns).
      exists (NFile st c). split; [exact Hstat|reflexivity]. }
    specialize (Hm _ Hin). lia.
  - intros [Hf Hno].
    destruct (fold_copy_keep (scanned this fs)
                (mkDelta (copy bd) (mkdir bd) JsObj.empty JsObj.empty) k f Hf)
      as [H|(m & Hin & Hm)]; [exact H|].
    exfalso. apply Hno.
    apply (scanned_inv this bd fs Hplan Hwf) in Hin as (ns & -> & Hns & Hk).
    apply (listed_stat this bd fs Hplan ns _ Hns) in Hk as (n & Hn & Hkind).
    destruct n as [st c|st es]; [|discriminate].
    injection Hkind as <-. exists st, c. split; assumption.
Qed.

(** The theorem applied to scenario S1 before the first rebuild: the copy
    of [app/main.js] is planned, since its target does not exist. *)
Lemma rebuildDelta_copy_iff_witness :
  JsObj.get "platforms/android/src/main/assets/app/main.js"
    (copy (Examples.first_delta Examples.s1_project))
  = Some (IFile.mk "app/main.js" "/proj/app/main.js" "main.js" ".js" 1).
Proof.
  apply (rebuildDelta_copy_iff Examples.android
           (Examples.source_of Examples.s1_project)
           (Examples.the Examples.emptyDelta
              (Target.buildDelta Examples.android
                 (Examples.source_of Examples.s1_project)))
           Examples.s1_disk
           (Examples.first_delta Examples.s1_project)
           "platforms/android/src/main/assets/app/main.js"
           (IFile.mk "app/main.js" "/proj/app/main.js" "main.js" ".js" 1));
    try (vm_compute; reflexivity).
  split; [vm_compute; reflexivity|].
  intros (st & c & Hstat & _). vm_compute in Hstat. discriminate.
Defined.

(** X5: [rebuildDelta()] schedules for deletion exactly the regular files found
    below [output.app] that are not targets of the plan: nothing outside
    [output.app], and never a file a copy is planned for. *)
Theorem rebuildDelta_rmfile_iff this source bd fs d k :
  Target.buildDelta this source = Done bd →
  plan_wf this bd = true →
  wf_node (fs_root fs) = true →
  Target.rebuildDelta this source fs = Done d →
  k ∈ JsObj.keys (rmfile d) ↔
  ∃ ns st c,
    k = pathOf (out_app (Target.output this)) ns
    ∧ Forall (fun n => proper n = true) ns
    ∧ Fs.stat fs (Path.join (Target.projectPath this) k) = Some (NFile st c)
    ∧ k ∉ JsObj.keys (copy bd).
Proof.
  intros Hbd Hplan Hwf Hd. split.
  - intros Hk.
    destruct (rebuild_rmfile_sub this source bd fs Hplan Hwf Hbd d Hd k Hk)
      as (Hg & ns & -> & Hns & Hfile).
    destruct (kindOn fs (outputBase this fs ++ ns)) as [[|m]|] eqn:E;
      try discriminate.
    apply (listed_stat this bd fs Hplan ns _ Hns) in E as (n & Hn & Hkind).
    destruct n as [st c|st es]; [|discriminate].
    exists ns, st, c. split; [reflexivity|]. split; [exact Hns|].
    split; [exact Hn|].
    intros Hin. apply has_keys in Hin. apply has_false_get in Hg. congruence.
  - intros (ns & st & c & -> & Hns & Hstat & Hnot).
    apply (rebuild_rmfile_add this source bd fs Hplan Hwf Hbd d Hd).
    + assert (E : kindOn fs (outputBase this fs ++ ns) = Some (KFile (st_mtime st))).
      { apply (listed_stat this bd fs Hplan ns _ Hns).
        exists (NFile st c). split; [exact Hstat|reflexivity]. }
      rewrite E. reflexivity.
    + apply has_false_get. destruct (JsObj.has _ _) eqn:Eh; [|reflexivity].
      apply has_keys in Eh. contradiction.
Qed.

(** The theorem applied to scenario S1 with a stale output: the script
    [old.js] found below [output.app] is not a target of the plan and is
    scheduled for deletion. *)
Lemma rebuildDelta_rmfile_iff_witness :
  "platforms/android/src/main/assets/app/old.js"
    ∈ JsObj.keys (rmfile (Examples.first_delta Examples.stale_project)).
Proof.
  apply (rebuildDelta_rmfile_iff Examples.android
           (Examples.source_of Examples.stale_project)
           (Examples.the Examples.emptyDelta
              (Target.buildDelta Examples.android
                 (Examples.source_of Examples.stale_project)))
           (Examples.disk 10 Examples.stale_project)
           (Examples.first_delta Examples.stale_project)
           "platforms/android/src/main/assets/app/old.js");
    try (vm_compute; reflexivity).
  exists ["old.js"], (mkStats 1 1), (CText "").
  split; [vm_compute; reflexivity|].
  split; [repeat constructor|].
  split; [vm_compute; reflexivity|].
  apply (bool_decide_unpack _). vm_compute. exact I.
Defined.

(** X6: [rebuildDelta()] schedules for removal exactly the directories found
    at or below [output.app] that the plan does not create. *)
Theorem rebuildDelta_rmdir_iff this source bd fs d k :
  Target.buildDelta this source = Done bd →
  plan_wf this bd = true →
  wf_node (fs_root fs) = true →
  Target.rebuildDelta this source fs = Done d →
  k ∈ JsObj.keys (rmdir d) ↔
  ∃ ns st es,
    k = pathOf (out_app (Target.output this)) ns +:+ "/"
    ∧ Forall (fun n => proper n = true) ns
    ∧ Fs.stat fs (Path.join (Target.projectPath this)
                    (pathOf (out_app (Target.output this)) ns))
      = Some (NDir st es)
    ∧ k ∉ JsObj.keys (mkdir bd).
Proof.
  intros Hbd Hplan Hwf Hd. split.
  - intros Hk.
    destruct (rebuildDelta_inv this source bd fs Hplan Hwf Hbd d Hd)
      as (_ & _ & Hr & _). cbn zeta in Hr.
    apply has_keys in Hk. rewrite Hr in Hk.
    apply fold_rmdir_sub in Hk as [Hk|(p & -> & Hin & Hg)];
      [discriminate| |exact (scanned_NoDup this fs Hwf)].
    apply (scanned_inv this bd fs Hplan Hwf) in Hin as (ns & -> & Hns & Hkind).
    apply (listed_stat this bd fs Hplan ns _ Hns) in Hkind as (n & Hn & Hkd).
    destruct n as [st c|st es]; [discriminate|].
    exists ns, st, es. split; [reflexivity|]. split; [exact Hns|].
    split; [exact Hn|].
    intros Hin. apply has_keys in Hin. cbn [mkdir] in Hg. congruence.
  - intros (ns & st & es & -> & Hns & Hstat & Hnot).
    apply (delta_rmdir_add this source bd d fs Hbd Hplan Hwf Hd).
    + apply (listed_stat this bd fs Hplan ns _ Hns).
      exists (NDir st es). split; [exact Hstat|reflexivity].
    + destruct (JsObj.has _ _) eqn:Eh; [|reflexivity].
      apply has_keys in Eh. contradiction.
Qed.

(** The theorem applied to scenario S1 with a stale output: the directory
    [gone] found below [output.app] is not created by the plan and is
    scheduled for removal. *)
Lemma rebuildDelta_rmdir_iff_witness :
  "platforms/android/src/main/assets/app/gone/"
    ∈ JsObj.keys (rmdir (Examples.first_delta Examples.stale_project)).
Proof.
  apply (rebuildDelta_rmdir_iff Examples.android
           (Examples.source_of Examples.stale_project)
           (Examples.the Examples.emptyDelta
              (Target.buildDelta Examples.android
                 (Examples.source_of Examples.stale_project)))
           (Examples.disk 10 Examples.stale_project)
           (Examples.first_delta Examples.stale_project)
           "platforms/android/src/main/assets/app/gone/");
    try (vm_compute; reflexivity).
  exists ["gone"], (mkStats 1 1), [].
  split; [vm_compute; reflexivity|].
  split; [repeat constructor|].
  split; [vm_compute; reflexivity|].
  apply (bool_decide_unpack _). vm_compute. exact I.
Defined.

(** ** What [applyDelta] leaves alone *)

Section Frame.

(** A change at [segs] that replaces a leaf by a leaf, or nothing at all,
    is not seen at any path that is neither [segs] nor above it. *)
Lemma modify_lookup_other segs f : ∀ n n',
  Fs.modify segs f n = Done n' →
  (∀ old new, f old = Done new → (leafy old ∧ leafy new) ∨ new = old) →
  ∀ q, ¬ q `prefix_of` segs → Fs.lookup q n' = Fs.lookup q n.
Proof.
  induction segs as [|s rest IH]; intros n n' H Hf q Hq; [discriminate|].
  destruct n as [st c|st es]; [discriminate|].
  cbn [Fs.modify] in H.
  destruct q as [|x q]; [exfalso; apply Hq, prefix_nil|].
  rewrite !lookup_cons.
  destruct rest as [|s' rest].
  - destruct (f (Fs.find_entry s es)) as [new| |] eqn:Ef; cbn in H; try discriminate.
    injection H as <-. rewrite lookup_cons.
    destruct (decide (s = x)) as [<-|Hne].
    + destruct q as [|y q]; [exfalso; apply Hq; reflexivity|].
      destruct (Hf _ _ Ef) as [[Hold Hnew]| ->].
      * rewrite (leafy_lookup (Fs.find_entry s es)) by exact Hold.
        destruct new as [c|].
        -- rewrite find_set_entry_eq. apply (leafy_lookup (Some c)), Hnew.
        -- rewrite find_remove_entry_eq. reflexivity.
      * destruct (Fs.find_entry s es) as [c|] eqn:Ec.
        -- rewrite (set_entry_same _ _ _ Ec), Ec. reflexivity.
        -- rewrite find_remove_entry_eq. reflexivity.
    + destruct new as [c|].
      * rewrite find_set_entry_ne by exact Hne. reflexivity.
      * rewrite find_remove_entry_ne by exact Hne. reflexivity.
  - destruct (Fs.find_entry s es) as [c|] eqn:Ec; [|discriminate].
    destruct (Fs.modify (s' :: rest) f c) as [c'| |] eqn:Em; cbn in H;
      try discriminate.
    injection H as <-. rewrite lookup_cons.
    destruct (decide (s = x)) as [<-|Hne].
    + rewrite find_set_entry_eq, Ec. cbn.
      apply (IH c c' Em Hf). intros Hp. apply Hq, prefix_cons, Hp.
    + rewrite find_set_entry_ne by exact Hne. reflexivity.
Qed.

Lemma modify_fs_lookup_other fs p f r q :
  Fs.modify_fs fs p f = r →
  (∀ old new, f old = Done new → (leafy old ∧ leafy new) ∨ new = old) →
  ¬ q `prefix_of` Fs.resolve fs p →
  Fs.lookup q (fs_root (Fs.unawaited fs r)) = Fs.lookup q (fs_root fs).
Proof.
  intros Hr Hf Hq. destruct r as [fs'| |]; cbn [Fs.unawaited]; try reflexivity.
  apply modify_fs_inv in Hr as (root & Hm & ->). cbn [fs_root].
  exact (modify_lookup_other _ _ _ _ Hm Hf q Hq).
Qed.

(** One call of [applyDelta] changes nothing at a path that is neither its
    target nor above it. *)
Lemma issue_lookup_other call fs fs' q :
  Target.perform call fs = Done fs' →
  ¬ q `prefix_of` target fs call →
  Fs.lookup q (fs_root fs') = Fs.lookup q (fs_root fs).
Proof.
  destruct call as [p|from to|p|p]; cbn [Target.perform target]; intros H Hq.
  - apply (modify_fs_lookup_other fs p _ (Done fs') q H); [|exact Hq].
    intros [[st c|st es]|] new; cbn; intros [=]; subst; auto.
    left. split; reflexivity.
  - unfold Fs.copyFile in H.
    destruct (Fs.stat fs from) as [[st c|]|]; try discriminate.
    apply (modify_fs_lookup_other fs to _ (Done fs') q H); [|exact Hq].
    intros [[st' c'|st' es]|] new; cbn; intros [=]; subst; left; split; exact I.
  - injection H as <-.
    apply (modify_fs_lookup_other fs p _ _ q eq_refl); [|exact Hq].
    intros [[st' c'|st' es]|] new; cbn; intros [=]; subst; left; split; exact I.
  - injection H as <-.
    apply (modify_fs_lookup_other fs p _ _ q eq_refl); [|exact Hq].
    intros [[st' c'|st' [|e es]]|] new; cbn; intros [=]; subst; left;
      split; try exact I; reflexivity.
Qed.

Lemma run_lookup_other cs : ∀ fs fs' q,
  forEach Target.perform cs fs = Done fs' →
  (∀ c, c ∈ cs → ¬ q `prefix_of` target fs c) →
  Fs.lookup q (fs_root fs') = Fs.lookup q (fs_root fs).
Proof.
  induction cs as [|c cs IH]; intros fs fs' q H Hq; cbn in H.
  - injection H as <-. reflexivity.
  - destruct (Target.perform c fs) as [fs1| |] eqn:E; cbn in H; try discriminate.
    rewrite (IH fs1 fs' q H).
    + apply (issue_lookup_other c fs fs1 q E), Hq, list_elem_of_here.
    + intros c' Hc'.
      rewrite (target_cwd fs fs1 c' (proj1 (issue_effect _ _ _ E))).
      apply Hq, list_elem_of_further, Hc'.
Qed.

End Frame.

(** X7: [applyDelta(delta)] keeps the working directory, and whatever is
    found at a path that is neither the target of one of its calls (the
    project path joined with a key of [delta]) nor a directory above such
    a target is found there unchanged afterwards, contents included. *)
Theorem applyDelta_frame this delta fs changed fs' p :
  Target.applyDelta this delta fs = Done (changed, fs') →
  (∀ c, c ∈ Target.applyCalls this delta →
        ¬ Fs.resolve fs p `prefix_of` target fs c) →
  fs_cwd fs' = fs_cwd fs ∧ Fs.stat fs' p = Fs.stat fs p.
Proof.
  intros Happ Hp.
  pose proof (applyDelta_awaited this delta fs fs' changed Happ) as Hrun.
  destruct (run_frame _ _ _ Hrun) as [Hcwd _]. split; [exact Hcwd|].
  unfold Fs.stat.
  replace (Fs.resolve fs' p) with (Fs.resolve fs p)
    by (unfold Fs.resolve; rewrite Hcwd; reflexivity).
  apply (run_lookup_other _ fs fs' _ Hrun).
  intros c Hc. apply Hp, awaited_applyCalls, Hc.
Qed.

(** The theorem applied to the first rebuild of scenario S1: the source
    file [app/main.js] is found unchanged afterwards. *)
Lemma applyDelta_frame_witness :
  fs_cwd (Examples.after_first Examples.s1_project) = fs_cwd Examples.s1_disk
  ∧ Fs.stat (Examples.after_first Examples.s1_project) "/proj/app/main.js"
    = Fs.stat Examples.s1_disk "/proj/app/main.js".
Proof.
  apply (applyDelta_frame Examples.android
           (Examples.first_delta Examples.s1_project)
           Examples.s1_disk true
           (Examples.after_first Examples.s1_project) "/proj/app/main.js").
  - vm_compute. reflexivity.
  - intros c Hc.
    apply (proj1 (Forall_forall
                    (fun c => ¬ Fs.resolve Examples.s1_disk "/proj/app/main.js"
                                `prefix_of` target Examples.s1_disk c)
                    (Target.applyCalls Examples.android
                       (Examples.first_delta Examples.s1_project))));
      [|exact Hc].
    vm_compute. repeat constructor; intros [k Hk]; discriminate.
Defined.

(** ** [ProjectChangesInfo]: what the flags and the record tell *)

(** X13: [filesChanged(files, mtime)] is true exactly when one of [files] exists
    and is strictly newer than [mtime]; files that do not exist are passed
    over, and so is a file whose mtime equals [mtime]. *)
Theorem filesChanged_iff fs files mtime :
  ProjectChangesInfo.filesChanged fs files mtime = true ↔
  ∃ file n, file ∈ files ∧ Fs.stat fs file = Some n
            ∧ mtime < st_mtime (node_stats n).
Proof.
  induction files as [|file rest IH]; cbn.
  - split; [discriminate|]. intros (f & n & Hin & _).
    apply elem_of_nil in Hin. contradiction.
  - destruct (Fs.stat fs file) as [n|] eqn:E.
    + destruct (Z.gtb_spec (st_mtime (node_stats n)) mtime) as [Hgt|Hle].
      * split; [intros _|reflexivity].
        exists file, n. split; [apply list_elem_of_here|]. split; [exact E|lia].
      * rewrite IH. split.
        -- intros (f & m & Hin & Hs & Hm). exists f, m.
           split; [apply list_elem_of_further, Hin|]. split; assumption.
        -- intros (f & m & Hin & Hs & Hm).
           apply elem_of_cons in Hin as [->|Hin].
           ++ rewrite E in Hs. injection Hs as <-. lia.
           ++ exists f, m. split; [exact Hin|]. split; assumption.
    + rewrite IH. split.
      * intros (f & m & Hin & Hs & Hm). exists f, m.
        split; [apply list_elem_of_further, Hin|]. split; assumption.
      * intros (f & m & Hin & Hs & Hm).
        apply elem_of_cons in Hin as [->|Hin]; [congruence|].
        exists f, m. split; [exact Hin|]. split; assumption.
Qed.

Section WriteFile.

Lemma writeFile_stat fs p c fs' :
  Fs.writeFile fs p c = Done fs' →
  Fs.stat fs' p = Some (NFile (Fs.fresh fs) c) ∧ fs_cwd fs' = fs_cwd fs
  ∧ fs_now fs' = fs_now fs.
Proof.
  intros H. apply modify_fs_inv in H as (root & Hm & ->).
  split; [|split; reflexivity].
  unfold Fs.stat, Fs.resolve. cbn [fs_root fs_cwd].
  change (if Path.isAbsolute p then _ else _) with (Fs.resolve fs p).
  apply modify_at in Hm.
  destruct (Fs.lookup (Fs.resolve fs p) (fs_root fs)) as [[st c'|st es]|];
    cbn in Hm; try discriminate; injection Hm as <-; reflexivity.
Qed.

End WriteFile.

Section Constructor.

Import ProjectChangesInfo.

Variables (dateString : Z → string) (fuel : nat).
Variables (platform : string) (force skipModulesAndResources : bool).
Variable getPlatformData : string → IPlatformData.
Variable projectData : IProjectData.
Variable devicePlatformsConstants : IDevicePlatformsConstants.
Variable options : IOptions.
Variable fs : IFileSystem.

#[local] Abbreviation buildInfoFile :=
  (Path.join (projectRoot (getPlatformData platform)) prepareInfoFileName).

(** The constructor, branch by branch. *)
Lemma create_cases this written fs' :
  create dateString fuel platform force skipModulesAndResources
    getPlatformData projectData devicePlatformsConstants options fs
  = Done (this, written, fs') →
  (bundle (prepareInfo this) = opt_bundle options
   ∧ release (prepareInfo this) = opt_release options)
  ∧ (packageChanged this = true → modulesChanged this = true)
  ∧ (modulesChanged this || appResourcesChanged this = true →
     configChanged this = true)
  ∧ (force || negb (Fs.exists_ fs buildInfoFile) = true →
     appFilesChanged this = true ∧ appResourcesChanged this = true
     ∧ modulesChanged this = true ∧ configChanged this = true
     ∧ packageChanged this = false ∧ nativeChanged this = false)
  ∧ (written = None →
     fs' = fs ∧ Fs.exists_ fs buildInfoFile = true
     ∧ Fs.readJson fs buildInfoFile = Done (CPrepareInfo (prepareInfo this)))
  ∧ (∀ p, written = Some p →
     Fs.writeFile fs buildInfoFile (CPrepareInfo p) = Done fs').
Proof.
  unfold create. intros H.
  bind_step H as this0 E.
  assert (H0 :
    (bundle (prepareInfo this0) = opt_bundle options
     ∧ release (prepareInfo this0) = opt_release options)
    ∧ (packageChanged this0 = true → modulesChanged this0 = true)
    ∧ (modulesChanged this0 || appResourcesChanged this0 = true →
       configChanged this0 = true)
    ∧ (force || negb (Fs.exists_ fs buildInfoFile) = true →
       appFilesChanged this0 = true ∧ appResourcesChanged this0 = true
       ∧ modulesChanged this0 = true ∧ configChanged this0 = true
       ∧ packageChanged this0 = false ∧ nativeChanged this0 = false)
    ∧ (hasChanges this0 = false →
       Fs.exists_ fs buildInfoFile = true
       ∧ Fs.readJson fs buildInfoFile = Done (CPrepareInfo (prepareInfo this0)))).
  { clear H. destruct (force || negb (Fs.exists_ fs buildInfoFile)) eqn:Eb.
    - injection E as <-. cbn. repeat split; auto; discriminate.
    - bind_step E as buildInfoStats E1. bind_step E as stored E2.
      bind_step E as [appFiles k1] E3.
      bind_step E as [[[[[pkg res] nat_] mods] cfg] k2] E4.
      injection E as <-.
      cbn [prepareInfo packageChanged modulesChanged appResourcesChanged
           configChanged appFilesChanged nativeChanged].
      apply orb_false_iff in Eb as [_ Eex]. apply negb_false_iff in Eex.
      split; [|split; [|split; [|split]]].
      + destruct (as_prepareInfo stored) as [p|]; cbn.
        * destruct (opt_bundle options), (bundle p), (opt_release options),
            (release p); cbn; split; reflexivity.
        * split; reflexivity.
      + intros ->. reflexivity.
      + destruct pkg;
          repeat match goal with
                 | |- context [if ?b then _ else _] => destruct b
                 end; cbn; intros Hor; try reflexivity; try discriminate Hor;
          destruct mods, res; discriminate Hor.
      + discriminate.
      + unfold hasChanges.
        cbn [prepareInfo packageChanged modulesChanged appResourcesChanged
             configChanged appFilesChanged nativeChanged].
        intros Hno. split; [exact Eex|]. f_equal.
        destruct stored as [j|p|t]; cbn [as_prepareInfo] in *.
        * destruct pkg; cbn in Hno; discriminate.
        * destruct (negb (Bool.eqb (opt_bundle options) (bundle p))
                    || negb (Bool.eqb (opt_release options) (release p))) eqn:Ed.
          -- destruct pkg; cbn in Hno; discriminate.
          -- destruct p. reflexivity.
        * destruct pkg; cbn in Hno; discriminate. }
  destruct H0 as (Hopt & Hpkg & Hcfg & Hforce & Hquiet).
  destruct (hasChanges this0) eqn:Hch.
  - bind_step H as fs1 E1. injection H as <- <- <-.
    cbn [prepareInfo packageChanged modulesChanged appResourcesChanged
         configChanged appFilesChanged nativeChanged bundle release].
    split; [exact Hopt|]. split; [exact Hpkg|]. split; [exact Hcfg|].
    split; [exact Hforce|]. split; [discriminate|].
    intros p [= <-]. exact E1.
  - injection H as <- <- <-.
    split; [exact Hopt|]. split; [exact Hpkg|]. split; [exact Hcfg|].
    split; [exact Hforce|]. split.
    + intros _. split; [reflexivity|]. apply Hquiet. reflexivity.
    + intros p [=].
Qed.

(** What the constructor leaves on the disk: with [hasChanges], the
    record of the object, stamped with the current date, in the file
    [.nsprepareinfo] written just now; without, the disk as it was. *)
Lemma create_record this written fs' :
  create dateString fuel platform force skipModulesAndResources
    getPlatformData projectData devicePlatformsConstants options fs
  = Done (this, written, fs') →
  if hasChanges this
  then written = Some (prepareInfo this)
       ∧ time (prepareInfo this) = dateString (fs_now fs)
       ∧ Fs.writeFile fs buildInfoFile (CPrepareInfo (prepareInfo this))
         = Done fs'
       ∧ Fs.stat fs' buildInfoFile
         = Some (NFile (Fs.fresh fs) (CPrepareInfo (prepareInfo this)))
  else written = None ∧ fs' = fs.
Proof.
  intros H.
  destruct (create_cases _ _ _ H) as (_ & _ & _ & _ & Hnone & Hsome).
  destruct (create_inv _ _ _ _ _ _ _ _ _ _ _ _ _ H) as (_ & Hw & Hp).
  destruct (hasChanges this).
  - destruct (proj2 Hw eq_refl) as [p ->].
    destruct (Hp p eq_refl) as [Ht ->].
    specialize (Hsome _ eq_refl).
    repeat split; [exact Ht|exact Hsome|].
    apply (writeFile_stat _ _ _ _ Hsome).
  - destruct written as [p|].
    + pose proof (proj1 Hw (ex_intro _ p eq_refl)) as Hf. discriminate Hf.
    + split; [reflexivity|]. apply (Hnone eq_refl).
Qed.

End Constructor.

(** X17: After the constructor the flags are reconciled: [packageChanged] and
    [nativeChanged] each imply [modulesChanged], and [modulesChanged] or
    [appResourcesChanged] implies [configChanged]. *)
Theorem flags_reconciled dateString fuel platform force skipModulesAndResources
    getPlatformData projectData devicePlatformsConstants options fs
    this written fs' :
  ProjectChangesInfo.create dateString fuel platform force
    skipModulesAndResources getPlatformData projectData
    devicePlatformsConstants options fs
  = Done (this, written, fs') →
  (ProjectChangesInfo.packageChanged this = true →
   ProjectChangesInfo.modulesChanged this = true)
  ∧ (ProjectChangesInfo.nativeChanged this = true →
     ProjectChangesInfo.modulesChanged this = true)
  ∧ (ProjectChangesInfo.modulesChanged this
     || ProjectChangesInfo.appResourcesChanged this = true →
     ProjectChangesInfo.configChanged this = true).
Proof.
  intros H.
  destruct (create_cases _ _ _ _ _ _ _ _ _ _ _ _ _ H) as (_ & Hpkg & Hcfg & _).
  destruct (create_inv _ _ _ _ _ _ _ _ _ _ _ _ _ H) as (Hnat & _).
  split; [exact Hpkg|]. split; [exact Hnat|exact Hcfg].
Qed.

(** The theorem applied to [Examples.prepared_changes], where a newer
    native file sets [nativeChanged]. *)
Lemma flags_reconciled_witness :
  ∃ this written fs',
    Examples.prepared_changes = Done (this, written, fs')
    ∧ ProjectChangesInfo.nativeChanged this = true
    ∧ ProjectChangesInfo.modulesChanged this = true
    ∧ ProjectChangesInfo.configChanged this = true.
Proof.
  destruct Examples.prepared_changes as [[[this written] fs']| |] eqn:E;
    [|vm_compute in E; discriminate E|vm_compute in E; discriminate E].
  exists this, written, fs'. split; [reflexivity|].
  destruct (flags_reconciled Examples.dateString 10 "android" false false
              Examples.getPlatformData Examples.projectData Examples.constants
              Examples.options (Examples.disk 10 Examples.prepared_project)
              this written fs' E) as (_ & Hnat & Hcfg).
  assert (Hn : ProjectChangesInfo.nativeChanged this = true).
  { vm_compute in E. injection E as <- _ _. reflexivity. }
  split; [exact Hn|]. split; [exact (Hnat Hn)|].
  apply Hcfg. rewrite (Hnat Hn). reflexivity.
Defined.

(** X18: Whenever the constructor finds that the changes require a build
    ([changesRequireBuild]), it also reports [hasChanges] and rewrites the
    prepare-info record: on the disk it leaves, [.nsprepareinfo] is a
    file written just now that holds the record of the object, whose
    [time] is the current date. *)
Theorem build_required_is_recorded dateString fuel platform force
    skipModulesAndResources getPlatformData projectData
    devicePlatformsConstants options fs this written fs' :
  ProjectChangesInfo.create dateString fuel platform force
    skipModulesAndResources getPlatformData projectData
    devicePlatformsConstants options fs
  = Done (this, written, fs') →
  ProjectChangesInfo.changesRequireBuild this = true →
  ProjectChangesInfo.hasChanges this = true
  ∧ written = Some (ProjectChangesInfo.prepareInfo this)
  ∧ time (ProjectChangesInfo.prepareInfo this) = dateString (fs_now fs)
  ∧ Fs.stat fs'
      (Path.join (projectRoot (getPlatformData platform))
         ProjectChangesInfo.prepareInfoFileName)
    = Some (NFile (Fs.fresh fs)
              (CPrepareInfo (ProjectChangesInfo.prepareInfo this))).
Proof.
  intros H Hreq.
  destruct (create_inv _ _ _ _ _ _ _ _ _ _ _ _ _ H) as (Hnat & _ & _).
  assert (Hch : ProjectChangesInfo.hasChanges this = true).
  { unfold ProjectChangesInfo.changesRequireBuild in Hreq.
    unfold ProjectChangesInfo.hasChanges.
    destruct (ProjectChangesInfo.packageChanged this); [reflexivity|].
    destruct (ProjectChangesInfo.appResourcesChanged this);
      [rewrite orb_true_r; reflexivity|].
    cbn in Hreq. rewrite (Hnat Hreq), !orb_true_r. reflexivity. }
  split; [exact Hch|].
  pose proof (create_record _ _ _ _ _ _ _ _ _ _ _ _ _ H) as Hrec.
  rewrite Hch in Hrec. destruct Hrec as (Hw & Ht & _ & Hstat).
  repeat split; assumption.
Qed.

(** The theorem applied to [Examples.prepared_changes], where a native
    file of a plugin is newer than the record. *)
Lemma build_required_is_recorded_witness :
  ∃ this written fs',
    Examples.prepared_changes = Done (this, written, fs')
    ∧ ProjectChangesInfo.hasChanges this = true
    ∧ written = Some (ProjectChangesInfo.prepareInfo this)
    ∧ time (ProjectChangesInfo.prepareInfo this) = Examples.dateString 10
    ∧ Fs.stat fs'
        (Path.join (projectRoot (Examples.getPlatformData "android"))
           ProjectChangesInfo.prepareInfoFileName)
      = Some (NFile (mkStats 10 10)
                (CPrepareInfo (ProjectChangesInfo.prepareInfo this))).
Proof.
  destruct Examples.prepared_changes as [[[this written] fs']| |] eqn:E;
    [|vm_compute in E; discriminate E|vm_compute in E; discriminate E].
  exists this, written, fs'. split; [reflexivity|].
  apply (build_required_is_recorded Examples.dateString 10 "android" false false
           Examples.getPlatformData Examples.projectData Examples.constants
           Examples.options (Examples.disk 10 Examples.prepared_project)
           this written fs' E).
  vm_compute in E. injection E as <- _ _. reflexivity.
Defined.

(** C3: after [new ProjectChangesInfo(platform, ...)] has returned, the
    file [.nsprepareinfo] has been rewritten, with [time] set to the
    current date, if and only if at least one of the six flags
    [appFilesChanged], [appResourcesChanged], [modulesChanged],
    [configChanged], [packageChanged], [nativeChanged] is true.  With a
    flag set, the disk is the one [writeJson] leaves: the file is stamped
    with the current time and holds the record of the object; with none
    set, the disk is as it was.  ([hasChanges] does not read
    [nativeChanged], but that flag is never true without
    [modulesChanged].) *)
Theorem prepareInfo_rewritten_iff_some_flag dateString fuel platform force
    skipModulesAndResources getPlatformData projectData
    devicePlatformsConstants options fs this written fs' :
  ProjectChangesInfo.create dateString fuel platform force
    skipModulesAndResources getPlatformData projectData
    devicePlatformsConstants options fs
  = Done (this, written, fs') →
  let buildInfoFile :=
    Path.join (projectRoot (getPlatformData platform))
      ProjectChangesInfo.prepareInfoFileName in
  if ProjectChangesInfo.appFilesChanged this
     || ProjectChangesInfo.appResourcesChanged this
     || ProjectChangesInfo.modulesChanged this
     || ProjectChangesInfo.configChanged this
     || ProjectChangesInfo.packageChanged this
     || ProjectChangesInfo.nativeChanged this
  then written = Some (ProjectChangesInfo.prepareInfo this)
       ∧ time (ProjectChangesInfo.prepareInfo this) = dateString (fs_now fs)
       ∧ Fs.writeFile fs buildInfoFile
           (CPrepareInfo (ProjectChangesInfo.prepareInfo this))
         = Done fs'
       ∧ Fs.stat fs' buildInfoFile
         = Some (NFile (Fs.fresh fs)
                   (CPrepareInfo (ProjectChangesInfo.prepareInfo this)))
  else written = None ∧ fs' = fs.
Proof.
  intros H buildInfoFile. subst buildInfoFile.
  destruct (create_inv _ _ _ _ _ _ _ _ _ _ _ _ _ H) as (Hnat & _ & _).
  pose proof (create_record _ _ _ _ _ _ _ _ _ _ _ _ _ H) as Hrec.
  replace (ProjectChangesInfo.appFilesChanged this
           || ProjectChangesInfo.appResourcesChanged this
           || ProjectChangesInfo.modulesChanged this
           || ProjectChangesInfo.configChanged this
           || ProjectChangesInfo.packageChanged this
           || ProjectChangesInfo.nativeChanged this)
    with (ProjectChangesInfo.hasChanges this); [exact Hrec|].
  unfold ProjectChangesInfo.hasChanges.
  destruct (ProjectChangesInfo.nativeChanged this).
  - rewrite (Hnat eq_refl).
    destruct (ProjectChangesInfo.packageChanged this),
      (ProjectChangesInfo.appFilesChanged this),
      (ProjectChangesInfo.appResourcesChanged this),
      (ProjectChangesInfo.configChanged this); reflexivity.
  - destruct (ProjectChangesInfo.packageChanged this),
      (ProjectChangesInfo.appFilesChanged this),
      (ProjectChangesInfo.appResourcesChanged this),
      (ProjectChangesInfo.modulesChanged this),
      (ProjectChangesInfo.configChanged this); reflexivity.
Qed.

(** The theorem applied to [Examples.prepared_changes]: a newer native file
    of a plugin sets [nativeChanged] (and [modulesChanged]); the record
    is rewritten and stamped with the time of the clock, 10. *)
Lemma prepareInfo_rewritten_iff_some_flag_witness :
  ∃ this written fs',
    Examples.prepared_changes = Done (this, written, fs')
    ∧ ProjectChangesInfo.nativeChanged this = true
    ∧ time (ProjectChangesInfo.prepareInfo this) = Examples.dateString 10
    ∧ Fs.stat fs'
        (Path.join (projectRoot (Examples.getPlatformData "android"))
           ProjectChangesInfo.prepareInfoFileName)
      = Some (NFile (mkStats 10 10)
                (CPrepareInfo (ProjectChangesInfo.prepareInfo this))).
Proof.
  destruct Examples.prepared_changes as [[[this written] fs']| |] eqn:E;
    [|vm_compute in E; discriminate E|vm_compute in E; discriminate E].
  exists this, written, fs'. split; [reflexivity|].
  pose proof (prepareInfo_rewritten_iff_some_flag Examples.dateString 10
                "android" false false Examples.getPlatformData
                Examples.projectData Examples.constants Examples.options
                (Examples.disk 10 Examples.prepared_project)
                this written fs' E) as H.
  assert (Hn : ProjectChangesInfo.nativeChanged this = true).
  { vm_compute in E. injection E as <- _ _. reflexivity. }
  cbv zeta in H. rewrite Hn, !orb_true_r in H.
  destruct H as (_ & Ht & _ & Hstat).
  split; [exact Hn|]. split; [exact Ht|exact Hstat].
Defined.

(** X19: After the constructor, [prepareInfo.bundle] and [prepareInfo.release]
    are the values of the options, whatever the record on disk held. *)
Theorem prepareInfo_follows_options dateString fuel platform force
    skipModulesAndResources getPlatformData projectData
    devicePlatformsConstants options fs this written fs' :
  ProjectChangesInfo.create dateString fuel platform force
    skipModulesAndResources getPlatformData projectData
    devicePlatformsConstants options fs
  = Done (this, written, fs') →
  bundle (ProjectChangesInfo.prepareInfo this) = opt_bundle options
  ∧ release (ProjectChangesInfo.prepareInfo this) = opt_release options.
Proof.
  intros H.
  exact (proj1 (create_cases _ _ _ _ _ _ _ _ _ _ _ _ _ H)).
Qed.

(** The theorem applied to [Examples.prepared_changes]. *)
Lemma prepareInfo_follows_options_witness :
  ∃ this written fs',
    Examples.prepared_changes = Done (this, written, fs')
    ∧ bundle (ProjectChangesInfo.prepareInfo this) = false
    ∧ release (ProjectChangesInfo.prepareInfo this) = false.
Proof.
  destruct Examples.prepared_changes as [[[this written] fs']| |] eqn:E;
    [|vm_compute in E; discriminate E|vm_compute in E; discriminate E].
  exists this, written, fs'. split; [reflexivity|].
  exact (prepareInfo_follows_options Examples.dateString 10 "android" false false
           Examples.getPlatformData Examples.projectData Examples.constants
           Examples.options (Examples.disk 10 Examples.prepared_project)
           this written fs' E).
Defined.

(** X20: Read after write: once the constructor has returned,
    [getLatestPrepareInfo] on the resulting disk yields the object's
    [prepareInfo], whether the record was rewritten or left as it was. *)
Theorem prepareInfo_on_disk dateString fuel platform force
    skipModulesAndResources getPlatformData projectData
    devicePlatformsConstants options fs this written fs' :
  ProjectChangesInfo.create dateString fuel platform force
    skipModulesAndResources getPlatformData projectData
    devicePlatformsConstants options fs
  = Done (this, written, fs') →
  ProjectChangesInfo.getLatestPrepareInfo (getPlatformData platform) fs'
  = Done (Some (ProjectChangesInfo.prepareInfo this)).
Proof.
  intros H.
  destruct (create_cases _ _ _ _ _ _ _ _ _ _ _ _ _ H)
    as (_ & _ & _ & _ & Hnone & Hsome).
  destruct (create_inv _ _ _ _ _ _ _ _ _ _ _ _ _ H) as (_ & _ & Hp).
  unfold ProjectChangesInfo.getLatestPrepareInfo.
  destruct written as [p|].
  - destruct (Hp p eq_refl) as [_ Heq].
    destruct (writeFile_stat _ _ _ _ (Hsome p eq_refl)) as (Hstat & _).
    unfold Fs.exists_, Fs.readJson. rewrite Hstat. cbn. rewrite Heq. reflexivity.
  - destruct (Hnone eq_refl) as (-> & Hex & Hread).
    rewrite Hex, Hread. reflexivity.
Qed.

(** The theorem applied to [Examples.prepared_changes]. *)
Lemma prepareInfo_on_disk_witness :
  ∃ this written fs',
    Examples.prepared_changes = Done (this, written, fs')
    ∧ ProjectChangesInfo.getLatestPrepareInfo
        (Examples.getPlatformData "android") fs'
      = Done (Some (ProjectChangesInfo.prepareInfo this)).
Proof.
  destruct Examples.prepared_changes as [[[this written] fs']| |] eqn:E;
    [|vm_compute in E; discriminate E|vm_compute in E; discriminate E].
  exists this, written, fs'. split; [reflexivity|].
  exact (prepareInfo_on_disk Examples.dateString 10 "android" false false
           Examples.getPlatformData Examples.projectData Examples.constants
           Examples.options (Examples.disk 10 Examples.prepared_project)
           this written fs' E).
Defined.

(** A forced check, or the first check of a platform (no prepare-info
    record yet), never looks at the project tree: it reports the four
    flags [appFilesChanged], [appResourcesChanged], [modulesChanged] and
    [configChanged], neither [packageChanged] nor [nativeChanged], and
    writes a record that carries the options and the current date, raising
    only if that write does. *)
Theorem forced_check_reports_everything dateString fuel platform force
    skipModulesAndResources getPlatformData projectData
    devicePlatformsConstants options fs :
  force || negb (Fs.exists_ fs
                   (Path.join (projectRoot (getPlatformData platform))
                      ProjectChangesInfo.prepareInfoFileName)) = true →
  ProjectChangesInfo.create dateString fuel platform force
    skipModulesAndResources getPlatformData projectData
    devicePlatformsConstants options fs
  = (let record :=
       mkPrepareInfo (dateString (fs_now fs)) (opt_bundle options)
         (opt_release options) in
     fs' ← Fs.writeFile fs
             (Path.join (projectRoot (getPlatformData platform))
                ProjectChangesInfo.prepareInfoFileName)
             (CPrepareInfo record);
     Done (ProjectChangesInfo.mk true true true true record false false 0,
           Some record, fs')).
Proof.
  intros Hb. unfold ProjectChangesInfo.create. rewrite Hb. reflexivity.
Qed.

(** The theorem applied to a forced check of the prepared project. *)
Lemma forced_check_reports_everything_witness :
  ∃ fs',
    ProjectChangesInfo.create Examples.dateString 10 "android" true false
      Examples.getPlatformData Examples.projectData Examples.constants
      Examples.options (Examples.disk 10 Examples.prepared_project)
    = Done (ProjectChangesInfo.mk true true true true
              (mkPrepareInfo "now" false false) false false 0,
            Some (mkPrepareInfo "now" false false), fs').
Proof.
  rewrite (forced_check_reports_everything Examples.dateString 10 "android" true
             false Examples.getPlatformData Examples.projectData
             Examples.constants Examples.options
             (Examples.disk 10 Examples.prepared_project) eq_refl).
  eexists. vm_compute. reflexivity.
Defined.

Section Quiet.

Variables (fs : IFileSystem) (projectDir : string) (mtime : Z).

(** X14: [containsNewerFiles] on a directory below which nothing is newer than
    [mtime]: the answer is [false], [newFiles] is left as it was and
    [processFunc] is not called, whatever [skipDir] is. *)
Theorem containsNewerFiles_quiet skipDir processFunc n : ∀ dir k0,
  isDirectory n = true → quiet mtime n = true →
  ProjectChangesInfo.containsNewerFiles fs projectDir skipDir mtime processFunc
    n dir k0 = Done (false, k0).
Proof.
  induction n as [st c|st es IH] using node_ind; intros dir k0 Hdir Hq;
    [discriminate|].
  cbn [ProjectChangesInfo.containsNewerFiles]. cbn [quiet] in Hq.
  clear Hdir. revert k0.
  induction es as [|[file child] es IHes]; intros k0; [reflexivity|].
  apply Forall_cons in IH as [IHc IHrest]. cbn [snd] in IHc.
  cbn [forallb] in Hq. rewrite !andb_true_iff in Hq.
  destruct Hq as [[[Hm Hl] Hqc] Hqrest]. cbn [snd] in Hm, Hl, Hqc.
  apply negb_true_iff in Hm, Hl.
  cbn [ProjectChangesInfo.entriesLoop].
  fold (ProjectChangesInfo.entriesLoop fs projectDir skipDir mtime processFunc
          (ProjectChangesInfo.containsNewerFiles fs projectDir skipDir mtime
             processFunc) dir).
  case_bool_decide; [apply (IHes IHrest Hqrest)|].
  rewrite Hm, Hl. cbn [orb].
  destruct (isDirectory child) eqn:Ed.
  - rewrite (IHc _ _ eq_refl Hqc). cbn. apply (IHes IHrest Hqrest).
  - apply (IHes IHrest Hqrest).
Qed.

(** X15: Without [skipDir] and without [processFunc], [containsNewerFiles] on a
    directory returns [true] exactly when something below it is newer than
    [mtime], and never touches [newFiles]. *)
Theorem containsNewerFiles_plain n : ∀ dir k0,
  isDirectory n = true →
  ProjectChangesInfo.containsNewerFiles fs projectDir None mtime None n dir k0
  = Done (negb (quiet mtime n), k0).
Proof.
  induction n as [st c|st es IH] using node_ind; intros dir k0 Hdir;
    [discriminate|].
  cbn [ProjectChangesInfo.containsNewerFiles quiet].
  clear Hdir. revert k0.
  induction es as [|[file child] es IHes]; intros k0; [reflexivity|].
  apply Forall_cons in IH as [IHc IHrest]. cbn [snd] in IHc.
  cbn [ProjectChangesInfo.entriesLoop forallb snd].
  fold (ProjectChangesInfo.entriesLoop fs projectDir None mtime None
          (ProjectChangesInfo.containsNewerFiles fs projectDir None mtime None)
          dir).
  rewrite bool_decide_eq_false_2 by discriminate.
  destruct ((st_mtime (node_stats child) >? mtime)
            || (st_lmtime (node_stats child) >? mtime)) eqn:Ech.
  - apply orb_true_iff in Ech as [->| ->]; cbn; rewrite ?andb_false_r; reflexivity.
  - apply orb_false_iff in Ech as [-> ->]. cbn [negb andb].
    destruct child as [st' c'|st' es'].
    + cbn [isDirectory quiet andb]. apply (IHes IHrest).
    + cbn [isDirectory]. rewrite (IHc _ _ eq_refl). cbn [mbind result_bind].
      destruct (quiet mtime (NDir st' es')); cbn [negb andb];
        [apply (IHes IHrest)|reflexivity].
Qed.

End Quiet.

(** The theorem applied to the [app] directory of scenario S1, whose
    entries bear the time 1. *)
Lemma containsNewerFiles_quiet_witness :
  ProjectChangesInfo.containsNewerFiles Examples.s1_disk "/proj"
    (Some "/proj/app/App_Resources") 5 None
    (Examples.dir 1 [("main.js", Examples.file 1)]) "/proj/app" 0
  = Done (false, 0%nat).
Proof.
  apply (containsNewerFiles_quiet Examples.s1_disk "/proj" 5
           (Some "/proj/app/App_Resources") None
           (Examples.dir 1 [("main.js", Examples.file 1)]) "/proj/app" 0);
    reflexivity.
Defined.

(** The theorem applied to the same directory and an older reference
    time. *)
Lemma containsNewerFiles_plain_witness :
  ProjectChangesInfo.containsNewerFiles Examples.s1_disk "/proj" None 0 None
    (Examples.dir 1 [("main.js", Examples.file 1)]) "/proj/app" 0
  = Done (true, 0%nat).
Proof.
  apply (containsNewerFiles_plain Examples.s1_disk "/proj" 0
           (Examples.dir 1 [("main.js", Examples.file 1)]) "/proj/app" 0).
  reflexivity.
Defined.

(** ** [fileChangeRequiresBuild]: the walk on paths below [node_modules] *)

Section Dirname.

Lemma dirname_end_noslash n : ∀ i, noslash n = true → Path.dirname_end i n = None.
Proof.
  induction n as [|a n IH]; intros i H; [reflexivity|].
  cbn in H. apply andb_true_iff in H as [Ha Hn].
  cbn [Path.dirname_end]. rewrite (IH _ Hn).
  apply negb_true_iff in Ha. rewrite Ha. reflexivity.
Qed.

Lemma has_nonslash_noslash n : noslash n = true → n ≠ "" → Path.has_nonslash n = true.
Proof.
  destruct n as [|a n]; [contradiction|]. cbn. intros H _.
  apply andb_true_iff in H as [Ha _]. rewrite Ha. reflexivity.
Qed.

Lemma dirname_end_snoc s n : ∀ i,
  noslash n = true → n ≠ "" → (1 ≤ i + String.length s)%nat →
  Path.dirname_end i (s +:+ "/" +:+ n) = Some (i + String.length s)%nat.
Proof.
  induction s as [|a s IH]; intros i Hn Hne Hi.
  - rewrite append_nil_l. change ("/" +:+ n) with (String Js.slash n).
    cbn [Path.dirname_end]. rewrite (dirname_end_noslash n _ Hn).
    rewrite (has_nonslash_noslash n Hn Hne). cbn in Hi |- *.
    rewrite Nat.add_0_r in *.
    destruct i as [|i]; [lia|reflexivity].
  - rewrite append_cons. cbn [Path.dirname_end].
    rewrite (IH (S i) Hn Hne) by (cbn; lia). f_equal. cbn. lia.
Qed.

Lemma slice0_append s t : Js.slice0 (String.length s) (s +:+ t) = s.
Proof.
  unfold Js.slice0. induction s as [|a s IH].
  - destruct t; reflexivity.
  - rewrite append_cons. cbn. rewrite IH. reflexivity.
Qed.

Lemma isAbsolute_head a s t :
  Path.isAbsolute (String a s) = Path.isAbsolute (String a t).
Proof.
  unfold Path.isAbsolute, Js.startsWith.
  change (String.prefix "/" (String a s))
    with (if ascii_dec "/" a then String.prefix "" s else false).
  change (String.prefix "/" (String a t))
    with (if ascii_dec "/" a then String.prefix "" t else false).
  destruct (ascii_dec "/" a); [|reflexivity]. destruct s, t; reflexivity.
Qed.

(** [dirname] of a relative path [s/n] is [s]. *)
Lemma dirname_snoc s n :
  s ≠ "" → Path.isAbsolute s = false → noslash n = true → n ≠ "" →
  Path.dirname (s +:+ "/" +:+ n) = s.
Proof.
  intros Hs Habs Hn Hne. unfold Path.dirname.
  destruct s as [|a s]; [contradiction|].
  rewrite append_cons. cbn [String.eqb].
  rewrite <- append_cons.
  rewrite (dirname_end_snoc (String a s) n 0 Hn Hne) by (cbn; lia).
  cbn [Nat.add].
  assert (Hroot : Path.isAbsolute (String a s +:+ "/" +:+ n) = false).
  { rewrite append_cons, <- Habs. apply isAbsolute_head. }
  rewrite Hroot. cbn [andb]. apply slice0_append.
Qed.

Lemma pathOf_first p ns : ∃ r, pathOf p ns = p +:+ r.
Proof.
  revert p. induction ns as [|n ns IH]; intros p.
  - exists "". rewrite append_nil_r. reflexivity.
  - rewrite pathOf_cons. destruct (IH ((p +:+ "/") +:+ n)) as [r ->].
    exists ("/" +:+ n +:+ r). rewrite !append_assoc. reflexivity.
Qed.

Lemma pathOf_relative ns :
  pathOf "node_modules" ns ≠ ""
  ∧ Path.isAbsolute (pathOf "node_modules" ns) = false.
Proof.
  destruct (pathOf_first "node_modules" ns) as [r ->].
  split; [discriminate|reflexivity].
Qed.

Lemma dirname_pathOf ns n :
  proper n = true →
  Path.dirname (pathOf "node_modules" (ns ++ [n])) = pathOf "node_modules" ns.
Proof.
  intros Hn. rewrite pathOf_snoc, append_assoc.
  destruct (pathOf_relative ns) as [Hne Habs].
  apply dirname_snoc; [exact Hne|exact Habs|apply proper_noslash, Hn|].
  intros ->. discriminate Hn.
Qed.

End Dirname.

Section WalkEnds.

Variables (file projectDir : string) (fs : IFileSystem).

Lemma walk_terminates ns :
  Forall (fun n => proper n = true) ns →
  ∀ fuel, (length ns ≤ fuel)%nat →
    terminated (ChangeClassifier.upwardWalk fuel file projectDir fs
                  (pathOf "node_modules" ns)) = true.
Proof.
  induction ns as [|n ns IH] using rev_ind; intros Hall fuel Hfuel.
  - destruct fuel; reflexivity.
  - apply Forall_app in Hall as [Hns Hn]. apply Forall_cons in Hn as [Hn _].
    rewrite length_app in Hfuel. cbn in Hfuel.
    destruct fuel as [|fuel]; [lia|].
    cbn [ChangeClassifier.upwardWalk].
    destruct (String.eqb_spec (pathOf "node_modules" (ns ++ [n])) "node_modules")
      as [Heq|_]; [reflexivity|].
    rewrite (dirname_pathOf ns n Hn).
    assert (Hrec : terminated
                     (ChangeClassifier.upwardWalk fuel file projectDir fs
                        (pathOf "node_modules" ns)) = true)
      by (apply IH; [exact Hns|lia]).
    destruct (Fs.exists_ fs _); [|exact Hrec].
    destruct (Fs.readJson fs _) as [json| |] eqn:Er; cbn [mbind result_bind].
    + destruct (has_nativescript json && _); [reflexivity|exact Hrec].
    + reflexivity.
    + exfalso. unfold Fs.readJson in Er.
      destruct (Fs.stat fs _) as [[st [j|p|t]|st es]|]; discriminate.
Qed.

End WalkEnds.

(** X16: The walk of [fileChangeRequiresBuild] ends for every file below
    [node_modules] given by proper names, [node_modules/n1/.../nk]: after
    at most [k] steps of [dirname] the path is [node_modules], unless the
    answer [true] or an unreadable [package.json] ended the call before. *)
Theorem fileChangeRequiresBuild_ends fuel ns projectDir fs :
  Forall (fun n => proper n = true) ns →
  (length ns ≤ fuel)%nat →
  terminated (ChangeClassifier.fileChangeRequiresBuild fuel
                (pathOf "node_modules" ns) projectDir fs) = true.
Proof.
  intros Hns Hfuel. unfold ChangeClassifier.fileChangeRequiresBuild.
  destruct (String.eqb _ "package.json"); [reflexivity|].
  destruct (Js.startsWith _ "node_modules"); [|reflexivity].
  destruct (negb _); [|reflexivity].
  apply walk_terminates; assumption.
Qed.

(** The theorem applied to [node_modules/foo/index.js] in scenario S1. *)
Lemma fileChangeRequiresBuild_ends_witness :
  terminated (ChangeClassifier.fileChangeRequiresBuild 2
                (pathOf "node_modules" ["foo"; "index.js"]) "/proj"
                Examples.s1_disk) = true.
Proof.
  apply (fileChangeRequiresBuild_ends 2 ["foo"; "index.js"] "/proj"
           Examples.s1_disk).
  - repeat constructor.
  - cbn. lia.
Defined.

(** ** Live sync: stamps, failures and the debugger socket *)

Section Stamps.

Import PlatformLiveSyncServiceBase.

Variable svc : Services.
Variable liveSyncData : ILiveSyncData.
Variable projectData : IProjectData.
Variable fuel : nat.

Lemma latestPrepareTime_inv platformData w w' t :
  latestPrepareTime platformData w = (w', Done t) →
  w' = w
  ∧ ∃ p, ProjectChangesInfo.getLatestPrepareInfo platformData (w_fs w)
         = Done (Some p) ∧ time p = t.
Proof.
  unfold latestPrepareTime, bind, getFs, lift.
  destruct (ProjectChangesInfo.getLatestPrepareInfo platformData (w_fs w))
    as [[p|]| |]; cbn; intros [= <- <-] || intros [=].
  split; [reflexivity|]. exists p. split; reflexivity.
Qed.

Lemma changeRequiresDeploy_pure files : ∀ w,
  (changeRequiresDeploy projectData fuel files w).1 = w.
Proof.
  induction files as [|file rest IH]; intros w; [reflexivity|].
  cbn [changeRequiresDeploy]. unfold bind at 1. unfold getFs.
  unfold bind at 1. unfold lift.
  destruct (ChangeClassifier.fileChangeRequiresBuild fuel file
              (projectDir projectData) (w_fs w)) as [[|]| |]; try reflexivity.
  apply IH.
Qed.

End Stamps.

(** X21: [deploy(device)] on a platform that has no prepare-info record raises
    at its first step, [prepareInfo.time] of [null]: nothing is built,
    deployed or installed and no stamp is written. *)
Theorem deploy_needs_prepare_info svc liveSyncData device w :
  ProjectChangesInfo.getLatestPrepareInfo
    (getPlatformData svc (dev_platform device)) (w_fs w) = Done None →
  PlatformLiveSyncServiceBase.deploy svc liveSyncData device w = (w, Threw).
Proof.
  intros H.
  unfold PlatformLiveSyncServiceBase.deploy. unfold bind at 1.
  unfold PlatformLiveSyncServiceBase.shouldBuildWhenLivesyncing. unfold bind at 1.
  unfold PlatformLiveSyncServiceBase.latestPrepareTime, bind, getFs, lift.
  rewrite H. reflexivity.
Qed.

(** The theorem applied to scenario S1, which was never prepared. *)
Lemma deploy_needs_prepare_info_witness :
  PlatformLiveSyncServiceBase.deploy (Examples.services false)
    Examples.liveSyncData Examples.androidDevice
    (Examples.world Examples.s1_project false)
  = (Examples.world Examples.s1_project false, Threw).
Proof.
  apply (deploy_needs_prepare_info (Examples.services false)
           Examples.liveSyncData Examples.androidDevice
           (Examples.world Examples.s1_project false)).
  vm_compute. reflexivity.
Defined.

(** X22: In the branch of [getSyncAction] that does not deploy, without an
    [afterFileSyncAction]: when the refresh of the application raises, the
    action raises after the file action and the refresh, the disk is as it
    was and no stamp has been written. *)
Theorem sync_failed_refresh_leaves_no_stamp svc liveSyncData projectData fuel
    filesToSync fileSyncAction device w :
  (PlatformLiveSyncServiceBase.changeRequiresDeploy projectData fuel
     filesToSync w).2 = Done false →
  fails svc fileSyncAction = false →
  fails svc (EvRefreshApplication (dev_identifier device) false) = true →
  PlatformLiveSyncServiceBase.syncAction svc liveSyncData projectData fuel
    filesToSync fileSyncAction None device w
  = (mkWorld (w_fs w)
       (w_trace w ++ [fileSyncAction]
        ++ [EvRefreshApplication (dev_identifier device) false])
       (w_socket w) (w_currentPageReloadId w),
     Threw).
Proof.
  intros Hno Hfile Hrefresh.
  unfold PlatformLiveSyncServiceBase.syncAction. unfold bind at 1.
  pose proof (changeRequiresDeploy_pure projectData fuel filesToSync w) as Hpure.
  destruct (PlatformLiveSyncServiceBase.changeRequiresDeploy projectData fuel
              filesToSync w) as [w0 r]. cbn in Hno, Hpure. subst w0 r.
  unfold bind at 1. unfold external at 1. rewrite Hfile.
  unfold bind at 1.
  unfold PlatformLiveSyncServiceBase.refreshApplication, external.
  cbn [w_fs w_trace w_socket w_currentPageReloadId app_device].
  rewrite bool_decide_eq_false_2 by discriminate.
  rewrite Hrefresh. rewrite <- app_assoc. reflexivity.
Qed.

(** The theorem applied to a batch with one script of the prepared
    project, on a device whose refresh raises. *)
Lemma sync_failed_refresh_leaves_no_stamp_witness :
  (PlatformLiveSyncServiceBase.syncAction (Examples.services true)
     Examples.liveSyncData Examples.projectData 10 ["app/page.js"]
     (EvTransferFiles "dev1" false) None Examples.androidDevice
     (Examples.world Examples.livesync_project false)).2
  = Threw.
Proof.
  rewrite (sync_failed_refresh_leaves_no_stamp (Examples.services true)
             Examples.liveSyncData Examples.projectData 10 ["app/page.js"]
             (EvTransferFiles "dev1" false) Examples.androidDevice
             (Examples.world Examples.livesync_project false));
    vm_compute; reflexivity.
Defined.

Section StampRoundTrip.

Lemma modify_through_file q : ∀ n st c r f,
  Fs.lookup q n = Some (NFile st c) → r ≠ [] →
  Fs.modify (q ++ r) f n = Threw.
Proof.
  induction q as [|s q IH]; intros n st c r f Hl Hr.
  - injection Hl as ->. destruct r; [contradiction|reflexivity].
  - destruct n as [st' c'|st' es]; [discriminate|].
    rewrite lookup_cons in Hl.
    destruct (Fs.find_entry s es) as [child|] eqn:E; [|discriminate].
    cbn in Hl. cbn [app Fs.modify].
    destruct (q ++ r) as [|x rest] eqn:Eq.
    + apply app_eq_nil in Eq as [_ ->]. contradiction.
    + rewrite E. rewrite <- Eq. rewrite (IH child st c r f Hl Hr). reflexivity.
Qed.

(** Writing a file changes nothing at another file. *)
Lemma writeFile_other fs p c fs' q st0 c0 :
  Fs.writeFile fs p c = Done fs' →
  Fs.stat fs q = Some (NFile st0 c0) →
  Fs.resolve fs q ≠ Fs.resolve fs p →
  Fs.stat fs' q = Some (NFile st0 c0).
Proof.
  intros Hw Hq Hne.
  pose proof Hw as Hw'. apply modify_fs_inv in Hw' as (root & Hm & ->).
  unfold Fs.stat in *. unfold Fs.resolve at 1. cbn [fs_cwd fs_root].
  change (if Path.isAbsolute q then _ else _) with (Fs.resolve fs q).
  rewrite <- Hq.
  apply (modify_lookup_other _ _ _ _ Hm).
  - intros [[st' c'|st' es]|] new; cbn; intros [=]; subst; left; split; exact I.
  - intros [r Hr].
    destruct r as [|x r]; [rewrite app_nil_r in Hr; congruence|].
    rewrite Hr, (modify_through_file _ _ _ _ (x :: r) _ Hq) in Hm;
      discriminate.
Qed.

End StampRoundTrip.

(** X23: Once [saveLivesyncInfo] has stamped a device, the next
    [shouldBuildWhenLivesyncing] for it answers [false], whatever the
    latest build time and the latest changes are, provided the stamp and
    the prepare-info record are different files. *)
Theorem stamped_device_needs_no_build svc device platformData w w' :
  Fs.resolve (w_fs w)
    (Path.join (projectRoot platformData)
       ProjectChangesInfo.prepareInfoFileName)
  ≠ Fs.resolve (w_fs w)
      (PlatformLiveSyncServiceBase.getLivesyncInfoFilePath svc device) →
  PlatformLiveSyncServiceBase.saveLivesyncInfo svc device platformData w
  = (w', Done tt) →
  PlatformLiveSyncServiceBase.shouldBuildWhenLivesyncing svc device
    platformData w'
  = (w', Done false).
Proof.
  intros Hne Hsave.
  unfold PlatformLiveSyncServiceBase.saveLivesyncInfo in Hsave.
  unfold bind at 1 in Hsave.
  destruct (PlatformLiveSyncServiceBase.latestPrepareTime platformData w)
    as [w0 [t| |]] eqn:Et; try discriminate.
  apply latestPrepareTime_inv in Et as (-> & p & Hp & <-).
  unfold bind, getFs, lift, setFs, log in Hsave.
  destruct (Fs.writeFile (w_fs w) _ (CText (time p))) as [fs'| |] eqn:Ew;
    try discriminate.
  cbn [w_fs w_trace w_socket w_currentPageReloadId] in Hsave.
  injection Hsave as <-.
  destruct (writeFile_stat _ _ _ _ Ew) as (Hstamp & Hcwd & _).
  (* the prepare-info record is still there *)
  unfold ProjectChangesInfo.getLatestPrepareInfo in Hp.
  destruct (Fs.exists_ (w_fs w) _) eqn:Eex; [|discriminate].
  unfold Fs.readJson in Hp.
  destruct (Fs.stat (w_fs w)
              (Path.join (projectRoot platformData)
                 ProjectChangesInfo.prepareInfoFileName))
    as [[st0 c0|st0 es0]|] eqn:Est; try discriminate.
  pose proof (writeFile_other _ _ _ _ _ _ _ Ew Est Hne) as Hkeep.
  unfold PlatformLiveSyncServiceBase.shouldBuildWhenLivesyncing.
  unfold bind at 1.
  unfold PlatformLiveSyncServiceBase.latestPrepareTime, bind, getFs, lift.
  cbn [w_fs].
  unfold ProjectChangesInfo.getLatestPrepareInfo, Fs.exists_, Fs.readJson.
  rewrite Hkeep.
  destruct c0 as [j|p0|t0]; cbn in Hp; try discriminate.
  injection Hp as ->. cbn.
  destruct (negb (String.eqb (time p) _)); [|reflexivity].
  cbn [w_fs]. rewrite Hstamp.
  unfold PlatformLiveSyncServiceBase.readText, bind, getFs, lift, ret.
  cbn [w_fs]. rewrite Hstamp. rewrite String.eqb_refl. reflexivity.
Qed.

(** The theorem applied to the prepared project and the Android device,
    when the latest build is older than the prepare-info record and the
    latest changes require a build: before the stamp the answer is
    [true], after it [false]. *)
Lemma stamped_device_needs_no_build_witness :
  PlatformLiveSyncServiceBase.shouldBuildWhenLivesyncing
    Examples.services_built_earlier Examples.androidDevice Examples.androidData
    (Examples.world Examples.livesync_project false)
  = (Examples.world Examples.livesync_project false, Done true)
  ∧ PlatformLiveSyncServiceBase.shouldBuildWhenLivesyncing
      Examples.services_built_earlier Examples.androidDevice
      Examples.androidData
      (PlatformLiveSyncServiceBase.saveLivesyncInfo
         Examples.services_built_earlier
         Examples.androidDevice Examples.androidData
         (Examples.world Examples.livesync_project false)).1
    = ((PlatformLiveSyncServiceBase.saveLivesyncInfo
          Examples.services_built_earlier
          Examples.androidDevice Examples.androidData
          (Examples.world Examples.livesync_project false)).1,
       Done false).
Proof.
  split; [vm_compute; reflexivity|].
  apply (stamped_device_needs_no_build Examples.services_built_earlier
           Examples.androidDevice Examples.androidData
           (Examples.world Examples.livesync_project false)).
  - vm_compute. discriminate.
  - vm_compute. reflexivity.
Defined.

Section SocketRuns.

Import IOSLiveSyncService.

Variable svc : Services.

Ltac close_run :=
  split; [try reflexivity|];
  split; [repeat constructor|];
  split; [cbn; lia|];
  split; [repeat constructor|];
  repeat first [apply Forall_nil_2 | apply Forall_cons_2; [cbn; lia|]].

Lemma socket_run_refl w : socket_run w w.
Proof. exists []. rewrite app_nil_r. close_run. Qed.

Lemma sorted_app_lt (l1 l2 : list nat) b :
  StronglySorted lt l1 → StronglySorted lt l2 →
  Forall (fun x => (x ≤ b)%nat) l1 → Forall (fun x => (b < x)%nat) l2 →
  StronglySorted lt (l1 ++ l2).
Proof.
  intros H1 H2 Hl1 Hl2. induction H1 as [|x l1 Hs IH Hx]; [exact H2|].
  apply Forall_cons in Hl1 as [Hxb Hl1]. cbn. constructor; [apply IH, Hl1|].
  apply Forall_app. split; [exact Hx|].
  eapply Forall_impl; [exact Hl2|]. cbn. intros y Hy. lia.
Qed.

Lemma socket_run_trans w1 w2 w3 :
  socket_run w1 w2 → socket_run w2 w3 → socket_run w1 w3.
Proof.
  intros (n1 & Ht1 & Hs1 & Hc1 & Hsort1 & Hb1) (n2 & Ht2 & Hs2 & Hc2 & Hsort2 & Hb2).
  exists (n1 ++ n2). rewrite Ht2, Ht1, <- app_assoc.
  split; [reflexivity|]. split; [apply Forall_app; split; assumption|].
  split; [lia|]. rewrite sent_app, map_app. split.
  - apply (sorted_app_lt _ _ (w_currentPageReloadId w2)); try assumption.
    + apply Forall_fmap. eapply Forall_impl; [exact Hb1|]. cbn. intros m Hm. lia.
    + apply Forall_fmap. eapply Forall_impl; [exact Hb2|]. cbn. intros m Hm. lia.
  - apply Forall_app. split.
    + eapply Forall_impl; [exact Hb1|]. cbn. intros m Hm. lia.
    + eapply Forall_impl; [exact Hb2|]. cbn. intros m Hm. lia.
Qed.

(** One message with the next id. *)
Lemma send_next_run (mk : nat → Message) w :
  (∀ id, message_id (mk id) = id) →
  socket_run w
    (sendMessage svc (mk (S (w_currentPageReloadId w)))
       (mkWorld (w_fs w) (w_trace w) (w_socket w) (S (w_currentPageReloadId w)))).1.
Proof.
  intros Hid. unfold sendMessage. cbn [w_socket].
  destruct (w_socket w && negb (fails svc _)).
  - exists [EvSend (mk (S (w_currentPageReloadId w)))].
    cbn. rewrite Hid. close_run.
    apply Forall_cons_2; [rewrite Hid; lia|apply Forall_nil_2].
  - exists []. cbn. rewrite app_nil_r. close_run.
Qed.

Lemma liveEdit_run paths : ∀ w, socket_run w (liveEdit svc paths w).1.
Proof.
  induction paths as [|p paths IH]; intros w; [apply socket_run_refl|].
  cbn [liveEdit]. unfold bind at 1.
  unfold PlatformLiveSyncServiceBase.readText, bind, getFs, lift.
  destruct (Fs.stat (w_fs w) (getLocalPath p)) as [[st [j|pi|content]|st es]|];
    try apply socket_run_refl.
  unfold nextId. cbn [w_fs w_trace w_socket w_currentPageReloadId].
  pose proof (send_next_run
                (fun id => DebuggerSetScriptSource (getDevicePath p) content id)
                w (fun _ => eq_refl)) as Hstep.
  cbn beta in Hstep.
  destruct (sendMessage svc _ _) as [w1 r] eqn:Es. cbn [fst] in Hstep.
  assert (Hr : r = Done tt).
  { revert Es. unfold sendMessage. cbn [w_socket].
    destruct (_ && _); cbn; intros [= _ <-]; reflexivity. }
  subst r. apply (socket_run_trans _ _ _ Hstep), IH.
Qed.

Lemma reloadPage_run deviceAppData paths w :
  socket_run w (reloadPage svc deviceAppData paths w).1.
Proof.
  unfold reloadPage. destruct (0 <? length paths)%nat; [|apply socket_run_refl].
  unfold bind, nextId. cbn [w_fs w_trace w_socket w_currentPageReloadId].
  apply (send_next_run (fun id => PageReload false id) w). reflexivity.
Qed.

Lemma setupSocketIfNeeded_run device connect w :
  socket_run w (setupSocketIfNeeded svc device connect w).1.
Proof.
  unfold setupSocketIfNeeded. unfold bind at 1. unfold getSocket.
  destruct (w_socket w) eqn:Hs; [apply socket_run_refl|].
  unfold bind at 1. unfold nextId. unfold bind at 1. unfold bind at 1.
  unfold external at 1.
  cbn [w_fs w_trace w_socket w_currentPageReloadId].
  assert (Hattach : socket_run w
            (mkWorld (w_fs w) (w_trace w ++ [EvAttachRequest]) (w_socket w)
               (S (w_currentPageReloadId w)))).
  { exists [EvAttachRequest]. cbn. close_run. }
  rewrite Hs in Hattach.
  destruct (fails svc EvAttachRequest); [exact Hattach|].
  assert (Hc : ∀ c : bool,
            socket_run w
              ((if c then
                  bind (setSocket true)
                    (fun _ => bind (sendMessage svc
                                      (DebuggerEnable (S (w_currentPageReloadId w))))
                                (fun _ => ret true))
                else ret false)
                 (mkWorld (w_fs w) (w_trace w ++ [EvAttachRequest]) false
                    (S (w_currentPageReloadId w)))).1).
  { intros [|]; [|exact Hattach].
    unfold bind, setSocket, sendMessage, ret.
    cbn [w_fs w_trace w_socket w_currentPageReloadId andb].
    destruct (negb (fails svc _)).
    - exists [EvAttachRequest; EvSend (DebuggerEnable (S (w_currentPageReloadId w)))].
      cbn. rewrite <- app_assoc. close_run.
    - exists [EvAttachRequest]. cbn. close_run. }
  destruct (dev_isEmulator device); unfold ret at 1; cbn beta iota; rewrite Hs;
    [apply (Hc connect)|apply (Hc true)].
Qed.

(** What one call of [refreshApplication] of the iOS service does: it
    restarts the application and nothing else, and leaves no future
    behind; or it only uses the debugger socket, up to its return and in
    the future it leaves behind. *)
Lemma refreshApplication_run options device connect deviceAppData paths force w :
  let r := refreshApplication svc options device connect deviceAppData
             paths force w in
  (w_trace r.1 = w_trace w ++ [EvRestartApplication (appIdentifier deviceAppData)]
   ∧ w_currentPageReloadId r.1 = w_currentPageReloadId w
   ∧ afterwards r = r.1)
  ∨ (socket_run w r.1 ∧ socket_run r.1 (afterwards r)).
Proof.
  cbn zeta. unfold refreshApplication.
  assert (Hrestart :
    let r := bind (restartApplication svc deviceAppData)
               (fun _ => ret (ret tt : Sync unit)) w in
    w_trace r.1 = w_trace w ++ [EvRestartApplication (appIdentifier deviceAppData)]
    ∧ w_currentPageReloadId r.1 = w_currentPageReloadId w
    ∧ afterwards r = r.1).
  { unfold bind, restartApplication, external, afterwards, ret.
    destruct (fails svc _); cbn; repeat split; reflexivity. }
  destruct force; [left; exact Hrestart|].
  destruct (existsb _ _); [left; exact Hrestart|].
  destruct (negb (opt_liveEdit options) && _); [left; exact Hrestart|].
  right. unfold bind, afterwards.
  pose proof (setupSocketIfNeeded_run device connect w) as H1.
  destruct (setupSocketIfNeeded svc device connect w) as [w1 [[|]| |]];
    cbn [fst] in H1 |- *;
    try (split; [exact H1|apply socket_run_refl]).
  pose proof (reloadPage_run deviceAppData
                (filter (fun p => isScript p ≠ true) paths) w1) as H2.
  assert (Hr : ∃ w2, reloadPage svc deviceAppData
                       (filter (fun p => isScript p ≠ true) paths) w1
                     = (w2, Done tt)).
  { unfold reloadPage. destruct (0 <? length _)%nat; [|eexists; reflexivity].
    unfold bind, nextId, sendMessage. cbn [w_socket].
    destruct (_ && _); eexists; reflexivity. }
  destruct Hr as [w2 Hr]. rewrite Hr in H2 |- *. cbn [fst] in H2.
  unfold ret, detached. cbn [fst].
  split; [apply (socket_run_trans _ _ _ H1 H2)|].
  pose proof (liveEdit_run (filter (fun p => isScript p = true) paths) w2) as H3.
  destruct (liveEdit svc _ w2) as [w3 r3]. cbn [fst] in H3 |- *. exact H3.
Qed.

End SocketRuns.

(** X24: A refresh of the iOS service never mixes the two ways of applying a
    change: either its only effect is one restart of the application, or
    it restarts nothing and only issues attach requests and debugger
    messages; and so for the events that follow its return, when the
    future it left behind runs. *)
Theorem refresh_restarts_or_uses_socket svc options device connect
    deviceAppData paths force w :
  ∃ new,
    w_trace (IOSLiveSyncService.refreshApplication svc options device connect
               deviceAppData paths force w).1
    = w_trace w ++ new
    ∧ (new = [EvRestartApplication (appIdentifier deviceAppData)]
       ∨ Forall (fun e => isSocketEvent e = true) new)
    ∧ ∃ later,
        w_trace (IOSLiveSyncService.afterwards
                   (IOSLiveSyncService.refreshApplication svc options device
                      connect deviceAppData paths force w))
        = w_trace w ++ new ++ later
        ∧ (new = [EvRestartApplication (appIdentifier deviceAppData)]
           ∧ later = []
           ∨ Forall (fun e => isSocketEvent e = true) (new ++ later)).
Proof.
  destruct (refreshApplication_run svc options device connect deviceAppData
              paths force w)
    as [(Ht & _ & Ha)|[(new & Ht & Hs & _) (later & Hl & Hsl & _)]].
  - eexists. split; [exact Ht|]. split; [left; reflexivity|].
    exists []. rewrite Ha, Ht. split; [reflexivity|]. left. split; reflexivity.
  - exists new. split; [exact Ht|]. split; [right; exact Hs|].
    exists later. rewrite Hl, Ht, <- app_assoc. split; [reflexivity|].
    right. apply Forall_app. split; assumption.
Qed.

(** X25: The messages written to the debugger socket by one refresh, up to
    its return and afterwards by the future it left behind, carry
    strictly increasing ids in the order they are written, all above the
    value [currentPageReloadId] had before the call and none above its
    final value; those written after the return carry ids above the value
    of the counter at the return, those written before do not. *)
Theorem refresh_message_ids_increase svc options device connect
    deviceAppData paths force w :
  let r := IOSLiveSyncService.refreshApplication svc options device connect
             deviceAppData paths force w in
  ∃ new later,
    w_trace r.1 = w_trace w ++ new
    ∧ w_trace (IOSLiveSyncService.afterwards r) = w_trace w ++ new ++ later
    ∧ StronglySorted lt
        (map message_id (IOSLiveSyncService.sent (new ++ later)))
    ∧ Forall (fun m =>
                (w_currentPageReloadId w < message_id m
                 ≤ w_currentPageReloadId r.1)%nat)
             (IOSLiveSyncService.sent new)
    ∧ Forall (fun m =>
                (w_currentPageReloadId r.1 < message_id m
                 ≤ w_currentPageReloadId (IOSLiveSyncService.afterwards r))%nat)
             (IOSLiveSyncService.sent later).
Proof.
  cbn zeta.
  destruct (refreshApplication_run svc options device connect deviceAppData
              paths force w)
    as [(Ht & Hc & Ha)|[H1 H2]].
  - eexists _, []. split; [exact Ht|]. rewrite Ha, Ht, app_nil_r.
    split; [reflexivity|]. cbn. repeat split; constructor.
  - pose proof (socket_run_trans _ _ _ H1 H2) as H12.
    destruct H1 as (new & Ht & _ & _ & _ & Hb1).
    destruct H2 as (later & Hl & _ & _ & _ & Hb2).
    destruct H12 as (all & Hall & _ & _ & Hsort & _).
    exists new, later. split; [exact Ht|].
    rewrite Hl, Ht, <- app_assoc. split; [reflexivity|].
    rewrite Hl, Ht, <- app_assoc in Hall. apply app_inv_head in Hall.
    rewrite Hall. repeat split; assumption.
Qed.

(** ** The selection of dependency packages keeps the table consistent *)

Section Selection.

Variable semver_gt : option string → option string → result bool.
Variable projectPath : string.
Variable fs : IFileSystem.

Lemma heap_update_inv pack f this q r :
  Source.heap (Source.update pack f this) !! q = Some r →
  (q = pack ∧ ∃ p, Source.heap this !! pack = Some p ∧ r = f p)
  ∨ (q ≠ pack ∧ Source.heap this !! q = Some r).
Proof.
  intros H. destruct (decide (q = pack)) as [->|Hne].
  - left. split; [reflexivity|].
    unfold Source.update in H. cbn [Source.heap] in H.
    rewrite list_lookup_alter_eq in H.
    destruct (Source.heap this !! pack) as [p|]; [|discriminate].
    injection H as <-. eauto.
  - right. split; [exact Hne|].
    rewrite heap_update_ne in H by (intros ->; exact (Hne eq_refl)). exact H.
Qed.

(** An update that keeps the type of the package, and either keeps its
    name and availability or touches a package that is not selected and
    does not select it, keeps the table consistent. *)
Lemma selected_update pack f this :
  selected this →
  (∀ p, Source.heap this !! pack = Some p →
     IPackage.type (f p) = IPackage.type p
     ∧ ((IPackage.name (f p) = IPackage.name p
         ∧ IPackage.availability (f p) = IPackage.availability p)
        ∨ IPackage.type p = PackageType.App
        ∨ (IPackage.availability p ≠ Availability.Available
           ∧ IPackage.availability (f p) ≠ Availability.Available))) →
  selected (Source.update pack f this).
Proof.
  intros [I1 I2] Hf. split.
  - intros nm addr Hget. cbn [Source.update Source.dependencies] in Hget.
    destruct (I1 _ _ Hget) as (p & Hp & Ht & Ha & Hn).
    destruct (decide (addr = pack)) as [->|Hne].
    + exists (f p). destruct (Hf _ Hp) as [Ht' [[Hn' Ha']|[Happ|[Hna _]]]].
      * split; [apply heap_update_eq, Hp|]. rewrite Ht', Ha', Hn'. auto.
      * rewrite Ht in Happ. discriminate.
      * contradiction.
    + exists p. rewrite heap_update_ne by (intros ->; exact (Hne eq_refl)). auto.
  - intros addr q Hq Ht Ha. cbn [Source.update Source.dependencies].
    apply heap_update_inv in Hq as [[-> (p & Hp & ->)]|[Hne Hq]].
    + destruct (Hf _ Hp) as [Ht' [[Hn' Ha']|[Happ|[_ Hna]]]].
      * rewrite Hn'. apply I2; [exact Hp|congruence|congruence].
      * rewrite Ht' in Ht. rewrite Ht in Happ. discriminate.
      * contradiction.
    + apply I2; assumption.
Qed.

Lemma selected_demote pack a this :
  selected this → unselected this pack → a ≠ Availability.Available →
  selected (Source.update pack (IPackage.with_availability a) this).
Proof.
  intros Hs Hu Ha. apply selected_update; [exact Hs|].
  intros p Hp. split; [reflexivity|].
  destruct (Hu _ Hp) as [Happ|[_ Hna]]; [right; left; exact Happ|].
  right. right. split; [exact Hna|exact Ha].
Qed.

Lemma selected_alloc child this :
  selected this →
  IPackage.availability child ≠ Availability.Available →
  selected (Source.alloc child this).2.
Proof.
  intros [I1 I2] Hc. split.
  - intros nm addr Hget. cbn in Hget.
    destruct (I1 _ _ Hget) as (p & Hp & Hrest).
    exists p. split; [|exact Hrest]. cbn.
    apply lookup_app_l_Some, Hp.
  - intros addr q Hq Ht Ha. cbn in Hq |- *.
    apply lookup_app_Some in Hq as [Hq|[_ Hq]].
    + apply I2; assumption.
    + apply list_lookup_singleton_Some in Hq as [_ <-]. contradiction.
Qed.

(** The conflict resolution registers the package it selects and demotes
    the one it replaces. *)
Lemma selected_resolveName pack p p0 j this this' :
  selected this →
  Source.heap this !! pack = Some p0 →
  IPackage.name p0 = IPackage.name p →
  IPackage.type p0 = PackageType.Package →
  IPackage.availability p0 ≠ Availability.Available →
  Source.resolveName semver_gt pack p j this = Done this' →
  selected this'.
Proof.
  intros Hs Hp Hn Ht Hna H.
  assert (Hwin : ∀ s, selected s →
            Source.heap s !! pack = Some p0 →
            JsObj.get (IPackage.name p) (Source.dependencies s) = None →
            selected (Source.register (IPackage.name p) pack
                        (Source.update pack
                           (IPackage.with_availability Availability.Available) s))).
  { intros s [I1 I2] Hp' Hnone. split.
    - intros nm addr Hget. cbn [Source.register Source.dependencies Source.update] in Hget.
      cbn [Source.register Source.heap].
      destruct (decide (IPackage.name p = nm)) as [<-|Hnm].
      + rewrite get_set_eq in Hget. injection Hget as <-.
        eexists. split; [apply heap_update_eq, Hp'|].
        cbn. auto.
      + rewrite get_set_ne in Hget by exact Hnm.
        destruct (I1 _ _ Hget) as (q & Hq & Hqt & Hqa & Hqn).
        exists q. split; [|auto].
        rewrite heap_update_ne; [exact Hq|].
        intros ->. rewrite Hp' in Hq. injection Hq as <-. contradiction.
    - intros addr q Hq Hqt Hqa.
      cbn [Source.register Source.heap] in Hq.
      cbn [Source.register Source.dependencies Source.update].
      apply heap_update_inv in Hq as [[-> (p' & Hp'' & ->)]|[Hne Hq]].
      + rewrite Hp' in Hp''. injection Hp'' as <-. cbn. rewrite Hn.
        apply get_set_eq.
      + pose proof (I2 _ _ Hq Hqt Hqa) as Hg.
        rewrite get_set_ne; [exact Hg|].
        intros Heq. rewrite <- Heq, Hnone in Hg. discriminate. }
  unfold Source.resolveName in H.
  destruct (JsObj.get (IPackage.name p) (Source.dependencies this))
    as [other|] eqn:Hget.
  - unfold Source.deref in H.
    destruct Hs as [I1 I2].
    destruct (I1 _ _ Hget) as (o & Ho & Hot & Hoa & Hon).
    rewrite Ho in H. cbn [of_option mbind result_bind] in H.
    destruct (IPackage.packageJson o) as [oj|]; [|discriminate].
    cbn [of_option mbind result_bind] in H.
    destruct (semver_gt _ _) as [[|]| |]; try discriminate;
      cbn [mbind result_bind] in H; injection H as <-.
    + assert (Hne : other ≠ pack).
      { intros ->. rewrite Hp in Ho. injection Ho as <-. contradiction. }
      split.
      * intros nm addr Hg. cbn [Source.register Source.dependencies Source.update] in Hg.
        cbn [Source.register Source.heap].
        destruct (decide (IPackage.name p = nm)) as [<-|Hnm].
        -- rewrite get_set_eq in Hg. injection Hg as <-.
           eexists. split.
           { rewrite heap_update_ne by exact Hne. apply heap_update_eq, Hp. }
           cbn. auto.
        -- rewrite get_set_ne in Hg by exact Hnm.
           destruct (I1 _ _ Hg) as (q & Hq & Hqt & Hqa & Hqn).
           exists q. split; [|auto].
           rewrite !heap_update_ne; [exact Hq| |].
           ++ intros ->. rewrite Hp in Hq. injection Hq as <-. contradiction.
           ++ intros ->. rewrite Ho in Hq. injection Hq as <-.
              apply Hnm. congruence.
      * intros addr q Hq Hqt Hqa.
        cbn [Source.register Source.heap] in Hq.
        cbn [Source.register Source.dependencies Source.update].
        apply heap_update_inv in Hq as [[-> (o' & _ & ->)]|[Hne1 Hq]];
          [cbn in Hqa; discriminate|].
        apply heap_update_inv in Hq as [[-> (p' & Hp' & ->)]|[Hne2 Hq]].
        -- rewrite Hp in Hp'. injection Hp' as <-. cbn. rewrite Hn.
           apply get_set_eq.
        -- pose proof (I2 _ _ Hq Hqt Hqa) as Hg.
           rewrite get_set_ne; [exact Hg|].
           intros Heq. rewrite <- Heq, Hget in Hg. injection Hg as ->.
           contradiction.
    + apply selected_update; [split; assumption|].
      intros p' Hp'. rewrite Hp in Hp'. injection Hp' as <-.
      split; [reflexivity|]. right. right. split; [exact Hna|discriminate].
  - injection H as <-. apply Hwin; assumption.
Qed.

(** [selectDependencyPackages] keeps the table consistent. *)
Lemma select_selected fuel :
  ∀ pack this this',
    selected this → unselected this pack →
    Source.selectDependencyPackages semver_gt projectPath fs fuel pack this
      = Done this' →
    selected this'.
Proof.
  induction fuel as [|fuel IH]; intros pack this this' Hs Hu H;
    [discriminate|].
  cbn [Source.selectDependencyPackages] in H. unfold Source.deref in H.
  destruct (Source.heap this !! pack) as [p|] eqn:Hp; [|discriminate].
  cbn [of_option mbind result_bind] in H.
  destruct (negb (Fs.exists_ fs _)).
  { injection H as <-. apply selected_demote; [assumption..|discriminate]. }
  destruct (Source.in_set _ _) as [[|]| |]; try discriminate;
    cbn [mbind result_bind] in H.
  { injection H as <-. apply selected_demote; [assumption..|discriminate]. }
  destruct (Fs.readJson fs _) as [c| |]; try discriminate.
  cbn [mbind result_bind] in H.
  set (j := manifest_of c) in H.
  set (s1 := Source.update pack (IPackage.with_packageJson j) this) in H.
  assert (Hs1 : selected s1).
  { apply selected_update; [exact Hs|]. intros q _.
    split; [reflexivity|]. left. split; reflexivity. }
  assert (Hp1 : Source.heap s1 !! pack = Some (IPackage.with_packageJson j p)).
  { apply heap_update_eq, Hp. }
  match type of H with
  | mbind _ ?m = _ => destruct m as [s2| |] eqn:E2; try discriminate
  end.
  cbn [mbind result_bind] in H.
  assert (Hs2 : selected s2).
  { destruct (decide (IPackage.type p = PackageType.App)) as [Happ|Hnapp].
    - destruct (json_nativescript j) as [ns|]; [|injection E2 as <-; exact Hs1].
      destruct (truthy_string (ns_id ns)); [|injection E2 as <-; exact Hs1].
      injection E2 as <-. apply selected_update; [exact Hs1|].
      intros q Hq. rewrite Hp1 in Hq. injection Hq as <-.
      split; [reflexivity|]. right. left. exact Happ.
    - destruct (Hu _ Hp) as [Happ|[Ht Hna]]; [contradiction|].
      eapply selected_resolveName; [exact Hs1|exact Hp1|reflexivity| | |exact E2].
      + exact Ht.
      + exact Hna. }
  destruct (IPackage.resolvedAtParent p) as [rp|]; [|discriminate].
  cbn [of_option mbind result_bind] in H.
  revert H. apply forEach_invariant; [|exact Hs2].
  intros [dependency requiredVersion] s s' _ Hss Hbody.
  destruct (Source.alloc _ s) as [childAddr s3] eqn:Ea.
  eapply IH; [| |exact Hbody].
  - apply selected_update.
    + replace s3 with (Source.alloc
        (IPackage.mk PackageType.Package dependency
           (Path.join3 (IPackage.path p) "node_modules" dependency)
           None None (Some requiredVersion)
           (Some (foldl (fun acc dependency => Source.set_add dependency acc)
                    rp (map fst (json_dependencies j))))
           (Some rp) [] [] Availability.NotInstalled [] JsObj.empty) s).2
        by (rewrite Ea; reflexivity).
      apply selected_alloc; [exact Hss|discriminate].
    + intros q _. split; [reflexivity|]. left. split; reflexivity.
  - intros q Hq. right.
    injection Ea as <- <-.
    apply heap_update_inv in Hq as [[Heq (q' & Hq' & ->)]|[_ Hq]].
    + cbn [Source.heap] in Hq'. rewrite <- Heq in Hq'.
      rewrite lookup_app_r, Nat.sub_diag in Hq' by lia.
      injection Hq' as <-. cbn. split; [reflexivity|discriminate].
    + cbn [Source.heap] in Hq.
      rewrite lookup_app_r, Nat.sub_diag in Hq by lia.
      injection Hq as <-. cbn. split; [reflexivity|discriminate].
Qed.

End Selection.

(** X1: After the first phase of [new Project.Source(...)], the walk of
    [selectDependencyPackages] from the application, the [dependencies]
    table and the availabilities agree: every entry of the table is an
    [Available] dependency package stored under its own name, and every
    [Available] dependency package is the entry stored under its name. *)
Theorem selection_is_consistent
    (semver_gt : option string → option string → result bool)
    (projectPath : string) (fs : IFileSystem) (fuel : nat)
    (platforms : list string) (this : Source.t) :
  Source.selectDependencyPackages semver_gt projectPath fs fuel 0
    (Source.mk 0 [Source.initialApp] JsObj.empty platforms) = Done this →
  selected this.
Proof.
  apply select_selected.
  - split; [intros nm addr H; discriminate H|].
    intros [|addr] p Hp Ht Ha; [|discriminate Hp].
    injection Hp as <-. discriminate Ht.
  - intros p Hp. left. injection Hp as <-. reflexivity.
Qed.

(** The theorem applied to a project whose dependencies [a] and [b] bring
    [bar@1.1.0] and [bar@1.2.0]. *)
Lemma selection_is_consistent_witness :
  selected
    (Examples.the (Source.mk 0 [] [] [])
       (Examples.selection Examples.diverged_project)).
Proof.
  apply (selection_is_consistent Semver.gt Examples.projectPath
           (Examples.disk 10 Examples.diverged_project) 10 ["ios"; "android"]).
  vm_compute. reflexivity.
Defined.

(** X2: No two dependency packages of the same name are both
    [Available] after the selection. *)
Theorem selection_has_no_duplicates
    (semver_gt : option string → option string → result bool)
    (projectPath : string) (fs : IFileSystem) (fuel : nat)
    (platforms : list string) (this : Source.t)
    (a b : nat) (p q : IPackage.t) :
  Source.selectDependencyPackages semver_gt projectPath fs fuel 0
    (Source.mk 0 [Source.initialApp] JsObj.empty platforms) = Done this →
  Source.heap this !! a = Some p →
  Source.heap this !! b = Some q →
  a ≠ b →
  IPackage.type p = PackageType.Package →
  IPackage.type q = PackageType.Package →
  IPackage.name p = IPackage.name q →
  ¬ (IPackage.availability p = Availability.Available
     ∧ IPackage.availability q = Availability.Available).
Proof.
  intros H Hp Hq Hne Htp Htq Hn [Hap Haq].
  eapply select_selected in H as [_ I2].
  - pose proof (I2 _ _ Hp Htp Hap) as Ha.
    pose proof (I2 _ _ Hq Htq Haq) as Hb.
    rewrite Hn, Hb in Ha. injection Ha as ->. exact (Hne eq_refl).
  - split; [intros nm addr H'; discriminate H'|].
    intros [|addr] p' Hp' Ht Ha; [|discriminate Hp'].
    injection Hp' as <-. discriminate Ht.
  - intros p' Hp'. left. injection Hp' as <-. reflexivity.
Qed.

(** The theorem applied to the two copies of [bar] of the same project,
    at the addresses 2 and 4. *)
Lemma selection_has_no_duplicates_witness :
  ¬ (IPackage.availability (Examples.selected_package 2)
       = Availability.Available
     ∧ IPackage.availability (Examples.selected_package 4)
       = Availability.Available).
Proof.
  apply (selection_has_no_duplicates Semver.gt Examples.projectPath
           (Examples.disk 10 Examples.diverged_project) 10 ["ios"; "android"]
           (Examples.the (Source.mk 0 [] [] [])
              (Examples.selection Examples.diverged_project))
           2 4);
    try (vm_compute; reflexivity).
  discriminate.
Defined.

(** ** Paths that carry the platform suffix once *)

Section Occurrences.

Lemma substring_beyond (s : string) : ∀ m n,
  (String.length s ≤ m)%nat → String.substring m n s = "".
Proof.
  induction s as [|a s IH]; intros [|m] n H; cbn in *;
    try reflexivity; try lia.
  - destruct n; reflexivity.
  - apply IH. lia.
Qed.

Lemma substring_full (s : string) : String.substring 0 (String.length s) s = s.
Proof. induction s as [|a s IH]; cbn; [reflexivity|]. f_equal. exact IH. Qed.

Lemma substring_substr (s : string) : ∀ k j n,
  (k ≤ String.length s)%nat →
  String.substring j n (Js.substr k s) = String.substring (k + j) n s.
Proof.
  unfold Js.substr. induction s as [|a s IH]; intros k j n Hk.
  - cbn in Hk. replace k with 0%nat by lia. reflexivity.
  - destruct k as [|k].
    + rewrite Nat.sub_0_r, substring_full. reflexivity.
    + cbn [String.length Nat.sub String.substring Nat.add].
      apply IH. cbn in Hk. lia.
Qed.

Lemma occurrence_inside (s pat : string) m :
  pat ≠ "" → String.substring m (String.length pat) s = pat →
  (m < String.length s)%nat.
Proof.
  intros Hpat H. destruct (Nat.lt_ge_cases m (String.length s)) as [Hlt|Hge];
    [exact Hlt|].
  rewrite substring_beyond in H by exact Hge. congruence.
Qed.

Lemma two_members {A} (l : list A) x y :
  x ≠ y → In x l → In y l → (2 ≤ length l)%nat.
Proof.
  intros Hne Hx Hy. destruct l as [|a [|b l]]; cbn in *; [contradiction| |lia].
  destruct Hx as [<-|[]], Hy as [<-|[]]. contradiction.
Qed.

Lemma occurrences_two (s pat : string) i j :
  pat ≠ "" → i ≠ j →
  String.substring i (String.length pat) s = pat →
  String.substring j (String.length pat) s = pat →
  (2 ≤ occurrences s pat)%nat.
Proof.
  intros Hpat Hne Hi Hj. unfold occurrences.
  apply (two_members _ i j Hne); apply filter_In; split;
    try (apply in_seq; pose proof (occurrence_inside s pat _ Hpat Hi);
         pose proof (occurrence_inside s pat _ Hpat Hj); lia);
    apply String.eqb_eq; assumption.
Qed.

(** For a path that carries [pat] at most once, replacing the first
    occurrence replaces every occurrence. *)
Lemma replaceAll_once (s pat rep : string) :
  pat ≠ "" → (occurrences s pat ≤ 1)%nat →
  SpecWords.replaceAll s pat rep = Js.replace s pat rep.
Proof.
  intros Hpat Hocc. unfold SpecWords.replaceAll, Js.replace.
  destruct (String.length s) as [|fuel] eqn:Hlen; cbn [SpecWords.replaceAll_from].
  - destruct s; [|discriminate]. unfold Js.indexOf.
    destruct (String.index 0 pat "") as [i|] eqn:E; [|reflexivity].
    apply String.index_correct1 in E.
    apply (occurrence_inside "" pat i Hpat) in E. cbn in E. lia.
  - destruct (Js.indexOf s pat) as [i|] eqn:E; [|reflexivity].
    unfold Js.indexOf in E. apply String.index_correct1 in E.
    pose proof (occurrence_inside s pat i Hpat E) as Hi.
    f_equal. f_equal.
    set (rest := Js.substr (i + String.length pat) s).
    destruct fuel as [|fuel]; [reflexivity|]. cbn [SpecWords.replaceAll_from].
    destruct (Js.indexOf rest pat) as [j|] eqn:Ej; [|reflexivity].
    exfalso. unfold Js.indexOf in Ej. apply String.index_correct1 in Ej.
    assert (Hin : (i + String.length pat ≤ String.length s)%nat).
    { destruct (Nat.le_gt_cases (i + String.length pat) (String.length s))
        as [H|H]; [exact H|].
      pose proof (occurrence_inside rest pat j Hpat Ej) as Hj.
      subst rest. unfold Js.substr in Hj.
      pose proof (substring_length_le s (i + String.length pat)
                    (String.length s - (i + String.length pat))). lia. }
    subst rest. rewrite substring_substr in Ej by exact Hin.
    assert (Hlenp : (0 < String.length pat)%nat).
    { destruct pat; [contradiction|cbn; lia]. }
    pose proof (occurrences_two s pat i (i + String.length pat + j) Hpat
                  ltac:(lia) E Ej). lia.
Qed.

End Occurrences.

(** ** The table of dependencies after [new Project.Source(...)] *)

Section Table.

Variable semver_gt : option string → option string → result bool.
Variable projectPath : string.
Variable fs : IFileSystem.

(** An update that keeps the name and the type of the package and does
    not make it available keeps the table. *)
Lemma tabled_but_update pend pack f this :
  tabled_but pend this →
  (∀ p, Source.heap this !! pack = Some p →
     IPackage.name (f p) = IPackage.name p
     ∧ IPackage.type (f p) = IPackage.type p
     ∧ (IPackage.availability (f p) = Availability.Available →
        IPackage.availability p = Availability.Available)) →
  tabled_but pend (Source.update pack f this).
Proof.
  intros [K0 K2] Hf. split.
  - intros key addr Hget. cbn [Source.update Source.dependencies] in Hget.
    destruct (K0 _ _ Hget) as (q & Hq & Hn).
    destruct (decide (addr = pack)) as [->|Hne].
    + exists (f q). split; [apply heap_update_eq, Hq|].
      rewrite (proj1 (Hf q Hq)). exact Hn.
    + exists q. split; [|exact Hn].
      rewrite heap_update_ne by (intros ->; exact (Hne eq_refl)). exact Hq.
  - intros addr p Hp Ht Ha. cbn [Source.update Source.dependencies].
    apply heap_update_inv in Hp as [[-> (p0 & Hp0 & ->)]|[Hne Hp]].
    + destruct (Hf p0 Hp0) as (Hn & Hty & Hav). rewrite Hn.
      apply (K2 pack p0 Hp0); [congruence|auto].
    + apply (K2 addr p Hp Ht Ha).
Qed.

Lemma tabled_but_alloc child this :
  tabled this →
  tabled_but (Some (IPackage.name child)) (Source.alloc child this).2.
Proof.
  intros [K0 K2]. split.
  - intros key addr Hget. cbn in Hget.
    destruct (K0 _ _ Hget) as (q & Hq & Hn). exists q. split; [|exact Hn].
    cbn. apply lookup_app_l_Some, Hq.
  - intros addr p Hp Ht Ha. cbn in Hp |- *.
    apply lookup_app_Some in Hp as [Hp|[_ Hp]].
    + destruct (K2 _ _ Hp Ht Ha) as [H|H]; [left; exact H|discriminate H].
    + apply list_lookup_singleton_Some in Hp as [_ <-]. right. reflexivity.
Qed.

Lemma tabled_but_has n this :
  tabled_but (Some n) this →
  JsObj.has n (Source.dependencies this) = true →
  tabled this.
Proof.
  intros [K0 K2] Hn. split; [exact K0|].
  intros addr p Hp Ht Ha. left.
  destruct (K2 _ _ Hp Ht Ha) as [H|[= <-]]; assumption.
Qed.

Lemma tabled_but_register n addr this :
  tabled_but (Some n) this →
  (∃ q, Source.heap this !! addr = Some q ∧ IPackage.name q = n) →
  tabled (Source.register n addr this).
Proof.
  intros [K0 K2] Hq. split.
  - intros key a Hget. cbn [Source.register Source.dependencies] in Hget.
    cbn [Source.register Source.heap].
    apply get_set_inv in Hget as [[-> ->]|Hget]; [exact Hq|].
    apply (K0 _ _ Hget).
  - intros a p Hp Ht Ha. cbn [Source.register Source.heap] in Hp.
    cbn [Source.register Source.dependencies]. left.
    destruct (K2 _ _ Hp Ht Ha) as [H|[= <-]].
    + apply has_set, H.
    + apply has_set_eq.
Qed.

Lemma tabled_update pack f this :
  tabled this →
  (∀ p, Source.heap this !! pack = Some p →
     IPackage.name (f p) = IPackage.name p
     ∧ IPackage.type (f p) = IPackage.type p
     ∧ (IPackage.availability (f p) = Availability.Available →
        IPackage.availability p = Availability.Available)) →
  tabled (Source.update pack f this).
Proof. apply tabled_but_update. Qed.

(** The step of [listNestedPackageFiles] that creates a nested
    package. *)
Lemma tabled_nest child pack this :
  tabled this →
  tabled
    (let '(nested, this) := Source.alloc child this in
     let this := Source.update pack (IPackage.push_child nested) this in
     if JsObj.has (IPackage.name child) (Source.dependencies this)
     then Source.update pack
            (IPackage.with_availability Availability.ShadowedByDiverged) this
     else Source.register (IPackage.name child) nested this).
Proof.
  intros Ht.
  pose proof (tabled_but_alloc child this Ht) as H1.
  destruct (Source.alloc child this) as [nested s1] eqn:Ea. cbn [snd] in H1.
  assert (Hnested : Source.heap s1 !! nested = Some child).
  { unfold Source.alloc in Ea. injection Ea as <- <-. cbn [Source.heap].
    rewrite lookup_app_r, Nat.sub_diag by lia. reflexivity. }
  assert (H2 : tabled_but (Some (IPackage.name child))
                 (Source.update pack (IPackage.push_child nested) s1)).
  { apply tabled_but_update; [exact H1|]. intros p _. repeat split. auto. }
  cbv beta iota zeta.
  destruct (JsObj.has _ _) eqn:Eh.
  - apply tabled_update; [apply (tabled_but_has _ _ H2 Eh)|].
    intros p _. repeat split. cbn. discriminate.
  - apply (tabled_but_register _ _ _ H2).
    destruct (decide (nested = pack)) as [->|Hne].
    + eexists. split; [apply heap_update_eq, Hnested|reflexivity].
    + exists child. split; [|reflexivity].
      rewrite heap_update_ne by (intros ->; exact (Hne eq_refl)).
      exact Hnested.
Qed.

Lemma listNestedPackageFiles_tabled n : ∀ pack dir fileScope this this',
  tabled this →
  Source.listNestedPackageFiles projectPath n pack dir fileScope this
  = Done this' →
  tabled this'.
Proof.
  induction n as [st c|st es IH] using node_ind;
    intros pack dir fileScope this this' Ht H;
    cbn [Source.listNestedPackageFiles] in H;
    bind_step H as p Ep; bind_step H as scope Es; bind_step H as packJson Ej;
    [discriminate|].
  clear Ep Es Ej.
  revert this Ht H.
  induction es as [|[name child] es IHes]; intros this Ht H.
  - injection H as <-. exact Ht.
  - apply Forall_cons in IH as [IHc IHrest]. cbn [snd] in IHc.
    cbn [Source.nestedLoop] in H.
    destruct (bool_decide _) in H; [exact (IHes IHrest this Ht H)|].
    destruct (isDirectory child).
    + match type of H with
      | match ?m with Some _ => _ | None => _ end = _ =>
          destruct m as [parsed|]
      end.
      * bind_step H as packageJson Ep.
        match type of H with
        | context [Source.alloc ?c this] =>
            pose proof (tabled_nest c pack this Ht) as Hn;
            destruct (Source.alloc c this) as [nested s1]
        end.
        bind_step H as this1 E1.
        apply (IHes IHrest this1); [|exact H].
        apply (IHc _ _ _ _ _ Hn E1).
      * bind_step H as this1 E1.
        apply (IHes IHrest this1); [|exact H].
        apply (IHc _ _ _ _ _) in E1; [exact E1|].
        apply tabled_update; [exact Ht|]. intros q _. repeat split. auto.
    + apply (IHes IHrest _) in H; [exact H|].
      apply tabled_update; [exact Ht|]. intros q _. repeat split. auto.
Qed.

Lemma listDependencyScriptFiles_tabled fuel : ∀ pack this this',
  tabled this →
  Source.listDependencyScriptFiles projectPath fs fuel pack this = Done this' →
  tabled this'.
Proof.
  induction fuel as [|fuel IH]; intros pack this this' Ht H; [discriminate|].
  cbn [Source.listDependencyScriptFiles] in H.
  bind_step H as p Ep. bind_step H as this1 E1.
  assert (Ht1 : tabled this1).
  { destruct (_ && _) in E1; [|injection E1 as <-; exact Ht].
    bind_step E1 as n En.
    apply (listNestedPackageFiles_tabled _ _ _ _ _ _ Ht E1). }
  bind_step H as p1 Ep1.
  revert H. apply forEach_invariant; [|exact Ht1].
  intros child s s' _ Hs Hbody. apply (IH _ _ _ Hs Hbody).
Qed.

Lemma listNativePlatformFilesInPackage_tabled n :
  ∀ pack platform dir this this',
  tabled this →
  Source.listNativePlatformFilesInPackage projectPath n pack platform dir this
  = Done this' →
  tabled this'.
Proof.
  induction n as [st c|st es IH] using node_ind;
    intros pack platform dir this this' Ht H; [discriminate|].
  cbn [Source.listNativePlatformFilesInPackage] in H.
  revert this Ht H.
  induction es as [|[name child] es IHes]; intros this Ht H.
  - injection H as <-. exact Ht.
  - apply Forall_cons in IH as [IHc IHrest]. cbn [snd] in IHc.
    cbn [Source.nativeLoop] in H.
    bind_step H as p Ep.
    destruct (isFile child).
    + bind_step H as p' Ep'.
      apply (IHes IHrest _) in H; [exact H|].
      apply tabled_update; [exact Ht|]. intros q Hq.
      unfold Source.deref in Ep. rewrite Hq in Ep. injection Ep as ->.
      unfold IPackage.push_nativeFile in Ep'.
      destruct (JsObj.get platform _); [|discriminate].
      injection Ep' as <-. repeat split. auto.
    + bind_step H as this1 E1.
      apply (IHes IHrest this1); [|exact H].
      apply (IHc _ _ _ _ _ Ht E1).
Qed.

Lemma listNativeFilesInPackage_tabled pack this this' :
  tabled this →
  Source.listNativeFilesInPackage projectPath fs pack this = Done this' →
  tabled this'.
Proof.
  intros Ht H. unfold Source.listNativeFilesInPackage in H.
  bind_step H as p Ep. bind_step H as packJson Ej.
  destruct (json_nativescript packJson) as [ns|]; [|injection H as <-; exact Ht].
  destruct (ns_platforms ns) as [platforms|]; [|injection H as <-; exact Ht].
  revert H. apply forEach_invariant; [|exact Ht].
  intros platform s s' _ Hs Hbody.
  bind_step Hbody as p1 Ep1.
  destruct (Fs.exists_ fs _); [|injection Hbody as <-; exact Hs].
  bind_step Hbody as n En.
  apply (listNativePlatformFilesInPackage_tabled _ _ _ _ _ _) in Hbody;
    [exact Hbody|].
  apply tabled_update; [exact Hs|]. intros q _. repeat split. auto.
Qed.

Lemma listDependencyNativeFiles_tabled this this' :
  tabled this →
  Source.listDependencyNativeFiles projectPath fs this = Done this' →
  tabled this'.
Proof.
  intros Ht H. unfold Source.listDependencyNativeFiles in H.
  revert H. apply forEach_invariant; [|exact Ht].
  intros key s s' _ Hs Hbody. bind_step Hbody as pack Ep.
  apply (listNativeFilesInPackage_tabled _ _ _ Hs Hbody).
Qed.

Lemma listAppFiles_tabled n : ∀ dir this this',
  tabled this →
  Source.listAppFiles projectPath n dir this = Done this' →
  tabled this'.
Proof.
  induction n as [st c|st es IH] using node_ind; intros dir this this' Ht H;
    [discriminate|].
  cbn [Source.listAppFiles] in H.
  revert this Ht H.
  induction es as [|[name child] es IHes]; intros this Ht H.
  - injection H as <-. exact Ht.
  - apply Forall_cons in IH as [IHc IHrest]. cbn [snd] in IHc.
    cbn [Source.appLoop] in H.
    destruct (bool_decide _) in H; [exact (IHes IHrest this Ht H)|].
    destruct (isDirectory child).
    + bind_step H as this1 E1.
      apply (IHes IHrest this1); [|exact H].
      apply (IHc _ _ _) in E1; [exact E1|].
      apply tabled_update; [exact Ht|]. intros q _. repeat split. auto.
    + apply (IHes IHrest _) in H; [exact H|].
      apply tabled_update; [exact Ht|]. intros q _. repeat split. auto.
Qed.

Lemma listAppScriptFiles_tabled this this' :
  tabled this →
  Source.listAppScriptFiles projectPath fs this = Done this' →
  tabled this'.
Proof.
  intros Ht H. unfold Source.listAppScriptFiles in H.
  destruct (Fs.stat fs _) as [n|]; [|injection H as <-; exact Ht].
  apply (listAppFiles_tabled _ _ _ _) in H; [exact H|].
  apply tabled_update; [exact Ht|]. intros q _. repeat split. auto.
Qed.

Lemma listAppNativeFiles_tabled this this' :
  tabled this →
  Source.listAppNativeFiles projectPath fs this = Done this' →
  tabled this'.
Proof.
  intros Ht H. unfold Source.listAppNativeFiles in H.
  revert H. apply forEach_invariant; [|exact Ht].
  intros platform s s' _ Hs Hbody.
  destruct (Fs.exists_ fs _); [|injection Hbody as <-; exact Hs].
  unfold Source.listAppNativeFilesForPlatform in Hbody.
  bind_step Hbody as names En.
  revert Hbody. apply forEach_invariant.
  - intros name t t' _ Ht0 Hb.
    bind_step Hb as lstat El. bind_step Hb as a Ea. bind_step Hb as a' Ea'.
    injection Hb as <-.
    apply tabled_update; [exact Ht0|]. intros q Hq.
    unfold Source.deref in Ea. rewrite Hq in Ea. injection Ea as ->.
    unfold IPackage.push_nativeFile in Ea'.
    destruct (JsObj.get platform _); [|discriminate].
    injection Ea' as <-. repeat split. auto.
  - apply tabled_update; [exact Hs|]. intros q _. repeat split. auto.
Qed.

End Table.

Section Created.

Variable semver_gt : option string → option string → result bool.
Variable projectPath : string.
Variable fs : IFileSystem.

Lemma unnested_update pack f this :
  unnested this → (∀ p, IPackage.type (f p) = IPackage.type p) →
  unnested (Source.update pack f this).
Proof.
  intros Hu Hf addr p Hp.
  apply heap_update_inv in Hp as [[-> (p0 & Hp0 & ->)]|[_ Hp]].
  - rewrite Hf. apply (Hu _ _ Hp0).
  - apply (Hu _ _ Hp).
Qed.

Lemma resolveName_unnested pack p j this this' :
  unnested this →
  Source.resolveName semver_gt pack p j this = Done this' →
  unnested this'.
Proof.
  intros Hu H. unfold Source.resolveName in H.
  destruct (JsObj.get _ _) as [other|].
  - bind_step H as o Eo. bind_step H as otherJson Ej. bind_step H as gt Eg.
    destruct gt; injection H as <-.
    + intros addr q Hq. cbn [Source.register Source.heap] in Hq.
      revert addr q Hq. repeat apply unnested_update; auto.
    + apply unnested_update; auto.
  - injection H as <-.
    intros addr q Hq. cbn [Source.register Source.heap] in Hq.
    revert addr q Hq. apply unnested_update; auto.
Qed.

Lemma select_unnested fuel : ∀ pack this this',
  unnested this →
  Source.selectDependencyPackages semver_gt projectPath fs fuel pack this
  = Done this' →
  unnested this'.
Proof.
  induction fuel as [|fuel IH]; intros pack this this' Hu H; [discriminate|].
  cbn [Source.selectDependencyPackages] in H.
  bind_step H as p Ep.
  destruct (negb (Fs.exists_ fs _)).
  { injection H as <-. apply unnested_update; auto. }
  bind_step H as shadowed Es. destruct shadowed.
  { injection H as <-. apply unnested_update; auto. }
  bind_step H as c Ec. bind_step H as s2 E2.
  assert (Hu2 : unnested s2).
  { destruct (decide _) in E2.
    - destruct (json_nativescript _) as [ns|];
        [|injection E2 as <-; apply unnested_update; auto].
      destruct (truthy_string _); injection E2 as <-;
        repeat apply unnested_update; auto.
    - apply (resolveName_unnested _ _ _ _ _) in E2; [exact E2|].
      apply unnested_update; auto. }
  bind_step H as rp Erp.
  revert H. apply forEach_invariant; [|exact Hu2].
  intros [dependency requiredVersion] s s' _ Hs Hbody.
  cbv beta iota zeta in Hbody. unfold Source.alloc in Hbody.
  apply IH in Hbody; [exact Hbody|].
  apply unnested_update; [|auto].
  intros addr q Hq. cbn [Source.heap] in Hq.
  apply lookup_app_Some in Hq as [Hq|[_ Hq]]; [apply (Hs _ _ Hq)|].
  apply list_lookup_singleton_Some in Hq as [_ <-]. discriminate.
Qed.

(** The table of a source that [new Project.Source(...)] has built. *)
Lemma create_tabled fuel platforms source :
  Source.create semver_gt projectPath fs fuel platforms = Done source →
  tabled source.
Proof.
  intros H. unfold Source.create in H. cbv zeta in H. cbn [Source.app] in H.
  bind_step H as s1 E1. bind_step H as s2 E2. bind_step H as s3 E3.
  bind_step H as s4 E4.
  apply (listAppNativeFiles_tabled _ _ _ _) in H; [exact H|].
  apply (listAppScriptFiles_tabled _ _ _ _) in E4; [exact E4|].
  apply (listDependencyNativeFiles_tabled _ _ _ _) in E3; [exact E3|].
  apply (listDependencyScriptFiles_tabled _ _ _ _ _ _) in E2; [exact E2|].
  pose proof E1 as Hsel. apply select_selected in Hsel as [I1 I2].
  - apply select_unnested in E1.
    + split.
      * intros key addr Hget. destruct (I1 _ _ Hget) as (q & Hq & _ & _ & Hn).
        exists q. split; assumption.
      * intros addr p Hp Hty Ha. left. unfold JsObj.has.
        rewrite (I2 addr p Hp); [reflexivity| |exact Ha].
        pose proof (E1 _ _ Hp). destruct (IPackage.type p); congruence.
    + intros [|addr] p Hp; [|discriminate Hp]. injection Hp as <-. discriminate.
  - split; [intros nm addr H'; discriminate H'|].
    intros [|addr] p Hp Ht Ha; [|discriminate Hp].
    injection Hp as <-. discriminate Ht.
  - intros p Hp. left. injection Hp as <-. reflexivity.
Qed.

End Created.

Section Invariant.

Lemma get_In {V} k (v : V) o : JsObj.get k o = Some v → In (k, v) o.
Proof.
  induction o as [|[k' v'] o IH]; cbn; [discriminate|].
  destruct (String.eqb_spec k' k) as [->|]; intros H.
  - injection H as ->. left. reflexivity.
  - right. apply IH, H.
Qed.

Lemma In_imap {A} (l : list A) i x : l !! i = Some x → In (i, x) (imap pair l).
Proof.
  intros H. apply list_elem_of_In, elem_of_lookup_imap. eauto.
Qed.

(** What the invariant of the specification says of a graph. *)
Lemma invariant_inv source :
  SpecWords.invariant source = true →
  (∀ key addr p,
     JsObj.get key (Source.dependencies source) = Some addr →
     Source.heap source !! addr = Some p →
     IPackage.availability p = Availability.Available)
  ∧ (∀ a b p q,
       Source.heap source !! a = Some p → Source.heap source !! b = Some q →
       IPackage.name p = IPackage.name q →
       IPackage.availability p = Availability.Available →
       IPackage.availability q = Availability.Available →
       a = b).
Proof.
  unfold SpecWords.invariant. intros [H1 H2]%andb_true_iff.
  rewrite forallb_forall in H1. rewrite forallb_forall in H2. split.
  - intros key addr p Hget Hp. specialize (H1 _ (get_In _ _ _ Hget)).
    cbn in H1. rewrite Hp in H1. apply bool_decide_eq_true in H1. exact H1.
  - intros a b p q Hp Hq Hn Hap Haq.
    specialize (H2 _ (In_imap _ _ _ Hp)). cbn in H2.
    rewrite forallb_forall in H2.
    specialize (H2 _ (In_imap _ _ _ Hq)). cbn in H2.
    unfold SpecWords.available in H2.
    rewrite Hn, String.eqb_refl, !bool_decide_eq_true_2 in H2 by assumption.
    cbn in H2. rewrite !orb_false_r in H2. apply Nat.eqb_eq in H2. exact H2.
Qed.

(** On a graph that keeps the invariant, an available package is the
    entry of its name. *)
Lemma available_in_table source addr pack :
  tabled source → SpecWords.invariant source = true →
  Source.heap source !! addr = Some pack →
  IPackage.type pack ≠ PackageType.App →
  IPackage.availability pack = Availability.Available →
  JsObj.get (IPackage.name pack) (Source.dependencies source) = Some addr.
Proof.
  intros [K0 K2] [I1 I2]%invariant_inv Hp Hty Ha.
  destruct (K2 _ _ Hp Hty Ha) as [Hhas|[=]].
  unfold JsObj.has in Hhas.
  destruct (JsObj.get _ _) as [b|] eqn:Hget; [|discriminate].
  destruct (K0 _ _ Hget) as (q & Hq & Hn).
  rewrite (I2 addr b pack q Hp Hq); [reflexivity|congruence|exact Ha|].
  apply (I1 _ _ _ Hget Hq).
Qed.

End Invariant.




(** ** [Target.rebuild()] and the record of the last build *)

Section LastBuild.

Variable this : Target.t.
Variable source : Source.t.

(** The packages [rebuild()] collects from the table are objects of the
    heap. *)
Lemma table_packages deps :
  forEach
    (fun dep acc =>
       addr ← of_option (JsObj.get dep (Source.dependencies source));
       pack ← Source.deref source addr;
       Done (acc ++ [pack]))
    (JsObj.keys (Source.dependencies source)) [] = Done deps →
  Forall (fun pack => pack ∈ Source.heap source) deps.
Proof.
  apply (forEach_invariant
           (fun acc => Forall (fun pack => pack ∈ Source.heap source) acc));
    [|constructor].
  intros dep acc acc' _ Hacc H.
  destruct (JsObj.get dep (Source.dependencies source)) as [addr|];
    cbn in H; [|discriminate].
  unfold Source.deref in H.
  destruct (Source.heap source !! addr) as [pack|] eqn:E; cbn in H;
    [|discriminate].
  injection H as <-. apply Forall_app. split; [exact Hacc|].
  constructor; [|constructor]. eapply list_elem_of_lookup_2, E.
Qed.

Lemma natives_quiet time pack :
  natives_not_after this source time = true →
  pack ∈ Source.heap source →
  truthy (Target.hasNewerNativeFiles this time pack) = false.
Proof.
  unfold natives_not_after. rewrite forallb_forall. intros H Hin.
  apply list_elem_of_In in Hin. specialize (H _ Hin).
  destruct (truthy _); [discriminate|reflexivity].
Qed.

(** What [hasNewerNativeFiles] gives for a package none of whose native
    files is newer. *)
Lemma natives_quiet_value time pack :
  truthy (Target.hasNewerNativeFiles this time pack) = false →
  Target.hasNewerNativeFiles this time pack
  = if JsObj.has (Target.platform this) (IPackage.nativeFiles pack)
    then JsBool false else JsUndefined.
Proof.
  unfold Target.hasNewerNativeFiles, JsObj.has.
  destruct (JsObj.get _ _) as [files|]; cbn; [|reflexivity].
  intros ->. reflexivity.
Qed.

End LastBuild.

Section MarkerWrite.

Variable fs fs' : IFileSystem.
Variables (p : string) (c : content).

Hypothesis Hwrite : Fs.writeFile fs p c = Done fs'.

Lemma writeFile_wf : wf_node (fs_root fs) = true → wf_node (fs_root fs') = true.
Proof.
  intros Hw. unfold Fs.writeFile in Hwrite.
  apply modify_fs_inv in Hwrite as (root & Hm & ->). cbn [fs_root].
  apply (modify_wf _ _ _ _ Hw (resolve_proper fs p)) in Hm; [exact Hm|].
  intros [[st c'|st es]|] new _; intros [= <-]; reflexivity.
Qed.

(** Writing the file at [p] changes nothing at a path [p] does not lie
    at or below. *)
Lemma writeFile_kind_other q :
  ¬ q `prefix_of` Fs.resolve fs p → kindOn fs' q = kindOn fs q.
Proof.
  intros Hq. unfold kindOn, kind_at.
  pose proof (modify_fs_lookup_other fs p _ (Done fs') q Hwrite) as H.
  cbn [Fs.unawaited] in H. rewrite H; [reflexivity| |exact Hq].
  intros [[st c'|st es]|] new; intros [= <-]; left; split; exact I.
Qed.

Lemma writeFile_resolve q : Fs.resolve fs' q = Fs.resolve fs q.
Proof.
  unfold Fs.writeFile in Hwrite.
  apply modify_fs_inv in Hwrite as (root & _ & ->). reflexivity.
Qed.

End MarkerWrite.

(** X12: A rebuild that follows a rebuild never reports a change of the
    native project.  The first one leaves the file [<output.root>/project]
    stamped with its time; then some of the deletions it started are
    carried out, in some order.  When none of the native files of the
    source is stamped after that time, and neither these deletions nor
    the calls the second [applyDelta] waits for act at or below that
    file, the second rebuild stores in [changedNativeProject] what
    [hasNewerNativeFiles] gives for the application: [false] when the
    application lists native files for the platform, [undefined] when it
    does not. *)
Theorem second_rebuild_reports_no_native_change
    (this : Target.t) (source : Source.t) (dateString : Z → string)
    (fs fs1 fs2 : IFileSystem) (r1 r2 : IProjectBuildResult) (d1 d2 : IDelta)
    (order : list FsCall) :
  Target.rebuildDelta this source fs = Done d1 →
  Target.rebuild this source dateString fs = Done (r1, fs1) →
  natives_not_after this source (fs_now fs) = true →
  (∀ c, c ∈ order → c ∈ Target.startedCalls this d1) →
  Target.rebuildDelta this source (Target.carriedOut order fs1) = Done d2 →
  (∀ c, c ∈ order ++ Target.awaitedCalls this d2 →
        ¬ Fs.resolve fs1 (marker this) `prefix_of` target fs1 c) →
  Target.rebuild this source dateString (Target.carriedOut order fs1)
  = Done (r2, fs2) →
  ∃ app, Source.heap source !! Source.app source = Some app
    ∧ changedNativeProject r2
      = if JsObj.has (Target.platform this) (IPackage.nativeFiles app)
        then JsBool false else JsUndefined.
Proof.
  intros Hd1 H1 Hn Hsub Hd2 Hclear H2.
  unfold Target.rebuild in H1. rewrite Hd1 in H1.
  cbn [mbind result_bind] in H1.
  destruct (Target.applyDelta this d1 fs) as [[c1 fsA]| |] eqn:EA;
    try discriminate.
  cbn [mbind result_bind] in H1.
  match type of H1 with
  | mbind _ ?m = _ => destruct m as [h1| |]; try discriminate
  end.
  cbn [mbind result_bind] in H1.
  fold (marker this) in H1.
  destruct (Fs.writeFile fsA (marker this) _) as [fsW| |] eqn:EW;
    try discriminate.
  cbn [mbind result_bind] in H1. injection H1 as _ <-.
  apply writeFile_stat in EW as (Hstat & Hcwd & Hnow).
  destruct (run_frame _ _ _ (applyDelta_awaited _ _ _ _ _ EA)) as [_ HnowA].
  pose proof (started_run this d1 order fsW Hsub) as HrunS.
  set (fsS := Target.carriedOut order fsW) in *.
  assert (HcwdS : fs_cwd fsS = fs_cwd fsW) by apply (run_frame _ _ _ HrunS).
  assert (HstatS : Fs.stat fsS (marker this) = Fs.stat fsW (marker this)).
  { unfold Fs.stat.
    replace (Fs.resolve fsS (marker this)) with (Fs.resolve fsW (marker this))
      by (unfold Fs.resolve; rewrite HcwdS; reflexivity).
    apply (run_lookup_other _ fsW fsS _ HrunS).
    intros c Hc. apply Hclear, elem_of_app. left. exact Hc. }
  unfold Target.rebuild in H2. rewrite Hd2 in H2.
  cbn [mbind result_bind] in H2.
  destruct (Target.applyDelta this d2 fsS) as [[c2 fsB]| |] eqn:EB;
    try discriminate.
  cbn [mbind result_bind] in H2.
  fold (marker this) in H2.
  pose proof (applyDelta_awaited _ _ _ _ _ EB) as Hrun.
  assert (HstatB : Fs.stat fsB (marker this) = Fs.stat fsS (marker this)).
  { unfold Fs.stat.
    replace (Fs.resolve fsB (marker this)) with (Fs.resolve fsS (marker this))
      by (unfold Fs.resolve; rewrite (proj1 (run_frame _ _ _ Hrun)); reflexivity).
    apply (run_lookup_other _ fsS fsB _ Hrun).
    intros c Hc. rewrite (target_cwd fsW fsS c HcwdS).
    replace (Fs.resolve fsS (marker this)) with (Fs.resolve fsW (marker this))
      by (unfold Fs.resolve; rewrite HcwdS; reflexivity).
    apply Hclear, elem_of_app. right. exact Hc. }
  unfold Fs.exists_, Fs.getFsStats in H2. rewrite HstatB, HstatS, Hstat in H2.
  cbn [of_option mbind result_bind node_stats] in H2.
  match type of H2 with
  | context [forEach ?f ?l ?a] => destruct (forEach f l a) as [deps| |] eqn:ED
  end; try discriminate.
  cbn [mbind result_bind] in H2.
  destruct (Source.deref source (Source.app source)) as [app| |] eqn:Eapp;
    try discriminate.
  cbn [mbind result_bind] in H2.
  destruct (Fs.writeFile fsB _ _) as [fsC| |]; try discriminate.
  cbn [mbind result_bind] in H2. injection H2 as <- _.
  cbn [changedNativeProject].
  unfold Source.deref in Eapp.
  destruct (Source.heap source !! Source.app source) as [a|] eqn:E;
    [|discriminate].
  injection Eapp as <-. exists a. split; [reflexivity|].
  rewrite HnowA.
  assert (Hdeps : existsb (fun pack => truthy (Target.hasNewerNativeFiles this
                                                 (fs_now fs) pack)) deps
                  = false).
  { apply table_packages in ED.
    induction ED as [|pack deps Hpack _ IH]; [reflexivity|]. cbn.
    rewrite (natives_quiet this source _ _ Hn Hpack). exact IH. }
  rewrite Hdeps. cbn [js_or].
  apply natives_quiet_value, (natives_quiet this source _ _ Hn).
  eapply list_elem_of_lookup_2, E.
Qed.

(** The theorem applied to two rebuilds of the Android target of the
    project with the leftover [old/f.js], the deletions of the first one
    carried out in between: the application has no resources for
    Android, and the second rebuild stores [undefined]. *)
Lemma second_rebuild_reports_no_native_change_witness :
  ∃ app,
    Source.heap (Examples.source_of Examples.leftover_project)
      !! Source.app (Examples.source_of Examples.leftover_project) = Some app
    ∧ changedNativeProject (Examples.rebuilt_again Examples.leftover_project).1
      = if JsObj.has (Target.platform Examples.android)
             (IPackage.nativeFiles app)
        then JsBool false else JsUndefined.
Proof.
  apply (second_rebuild_reports_no_native_change Examples.android
           (Examples.source_of Examples.leftover_project) Examples.dateString
           (Examples.disk 10 Examples.leftover_project)
           (Examples.rebuilt Examples.leftover_project).2
           (Examples.rebuilt_again Examples.leftover_project).2
           (Examples.rebuilt Examples.leftover_project).1
           (Examples.rebuilt_again Examples.leftover_project).1
           (Examples.first_delta Examples.leftover_project)
           (Examples.the Examples.emptyDelta
              (Target.rebuildDelta Examples.android
                 (Examples.source_of Examples.leftover_project)
                 (Examples.settled Examples.leftover_project)))
           (rev (Examples.first_started Examples.leftover_project)));
    try (vm_compute; reflexivity).
  - intros c Hc. apply list_elem_of_In in Hc. apply in_rev in Hc.
    apply list_elem_of_In. exact Hc.
  - intros c Hc.
    apply (proj1 (Forall_forall
                    (fun c => ¬ Fs.resolve
                                  (Examples.rebuilt Examples.leftover_project).2
                                  (marker Examples.android)
                                `prefix_of`
                                target
                                  (Examples.rebuilt Examples.leftover_project).2
                                  c)
                    (rev (Examples.first_started Examples.leftover_project)
                     ++ Target.awaitedCalls Examples.android
                          (Examples.the Examples.emptyDelta
                             (Target.rebuildDelta Examples.android
                                (Examples.source_of Examples.leftover_project)
                                (Examples.settled Examples.leftover_project))))));
      [|exact Hc].
    vm_compute. repeat constructor; intros [k Hk]; discriminate.
Defined.

Section Settled.

Variable this : Target.t.
Variable source : Source.t.
Variable bd d1 : IDelta.
Variable fs fsA fsW : IFileSystem.
Variable order : list FsCall.

Hypothesis Hplan : plan_wf this bd = true.
Hypothesis Honce : once bd.
Hypothesis Hwf : wf_node (fs_root fs) = true.
Hypothesis Hbd : Target.buildDelta this source = Done bd.
Hypothesis Hmtime : ∀ k f,
  JsObj.get k (copy bd) = Some f → IFile.mtime f ≤ fs_now fs.
Hypothesis Hd1 : Target.rebuildDelta this source fs = Done d1.

(** The calls [applyDelta] waits for lead from [fs] to [fsA]; something
    that leaves everything below [output.app] alone leads on to [fsW];
    then the deletions are carried out. *)
Hypothesis HrunA :
  forEach Target.perform (Target.awaitedCalls this d1) fs = Done fsA.
Hypothesis Hcwd : fs_cwd fsW = fs_cwd fsA.
Hypothesis Hnow : fs_now fsW = fs_now fsA.
Hypothesis Hkind : ∀ ns,
  kindOn fsW (outputBase this fs ++ ns) = kindOn fsA (outputBase this fs ++ ns).
Hypothesis Hperm : order ≡ₚ Target.startedCalls this d1.

#[local] Abbreviation fsS := (Target.carriedOut order fsW).
#[local] Abbreviation P := (Target.projectPath this).
#[local] Abbreviation A := (out_app (Target.output this)).

Lemma order_started c : c ∈ order → c ∈ Target.startedCalls this d1.
Proof. intros Hc. rewrite <- Hperm. exact Hc. Qed.

Lemma order_applyCalls c : c ∈ order → c ∈ Target.applyCalls this d1.
Proof.
  intros Hc. rewrite applyCalls_split. apply elem_of_app. right.
  apply order_started, Hc.
Qed.

Lemma order_run : forEach Target.perform order fsW = Done fsS.
Proof. apply (started_run this d1), order_started. Qed.

Lemma order_no_copy c : c ∈ order → isCopyFile c = true → False.
Proof.
  intros Hc Hcp.
  pose proof (started_deletion this d1 order c order_started Hc) as Hdel.
  destruct c; discriminate.
Qed.

Lemma cwd_fsW : fs_cwd fsW = fs_cwd fs.
Proof. rewrite Hcwd. apply (run_frame _ _ _ HrunA). Qed.

Lemma now_fsW : fs_now fsW = fs_now fs.
Proof. rewrite Hnow. apply (run_frame _ _ _ HrunA). Qed.

Lemma settled_resolve p : Fs.resolve fsS p = Fs.resolve fs p.
Proof.
  unfold Fs.resolve. rewrite (proj1 (run_frame _ _ _ order_run)), cwd_fsW.
  reflexivity.
Qed.

(** Every planned copy is in place and at least as new as its source. *)
Lemma settled_copies k f :
  JsObj.get k (copy bd) = Some f →
  fresh_at fsS (Fs.resolve fs (Path.join P k)) (IFile.mtime f).
Proof.
  intros Hf. pose proof (get_Some_keys _ _ _ Hf) as Hk.
  destruct (copy_key_resolve this bd fs Hplan k Hk) as (ns & _ & _ & Hres).
  pose proof (copies_in_place this source bd d1 fs fsA Hplan Hwf Hbd Hmtime
                Hd1 (Target.awaitedCalls this d1) (awaited_applyCalls this d1)
                (fun c Hc => Hc) HrunA k f Hf) as HA.
  apply (run_keeps_fresh _ _ order fsW fsS order_run).
  - rewrite now_fsW. apply (Hmtime k f Hf).
  - rewrite Hres in HA |- *. unfold fresh_at. rewrite Hkind. exact HA.
  - intros c Hc Hdel. rewrite (target_cwd fs fsW c cwd_fsW).
    apply (deleteFile_misses this source bd d1 fs Hplan Hwf Hbd Hd1 order
             order_applyCalls c k Hc Hdel Hk).
Qed.

(** Every file left below [output.app] is a planned copy. *)
Lemma settled_files ns :
  isKFile (kindOn fsS (outputBase this fs ++ ns)) = true →
  pathOf A ns ∈ JsObj.keys (copy bd).
Proof.
  intros Hfile.
  destruct (decide (pathOf A ns ∈ JsObj.keys (copy bd))) as [Hin|Hnot];
    [exact Hin|].
  exfalso.
  assert (Hgone : isKFile (kindOn fsS (outputBase this fs ++ ns)) = false);
    [|congruence].
  destruct (isKFile (kindOn fs (outputBase this fs ++ ns))) eqn:E0.
  - assert (Hns : Forall (fun n => proper n = true) ns).
    { unfold kindOn, kind_at in E0.
      destruct (Fs.lookup (outputBase this fs ++ ns) (fs_root fs)) as [c|] eqn:El;
        [|discriminate].
      apply (wf_lookup _ _ _ Hwf) in El as [_ Hall].
      apply Forall_app in Hall as [_ Hall]. exact Hall. }
    assert (Hg : JsObj.get (pathOf A ns) (copy bd) = None).
    { apply has_false_get. destruct (JsObj.has _ _) eqn:Eh; [|reflexivity].
      apply has_keys in Eh. contradiction. }
    pose proof (rebuild_rmfile_add this source bd fs Hplan Hwf Hbd d1 Hd1 ns E0 Hg)
      as Hrm.
    apply (startedCalls_rmfile this) in Hrm. rewrite <- Hperm in Hrm.
    destruct (run_split _ _ _ _ order_run Hrm)
      as (l1 & l2 & fa & fb & Hcs & _ & He & H2 & Hca & Hna & Hcb & Hnb).
    apply (run_keeps_nofile _ l2 fb fsS H2).
    + destruct He as (_ & _ & _ & He & _). cbn [target] in He.
      unfold Fs.resolve in He. rewrite Hca, cwd_fsW in He.
      change (if Path.isAbsolute ?p then _ else _) with (Fs.resolve fs p) in He.
      rewrite (resolve_listed this bd Hplan fs ns Hns) in He.
      apply He. unfold outputBase. intros H. apply app_eq_nil in H as [H _].
      apply app_eq_nil in H as [_ H]. exact (split_nonempty _ H).
    + intros c Hcin Hcp. exfalso. apply (order_no_copy c); [|exact Hcp].
      rewrite Hcs. apply elem_of_app. right. apply list_elem_of_further, Hcin.
  - apply (run_keeps_nofile _ order fsW fsS order_run).
    + rewrite Hkind.
      apply (run_keeps_nofile _ _ fs fsA HrunA E0).
      intros c Hc Hcp.
      apply (copyFile_misses this source bd d1 fs Hplan Honce Hwf Hbd Hd1
               (Target.awaitedCalls this d1) (awaited_applyCalls this d1)
               c ns Hc Hcp Hnot).
    + intros c Hc Hcp. exfalso. exact (order_no_copy c Hc Hcp).
Qed.

End Settled.

(** X11: A rebuild that follows a rebuild reports no changed scripts.  Under
    the conditions of the idempotence of [rebuildDelta()] (a normalized
    plan and a well-formed disk whose clock is not before any planned
    source file), and when the file [<output.root>/project] does not lie
    in [output.app]: once the first rebuild has returned and the
    deletions it started have been carried out, in whatever order,
    [changedScripts] is [false] the second time. *)
Theorem second_rebuild_reports_no_script_change
    (this : Target.t) (source : Source.t) (bd d1 : IDelta)
    (dateString : Z → string)
    (fs fs1 fs2 : IFileSystem) (r1 r2 : IProjectBuildResult)
    (order : list FsCall) :
  Target.buildDelta this source = Done bd →
  plan_wf this bd = true →
  wf_node (fs_root fs) = true →
  sources_not_after fs bd = true →
  ¬ outputBase this fs `prefix_of` Fs.resolve fs (marker this) →
  Target.rebuildDelta this source fs = Done d1 →
  Target.rebuild this source dateString fs = Done (r1, fs1) →
  order ≡ₚ Target.startedCalls this d1 →
  Target.rebuild this source dateString (Target.carriedOut order fs1)
  = Done (r2, fs2) →
  changedScripts r2 = false.
Proof.
  intros Hbd Hplan Hwf Hsrc Hout Hd1 H1 Hperm H2.
  pose proof (buildDelta_once this source bd Hbd) as Honce.
  pose proof (fun k f => sources_not_after_get fs bd k f Hsrc) as Hmtime.
  unfold Target.rebuild in H1. rewrite Hd1 in H1.
  cbn [mbind result_bind] in H1.
  destruct (Target.applyDelta this d1 fs) as [[c1 fsA]| |] eqn:EA;
    try discriminate.
  cbn [mbind result_bind] in H1.
  match type of H1 with
  | mbind _ ?m = _ => destruct m as [h1| |]; try discriminate
  end.
  cbn [mbind result_bind] in H1.
  fold (marker this) in H1.
  destruct (Fs.writeFile fsA (marker this) _) as [fsW| |] eqn:EW;
    try discriminate.
  cbn [mbind result_bind] in H1. injection H1 as _ <-.
  pose proof (applyDelta_awaited _ _ _ _ _ EA) as HrunA.
  destruct (writeFile_stat _ _ _ _ EW) as (_ & Hcwd & Hnow).
  assert (HresA : ∀ q, Fs.resolve fsA q = Fs.resolve fs q).
  { intros q. unfold Fs.resolve.
    rewrite (proj1 (run_frame _ _ _ HrunA)). reflexivity. }
  assert (Hkind : ∀ ns, kindOn fsW (outputBase this fs ++ ns)
                        = kindOn fsA (outputBase this fs ++ ns)).
  { intros ns. apply (writeFile_kind_other _ _ _ _ EW).
    rewrite HresA. intros Hpre. apply Hout.
    eapply prefix_app_l, Hpre. }
  pose proof (order_run this d1 fsW order Hperm) as HrunS.
  pose proof (settled_resolve this d1 fs fsA fsW order HrunA Hcwd Hperm)
    as HresS.
  set (fsS := Target.carriedOut order fsW) in *.
  assert (HwfS : wf_node (fs_root fsS) = true).
  { apply (run_wf _ _ _ HrunS), (writeFile_wf _ _ _ _ EW),
      (run_wf _ _ _ HrunA Hwf). }
  unfold Target.rebuild in H2.
  destruct (Target.rebuildDelta this source fsS) as [d2| |] eqn:Hd2;
    try discriminate.
  cbn [mbind result_bind] in H2.
  unfold Target.applyDelta in H2.
  destruct (forEach Target.perform (Target.awaitedCalls this d2) fsS)
    as [fsB| |]; try discriminate.
  cbn [mbind result_bind] in H2.
  match type of H2 with
  | mbind _ ?m = _ => destruct m as [h2| |]; try discriminate
  end.
  cbn [mbind result_bind] in H2.
  destruct (Fs.writeFile fsB _ _) as [fsC| |]; try discriminate.
  cbn [mbind result_bind] in H2. injection H2 as <- _.
  cbn [changedScripts].
  assert (Hcopy : copy d2 = []).
  { destruct (copy d2) as [|[k f] rest] eqn:E; [reflexivity|]. exfalso.
    assert (Hk : k ∈ JsObj.keys (copy d2)).
    { rewrite E. apply list_elem_of_here. }
    destruct (rebuild_copy_sub this source bd fsS Hplan Honce HwfS Hbd
                d2 Hd2 k Hk) as (f' & Hf' & Hlt).
    destruct (settled_copies this source bd d1 fs fsA fsW order Hplan Hwf Hbd
                Hmtime Hd1 HrunA Hcwd Hnow Hkind Hperm k f' Hf')
      as (m & Hm & Hle).
    rewrite HresS in Hlt. specialize (Hlt m Hm). lia. }
  assert (Hrm : rmfile d2 = []).
  { destruct (rmfile d2) as [|[k b] rest] eqn:E; [reflexivity|]. exfalso.
    assert (Hk : k ∈ JsObj.keys (rmfile d2)).
    { rewrite E. apply list_elem_of_here. }
    destruct (rebuild_rmfile_sub this source bd fsS Hplan HwfS Hbd
                d2 Hd2 k Hk) as (Hg & ns & -> & Hns & Hfile).
    replace (outputBase this fsS) with (outputBase this fs) in Hfile
      by (unfold outputBase; rewrite HresS; reflexivity).
    apply (settled_files this source bd d1 fs fsA fsW order Hplan Honce Hwf
             Hbd Hd1 HrunA Hcwd Hkind Hperm), has_keys in Hfile.
    apply has_false_get in Hg. congruence. }
  rewrite Hcopy, Hrm. reflexivity.
Qed.

(** The theorem applied to two rebuilds of the Android target of the
    project with the leftover [old/f.js], the deletions of the first one
    carried out in the order opposite to the one they were started
    in. *)
Lemma second_rebuild_reports_no_script_change_witness :
  changedScripts (Examples.rebuilt_again Examples.leftover_project).1 = false.
Proof.
  apply (second_rebuild_reports_no_script_change Examples.android
           (Examples.source_of Examples.leftover_project)
           (Examples.the Examples.emptyDelta
              (Target.buildDelta Examples.android
                 (Examples.source_of Examples.leftover_project)))
           (Examples.first_delta Examples.leftover_project)
           Examples.dateString
           (Examples.disk 10 Examples.leftover_project)
           (Examples.rebuilt Examples.leftover_project).2
           (Examples.rebuilt_again Examples.leftover_project).2
           (Examples.rebuilt Examples.leftover_project).1
           (Examples.rebuilt_again Examples.leftover_project).1
           (rev (Examples.first_started Examples.leftover_project)));
    try (vm_compute; reflexivity).
  - vm_compute. intros [k Hk]. discriminate.
  - symmetry. apply Permutation_rev.
Defined.

(** ** The scripts [listAppScriptFiles] records *)

Section AppScripts.

Variable projectPath : string.

(** Two paths that agree up to a first separator. *)
Lemma first_name b : ∀ a x y,
  noslash b = true →
  a +:+ "/" +:+ x = b +:+ "/" +:+ y →
  a = b ∨ ∃ a', a = b +:+ "/" +:+ a'.
Proof.
  induction b as [|c b IH]; intros a x y Hb H.
  - destruct a as [|c' a]; [left; reflexivity|].
    rewrite append_cons, append_nil_l, append_cons in H.
    injection H as -> _. right. exists a.
    rewrite append_nil_l, append_cons, append_nil_l. reflexivity.
  - cbn [noslash] in Hb. apply andb_true_iff in Hb as [Hc Hb].
    destruct a as [|c' a].
    + rewrite append_nil_l, !append_cons in H. injection H as <- _.
      discriminate Hc.
    + rewrite !append_cons in H. injection H as -> H.
      destruct (IH a x y Hb H) as [->|(a' & ->)]; [left; reflexivity|].
      right. exists a'. rewrite append_cons. reflexivity.
Qed.

Lemma noslash_append a b : noslash (a +:+ b) = noslash a && noslash b.
Proof.
  induction a as [|c a IH]; [reflexivity|].
  rewrite append_cons. cbn [noslash]. rewrite IH, andb_assoc. reflexivity.
Qed.

Lemma walked_below dir name :
  walked dir → below "app" (dir +:+ Path.sep +:+ name).
Proof.
  intros [->|[(r & ->) _]].
  - exists name. reflexivity.
  - exists (r +:+ "/" +:+ name). rewrite !append_assoc. reflexivity.
Qed.

Lemma walked_clear dir name :
  walked dir → noslash name = true →
  ¬ below "app/App_Resources" (dir +:+ Path.sep +:+ name).
Proof.
  intros Hd Hn (rest & H). destruct Hd as [->|[(r & ->) [Hnb Hne]]].
  - change ("app" +:+ Path.sep +:+ name) with ("app/" +:+ name) in H.
    change ("app/App_Resources" +:+ "/" +:+ rest)
      with ("app/" +:+ ("App_Resources/" +:+ rest)) in H.
    rewrite !append_cons, !append_nil_l in H.
    injection H as ->. cbn in Hn. discriminate Hn.
  - change ("app/App_Resources" +:+ "/" +:+ rest)
      with ("app/" +:+ ("App_Resources" +:+ "/" +:+ rest)) in H.
    change (("app" +:+ "/" +:+ r) +:+ Path.sep +:+ name)
      with (("app/" +:+ r) +:+ "/" +:+ name) in H.
    rewrite append_assoc in H.
    rewrite !append_cons, !append_nil_l in H.
    repeat (injection H as H).
    destruct (first_name "App_Resources" r name rest eq_refl H)
      as [->|(a' & ->)].
    + apply Hne. reflexivity.
    + apply Hnb. exists a'.
      change ("app/App_Resources" +:+ "/" +:+ a')
        with ("app/" +:+ ("App_Resources" +:+ "/" +:+ a')).
      change ("app" +:+ "/" +:+ "App_Resources" +:+ "/" +:+ a')
        with ("app/" +:+ ("App_Resources" +:+ "/" +:+ a')).
      reflexivity.
Qed.

Variable a : IPackage.t.
Variable app : nat.

#[local] Abbreviation listed := (listed_from projectPath a app).

Lemma listed_push_directory d this :
  listed this → listed (Source.update app (IPackage.push_directory d) this).
Proof.
  intros [Happ H]. split; [exact Happ|].
  intros a' Ha'.
  apply heap_update_inv in Ha' as [[_ (p & Hp & ->)]|[Hne _]];
    [|contradiction].
  exact (H p Hp).
Qed.

Lemma listed_push_scriptFile file this :
  listed this → app_script projectPath file →
  listed (Source.update app (IPackage.push_scriptFile file) this).
Proof.
  intros [Happ H] Hfile. split; [exact Happ|].
  intros a' Ha'.
  apply heap_update_inv in Ha' as [[_ (p & Hp & ->)]|[Hne _]];
    [|contradiction].
  intros f Hf. cbn [IPackage.push_scriptFile IPackage.scriptFiles] in Hf.
  apply elem_of_app in Hf as [Hf|Hf]; [exact (H p Hp f Hf)|].
  apply list_elem_of_singleton in Hf as ->. right. exact Hfile.
Qed.

Lemma listAppFiles_listed n : ∀ dir this this',
  wf_node n = true → walked dir → listed this →
  Source.listAppFiles projectPath n dir this = Done this' →
  listed this'.
Proof.
  induction n as [st c|st es IH] using node_ind; intros dir this this' Hw Hd Hl H;
    [discriminate|].
  cbn [Source.listAppFiles] in H.
  apply wf_dir in Hw as [Hes _].
  revert this Hl H.
  induction es as [|[name child] es IHes]; intros this Hl H.
  - injection H as <-. exact Hl.
  - apply Forall_cons in IH as [IHc IHrest].
    apply Forall_cons in Hes as [[Hname Hchild] Hes].
    cbn [fst snd] in Hname, Hchild, IHc.
    cbn [Source.appLoop] in H.
    destruct (bool_decide _) eqn:Eign in H; [exact (IHes IHrest Hes this Hl H)|].
    apply bool_decide_eq_false in Eign.
    destruct (isDirectory child).
    + destruct Hl as [Happ Hl'].
      rewrite Happ in H.
      match type of H with
      | mbind _ ?m = _ => destruct m as [this1| |] eqn:E1; try discriminate
      end.
      cbn [mbind result_bind] in H.
      apply (IHes IHrest Hes this1); [|exact H].
      apply (IHc _ _ _ Hchild) in E1; [exact E1| |].
      * right. split; [apply walked_below, Hd|].
        split; [apply walked_clear; [exact Hd|apply proper_noslash, Hname]|].
        intros Heq. apply Eign. rewrite Heq. apply list_elem_of_here.
      * apply listed_push_directory. split; assumption.
    + destruct Hl as [Happ Hl'].
      rewrite Happ in H.
      eapply (IHes IHrest Hes); [|exact H].
      apply listed_push_scriptFile; [split; assumption|].
      split; [apply walked_below, Hd|].
      split; [apply walked_clear; [exact Hd|apply proper_noslash, Hname]|].
      reflexivity.
Qed.

End AppScripts.

(** X3: [listAppScriptFiles()] adds to the scripts of the application only
    files that lie below [app] and not below [app/App_Resources], each
    with the absolute path of the project joined with its path. *)
Theorem app_scripts_skip_resources
    (projectPath : string) (fs : IFileSystem) (this this' : Source.t)
    (a a' : IPackage.t) (f : IFile.t) :
  wf_node (fs_root fs) = true →
  Source.listAppScriptFiles projectPath fs this = Done this' →
  Source.heap this !! Source.app this = Some a →
  Source.heap this' !! Source.app this' = Some a' →
  f ∈ IPackage.scriptFiles a' →
  f ∈ IPackage.scriptFiles a ∨ app_script projectPath f.
Proof.
  intros Hw H Ha Ha' Hf.
  assert (Hl : listed_from projectPath a (Source.app this) this).
  { split; [reflexivity|]. intros a0 Ha0. rewrite Ha in Ha0.
    injection Ha0 as <-. intros f0 Hf0. left. exact Hf0. }
  assert (Hl' : listed_from projectPath a (Source.app this) this').
  { unfold Source.listAppScriptFiles in H.
    destruct (Fs.stat fs (Path.join projectPath "app")) as [n|] eqn:En.
    - apply (listAppFiles_listed projectPath a (Source.app this) n "app" _ _)
        in H; [exact H| | |].
      + exact (proj1 (wf_lookup _ _ _ Hw En)).
      + left. reflexivity.
      + apply listed_push_directory, Hl.
    - injection H as <-. exact Hl. }
  destruct Hl' as [Happ Hl']. rewrite Happ in Ha'.
  exact (Hl' a' Ha' f Hf).
Qed.

(** The theorem applied to the prepared project, whose [app] holds
    [main.js] and the directory [App_Resources]: the one script recorded
    is [app/main.js]. *)
Lemma app_scripts_skip_resources_witness :
  app_script Examples.projectPath
    (IFile.mk "app/main.js" "/proj/app/main.js" "main.js" ".js" 1).
Proof.
  destruct (app_scripts_skip_resources Examples.projectPath
              (Examples.disk 10 Examples.prepared_project)
              (Source.mk 0 [Source.initialApp] JsObj.empty ["ios"; "android"])
              (Examples.the (Source.mk 0 [] [] [])
                 (Source.listAppScriptFiles Examples.projectPath
                    (Examples.disk 10 Examples.prepared_project)
                    (Source.mk 0 [Source.initialApp] JsObj.empty
                       ["ios"; "android"])))
              Source.initialApp
              (default Source.initialApp
                 (Source.heap
                    (Examples.the (Source.mk 0 [] [] [])
                       (Source.listAppScriptFiles Examples.projectPath
                          (Examples.disk 10 Examples.prepared_project)
                          (Source.mk 0 [Source.initialApp] JsObj.empty
                             ["ios"; "android"]))) !! 0%nat))
              (IFile.mk "app/main.js" "/proj/app/main.js" "main.js" ".js" 1))
    as [Hold|Hnew].
  - vm_compute. reflexivity.
  - vm_compute. reflexivity.
  - vm_compute. reflexivity.
  - vm_compute. reflexivity.
  - vm_compute. apply list_elem_of_here.
  - vm_compute in Hold. inversion Hold.
  - exact Hnew.
Defined.

(** ** [partialSync]: what the digests remember *)

Section Watcher.

Variable APP_RESOURCES_FOLDER_NAME : string.
Variable shasum : content → string.
Variable minimatch : string → string → bool.
Variable removeFails : string → bool.
Variable liveSyncData : ILiveSyncData.

#[local] Abbreviation partialSync :=
  (PartialSync.partialSync APP_RESOURCES_FOLDER_NAME shasum minimatch
     removeFails liveSyncData).
#[local] Abbreviation excluded :=
  (fun filePath =>
     PartialSync.isFileExcluded minimatch filePath
       (ls_excludedProjectDirsAndFiles liveSyncData)).

(** What a call leaves in [fileHashes] for its file, unless it handled a
    removal. *)
Lemma partialSync_records fs event filePath this :
  Js.includes filePath APP_RESOURCES_FOLDER_NAME = false →
  event ≠ "unlink" ∨ excluded filePath = true →
  PartialSync.fileHashes (partialSync fs event filePath this).1 !! filePath
  = Some (PartialSync.fileHashOf shasum fs filePath).
Proof.
  intros Hinc Hev. unfold PartialSync.partialSync. rewrite Hinc.
  destruct (bool_decide _) eqn:Eh.
  { apply bool_decide_eq_true in Eh. exact Eh. }
  destruct (PartialSync.isFileExcluded _ _ _) eqn:Ex.
  { cbn. apply lookup_insert_eq. }
  destruct (String.eqb event "add" || String.eqb event "change").
  { cbn. apply lookup_insert_eq. }
  destruct (String.eqb_spec event "unlink") as [->|_].
  { destruct Hev as [Hev|Hev]; [contradiction|cbn beta in Hev; congruence]. }
  cbn. apply lookup_insert_eq.
Qed.

End Watcher.

(** X26: A notification for a file is passed over when [partialSync] has
    already handled one for it, for an event other than a removal (or for
    an excluded file, or for a file of the resources), and the file still
    has the same digest: nothing is handed to [batchSync] or
    [syncRemovedFile] and [fileHashes] is left as it is. *)
Theorem partialSync_repeat_is_skipped
    (APP_RESOURCES_FOLDER_NAME : string) (shasum : content → string)
    (minimatch : string → string → bool) (removeFails : string → bool)
    (liveSyncData : ILiveSyncData)
    (fs fs' : IFileSystem) (event event' filePath : string)
    (this : PartialSync.t) :
  event ≠ "unlink"
  ∨ PartialSync.isFileExcluded minimatch filePath
      (ls_excludedProjectDirsAndFiles liveSyncData) = true
  ∨ Js.includes filePath APP_RESOURCES_FOLDER_NAME = true →
  PartialSync.fileHashOf shasum fs' filePath
  = PartialSync.fileHashOf shasum fs filePath →
  PartialSync.partialSync APP_RESOURCES_FOLDER_NAME shasum minimatch
    removeFails liveSyncData fs' event' filePath
    (PartialSync.partialSync APP_RESOURCES_FOLDER_NAME shasum minimatch
       removeFails liveSyncData fs event filePath this).1
  = ((PartialSync.partialSync APP_RESOURCES_FOLDER_NAME shasum minimatch
        removeFails liveSyncData fs event filePath this).1,
     Done tt).
Proof.
  intros Hev Hhash.
  destruct (Js.includes filePath APP_RESOURCES_FOLDER_NAME) eqn:Hinc.
  { unfold PartialSync.partialSync. rewrite Hinc. reflexivity. }
  assert (Hev' : event ≠ "unlink"
                 ∨ PartialSync.isFileExcluded minimatch filePath
                     (ls_excludedProjectDirsAndFiles liveSyncData) = true).
  { destruct Hev as [H|[H|H]]; [left; exact H|right; exact H|discriminate]. }
  pose proof (partialSync_records APP_RESOURCES_FOLDER_NAME shasum minimatch
                removeFails liveSyncData fs event filePath this Hinc Hev')
    as Hrec.
  unfold PartialSync.partialSync at 1. rewrite Hinc, Hhash.
  rewrite bool_decide_eq_true_2 by exact Hrec. reflexivity.
Qed.

(** The theorem applied to two [change] notifications for [page.js] of the
    live-sync project: the second leaves the watcher as the first did, with
    one file handed to [batchSync]. *)
Lemma partialSync_repeat_is_skipped_witness :
  Examples.watch (Examples.disk 10 Examples.livesync_project) "change"
    "/proj/app/page.js"
    (Examples.watch (Examples.disk 10 Examples.livesync_project) "change"
       "/proj/app/page.js" Examples.idle).1
  = ((Examples.watch (Examples.disk 10 Examples.livesync_project) "change"
        "/proj/app/page.js" Examples.idle).1,
     Done tt).
Proof.
  apply (partialSync_repeat_is_skipped "App_Resources" Examples.digest
           String.eqb (fun _ => false)).
  - left. discriminate.
  - reflexivity.
Defined.

(** X27: A removal makes [partialSync] forget the file: after an [unlink]
    notification that was not passed over, the file has no entry in
    [fileHashes], it has been handed to [syncRemovedFile], and a later
    [add] or [change] notification for it is handed to [batchSync]
    whatever the file holds then. *)
Theorem partialSync_unlink_forgets
    (APP_RESOURCES_FOLDER_NAME : string) (shasum : content → string)
    (minimatch : string → string → bool) (removeFails : string → bool)
    (liveSyncData : ILiveSyncData)
    (fs fs' : IFileSystem) (event' filePath : string)
    (this : PartialSync.t) :
  Js.includes filePath APP_RESOURCES_FOLDER_NAME = false →
  PartialSync.isFileExcluded minimatch filePath
    (ls_excludedProjectDirsAndFiles liveSyncData) = false →
  PartialSync.fileHashes this !! filePath
  ≠ Some (PartialSync.fileHashOf shasum fs filePath) →
  event' = "add" ∨ event' = "change" →
  let this1 :=
    (PartialSync.partialSync APP_RESOURCES_FOLDER_NAME shasum minimatch
       removeFails liveSyncData fs "unlink" filePath this).1 in
  PartialSync.fileHashes this1 !! filePath = None
  ∧ PartialSync.removed this1 = PartialSync.removed this ++ [filePath]
  ∧ PartialSync.batched
      (PartialSync.partialSync APP_RESOURCES_FOLDER_NAME shasum minimatch
         removeFails liveSyncData fs' event' filePath this1).1
    = PartialSync.batched this ++ [filePath].
Proof.
  intros Hinc Hex Hnew Hev. cbn zeta.
  unfold PartialSync.partialSync at 1 2 4. rewrite Hinc.
  rewrite bool_decide_eq_false_2 by exact Hnew. rewrite Hex.
  cbn [String.eqb Ascii.eqb Bool.eqb orb fst PartialSync.fileHashes
       PartialSync.removed PartialSync.batched].
  split; [apply lookup_delete_eq|]. split; [reflexivity|].
  unfold PartialSync.partialSync. rewrite Hinc.
  cbn [PartialSync.fileHashes].
  rewrite bool_decide_eq_false_2
    by (rewrite lookup_delete_eq; discriminate).
  rewrite Hex.
  destruct Hev as [->| ->]; reflexivity.
Qed.

(** The theorem applied to [page.js] of the live-sync project, removed
    and added again. *)
Lemma partialSync_unlink_forgets_witness :
  PartialSync.fileHashes
    (Examples.watch (Examples.disk 10 Examples.livesync_project) "unlink"
       "/proj/app/gone.js" Examples.idle).1 !! "/proj/app/gone.js" = None
  ∧ PartialSync.removed
      (Examples.watch (Examples.disk 10 Examples.livesync_project) "unlink"
         "/proj/app/gone.js" Examples.idle).1
    = [] ++ ["/proj/app/gone.js"]
  ∧ PartialSync.batched
      (Examples.watch (Examples.disk 10 Examples.livesync_project) "add"
         "/proj/app/gone.js"
         (Examples.watch (Examples.disk 10 Examples.livesync_project) "unlink"
            "/proj/app/gone.js" Examples.idle).1).1
    = [] ++ ["/proj/app/gone.js"].
Proof.
  apply (partialSync_unlink_forgets "App_Resources" Examples.digest
           String.eqb (fun _ => false)
           (mkLiveSyncData "android" "org.example.app"
              "/proj/platforms/android/app" ["/proj/app/page.tmp"])
           (Examples.disk 10 Examples.livesync_project)
           (Examples.disk 10 Examples.livesync_project)
           "add" "/proj/app/gone.js" Examples.idle).
  - reflexivity.
  - reflexivity.
  - vm_compute. discriminate.
  - left. reflexivity.
Defined.

(** ** Edge behaviour of [Project.rebuild] and [listAppNativeFiles] *)

(** X28: [Project.rebuild(platform)] never reports a change for a platform
    other than ["ios"]: whenever it returns, both [changedNativeProject]
    and [changedScripts] are [false]; and for a platform that is neither
    ["ios"] nor ["android"] it leaves the file system as it was. *)
Theorem rebuild_reports_changes_for_ios_only
    (semver_gt : option string → option string → result bool)
    (dateString : Z → string) (fuel : nat) (path platform : string)
    (fs fs' : IFileSystem) (r : IProjectBuildResult) :
  platform ≠ "ios" →
  Project.rebuild semver_gt dateString fuel path platform fs = Done (r, fs') →
  r = mkBuildResult false false ∧ (platform ≠ "android" → fs' = fs).
Proof.
  intros Hios H. unfold Project.rebuild, Project.rebuildTargets in H.
  destruct (Source.create semver_gt path fs fuel ["ios"; "android"])
    as [source| |]; try discriminate.
  cbn [mbind result_bind] in H.
  destruct (String.eqb_spec platform "ios") as [->|_]; [contradiction|].
  destruct (String.eqb_spec platform "android") as [->|Hand].
  - destruct (Target.rebuild _ _ _ _) as [[android fs1]| |]; try discriminate.
    cbn [mbind result_bind] in H. injection H as <- _.
    split; [reflexivity|]. intros Hne. contradiction.
  - cbn [mbind result_bind] in H. injection H as <- <-.
    split; reflexivity.
Qed.

(** The theorem applied to [Project.rebuild("android")] on scenario S1. *)
Lemma rebuild_reports_changes_for_ios_only_witness :
  (Examples.the (mkBuildResult true true, Examples.s1_disk)
     (Project.rebuild Semver.gt Examples.dateString 10 Examples.projectPath
        "android" Examples.s1_disk)).1
  = mkBuildResult false false.
Proof.
  apply (rebuild_reports_changes_for_ios_only Semver.gt Examples.dateString 10
           Examples.projectPath "android" Examples.s1_disk
           (Examples.the (mkBuildResult true true, Examples.s1_disk)
              (Project.rebuild Semver.gt Examples.dateString 10
                 Examples.projectPath "android" Examples.s1_disk)).2).
  - discriminate.
  - vm_compute. reflexivity.
Defined.

(** X29: [listAppNativeFiles()] checks for the resources of a platform below
    the path of the project but reads the directory at the relative path
    [app/App_Resources/<platform>]: when the resources of the first
    platform exist in the project and that relative path is not a
    directory from the working directory, the call raises. *)
Theorem app_native_files_read_from_cwd
    (projectPath : string) (fs : IFileSystem) (this : Source.t)
    (platform : string) (rest : list string) :
  Source.platforms this = platform :: rest →
  Fs.exists_ fs
    (Path.join projectPath
       (Path.join (Path.join "app" "App_Resources") platform)) = true →
  (∀ st es,
     Fs.stat fs (Path.join (Path.join "app" "App_Resources") platform)
     ≠ Some (NDir st es)) →
  Source.listAppNativeFiles projectPath fs this = Threw.
Proof.
  intros Hp Hex Hdir. unfold Source.listAppNativeFiles. rewrite Hp.
  cbn [forEach]. rewrite Hex.
  unfold Source.listAppNativeFilesForPlatform, Fs.readDirectory.
  destruct (Fs.stat fs (Path.join (Path.join "app" "App_Resources") platform))
    as [[st c|st es]|] eqn:E; try reflexivity.
  exfalso. exact (Hdir st es eq_refl).
Qed.

(** The theorem applied to a project with resources for iOS, read from the
    root directory. *)
Lemma app_native_files_read_from_cwd_witness :
  Source.listAppNativeFiles Examples.projectPath Examples.away_disk
    (Source.mk 0 [Source.initialApp] JsObj.empty ["ios"; "android"])
  = Threw.
Proof.
  apply (app_native_files_read_from_cwd Examples.projectPath Examples.away_disk
           (Source.mk 0 [Source.initialApp] JsObj.empty ["ios"; "android"])
           "ios" ["android"]).
  - reflexivity.
  - vm_compute. reflexivity.
  - intros st es H. vm_compute in H. discriminate.
Defined.
